(* ===== verification/_CoqProject ===== *)
-Q . S2P
Prelude.v
Numbers.v
Externals.v
Fixed.v
Types.v
Engine.v
EngineProps.v
Valkey.v
Codec.v
Book.v
BookProps.v
MatchLua.v
MatchLuaProps.v
MatchLuaReply.v
MatchBounds.v
MatchLuaExamples.v
Refine.v
Balance.v
Snapshot.v
Cas.v
Lock.v
Streams.v
Metrics.v
Json.v
Db.v
Persist.v
PersistProps.v
Views.v
Ws.v
OrderFlow.v
OrderFlowProps.v
OrderFlowExamples.v
Cancel.v
Consumers.v
ConsumersProps.v
Gateway.v
GatewayProps.v
Sockets.v
SocketsProps.v
Background.v
BackgroundProps.v
Pipeline.v
Rows.v
System.v
Dispatch.v
Router.v
RouterProps.v
LoadTest.v
LoadTestProps.v
Faults.v
FaultsProps.v
Market.v
Tasks.v
Traffic.v
Crashes.v
Outages.v
