(* ===== verification/Prelude.v ===== *)
(** * A verification library for the serverless matching engine

    ** The program

    A crypto exchange in Rust.  The gateway ([crates/gateway]) answers REST and
    WebSocket clients; it takes an order and either processes it inline
    ([gateway/src/worker.rs]) or pushes it to a Valkey list.  The worker
    ([crates/api]) consumes these lists, validates an order, matches it with one
    atomic Lua script ([crates/shared/src/lua/match_order.lua], called from
    [shared/src/cache.rs]) against the order book kept in Valkey, and hands a job
    to a persistence loop that settles the trades in PostgreSQL in batches
    ([api/src/routes.rs]).  Views of the books, trades, tickers, portfolios and
    metrics are JSON documents in Valkey, published on a channel the gateway
    subscribes to and fans out to its clients.  [crates/ws-handler] keeps the
    subscriptions of a serverless WebSocket endpoint in Valkey sets.
    [crates/shared] also has an in-memory matching engine, a distributed lock,
    a compare-and-swap of the book, streams and metrics.

    ** The model

    Every component is a shallow embedding: a function of the state it reads, with
    the state returned.  [anyhow::Result] is [result] (this file).  Five classes
    stand for code that is not in the repository, each with its documented laws
    and a reference instance that shows the laws can hold:
    - [Externals.Crates], [CratesLaws]: rust_decimal, uuid and chrono;
    - [Valkey.Valkey], [ValkeyLaws]: the server's commands, specified by their
      effect on the finite maps of [Valkey.kv];
    - [Json.SerdeJson], [SerdeJsonLaws]: serde_json's printer and parser;
    - [Db.Sqlx], [SqlxLaws]: NUMERIC and TIMESTAMPTZ columns;
    - [Router.Axum], [AxumLaws]: the choice of the handler of a request.
    The tables are finite maps ([Db.db]) and each SQL statement is its effect on
    them.  i64, u64 and f64 arithmetic is written out ([Numbers]): wrap-around,
    rounding to 53 bits, Lua's "%.14g".

    ** Files and what they model

    - [Prelude]: the result monad, strings, lists, sums, tactics.
    - [Numbers], [Externals], [Fixed]: machine numbers, the crates' interfaces,
      decimal_to_i64 and i64_to_decimal (cache.rs).
    - [Types]: the enums, [Order], [Trade], [PairConfig] (types.rs).
    - [Engine], [EngineProps]: match_order (engine.rs).
    - [Valkey], [Codec], [Book], [BookProps]: the store, the hash encoding of an
      order, the book's operations (cache.rs).
    - [MatchLua], [MatchLuaProps], [MatchLuaReply], [MatchBounds],
      [MatchLuaExamples]: the Lua script statement by statement, its caller, the
      parsing of its reply, and bounds on any answer whatever the store holds.
    - [Refine]: the script against the in-memory engine: a simulation between
      the two loops, and its consequence for the caller of the script.
    - [Balance], [Snapshot], [Cas], [Lock], [Streams], [Metrics]: the other scripts
      and modules of the shared crate.
    - [Json], [Db], [Persist], [PersistProps]: documents, statements, persist_order
      of the gateway, the jobs and batches of the worker.
    - [Views], [Ws]: cached documents, WebSocket subscriptions.
    - [OrderFlow], [OrderFlowProps], [OrderFlowExamples]: process_order of the
      gateway and process_queued_order of the worker.
    - [Cancel]: process_cancellation.
    - [Consumers], [ConsumersProps]: the eight queue consumers as transition
      functions and the persistence loop (api/src/worker.rs, routes.rs).
    - [Gateway], [GatewayProps]: caches, routes, administration, cold start.
    - [Sockets], [SocketsProps]: the streaming endpoints of the gateway.
    - [Background], [BackgroundProps]: debouncer, metrics documents, seed, start of
      the process (api/src/main.rs).
    - [Pipeline]: gateway and consumers composed.
    - [Rows]: what a batch does to each order row, and the type of the rows.
    - [System]: the worker, the gateway's inline processing and the administration
      as steps on one process; invariants of every reachable database.
    - [Dispatch]: the gateway's inline processing against the worker's queue and
      persistence, compared up to equivalences the statements respect.
    - [Router], [RouterProps]: the gateway as a service (gateway/src/lib.rs): route
      table, arguments of the handlers, administration endpoint, one request as one
      transition; the whole exchange as requests interleaved with the worker.
    - [LoadTest], [LoadTestProps]: the load test (tools/loadtest): command line,
      orders, counters, levels and scenarios; composed with gateway and worker.
    - [Faults], [FaultsProps]: the operations of gateway and worker exchange by
      exchange, over connections that may break before, during or after a command.
    - [Crashes]: the consumers over such connections and in a process that dies.
    - [Outages]: every operation over such connections, interleaved with the death
      and the start of the processes.
    - [Market]: the abstract market of a pair, two sorted lists and a version moved
      by match_order, and the script as its transition.
    - [Tasks], [Traffic]: orders and cancellations as tasks that stop at every
      exchange, any number of them at once, against the market.

    ** What the theorems show

    - Matching: quantities are conserved, trades are at prices both sides accept,
      price-time priority, fill-or-kill, self-trade prevention, in both engines;
      the script's reply is read back exactly; what rests is what is left.  On a
      book both hold the engine and the script agree on trades, status and book;
      [Refine] names what they disagree on: fill-or-kill, market orders that may
      rest, and the remainder of a taker cancelled by self-trade prevention.
    - Money: locks are all or nothing; settlement of trades whose users have locked
      what they take (a market buy locks nothing) conserves every asset and equals
      trade-by-trade settlement; a cancelled order gets back its price times its
      remainder, on pairs quoted in USDT; a batch of one job equals the job on its own;
      persistence touches exactly the rows it should;
      a failure leaves the database as it was.
    - Messages: a request is read back as it was asked; each queued message is
      processed exactly once and none is stuck, under every interleaving; an
      accepted order of a served pair is processed.
    - Stores: the book that is loaded is sorted; snapshots aggregate and parse
      back; subscriptions stay consistent; the lock is exclusive while it lives;
      sockets and event streams send what is meant for them, in order;
      rows keep their type in every reachable database.
    - The system: in every reachable state an order row's remainder lies between
      zero and the quantity its message asked for; rows and trades are kept; the
      two dispatch modes leave the same rows, balances and book.  The first of
      these holds for every request clients and administrators may send (their own
      SQL apart); order rows stay until an administrator empties the table, trades
      through that too; the modes are compared on orders that are new, no warm-up
      orders, and whose balance rows exist; and each kind of request changes only what it names.
    - The script as a market: a sequence of orders through match_order_lua is the same
      sequence through match_order, Valkey representing the market in between, for
      orders both treat alike (immediate-or-cancel or good-till-cancelled limit orders,
      amounts exact below 10^14 units, self-trade prevention all or none per user;
      a good-till-cancelled market order is outside, since the script rests it); and
      orders and cancellations processed at the same time, over
      connections that break and in processes that die, are linearizable: orders
      take effect at their script, cancellations at their ZREM.  The rows a
      cancellation reads are assumed to be of orders whose script has run.
    - Failures: what an operation cut short leaves is nothing, a part named by the
      theorem, or all of it, and a reply means what it says; consumers lose only
      what a lost answer or a death took; the rows stay sound through any outage.
    - Where the code does otherwise the theorem or a named Example says what it
      does: lost fills in a batch, cancellations that overtake fills, FOK orders
      never matched, cancellations without a user, and the others the examples
      list.

    ** Bounds and fuel

    Loops over a bounded count follow the count (twenty lock attempts, nine drain
    pops, fifty candidates).  [persist_rounds] has fuel, and any fuel of at least a
    fiftieth of the jobs empties the channel.  Runs of concurrent tasks are lists
    of events; [work] bounds the events a consumer can perform alone.  Theorems on
    the script assume quantities and prices below 2^53 units, where f64 is exact,
    and those on its reply below 10^14, which Lua prints in full.

    ** Not modelled

    Failures of the read routes, of the administration, of the handler of
    crates/ws-handler, of get_state and of the background loops other than
    persistence; timeouts (except the lock's attempts); the exhaustion of a pool,
    which the code sees as a lost connection; expiry of keys other than the lock;
    interleavings inside a transaction or a script, which are atomic; column widths and constraint errors other than the
    ones named; a zero lot size (the remainder panics); the capacity of broadcast
    channels (what a receiver loses is an input) and of the persistence channel (a job
    that finds it full is persisted alone, at any time; the channel of dirty users drops
    what it cannot hold); a reset of the order queues under a running consumer
    ([reset_all] and [truncate_orders] delete them: a run of [Consumers] ends there); tokio's scheduling inside one task
    (a task is one event, but in [Tasks] and [Traffic]); the contents of audit_log, whose inserts are always refused; the SQL that
    administrators send and the migrations, which are parameters of the service;
    HTTP headers, CORS and static files; the clients, timers and output of the load
    test; pools, configuration, logging; benches, integration tests, web front end
    and infrastructure. *)

From Stdlib Require Export ZArith QArith Qround Lia Lqa.
From stdpp Require Export base gmap strings list fin_maps sorting.
From Stdlib Require Export Ascii.
From Stdlib Require Import DecimalString.

#[global] Set Default Goal Selector "!".

Declare Scope sme_scope.
Delimit Scope sme_scope with sme.

(** ** Fallible computations

    [anyhow::Result<A>]: an error carries the message the source builds. *)

Inductive result (A : Type) : Type :=
| Ok (a : A)
| Err (msg : string).

Arguments Ok {A} a.
Arguments Err {A} msg.

#[export] Instance result_ret : MRet result := fun A a => Ok a.

#[export] Instance result_bind : MBind result := fun A B f m =>
  match m with
  | Ok a => f a
  | Err e => Err e
  end.

#[export] Instance result_fmap : FMap result := fun A B f m =>
  match m with
  | Ok a => Ok (f a)
  | Err e => Err e
  end.

#[export] Instance result_eq_dec `{EqDecision A} : EqDecision (result A).
Proof. solve_decision. Defined.

#[export] Instance Ok_inj {A} : Inj (=) (=) (@Ok A).
Proof. congruence. Qed.

(** [anyhow::bail!] under a condition: [if c { bail!(msg) }]. *)
Definition bail_if (c : bool) (msg : string) : result unit :=
  if c then Err msg else Ok tt.

(** [Option::ok_or_else]. *)
Definition ok_or {A} (o : option A) (msg : string) : result A :=
  match o with
  | Some a => Ok a
  | None => Err msg
  end.

Definition is_ok {A} (r : result A) : bool :=
  match r with
  | Ok _ => true
  | Err _ => false
  end.

Lemma bind_ok {A B} (f : A -> result B) (m : result A) (b : B) :
  m ≫= f = Ok b <-> exists a, m = Ok a /\ f a = Ok b.
Proof.
  destruct m as [a | e]; cbn; split; try (intros (x & Hx & Hf); congruence).
  - eauto.
  - discriminate.
Qed.

Lemma bail_if_ok (c : bool) (msg : string) (u : unit) :
  bail_if c msg = Ok u <-> c = false.
Proof. destruct c, u; cbn; split; congruence. Qed.

Lemma ok_or_ok {A} (o : option A) (msg : string) (a : A) :
  ok_or o msg = Ok a <-> o = Some a.
Proof. destruct o; cbn; split; congruence. Qed.

(** ** Automation

    [sme] holds the resolution hints of the library; [inv_ok] opens a
    successful chain of fallible steps. *)

Create HintDb sme.
Create Rewrite HintDb sme.

#[export] Hint Resolve Forall_nil_2 Forall_cons_2 Permutation_refl : sme.

Ltac inv_ok :=
  repeat match goal with
  | H : Ok _ = Ok _ |- _ => injection H as H; try subst
  | H : Err _ = Ok _ |- _ => discriminate H
  | H : Ok _ = Err _ |- _ => discriminate H
  | H : mbind _ _ = Ok _ |- _ => apply bind_ok in H; destruct H as (? & ? & H)
  | H : result_bind _ _ _ _ = Ok _ |- _ => apply bind_ok in H; destruct H as (? & ? & H)
  | H : bail_if _ _ = Ok _ |- _ => apply bail_if_ok in H
  | H : ok_or _ _ = Ok _ |- _ => apply ok_or_ok in H
  end.

(** Case analysis on the condition of the first [if] or [match] in sight. *)
Ltac case_cond :=
  match goal with
  | |- context [if ?b then _ else _] => let E := fresh "E" in destruct b eqn:E
  | H : context [if ?b then _ else _] |- _ => let E := fresh "E" in destruct b eqn:E
  end.

Ltac split_bools :=
  repeat match goal with
  | H : andb _ _ = true |- _ => apply andb_prop in H; destruct H
  | H : orb _ _ = false |- _ => apply orb_false_elim in H; destruct H
  | H : negb _ = true |- _ => apply negb_true_iff in H
  | H : negb _ = false |- _ => apply negb_false_iff in H
  end.

(** ** Strings *)

(** Decimal rendering of an integer, as [i64::to_string] and Redis integers print it. *)
Definition Z_to_string (z : Z) : string := NilZero.string_of_int (Z.to_int z).

(** First position of a character: the text before it and, when it occurs, the text after. *)
Fixpoint split_at (c : ascii) (s : string) : string * option string :=
  match s with
  | EmptyString => (EmptyString, None)
  | String a r =>
      if Ascii.eqb a c then (EmptyString, Some r)
      else let '(pre, post) := split_at c r in (String a pre, post)
  end.

(** [str::split(c)]: always at least one piece. *)
Fixpoint split_on (c : ascii) (s : string) : list string :=
  match s with
  | EmptyString => [EmptyString]
  | String a r =>
      if Ascii.eqb a c then EmptyString :: split_on c r
      else match split_on c r with
           | [] => [String a EmptyString]
           | p :: ps => String a p :: ps
           end
  end.

(** [str::contains(pat)]. *)
Fixpoint str_contains (pat s : string) : bool :=
  String.prefix pat s ||
  match s with
  | EmptyString => false
  | String _ r => str_contains pat r
  end.

(** A string in which a character does not occur. *)
Fixpoint char_free (c : ascii) (s : string) : Prop :=
  match s with
  | EmptyString => True
  | String a r => a <> c /\ char_free c r
  end.

Lemma str_app_nil (t : string) : EmptyString +:+ t = t.
Proof. reflexivity. Qed.

Lemma str_app_cons (a : ascii) (s t : string) : String a s +:+ t = String a (s +:+ t).
Proof. reflexivity. Qed.

#[export] Hint Rewrite str_app_nil str_app_cons : sme.

Lemma split_at_free (c : ascii) (s : string) :
  char_free c s -> split_at c s = (s, None).
Proof.
  induction s as [| a r IH]; cbn; [done |].
  intros [Hne Hr]. rewrite (proj2 (Ascii.eqb_neq a c) Hne), IH; auto.
Qed.

Lemma split_at_app (c : ascii) (s t : string) :
  char_free c s -> split_at c (s +:+ String c t) = (s, Some t).
Proof.
  induction s as [| a r IH]; autorewrite with sme; cbn.
  - intros _. by rewrite Ascii.eqb_refl.
  - intros [Hne Hr]. rewrite (proj2 (Ascii.eqb_neq a c) Hne), IH; auto.
Qed.

Lemma split_on_free (c : ascii) (s : string) :
  char_free c s -> split_on c s = [s].
Proof.
  induction s as [| a r IH]; cbn; [done |].
  intros [Hne Hr]. rewrite (proj2 (Ascii.eqb_neq a c) Hne), IH; auto.
Qed.

Lemma split_on_app (c : ascii) (s t : string) :
  char_free c s -> split_on c (s +:+ String c t) = s :: split_on c t.
Proof.
  induction s as [| a r IH]; autorewrite with sme; cbn.
  - intros _. by rewrite Ascii.eqb_refl.
  - intros [Hne Hr]. rewrite (proj2 (Ascii.eqb_neq a c) Hne), IH; auto.
Qed.

(** [str::split] loses nothing: joining the pieces gives the string back. *)
Fixpoint join_with (c : ascii) (ps : list string) : string :=
  match ps with
  | [] => EmptyString
  | [p] => p
  | p :: ps' => p +:+ String c (join_with c ps')
  end.

Lemma split_on_nonempty (c : ascii) (s : string) : split_on c s <> [].
Proof. destruct s as [| a r]; cbn; [done |]. case_cond; [done |]. by destruct (split_on c r). Qed.

Lemma split_on_free_all (c : ascii) (s : string) : Forall (char_free c) (split_on c s).
Proof.
  induction s as [| a r IH]; cbn; [by repeat constructor |].
  destruct (Ascii.eqb_spec a c) as [-> | Hne]; [by constructor |].
  destruct (split_on c r) as [| p ps]; inversion IH; subst; by repeat constructor.
Qed.

Lemma join_split_on (c : ascii) (s : string) : join_with c (split_on c s) = s.
Proof.
  induction s as [| a r IH]; cbn; [done |].
  pose proof (split_on_nonempty c r) as Hne.
  destruct (Ascii.eqb_spec a c) as [-> | Hac]; destruct (split_on c r) as [| p [| q ps]];
    try done; cbn in *; autorewrite with sme in *; by rewrite <- IH.
Qed.

Lemma str_app_inj (p a b : string) : p +:+ a = p +:+ b -> a = b.
Proof. induction p; autorewrite with sme; [done |]. intros [=]. auto. Qed.

(** ** Sums *)

Definition sumZ (l : list Z) : Z := foldr Z.add 0%Z l.
Definition sumQ (l : list Q) : Q := foldr Qplus 0%Q l.

Lemma sumZ_app (l k : list Z) : sumZ (l ++ k) = (sumZ l + sumZ k)%Z.
Proof. unfold sumZ. induction l as [| a l IH]; cbn; [done |]. rewrite IH. lia. Qed.

Lemma sumQ_app (l k : list Q) : (sumQ (l ++ k) == sumQ l + sumQ k)%Q.
Proof. unfold sumQ. induction l as [| a l IH]; cbn; [ring |]. rewrite IH. ring. Qed.

Lemma sumZ_nonneg (l : list Z) : Forall (Z.le 0) l -> (0 <= sumZ l)%Z.
Proof. unfold sumZ. induction 1; cbn; lia. Qed.

Lemma sumQ_nonneg (l : list Q) : Forall (Qle 0) l -> (0 <= sumQ l)%Q.
Proof. unfold sumQ. induction 1; cbn; lra. Qed.

#[export] Hint Rewrite sumZ_app : sme.

(** ** Lists *)

Lemma Forall_take_drop {A} (P : A -> Prop) (n : nat) (l : list A) :
  Forall P l -> Forall P (take n l) /\ Forall P (drop n l).
Proof. intros H. split; [by apply Forall_take | by apply Forall_drop]. Qed.

Lemma filter_none {A} (P : A -> Prop) `{!forall x, Decision (P x)} (l : list A) :
  Forall (fun x => ~ P x) l -> filter P l = [].
Proof. induction 1 as [| x l Hx _ IH]; [done |]. by rewrite filter_cons_False. Qed.

Lemma filter_all {A} (P : A -> Prop) `{!forall x, Decision (P x)} (l : list A) :
  Forall P l -> filter P l = l.
Proof. induction 1 as [| x l Hx _ IH]; [done |]. by rewrite filter_cons_True, IH. Qed.

Lemma StronglySorted_lookup {A} (R : A -> A -> Prop) (l : list A) (i j : nat) (a b : A) :
  StronglySorted R l -> (i < j)%nat -> l !! i = Some a -> l !! j = Some b -> R a b.
Proof.
  intros H. revert i j. induction H as [| x l _ IH Hx]; intros i j Hij Hi Hj; [done |].
  destruct j as [| j]; [lia |]. destruct i as [| i]; cbn in *.
  - injection Hi as <-. rewrite Forall_lookup in Hx. eauto.
  - apply (IH i j); [lia | done | done].
Qed.

Lemma sorted_nth_le (l : list Z) (i j : nat) (a b : Z) :
  Sorted Z.le l -> (i <= j)%nat -> l !! i = Some a -> l !! j = Some b -> (a <= b)%Z.
Proof.
  intros Hs Hij Hi Hj. destruct (decide (i = j)) as [<- | Hne].
  - rewrite Hi in Hj. injection Hj as ->. lia.
  - eapply (StronglySorted_lookup Z.le l i j); [| lia | done | done].
    apply Sorted_StronglySorted; [exact Z.le_trans | done].
Qed.

(** A partial map that is total on a list. *)
Lemma omap_total {A B} (f : A -> option B) (P : A -> B -> Prop) (l : list A) :
  (forall x, x ∈ l -> exists y, f x = Some y /\ P x y) -> Forall2 P l (omap f l).
Proof.
  induction l as [| x l IH]; intros H; cbn; [constructor |].
  destruct (H x) as (y & Hy & Hp); [by left |]. rewrite Hy. constructor; [done |].
  apply IH. intros z Hz. apply H. by right.
Qed.

Lemma sublist_Forall {A} (P : A -> Prop) (l k : list A) :
  l `sublist_of` k -> Forall P k -> Forall P l.
Proof.
  induction 1 as [| x l k _ IH | x l k _ IH]; intros Hf; [done | |];
    apply Forall_cons in Hf as [? ?]; [constructor |]; auto.
Qed.

Lemma sublist_StronglySorted {A} (R : A -> A -> Prop) (l k : list A) :
  l `sublist_of` k -> StronglySorted R k -> StronglySorted R l.
Proof.
  induction 1 as [| x l k Hs IH | x l k Hs IH]; intros Hf; [done | |];
    apply StronglySorted_inv in Hf as [? ?]; [| auto].
  constructor; [auto |]. by eapply sublist_Forall.
Qed.

Lemma sublist_map {A B} (f : A -> B) (l k : list A) :
  l `sublist_of` k -> (f <$> l) `sublist_of` (f <$> k).
Proof. induction 1; cbn; by constructor. Qed.

Lemma StronglySorted_Forall2 {A B} (R : A -> A -> Prop) (S : B -> B -> Prop) (P : A -> B -> Prop)
    (l : list A) (k : list B) :
  (forall x x' y y', R x x' -> P x y -> P x' y' -> S y y') ->
  StronglySorted R l -> Forall2 P l k -> StronglySorted S k.
Proof.
  intros HRS Hl. revert k. induction Hl as [| x l _ IH Hx]; intros k Hk.
  - inversion Hk; subst. constructor.
  - inversion Hk as [| ? y ? k' Hy Hk']; subst. constructor; [by apply IH |].
    clear IH Hk. induction Hk' as [| x' y' l' k' Hp _ IH]; [constructor |].
    apply Forall_cons in Hx as [? ?]. constructor; [eauto | auto].
Qed.
