(* ===== verification/Numbers.v ===== *)
(** * Machine integers and the numbers of the Lua scripts

    [i64] values are integers with their range and wrap-around written out; a
    score ([price_i as f64]) and every number inside a Lua script is a double
    that happens to hold an integer, modelled by the integer it holds, with the
    rounding to 53 significant bits of [f64_of_Z].  Rust prints and parses
    [i64] in full; Lua 5.1 prints a number with the format [%.14g], which keeps
    14 significant digits only. *)

From Stdlib Require Import DecimalString DecimalZ DecimalFacts DecimalPos.
From Stdlib Require Import Qabs.
From S2P Require Import Prelude.

Open Scope Z_scope.

(** ** i64 *)

Definition i64_max : Z := 9223372036854775807.
Definition i64_min : Z := -9223372036854775808.

Definition in_i64 (z : Z) : bool := (i64_min <=? z) && (z <=? i64_max).

(** Two's complement wrap-around of release builds. *)
Definition wrap_i64 (z : Z) : Z := (z - i64_min) mod 2 ^ 64 + i64_min.

Lemma in_i64_spec (z : Z) : in_i64 z = true <-> i64_min <= z <= i64_max.
Proof. unfold in_i64. rewrite andb_true_iff, !Z.leb_le. tauto. Qed.

Lemma wrap_i64_id (z : Z) : in_i64 z = true -> wrap_i64 z = z.
Proof.
  rewrite in_i64_spec. unfold wrap_i64, i64_min, i64_max. intros H.
  rewrite Z.mod_small; lia.
Qed.

Lemma wrap_i64_range (z : Z) : in_i64 (wrap_i64 z) = true.
Proof.
  rewrite in_i64_spec. unfold wrap_i64, i64_min, i64_max.
  pose proof (Z.mod_pos_bound (z - -9223372036854775808) (2 ^ 64)). lia.
Qed.

(** [str::parse::<i64>]: an optional sign, at least one digit, no overflow. *)
Definition parse_unsigned (s : string) : option Z :=
  u ← NilZero.uint_of_string s; Some (Z.of_uint u).

Definition checked_i64 (z : Z) : option Z := if in_i64 z then Some z else None.

Definition parse_i64 (s : string) : option Z :=
  match s with
  | String "-" r => n ← parse_unsigned r; checked_i64 (- n)
  | String "+" r => n ← parse_unsigned r; checked_i64 n
  | _ => n ← parse_unsigned s; checked_i64 n
  end.

(** [str::parse::<usize>] on a 64-bit target. *)
Definition parse_usize (s : string) : option Z :=
  n ← match s with String "+" r => parse_unsigned r | _ => parse_unsigned s end;
  if n <? 2 ^ 64 then Some n else None.

(** [u64::from_str] is [usize::from_str] on a 64-bit target. *)
Definition parse_u64 : string -> option Z := parse_usize.

(** Unsigned 64-bit wrap-around, of the atomic counters. *)
Definition wrap_u64 (z : Z) : Z := z mod 2 ^ 64.

(** ** f64 arithmetic

    The nearest binary64 value of a rational in the normal range, ties to the
    even mantissa: an f64 operation is this function of the exact result. *)

Definition round_half_even (q : Q) : Z :=
  let f := Qfloor q in
  match (q - inject_Z f ?= 1 # 2)%Q with
  | Lt => f
  | Gt => f + 1
  | Eq => if Z.even f then f else f + 1
  end.

Definition scale2 (e : Z) (q : Q) : Q :=
  if 0 <=? e then (q * inject_Z (2 ^ e))%Q else (q / inject_Z (2 ^ (- e)))%Q.

Definition f64_of_Q (q : Q) : Q :=
  if Qeq_bool q 0 then 0%Q
  else
    let e0 := Z.log2 (Z.abs (Qnum q)) - Z.log2 (Zpos (Qden q)) in
    let e := if Qle_bool (scale2 e0 1) (Qabs q) then e0 else e0 - 1 in
    Qred (scale2 (e - 52) (inject_Z (round_half_even (scale2 (52 - e) q)))).

(** [f64::round] of a non-negative number: half away from zero. *)
Definition f64_round (q : Q) : Z := Qfloor (q + (1 # 2)).

(** ** f64 holding integers *)

(** Round to nearest, ties to even, at 53 significant bits. *)
Definition f64_of_Z (z : Z) : Z :=
  let a := Z.abs z in
  if a <? 2 ^ 53 then z
  else
    let p := 2 ^ (Z.log2 a - 52) in
    let q := a / p in
    let r := a mod p in
    let q' := if 2 * r <? p then q
              else if p <? 2 * r then q + 1
              else if Z.even q then q else q + 1 in
    Z.sgn z * (q' * p).

Lemma f64_of_Z_exact (z : Z) : Z.abs z <= 2 ^ 53 -> f64_of_Z z = z.
Proof.
  intros H. unfold f64_of_Z. destruct (Z.ltb_spec (Z.abs z) (2 ^ 53)) as [_ | Hge]; [done |].
  assert (z = 2 ^ 53 \/ z = - 2 ^ 53) as [-> | ->] by lia; reflexivity.
Qed.

(** ** Lua numbers *)

(** Strips the zeros at the end of a digit string. *)
Fixpoint strip_zeros (s : string) : string :=
  match s with
  | EmptyString => EmptyString
  | String a r =>
      match strip_zeros r with
      | EmptyString => if Ascii.eqb a "0" then EmptyString else String a EmptyString
      | r' => String a r'
      end
  end.

(** [tostring(n)] in Lua 5.1: C's [%.14g], of an integral double. *)
Definition lua_tostring (z : Z) : string :=
  let a := Z.abs z in
  if a <? 10 ^ 14 then Z_to_string z
  else
    let n := Z.of_nat (String.length (Z_to_string a)) in
    let p := 10 ^ (n - 14) in
    let q := a / p in
    let r := a mod p in
    let m0 := if 2 * r <? p then q
              else if p <? 2 * r then q + 1
              else if Z.even q then q else q + 1 in
    let '(m, e) := if m0 =? 10 ^ 14 then (10 ^ 13, n) else (m0, n - 1) in
    let sign := if z <? 0 then "-" else EmptyString in
    match Z_to_string m with
    | EmptyString => EmptyString
    | String d rest =>
        let frac := match strip_zeros rest with
                    | EmptyString => EmptyString
                    | r' => "." +:+ r'
                    end in
        (sign +:+ String d frac) +:+ String "e" ("+" +:+ Z_to_string e)
    end.

Definition parse_exponent (s : string) : option Z :=
  match s with
  | String "+" r => parse_unsigned r
  | String "-" r => Z.opp <$> parse_unsigned r
  | _ => parse_unsigned s
  end.

(** [tonumber(s)] of a decimal numeral, with a fraction or an exponent as
    [tostring] writes them.  The scripts only ever read integral values: a
    numeral whose value is not integral is outside the model ([None]). *)
Definition lua_tonumber (s : string) : option Z :=
  let '(sg, body) := match s with String "-" r => (-1, r) | _ => (1, s) end in
  let '(mant, ex) := split_at "e" body in
  let '(ip, fp) := split_at "." mant in
  e ← match ex with Some t => parse_exponent t | None => Some 0 end;
  i ← parse_unsigned ip;
  f ← match fp with
      | Some t => (fun u => (u, Z.of_nat (String.length t))) <$> parse_unsigned t
      | None => Some (0, 0)
      end;
  let m := i * 10 ^ snd f + fst f in
  let k := e - snd f in
  if 0 <=? k then Some (f64_of_Z (sg * (m * 10 ^ k)))
  else if m mod 10 ^ (- k) =? 0 then Some (f64_of_Z (sg * (m / 10 ^ (- k))))
  else None.

(** ** Printing and parsing round trips *)

Lemma uint_char_free (c : ascii) (d : Decimal.uint) :
  Forall (fun a => a <> c) ["0"; "1"; "2"; "3"; "4"; "5"; "6"; "7"; "8"; "9"]%char ->
  char_free c (NilEmpty.string_of_uint d).
Proof.
  intros H. rewrite !Forall_cons in H. destruct_and!.
  induction d; cbn; auto.
Qed.

Lemma nz_char_free (c : ascii) (d : Decimal.uint) :
  Forall (fun a => a <> c) ["0"; "1"; "2"; "3"; "4"; "5"; "6"; "7"; "8"; "9"]%char ->
  char_free c (NilZero.string_of_uint d).
Proof.
  intros H. destruct d; try by apply uint_char_free.
  cbn. rewrite Forall_cons in H. tauto.
Qed.

(** A string with a character that is not a digit is not a numeral. *)
Lemma uint_of_string_free (c : ascii) (s : string) (d : Decimal.uint) :
  Forall (fun a => a <> c) ["0"; "1"; "2"; "3"; "4"; "5"; "6"; "7"; "8"; "9"]%char ->
  NilZero.uint_of_string s = Some d -> char_free c s.
Proof. intros H Hs. rewrite <- (NilZero.sus _ _ Hs). by apply nz_char_free. Qed.

Lemma parse_unsigned_free (c : ascii) (s : string) (n : Z) :
  Forall (fun a => a <> c) ["0"; "1"; "2"; "3"; "4"; "5"; "6"; "7"; "8"; "9"]%char ->
  parse_unsigned s = Some n -> char_free c s.
Proof.
  intros Hc. unfold parse_unsigned. destruct (NilZero.uint_of_string s) as [u |] eqn:E; [| done]. intros _.
  by eapply uint_of_string_free.
Qed.

Lemma char_free_app_cons (c : ascii) (s t : string) : ~ char_free c (s +:+ String c t).
Proof. induction s as [| a s IH]; autorewrite with sme; cbn; tauto. Qed.

Lemma Z_to_string_nonneg (n : Z) :
  0 <= n -> exists d, d <> Decimal.Nil /\ Z_to_string n = NilZero.string_of_uint d
                      /\ Z.of_uint d = n.
Proof.
  intros Hn. unfold Z_to_string. pose proof (DecimalZ.of_to n) as Hof.
  destruct n as [| p | p]; [| | lia].
  - exists Decimal.zero. by cbn.
  - exists (Pos.to_uint p). split; [| by cbn in Hof].
    intros E. cbn in Hof. rewrite E in Hof. cbn in Hof. discriminate.
Qed.

Lemma Z_to_string_neg (n : Z) : n < 0 -> Z_to_string n = String "-" (Z_to_string (- n)).
Proof. destruct n as [| p | p]; [lia | lia |]. reflexivity. Qed.

Lemma parse_unsigned_Z_to_string (n : Z) : 0 <= n -> parse_unsigned (Z_to_string n) = Some n.
Proof.
  intros (d & Hd & -> & Hv)%Z_to_string_nonneg.
  unfold parse_unsigned. rewrite NilZero.usu by done. by cbn; rewrite Hv.
Qed.

(** A numeral does not start with a sign. *)
Lemma numeral_head (s : string) (n : Z) (a : ascii) (r : string) :
  parse_unsigned s = Some n -> s = String a r -> a <> "-"%char /\ a <> "+"%char.
Proof.
  unfold parse_unsigned. intros H ->.
  destruct (NilZero.uint_of_string (String a r)) as [d |] eqn:E; [| done].
  split; intros ->.
  - apply (uint_of_string_free "-") in E; [by destruct E | repeat constructor; done].
  - apply (uint_of_string_free "+") in E; [by destruct E | repeat constructor; done].
Qed.

Lemma parse_i64_numeral (s : string) (n : Z) :
  parse_unsigned s = Some n -> parse_i64 s = checked_i64 n.
Proof.
  intros H. destruct s as [| a r]; [done |].
  destruct (numeral_head _ _ a r H eq_refl) as [Hm Hp].
  unfold parse_i64. rewrite H.
  destruct a as [b0 b1 b2 b3 b4 b5 b6 b7].
  destruct b0, b1, b2, b3, b4, b5, b6, b7; try reflexivity; exfalso; auto.
Qed.

(** Rust's printing and parsing of an [i64] are inverse. *)
Lemma parse_i64_to_string (n : Z) : in_i64 n = true -> parse_i64 (Z_to_string n) = Some n.
Proof.
  intros Hn. destruct (Z_lt_le_dec n 0) as [Hneg | Hpos].
  - rewrite Z_to_string_neg by done. unfold parse_i64.
    rewrite parse_unsigned_Z_to_string by lia. cbn.
    unfold checked_i64. by rewrite Z.opp_involutive, Hn.
  - rewrite (parse_i64_numeral _ n) by (by apply parse_unsigned_Z_to_string).
    unfold checked_i64. by rewrite Hn.
Qed.

Lemma Z_to_string_free (c : ascii) (n : Z) :
  Forall (fun a => a <> c) ["0"; "1"; "2"; "3"; "4"; "5"; "6"; "7"; "8"; "9"]%char ->
  0 <= n -> char_free c (Z_to_string n).
Proof. intros H (d & _ & -> & _)%Z_to_string_nonneg. by apply nz_char_free. Qed.

(** The numeral branch of [tonumber]. *)
Lemma lua_tonumber_numeral (n : Z) : 0 <= n -> lua_tonumber (Z_to_string n) = Some (f64_of_Z n).
Proof.
  intros Hn. unfold lua_tonumber.
  pose proof (parse_unsigned_Z_to_string n Hn) as Hp.
  assert (match Z_to_string n with String "-" r => (-1, r) | _ => (1, Z_to_string n) end
          = (1, Z_to_string n)) as ->.
  { destruct (Z_to_string n) as [| a r] eqn:E; [done |].
    destruct (numeral_head _ _ a r Hp eq_refl) as [Hm _].
    destruct a as [b0 b1 b2 b3 b4 b5 b6 b7].
    destruct b0, b1, b2, b3, b4, b5, b6, b7; try reflexivity; exfalso; auto. }
  rewrite split_at_free by (apply Z_to_string_free; [repeat constructor; done | done]).
  rewrite split_at_free by (apply Z_to_string_free; [repeat constructor; done | done]).
  cbn [mbind option_bind]. rewrite Hp. cbn -[f64_of_Z Z.mul].
  do 2 f_equal. lia.
Qed.

(** [tonumber] reads the decimal rendering of any integer, rounded to a double. *)
Lemma lua_tonumber_Z_to_string (n : Z) : lua_tonumber (Z_to_string n) = Some (f64_of_Z n).
Proof.
  destruct (Z_lt_le_dec n 0) as [Hneg | Hpos]; [| by apply lua_tonumber_numeral].
  rewrite Z_to_string_neg by done. unfold lua_tonumber.
  rewrite split_at_free by (apply Z_to_string_free; [repeat constructor; done | lia]).
  rewrite split_at_free by (apply Z_to_string_free; [repeat constructor; done | lia]).
  cbn [mbind option_bind]. rewrite parse_unsigned_Z_to_string by lia. cbn -[f64_of_Z Z.mul].
  do 2 f_equal. lia.
Qed.

Lemma lua_tostring_small (z : Z) : Z.abs z < 10 ^ 14 -> lua_tostring z = Z_to_string z.
Proof. intros H. unfold lua_tostring. by rewrite (proj2 (Z.ltb_lt _ _) H). Qed.

(** Below 10^14 a Lua number survives [tostring] and [tonumber]. *)
Lemma lua_tonumber_tostring (z : Z) :
  Z.abs z < 10 ^ 14 -> lua_tonumber (lua_tostring z) = Some z.
Proof.
  intros H. rewrite lua_tostring_small, lua_tonumber_Z_to_string by done.
  rewrite f64_of_Z_exact; [done | lia].
Qed.

Lemma parse_i64_lua_tostring (z : Z) :
  Z.abs z < 10 ^ 14 -> parse_i64 (lua_tostring z) = Some z.
Proof.
  intros H. rewrite lua_tostring_small by done. apply parse_i64_to_string.
  apply in_i64_spec. unfold i64_min, i64_max. lia.
Qed.

(** From 10^14 on [tostring] switches to the exponent form... *)
Lemma lua_tostring_large (z : Z) :
  10 ^ 14 <= z -> exists b t, lua_tostring z = b +:+ String "e" t.
Proof.
  intros H. unfold lua_tostring. destruct (Z.ltb_spec (Z.abs z) (10 ^ 14)) as [? | _]; [lia |].
  match goal with |- context [let '(m, e) := ?x in _] => destruct x as [m e] end.
  destruct (Z_to_string m) as [| d rest] eqn:E; [| eexists _, _; reflexivity].
  exfalso. revert E. unfold Z_to_string, NilZero.string_of_int, NilZero.string_of_uint.
  destruct (Z.to_int m) as [[] | []]; discriminate.
Qed.

(** ... which Rust's [parse::<i64>] rejects. *)
Lemma parse_i64_exponent (b t : string) : parse_i64 (b +:+ String "e" t) = None.
Proof.
  assert (forall s u, parse_unsigned (s +:+ String "e" u) = None) as Hu.
  { intros s u. unfold parse_unsigned.
    destruct (NilZero.uint_of_string _) as [d |] eqn:E; [| done].
    exfalso. apply (uint_of_string_free "e") in E; [| repeat constructor; done].
    by apply char_free_app_cons in E. }
  destruct b as [| a r]; autorewrite with sme.
  - exact (f_equal (fun o => n ← o; checked_i64 n) (Hu EmptyString t)).
  - pose proof (Hu (String a r) t) as H1. pose proof (Hu r t) as H2.
    autorewrite with sme in H1. unfold parse_i64. rewrite H1, H2.
    destruct a as [b0 b1 b2 b3 b4 b5 b6 b7].
    by destruct b0, b1, b2, b3, b4, b5, b6, b7.
Qed.

Lemma parse_i64_lua_tostring_large (z : Z) : 10 ^ 14 <= z -> parse_i64 (lua_tostring z) = None.
Proof. intros (b & t & ->)%lua_tostring_large. apply parse_i64_exponent. Qed.

Example tostring_1e14 : lua_tostring 100000000000000 = "1e+14".
Proof. reflexivity. Qed.

Example tostring_rounds : lua_tostring 123456789012345678 = "1.2345678901235e+17".
Proof. reflexivity. Qed.

Example tonumber_exponent : lua_tonumber "1.2345678901235e+17" = Some 123456789012350000.
Proof. reflexivity. Qed.
