(* ===== verification/Externals.v ===== *)
(** * The crates the engine is built on

    [rust_decimal], [uuid] and [chrono] are not part of the repository: their
    types and functions are the fields of the class [Crates], an argument of
    every definition that uses them, and what the code relies on is the class
    [CratesLaws], which states what the crates document.  A decimal is a 96-bit
    integer over a power of ten up to 10^28: an operation whose exact result has
    that form returns it; nothing is assumed of an operation whose result does
    not fit (Rust rounds it, or panics).  [RefCrates] is an instance, for the
    witnesses. *)

From S2P Require Import Prelude Numbers.

Open Scope Z_scope.

Class Crates : Type := {
  (* rust_decimal *)
  decimal : Type;
  dec_zero : decimal;
  dec_add : decimal -> decimal -> decimal;
  dec_sub : decimal -> decimal -> decimal;
  dec_mul : decimal -> decimal -> decimal;
  dec_div : decimal -> decimal -> decimal;
  dec_rem : decimal -> decimal -> decimal;
  dec_cmp : decimal -> decimal -> comparison;
  dec_of_i64 : Z -> decimal;
  dec_to_i64 : decimal -> option Z;
  dec_to_f64 : decimal -> option Q;
  dec_to_string : decimal -> string;
  dec_from_str : string -> option decimal;
  (* uuid *)
  uuid : Type;
  uuid_eq_dec :: EqDecision uuid;
  uuid_countable :: Countable uuid;
  uuid_to_string : uuid -> string;
  uuid_parse : string -> option uuid;
  (* chrono *)
  datetime : Type;
  timestamp_millis : datetime -> Z;
  timestamp_opt : Z -> Z -> option datetime;
  parse_rfc3339 : string -> option datetime;
  to_rfc3339 : datetime -> string;
}.

(** The value 10^s as a denominator. *)
Definition pow10 (s : nat) : positive := Z.to_pos (10 ^ Z.of_nat s).

(** What a 96-bit mantissa over a power of ten up to 10^28 can hold. *)
Definition representable (q : Q) : Prop :=
  exists (m : Z) (s : nat), Z.abs m < 2 ^ 96 /\ (s <= 28)%nat /\ (q == m # pow10 s)%Q.

(** Truncation toward zero. *)
Definition Qtrunc (q : Q) : Z := Z.quot (Qnum q) (Zpos (Qden q)).

(** The value of a decimal literal such as [0.001]. *)
Definition literal_value (s : string) : option Q :=
  match split_at "." s with
  | (n, None) => inject_Z <$> parse_unsigned n
  | (n, Some frac) =>
      n ← parse_unsigned n;
      f ← parse_unsigned frac;
      let scale := 10 ^ Z.of_nat (String.length frac) in
      match scale with
      | Zpos p => Some (Qred (n * scale + f # p))
      | _ => None
      end
  end.

Class CratesLaws (C : Crates) : Type := {
  (** The number a decimal stands for; [1.0] and [1.00] stand for the same. *)
  dval : decimal -> Q;
  dec_zero_val : (dval dec_zero == 0)%Q;
  dec_cmp_val a b : dec_cmp a b = (dval a ?= dval b)%Q;
  dec_add_val a b : representable (dval a + dval b)%Q -> (dval (dec_add a b) == dval a + dval b)%Q;
  dec_sub_val a b : representable (dval a - dval b)%Q -> (dval (dec_sub a b) == dval a - dval b)%Q;
  dec_mul_val a b : representable (dval a * dval b)%Q -> (dval (dec_mul a b) == dval a * dval b)%Q;
  dec_div_val a b : ~ (dval b == 0)%Q -> representable (dval a / dval b)%Q ->
    (dval (dec_div a b) == dval a / dval b)%Q;
  (** The remainder of the truncated division is exact. *)
  dec_rem_val a b : ~ (dval b == 0)%Q ->
    (dval (dec_rem a b) == dval a - dval b * inject_Z (Qtrunc (dval a / dval b)))%Q;
  dec_of_i64_val z : in_i64 z = true -> (dval (dec_of_i64 z) == inject_Z z)%Q;
  (** [to_i64] drops the fraction and is [None] out of range. *)
  dec_to_i64_val d : dec_to_i64 d = checked_i64 (Qtrunc (dval d));
  (** Display and [from_str] are inverse. *)
  dec_from_to_string d : exists d', dec_from_str (dec_to_string d) = Some d' /\ (dval d' == dval d)%Q;
  (** [from_str] reads decimal notation. *)
  dec_from_literal s q : literal_value s = Some q -> representable q ->
    exists d, dec_from_str s = Some d /\ (dval d == q)%Q;
  uuid_parse_to_string u : uuid_parse (uuid_to_string u) = Some u;
  uuid_to_string_nonempty u : uuid_to_string u <> EmptyString;
  (** Every instant of the years 1970 to 9999 is representable. *)
  timestamp_opt_some s n : 0 <= s < 253402300800 -> 0 <= n < 10 ^ 9 ->
    exists t, timestamp_opt s n = Some t /\ timestamp_millis t = s * 1000 + n / 10 ^ 6;
}.

(** ** Derived comparisons, as the operators of the source *)

Section Comparisons.
Context `{C : Crates}.

Definition dec_eqb (a b : decimal) : bool := match dec_cmp a b with Eq => true | _ => false end.
Definition dec_ltb (a b : decimal) : bool := match dec_cmp a b with Lt => true | _ => false end.
Definition dec_leb (a b : decimal) : bool := match dec_cmp a b with Gt => false | _ => true end.
Definition dec_geb (a b : decimal) : bool := match dec_cmp a b with Lt => false | _ => true end.

(** [Ord::min]: the second argument only when it is smaller. *)
Definition dec_min (a b : decimal) : decimal := if dec_ltb b a then b else a.

Definition dec_sum (l : list decimal) : decimal := fold_left dec_add l dec_zero.

Context `{L : !CratesLaws C}.

Lemma dec_eqb_val a b : dec_eqb a b = true <-> (dval a == dval b)%Q.
Proof.
  unfold dec_eqb. rewrite dec_cmp_val, Qeq_alt.
  destruct (_ ?= _)%Q; split; congruence.
Qed.

Lemma dec_ltb_val a b : dec_ltb a b = true <-> (dval a < dval b)%Q.
Proof.
  unfold dec_ltb. rewrite dec_cmp_val, Qlt_alt.
  destruct (_ ?= _)%Q; split; congruence.
Qed.

Lemma dec_leb_val a b : dec_leb a b = true <-> (dval a <= dval b)%Q.
Proof.
  unfold dec_leb. rewrite dec_cmp_val, Qle_alt.
  destruct (_ ?= _)%Q; split; congruence.
Qed.

Lemma dec_geb_val a b : dec_geb a b = true <-> (dval b <= dval a)%Q.
Proof.
  unfold dec_geb. rewrite dec_cmp_val. pose proof (Qle_alt (dval b) (dval a)) as H.
  rewrite <- Qcompare_antisym in H. rewrite H.
  destruct (dval a ?= dval b)%Q; cbn; split; congruence.
Qed.

Lemma uuid_to_string_inj u v : uuid_to_string u = uuid_to_string v -> u = v.
Proof.
  intros E. pose proof (uuid_parse_to_string u) as Hu. rewrite E in Hu.
  rewrite uuid_parse_to_string in Hu. congruence.
Qed.
End Comparisons.

(** Numerically equal decimals are interchangeable in every comparison. *)
Section Setoid.
Context `{C : Crates, L : !CratesLaws C}.

Definition dec_equiv (a b : decimal) : Prop := (dval a == dval b)%Q.

#[export] Instance dec_equiv_equivalence : Equivalence dec_equiv.
Proof.
  split; unfold dec_equiv; intros ?; [reflexivity | by symmetry | etransitivity; eauto].
Qed.

#[export] Instance dec_cmp_proper : Proper (dec_equiv ==> dec_equiv ==> eq) dec_cmp.
Proof.
  intros a a' Ha b b' Hb. rewrite !dec_cmp_val. unfold dec_equiv in *. by rewrite Ha, Hb.
Qed.

#[export] Instance dec_eqb_proper : Proper (dec_equiv ==> dec_equiv ==> eq) dec_eqb.
Proof. intros a a' Ha b b' Hb. unfold dec_eqb. by rewrite Ha, Hb. Qed.

#[export] Instance dec_ltb_proper : Proper (dec_equiv ==> dec_equiv ==> eq) dec_ltb.
Proof. intros a a' Ha b b' Hb. unfold dec_ltb. by rewrite Ha, Hb. Qed.

#[export] Instance dec_leb_proper : Proper (dec_equiv ==> dec_equiv ==> eq) dec_leb.
Proof. intros a a' Ha b b' Hb. unfold dec_leb. by rewrite Ha, Hb. Qed.
End Setoid.

(** ** A reference instance *)

Module RefCrates.
(** Decimals as reduced fractions with exact operations, uuids as positive
    numbers in decimal, instants as nanoseconds. *)
Definition parse_Z (s : string) : option Z :=
  match s with
  | String "-" r => Z.opp <$> parse_unsigned r
  | _ => parse_unsigned s
  end.

Definition q_to_string (q : Q) : string :=
  Z_to_string (Qnum q) +:+ String "/" (Z_to_string (Zpos (Qden q))).

Definition q_from_str (s : string) : option Q :=
  match split_at "/" s with
  | (n, Some d) =>
      n ← parse_Z n;
      d ← parse_unsigned d;
      match d with
      | Zpos p => Some (n # p)%Q
      | _ => None
      end
  | (_, None) => literal_value s
  end.

Definition id_of_string (s : string) : option positive :=
  n ← parse_unsigned s;
  match n with
  | Zpos p => Some p
  | _ => None
  end.

Definition instant_of (secs nanos : Z) : option Z :=
  if (0 <=? nanos) && (nanos <? 2 * 10 ^ 9) then Some (secs * 10 ^ 9 + nanos) else None.

#[export] Instance ref_crates : Crates := {
  decimal := Q;
  dec_zero := 0%Q;
  dec_add a b := Qred (a + b);
  dec_sub a b := Qred (a - b);
  dec_mul a b := Qred (a * b);
  dec_div a b := Qred (a / b);
  dec_rem a b := Qred (a - b * inject_Z (Qtrunc (a / b)));
  dec_cmp := Qcompare;
  dec_of_i64 := inject_Z;
  dec_to_i64 q := checked_i64 (Qtrunc q);
  dec_to_f64 := Some;
  dec_to_string := q_to_string;
  dec_from_str := q_from_str;
  uuid := positive;
  uuid_to_string p := Z_to_string (Zpos p);
  uuid_parse := id_of_string;
  datetime := Z;
  timestamp_millis t := t / 10 ^ 6;
  timestamp_opt := instant_of;
  parse_rfc3339 := parse_Z;
  to_rfc3339 := Z_to_string;
}.

Lemma parse_Z_to_string (z : Z) : parse_Z (Z_to_string z) = Some z.
Proof.
  destruct (Z_lt_le_dec z 0) as [Hneg | Hpos].
  - rewrite Z_to_string_neg by done. unfold parse_Z.
    rewrite parse_unsigned_Z_to_string by lia. cbn. f_equal. lia.
  - pose proof (parse_unsigned_Z_to_string z Hpos) as Hp.
    destruct (Z_to_string z) as [| a r] eqn:E; [done |].
    destruct (numeral_head _ _ a r Hp eq_refl) as [Hm _]. unfold parse_Z. rewrite Hp.
    destruct a as [b0 b1 b2 b3 b4 b5 b6 b7].
    destruct b0, b1, b2, b3, b4, b5, b6, b7; try reflexivity; exfalso; auto.
Qed.

Lemma Z_to_string_no_slash (z : Z) : char_free "/" (Z_to_string z).
Proof.
  destruct (Z_lt_le_dec z 0) as [Hneg | Hpos].
  - rewrite Z_to_string_neg by done. split; [done |].
    apply Z_to_string_free; [repeat constructor; done | lia].
  - apply Z_to_string_free; [repeat constructor; done | lia].
Qed.

Lemma q_from_to_string (q : Q) : q_from_str (q_to_string q) = Some q.
Proof.
  unfold q_from_str, q_to_string. rewrite split_at_app by apply Z_to_string_no_slash.
  cbn [mbind option_bind]. rewrite parse_Z_to_string. cbn [mbind option_bind].
  rewrite parse_unsigned_Z_to_string by lia. by destruct q.
Qed.

Lemma split_at_join (c : ascii) (s : string) :
  match split_at c s with
  | (p, Some r) => s = p +:+ String c r
  | (p, None) => s = p
  end.
Proof.
  induction s as [| a s IH]; [done |]. cbn. destruct (Ascii.eqb_spec a c) as [-> | _]; [done |].
  destruct (split_at c s) as [p [r |]]; by subst.
Qed.

Lemma char_free_app (c : ascii) (s t : string) : char_free c s -> char_free c t -> char_free c (s +:+ t).
Proof. induction s as [| a s IH]; autorewrite with sme; cbn; [done |]. intros [? ?] ?. auto. Qed.

Lemma q_from_literal (s : string) (q : Q) : literal_value s = Some q -> q_from_str s = Some q.
Proof.
  intros H. assert (char_free "/" s) as Hs.
  { pose proof (split_at_join "." s) as Hj. unfold literal_value in H. destruct (split_at "." s) as [n [f |]]; subst.
    - destruct (parse_unsigned n) as [zn |] eqn:En; [| done]. cbn in H. destruct (parse_unsigned f) as [zf |] eqn:Ef; [| done].
      apply char_free_app; [by eapply (parse_unsigned_free "/"); [repeat constructor |] |]. split; [done | by eapply (parse_unsigned_free "/"); [repeat constructor |]].
    - destruct (parse_unsigned n) as [zn |] eqn:En; [| done]. by eapply (parse_unsigned_free "/"); [repeat constructor |]. }
  unfold q_from_str. by rewrite (split_at_free _ _ Hs).
Qed.

#[export] Instance ref_laws : CratesLaws ref_crates.
Proof.
  refine {| dval := (fun q : Q => q) : @decimal ref_crates -> Q |}; cbn.
  - reflexivity.
  - done.
  - intros. apply Qred_correct.
  - intros. apply Qred_correct.
  - intros. apply Qred_correct.
  - intros. apply Qred_correct.
  - intros. apply Qred_correct.
  - reflexivity.
  - done.
  - intros q. exists q. split; [apply q_from_to_string | reflexivity].
  - intros s q Hq _. exists q. split; [by apply q_from_literal | reflexivity].
  - intros p. change (id_of_string (Z_to_string (Zpos p)) = Some p).
    unfold id_of_string. by rewrite parse_unsigned_Z_to_string by lia.
  - intros p E. pose proof (parse_unsigned_Z_to_string (Zpos p) ltac:(lia)) as H.
    change (Z_to_string (Zpos p) = EmptyString) in E. by rewrite E in H.
  - intros s n Hs Hn. unfold instant_of.
    rewrite (proj2 (Z.leb_le 0 n)), (proj2 (Z.ltb_lt n _)) by lia. cbn [andb].
    eexists. split; [done |]. rewrite Z.add_comm.
    replace (s * 10 ^ 9) with ((s * 10 ^ 3) * 10 ^ 6) by lia.
    rewrite Z.div_add by done. lia.
Defined.
End RefCrates.
