(* ===== verification/Fixed.v ===== *)
(** * Fixed-point conversion between decimals and the cache ([cache.rs])

    The cache and the Lua scripts hold every price and amount as an [i64] at
    scale 10^8.  [units d] is the number of 10^-8 units of a decimal; [grid b d]
    says that the decimal is a whole number of units, fewer than [b]: on the
    grid the decimal operations of the engine are exact. *)

From S2P Require Import Prelude Numbers Externals.

Open Scope Z_scope.

Section Conversion.
Context `{C : Crates}.

Definition SCALE : Z := 100000000.

Definition decimal_to_i64 (d : decimal) : Z :=
  default 0 (dec_to_i64 (dec_mul d (dec_of_i64 SCALE))).

Definition i64_to_decimal (i : Z) : decimal :=
  dec_div (dec_of_i64 i) (dec_of_i64 SCALE).
End Conversion.

(** ** Rational arithmetic on the grid *)

Definition unitsQ (q : Q) : Z := Qfloor (q * inject_Z SCALE).

Lemma SCALE_i64 : in_i64 SCALE = true.
Proof. reflexivity. Qed.

Lemma Qtrunc_inject (z : Z) : Qtrunc (inject_Z z) = z.
Proof. apply Z.quot_1_r. Qed.

Lemma Qtrunc_proper (p q : Q) : (p == q)%Q -> Qtrunc p = Qtrunc q.
Proof.
  destruct p as [a b], q as [c d]. unfold Qeq, Qtrunc; cbn. intros E.
  rewrite <- (Z.quot_mul_cancel_r a (Zpos b) (Zpos d)) by lia.
  rewrite <- (Z.quot_mul_cancel_r c (Zpos d) (Zpos b)) by lia.
  by rewrite E, (Z.mul_comm (Zpos b)).
Qed.

Lemma representable_proper (p q : Q) : (p == q)%Q -> representable p -> representable q.
Proof. intros E (m & s & Hm & Hs & Hq). exists m, s. by rewrite <- E. Qed.

Lemma representable_int (z : Z) : Z.abs z < 2 ^ 96 -> representable (inject_Z z).
Proof. intros H. exists z, 0%nat. split; [done |]. split; [lia | reflexivity]. Qed.

Lemma representable_units (z : Z) : Z.abs z < 2 ^ 96 -> representable (z # 100000000).
Proof. intros H. exists z, 8%nat. split; [done |]. split; [lia | reflexivity]. Qed.

Lemma units_scale (z : Z) : ((z # 100000000) * inject_Z SCALE == inject_Z z)%Q.
Proof. unfold Qeq, Qmult, inject_Z, SCALE; cbn [Qnum Qden]. rewrite Pos.mul_1_r. lia. Qed.

Lemma units_of_grid (z : Z) (q : Q) : (q == z # 100000000)%Q -> unitsQ q = z.
Proof.
  intros H. unfold unitsQ. rewrite (Qfloor_comp _ (inject_Z z)); [apply Qfloor_Z |].
  by rewrite H, units_scale.
Qed.

Lemma units_add (a b : Z) :
  ((a # 100000000) + (b # 100000000) == (a + b) # 100000000)%Q.
Proof. unfold Qeq, Qplus; cbn [Qnum Qden]. rewrite Pos2Z.inj_mul. lia. Qed.

Lemma units_sub (a b : Z) :
  ((a # 100000000) - (b # 100000000) == (a - b) # 100000000)%Q.
Proof. unfold Qminus, Qopp; cbn [Qnum Qden]. rewrite units_add. reflexivity. Qed.

Section Grid.
Context `{C : Crates, L : !CratesLaws C}.

Definition units (d : decimal) : Z := unitsQ (dval d).

Definition grid (b : Z) (d : decimal) : Prop :=
  (dval d == units d # 100000000)%Q /\ Z.abs (units d) < b.

(** The amounts an [i64] at scale 10^8 can hold. *)
Definition on_grid (d : decimal) : Prop := grid (2 ^ 63) d.

Lemma grid_intro (b z : Z) (d : decimal) :
  (dval d == z # 100000000)%Q -> Z.abs z < b -> grid b d /\ units d = z.
Proof. intros H Hb. pose proof (units_of_grid _ _ H) as Hu. unfold grid, units. by rewrite Hu. Qed.

Lemma grid_weaken (b b' : Z) (d : decimal) : b <= b' -> grid b d -> grid b' d.
Proof. unfold grid. intros ? [? ?]. split; [done | lia]. Qed.

Lemma grid_cmp (b b' : Z) (x y : decimal) :
  grid b x -> grid b' y -> dec_cmp x y = (units x ?= units y).
Proof.
  intros [Hx _] [Hy _]. rewrite dec_cmp_val, Hx, Hy. unfold Qcompare; cbn [Qnum Qden].
  destruct (Z.compare_spec (units x) (units y));
    [apply Z.compare_eq_iff | apply Z.compare_lt_iff | apply Z.compare_gt_iff]; lia.
Qed.

Lemma grid_ltb (b b' : Z) (x y : decimal) :
  grid b x -> grid b' y -> dec_ltb x y = (units x <? units y).
Proof.
  intros Hx Hy. unfold dec_ltb, Z.ltb. by rewrite (grid_cmp _ _ _ _ Hx Hy).
Qed.

Lemma grid_eqb (b b' : Z) (x y : decimal) :
  grid b x -> grid b' y -> dec_eqb x y = (units x =? units y).
Proof.
  intros Hx Hy. unfold dec_eqb. rewrite (grid_cmp _ _ _ _ Hx Hy).
  destruct (Z.compare_spec (units x) (units y)); symmetry; [apply Z.eqb_eq | apply Z.eqb_neq ..]; lia.
Qed.

Lemma grid_zero (b : Z) : 0 < b -> grid b dec_zero /\ units dec_zero = 0.
Proof. intros Hb. apply grid_intro; [| lia]. rewrite dec_zero_val. reflexivity. Qed.

Lemma grid_add (b b' B : Z) (x y : decimal) :
  grid b x -> grid b' y -> Z.abs (units x + units y) < B -> B <= 2 ^ 96 ->
  grid B (dec_add x y) /\ units (dec_add x y) = units x + units y.
Proof.
  intros [Hx _] [Hy _] HB HB'. apply grid_intro; [| done].
  assert (dval x + dval y == (units x + units y) # 100000000)%Q as E
    by (rewrite Hx, Hy at 1; apply units_add).
  rewrite dec_add_val; [done |].
  eapply representable_proper; [symmetry; exact E |]. apply representable_units. lia.
Qed.

Lemma grid_sub (b b' B : Z) (x y : decimal) :
  grid b x -> grid b' y -> Z.abs (units x - units y) < B -> B <= 2 ^ 96 ->
  grid B (dec_sub x y) /\ units (dec_sub x y) = units x - units y.
Proof.
  intros [Hx _] [Hy _] HB HB'. apply grid_intro; [| done].
  assert (dval x - dval y == (units x - units y) # 100000000)%Q as E
    by (rewrite Hx, Hy at 1; apply units_sub).
  rewrite dec_sub_val; [done |].
  eapply representable_proper; [symmetry; exact E |]. apply representable_units. lia.
Qed.

Lemma grid_min (b : Z) (x y : decimal) :
  grid b x -> grid b y -> grid b (dec_min x y) /\ units (dec_min x y) = Z.min (units x) (units y).
Proof.
  intros Hx Hy. unfold dec_min. rewrite (grid_ltb _ _ _ _ Hy Hx).
  destruct (Z.ltb_spec (units y) (units x)); (split; [done | lia]).
Qed.

(** ** The two conversions *)

(** The scaled product is exact when it fits the mantissa; the conversion then
    truncates it toward zero, and is 0 -- not an error -- when the result does
    not fit an [i64]. *)
Lemma decimal_to_i64_spec (d : decimal) :
  representable (dval d * inject_Z SCALE)%Q ->
  decimal_to_i64 d = let t := Qtrunc (dval d * inject_Z SCALE) in if in_i64 t then t else 0.
Proof.
  intros H. unfold decimal_to_i64. rewrite dec_to_i64_val.
  assert (dval d * dval (dec_of_i64 SCALE) == dval d * inject_Z SCALE)%Q as E
    by (by rewrite (dec_of_i64_val _ SCALE_i64)).
  rewrite (Qtrunc_proper _ (dval d * inject_Z SCALE)%Q).
  - unfold checked_i64. cbv zeta. by destruct (in_i64 _).
  - rewrite dec_mul_val; [done |]. eapply representable_proper; [by symmetry |]. done.
Qed.

Lemma decimal_to_i64_grid (d : decimal) : on_grid d -> decimal_to_i64 d = units d.
Proof.
  intros [Hd Hb]. assert (dval d * inject_Z SCALE == inject_Z (units d))%Q as E
    by (rewrite Hd at 1; apply units_scale).
  rewrite decimal_to_i64_spec.
  - cbv zeta. rewrite (Qtrunc_proper _ _ E), Qtrunc_inject.
    destruct (in_i64 (units d)) eqn:Hi; [done |].
    exfalso. apply not_true_iff_false in Hi. rewrite in_i64_spec in Hi.
    apply Hi. unfold i64_min, i64_max. lia.
  - eapply representable_proper; [by symmetry |]. apply representable_int. lia.
Qed.

Lemma i64_to_decimal_val (i : Z) :
  in_i64 i = true -> (dval (i64_to_decimal i) == i # 100000000)%Q.
Proof.
  intros Hi. unfold i64_to_decimal.
  pose proof (dec_of_i64_val _ Hi) as H1. pose proof (dec_of_i64_val _ SCALE_i64) as H2.
  assert (dval (dec_of_i64 i) / dval (dec_of_i64 SCALE) == i # 100000000)%Q as E.
  { rewrite H1, H2. unfold Qeq, Qdiv, Qmult, Qinv, inject_Z, SCALE; cbn [Qnum Qden]. lia. }
  rewrite dec_div_val; [done | |].
  - rewrite H2. discriminate.
  - eapply representable_proper; [by symmetry |]. apply representable_units.
    apply in_i64_spec in Hi. unfold i64_min, i64_max in Hi. lia.
Qed.

Lemma i64_to_decimal_units (i : Z) :
  Z.abs i < 2 ^ 63 -> on_grid (i64_to_decimal i) /\ units (i64_to_decimal i) = i.
Proof.
  intros Hi. apply grid_intro; [| done]. apply i64_to_decimal_val.
  apply in_i64_spec. unfold i64_min, i64_max. lia.
Qed.
End Grid.

#[global] Arguments units {C L} d : simpl never.
#[global] Arguments grid {C L} b d : simpl never.
#[global] Arguments decimal_to_i64 {C} d : simpl never.
#[global] Arguments i64_to_decimal {C} i : simpl never.

#[export] Hint Resolve grid_min grid_sub grid_zero : sme.
