(* ===== verification/Types.v ===== *)
(** * Order types and core structs ([crates/shared/src/types.rs])

    The enums and structs of the engine, the pair identifier parser and the
    book score.  Each struct is a record in a module of its name, with one
    setter per field the code assigns. *)

From S2P Require Import Prelude Numbers Externals.

Open Scope Z_scope.

(** ** Enums *)

Inductive Side := Buy | Sell.

Definition opposite (s : Side) : Side :=
  match s with
  | Buy => Sell
  | Sell => Buy
  end.

Inductive OrderType := Limit | Market.

Inductive TimeInForce := GTC | IOC | FOK.

Inductive OrderStatus := New | PartiallyFilled | Filled | Cancelled | Rejected.

Module Stp.
Inductive t := None | CancelTaker | CancelMaker | CancelBoth.
End Stp.

#[export] Instance Side_eq_dec : EqDecision Side.
Proof. solve_decision. Defined.
#[export] Instance OrderType_eq_dec : EqDecision OrderType.
Proof. solve_decision. Defined.
#[export] Instance TimeInForce_eq_dec : EqDecision TimeInForce.
Proof. solve_decision. Defined.
#[export] Instance OrderStatus_eq_dec : EqDecision OrderStatus.
Proof. solve_decision. Defined.
#[export] Instance Stp_eq_dec : EqDecision Stp.t.
Proof. solve_decision. Defined.

(** ** Structs *)

Module Order.
Section Order.
Context `{C : Crates}.

Record t : Type := mk {
  id : uuid;
  user_id : string;
  pair_id : string;
  side : Side;
  order_type : OrderType;
  tif : TimeInForce;
  price : option decimal;
  quantity : decimal;
  remaining : decimal;
  status : OrderStatus;
  stp_mode : Stp.t;
  version : Z;
  sequence : Z;
  created_at : datetime;
  updated_at : datetime;
  client_order_id : option string;
  received_at : option datetime;
  matched_at : option datetime;
  persisted_at : option datetime;
}.

Definition set_remaining (r : decimal) (o : t) : t :=
  mk (id o) (user_id o) (pair_id o) (side o) (order_type o) (tif o) (price o) (quantity o)
     r (status o) (stp_mode o) (version o) (sequence o) (created_at o) (updated_at o)
     (client_order_id o) (received_at o) (matched_at o) (persisted_at o).

Definition set_status (s : OrderStatus) (o : t) : t :=
  mk (id o) (user_id o) (pair_id o) (side o) (order_type o) (tif o) (price o) (quantity o)
     (remaining o) s (stp_mode o) (version o) (sequence o) (created_at o) (updated_at o)
     (client_order_id o) (received_at o) (matched_at o) (persisted_at o).

Definition set_updated_at (u : datetime) (o : t) : t :=
  mk (id o) (user_id o) (pair_id o) (side o) (order_type o) (tif o) (price o) (quantity o)
     (remaining o) (status o) (stp_mode o) (version o) (sequence o) (created_at o) u
     (client_order_id o) (received_at o) (matched_at o) (persisted_at o).

Definition set_matched_at (m : option datetime) (o : t) : t :=
  mk (id o) (user_id o) (pair_id o) (side o) (order_type o) (tif o) (price o) (quantity o)
     (remaining o) (status o) (stp_mode o) (version o) (sequence o) (created_at o)
     (updated_at o) (client_order_id o) (received_at o) m (persisted_at o).

(** [Order::book_score]: the sign follows the side. *)
Definition book_score (o : t) : Q :=
  let p := default 0%Q (dec_to_f64 (default dec_zero (price o))) in
  match side o with
  | Buy => (- p)%Q
  | Sell => p
  end.
End Order.
End Order.

Module Trade.
Section Trade.
Context `{C : Crates}.

Record t : Type := mk {
  id : uuid;
  pair_id : string;
  buy_order_id : uuid;
  sell_order_id : uuid;
  buyer_id : string;
  seller_id : string;
  price : decimal;
  quantity : decimal;
  sequence : Z;
  created_at : datetime;
}.
End Trade.
End Trade.

(** Cached pair configuration ([PairConfig] of the gateway and of the worker). *)
Module PairConfig.
Section PairConfig.
Context `{C : Crates}.

Record t : Type := mk {
  tick_size : decimal;
  lot_size : decimal;
  min_order_size : decimal;
  max_order_size : decimal;
  active : bool;
}.
End PairConfig.
End PairConfig.

(** ** Pair identifiers *)

Definition parse_pair_id (pair_id : string) : result (string * string) :=
  match split_on "-" pair_id with
  | [base; quote] => Ok (base, quote)
  | _ => Err ("invalid pair_id format: " +:+ pair_id +:+ ", expected BASE-QUOTE")
  end.

(** ** The database spelling of the enums *)

Definition side_str (s : Side) : string :=
  match s with Buy => "Buy" | Sell => "Sell" end.

Definition order_type_str (ot : OrderType) : string :=
  match ot with Limit => "Limit" | Market => "Market" end.

Definition tif_str (t : TimeInForce) : string :=
  match t with GTC => "GTC" | IOC => "IOC" | FOK => "FOK" end.

Definition status_str (s : OrderStatus) : string :=
  match s with
  | New => "New"
  | PartiallyFilled => "PartiallyFilled"
  | Filled => "Filled"
  | Cancelled => "Cancelled"
  | Rejected => "Rejected"
  end.

Definition stp_str (s : Stp.t) : string :=
  match s with
  | Stp.None => "None"
  | Stp.CancelMaker => "CancelMaker"
  | Stp.CancelTaker => "CancelTaker"
  | Stp.CancelBoth => "CancelBoth"
  end.

(** ** Properties *)

Lemma opposite_involutive (s : Side) : opposite (opposite s) = s.
Proof. by destruct s. Qed.

(** [parse_pair_id] accepts exactly the strings with one dash. *)
Lemma parse_pair_id_spec (pair_id base quote : string) :
  parse_pair_id pair_id = Ok (base, quote) <->
  pair_id = base +:+ String "-" quote /\ char_free "-" base /\ char_free "-" quote.
Proof.
  unfold parse_pair_id. split.
  - pose proof (join_split_on "-" pair_id) as Hj.
    pose proof (split_on_free_all "-" pair_id) as Hf.
    destruct (split_on "-" pair_id) as [| b [| q [| ]]]; try discriminate.
    intros [= -> ->]. rewrite !Forall_cons in Hf. cbn in Hj. by destruct_and!.
  - intros (-> & Hb & Hq). by rewrite split_on_app, split_on_free.
Qed.

Lemma parse_pair_id_total (pair_id : string) :
  (exists p, parse_pair_id pair_id = Ok p) <-> length (split_on "-" pair_id) = 2%nat.
Proof.
  unfold parse_pair_id. destruct (split_on "-" pair_id) as [| b [| q [|]]]; cbn;
    (split; [by intros [? [=]] | try discriminate]). eauto.
Qed.
