(* ===== verification/Engine.v ===== *)
(** * The matching engine ([crates/shared/src/engine.rs])

    [match_order] walks the resting book of the opposite side in priority
    order.  The source takes the book as [&mut [Order]] and assigns its
    entries, so the model returns the book after the walk beside the
    [MatchResult].  The uuids and clock readings the source draws are arguments:
    the k-th trade takes [new_v4 k] and the readings [3k], [3k+1], [3k+2]. *)

From S2P Require Import Prelude Numbers Externals Fixed Types.

Open Scope Z_scope.

Module MatchResult.
Section MatchResult.
Context `{C : Crates}.

Record t : Type := mk {
  trades : list Trade.t;
  book_updates : list Order.t;
  incoming : Order.t;
  stp_cancelled : list Order.t;
}.
End MatchResult.
End MatchResult.

Section Engine.
Context `{C : Crates}.
Context (new_v4 : nat -> uuid) (now : nat -> datetime).

(** Is the incoming order's price compatible with the resting order? *)
Definition price_matches (incoming resting : Order.t) : bool :=
  if decide (Order.order_type incoming = Market) then true
  else
    match Order.side incoming, Order.price incoming, Order.price resting with
    | Buy, Some bid, Some ask => dec_geb bid ask
    | Sell, Some ask, Some bid => dec_leb ask bid
    | _, _, _ => false
    end.

(** The liquidity the FOK pre-check sees. *)
Definition available (incoming : Order.t) (book : list Order.t) : decimal :=
  dec_sum (Order.remaining <$> filter (fun r => price_matches incoming r = true) book).

Definition effective_tif (incoming : Order.t) : TimeInForce :=
  if decide (Order.order_type incoming = Market) then IOC else Order.tif incoming.

(** The self-trade prevention that applies to the pair of orders. *)
Definition stp_action (incoming resting : Order.t) : Stp.t :=
  if decide (Order.user_id incoming = Order.user_id resting)
  then Order.stp_mode incoming else Stp.None.

Definition fill_trade (k : nat) (incoming resting : Order.t) (fill_qty fill_price : decimal)
    : Trade.t :=
  let '(buy_order_id, sell_order_id, buyer_id, seller_id) :=
    match Order.side incoming with
    | Buy => (Order.id incoming, Order.id resting,
              Order.user_id incoming, Order.user_id resting)
    | Sell => (Order.id resting, Order.id incoming,
               Order.user_id resting, Order.user_id incoming)
    end in
  Trade.mk (new_v4 k) (Order.pair_id incoming) buy_order_id sell_order_id buyer_id seller_id
    fill_price fill_qty 0 (now (3 * k)).

Definition fill_status (remaining : decimal) : OrderStatus :=
  if dec_eqb remaining dec_zero then Filled else PartiallyFilled.

(** One fill: the trade, the resting order and the incoming order after it. *)
Definition fill (st : MatchResult.t) (resting : Order.t) : MatchResult.t * Order.t :=
  let incoming := MatchResult.incoming st in
  let k := length (MatchResult.trades st) in
  let fill_qty := dec_min (Order.remaining incoming) (Order.remaining resting) in
  let fill_price :=
    match Order.price resting with
    | Some p => p
    | None => default dec_zero (Order.price incoming)
    end in
  let trade := fill_trade k incoming resting fill_qty fill_price in
  let in_rem := dec_sub (Order.remaining incoming) fill_qty in
  let re_rem := dec_sub (Order.remaining resting) fill_qty in
  let resting' :=
    Order.set_updated_at (now (3 * k + 1))
      (Order.set_status (fill_status re_rem) (Order.set_remaining re_rem resting)) in
  let incoming' :=
    Order.set_updated_at (now (3 * k + 2))
      (Order.set_status (fill_status in_rem) (Order.set_remaining in_rem incoming)) in
  (MatchResult.mk (MatchResult.trades st ++ [trade])
     (MatchResult.book_updates st ++ [resting']) incoming' (MatchResult.stp_cancelled st),
   resting').

Definition cancel_taker (st : MatchResult.t) : MatchResult.t :=
  let incoming := Order.set_status Cancelled (MatchResult.incoming st) in
  MatchResult.mk (MatchResult.trades st) (MatchResult.book_updates st) incoming
    (MatchResult.stp_cancelled st ++ [incoming]).

Definition cancel_maker (st : MatchResult.t) (resting : Order.t) : MatchResult.t :=
  let resting' := Order.set_status Cancelled resting in
  MatchResult.mk (MatchResult.trades st) (MatchResult.book_updates st ++ [resting'])
    (MatchResult.incoming st) (MatchResult.stp_cancelled st ++ [resting']).

(** The loop over [book.iter_mut()]. *)
Fixpoint match_loop (st : MatchResult.t) (book : list Order.t)
    : MatchResult.t * list Order.t :=
  match book with
  | [] => (st, [])
  | resting :: rest =>
      let incoming := MatchResult.incoming st in
      if dec_eqb (Order.remaining incoming) dec_zero then (st, book)
      else if negb (price_matches incoming resting) then (st, book)
      else
        match stp_action incoming resting with
        | Stp.CancelTaker => (cancel_taker st, book)
        | Stp.CancelMaker =>
            let '(st', rest') := match_loop (cancel_maker st resting) rest in
            (st', Order.set_status Cancelled resting :: rest')
        | Stp.CancelBoth =>
            (cancel_maker (cancel_taker st) resting,
             Order.set_status Cancelled resting :: rest)
        | Stp.None =>
            let '(st1, resting') := fill st resting in
            let '(st', rest') := match_loop st1 rest in
            (st', resting' :: rest')
        end
  end.

(** The time-in-force rules on what is left. *)
Definition apply_tif (tif : TimeInForce) (st : MatchResult.t) : MatchResult.t :=
  let incoming := MatchResult.incoming st in
  if dec_ltb dec_zero (Order.remaining incoming)
     && negb (bool_decide (Order.status incoming = Cancelled)) then
    let status :=
      match tif with
      | GTC => match MatchResult.trades st with
               | [] => New
               | _ => Order.status incoming
               end
      | IOC | FOK => Cancelled
      end in
    MatchResult.mk (MatchResult.trades st) (MatchResult.book_updates st)
      (Order.set_status status incoming) (MatchResult.stp_cancelled st)
  else st.

Definition fok_rejected (incoming : Order.t) (book : list Order.t) : bool :=
  bool_decide (Order.tif incoming = FOK)
  && dec_ltb (available incoming book) (Order.remaining incoming).

Definition match_order (incoming : Order.t) (book : list Order.t)
    : MatchResult.t * list Order.t :=
  if fok_rejected incoming book then
    (MatchResult.mk [] [] (Order.set_status Cancelled incoming) [], book)
  else
    let '(st, book') := match_loop (MatchResult.mk [] [] incoming []) book in
    (apply_tif (effective_tif incoming) st, book').

(** ** The walk as a step relation *)

Inductive walk : MatchResult.t -> list Order.t -> MatchResult.t -> list Order.t -> Prop :=
| walk_end st : walk st [] st []
| walk_filled st r rest :
    dec_eqb (Order.remaining (MatchResult.incoming st)) dec_zero = true ->
    walk st (r :: rest) st (r :: rest)
| walk_price st r rest :
    dec_eqb (Order.remaining (MatchResult.incoming st)) dec_zero = false ->
    price_matches (MatchResult.incoming st) r = false ->
    walk st (r :: rest) st (r :: rest)
| walk_taker st r rest :
    dec_eqb (Order.remaining (MatchResult.incoming st)) dec_zero = false ->
    price_matches (MatchResult.incoming st) r = true ->
    stp_action (MatchResult.incoming st) r = Stp.CancelTaker ->
    walk st (r :: rest) (cancel_taker st) (r :: rest)
| walk_both st r rest :
    dec_eqb (Order.remaining (MatchResult.incoming st)) dec_zero = false ->
    price_matches (MatchResult.incoming st) r = true ->
    stp_action (MatchResult.incoming st) r = Stp.CancelBoth ->
    walk st (r :: rest) (cancel_maker (cancel_taker st) r) (Order.set_status Cancelled r :: rest)
| walk_maker st r rest st' rest' :
    dec_eqb (Order.remaining (MatchResult.incoming st)) dec_zero = false ->
    price_matches (MatchResult.incoming st) r = true ->
    stp_action (MatchResult.incoming st) r = Stp.CancelMaker ->
    walk (cancel_maker st r) rest st' rest' ->
    walk st (r :: rest) st' (Order.set_status Cancelled r :: rest')
| walk_fill st r rest st' rest' :
    dec_eqb (Order.remaining (MatchResult.incoming st)) dec_zero = false ->
    price_matches (MatchResult.incoming st) r = true ->
    stp_action (MatchResult.incoming st) r = Stp.None ->
    walk (fst (fill st r)) rest st' rest' ->
    walk st (r :: rest) st' (snd (fill st r) :: rest').

(** The executable loop performs such a walk. *)
Lemma match_loop_walk (st : MatchResult.t) (book : list Order.t) :
  walk st book (fst (match_loop st book)) (snd (match_loop st book)).
Proof.
  revert st. induction book as [| r rest IH]; intros st; cbn -[fill]; [constructor |].
  case_cond; [by constructor |].
  destruct (price_matches _ r) eqn:Hp; cbn -[fill]; [| by constructor].
  destruct (stp_action _ r) eqn:Hs.
  - specialize (IH (fst (fill st r))). destruct (fill st r) as [st1 r'] eqn:Hf.
    cbn in IH. destruct (match_loop st1 rest) as [st' rest'] eqn:Hm. cbn in *.
    change r' with (snd (st1, r')). rewrite <- Hf. apply walk_fill; [done.. |]. by rewrite Hf.
  - by apply walk_taker.
  - specialize (IH (cancel_maker st r)).
    destruct (match_loop (cancel_maker st r) rest) as [st' rest'] eqn:Hm. cbn in *.
    by apply walk_maker.
  - by apply walk_both.
Qed.
End Engine.
