(* ===== verification/EngineProps.v ===== *)
(** * Correctness of [match_order]

    Conservation of quantities, soundness and priority of the trades, the
    time-in-force rules and self-trade prevention, each by induction on the
    walk of the book. *)

From S2P Require Import Prelude Numbers Externals Fixed Types Engine.

Open Scope Z_scope.

Section Specification.
Context `{C : Crates}.

(** The fields matching never changes. *)
Definition same_terms (a b : Order.t) : Prop :=
  Order.id a = Order.id b /\ Order.user_id a = Order.user_id b /\
  Order.pair_id a = Order.pair_id b /\ Order.side a = Order.side b /\
  Order.order_type a = Order.order_type b /\ Order.tif a = Order.tif b /\
  Order.price a = Order.price b /\ Order.quantity a = Order.quantity b /\
  Order.stp_mode a = Order.stp_mode b.

#[export] Instance same_terms_equivalence : Equivalence same_terms.
Proof. split; unfold same_terms; repeat intro; destruct_and?; repeat split; congruence. Qed.

Lemma price_matches_terms (i i' r r' : Order.t) :
  same_terms i i' -> same_terms r r' -> price_matches i' r' = price_matches i r.
Proof.
  unfold same_terms, price_matches. intros Hi Hr. destruct_and!.
  repeat match goal with E : Order.side _ = _ |- _ => rewrite <- E; clear E
                       | E : Order.order_type _ = _ |- _ => rewrite <- E; clear E
                       | E : Order.price _ = _ |- _ => rewrite <- E; clear E end.
  done.
Qed.

Lemma stp_action_terms (i i' r r' : Order.t) :
  same_terms i i' -> same_terms r r' -> stp_action i' r' = stp_action i r.
Proof.
  unfold same_terms, stp_action. intros Hi Hr. destruct_and!.
  by repeat match goal with E : Order.user_id _ = _ |- _ => rewrite <- E; clear E
                          | E : Order.stp_mode _ = _ |- _ => rewrite <- E; clear E end.
Qed.

(** What a trade must be for an incoming order and the resting order it fills. *)
Definition trade_between (incoming resting : Order.t) (t : Trade.t) : Prop :=
  price_matches incoming resting = true /\
  stp_action incoming resting = Stp.None /\
  Trade.pair_id t = Order.pair_id incoming /\
  Trade.price t = match Order.price resting with
                  | Some p => p
                  | None => default dec_zero (Order.price incoming)
                  end /\
  match Order.side incoming with
  | Buy => Trade.buy_order_id t = Order.id incoming /\ Trade.sell_order_id t = Order.id resting /\
           Trade.buyer_id t = Order.user_id incoming /\ Trade.seller_id t = Order.user_id resting
  | Sell => Trade.buy_order_id t = Order.id resting /\ Trade.sell_order_id t = Order.id incoming /\
            Trade.buyer_id t = Order.user_id resting /\ Trade.seller_id t = Order.user_id incoming
  end.

Lemma trade_between_terms (i i' r : Order.t) (t : Trade.t) :
  same_terms i i' -> trade_between i' r t -> trade_between i r t.
Proof.
  intros Hi. assert (same_terms r r) as Hr by (by repeat split).
  unfold trade_between. rewrite (price_matches_terms i i' r r), (stp_action_terms i i' r r) by done.
  unfold same_terms in Hi. destruct Hi as (E1 & E2 & E3 & E4 & E5 & E6 & E7 & E8 & E9).
  by rewrite E1, E2, E3, E4, E7.
Qed.

(** The resting order of a trade. *)
Definition trade_resting_id (incoming : Order.t) (t : Trade.t) : uuid :=
  match Order.side incoming with
  | Buy => Trade.sell_order_id t
  | Sell => Trade.buy_order_id t
  end.

Lemma fill_trade_between new_v4 now (k : nat) (i r : Order.t) (q : decimal) :
  price_matches i r = true -> stp_action i r = Stp.None ->
  trade_between i r
    (fill_trade new_v4 now k i r q
       match Order.price r with Some p => p | None => default dec_zero (Order.price i) end).
Proof. intros. unfold trade_between, fill_trade. by destruct (Order.side i). Qed.

Context `{L : !CratesLaws C}.

Definition amount_ok (o : Order.t) : Prop :=
  on_grid (Order.remaining o) /\ 0 <= units (Order.remaining o).

Definition live (o : Order.t) : Prop :=
  on_grid (Order.remaining o) /\ 0 < units (Order.remaining o).

Lemma live_amount_ok (o : Order.t) : live o -> amount_ok o.
Proof. intros [? ?]. split; [done | lia]. Qed.

Definition left (o : Order.t) : Z := units (Order.remaining o).

Definition traded (ts : list Trade.t) : Z := sumZ ((fun t => units (Trade.quantity t)) <$> ts).

Definition depth (book : list Order.t) : Z := sumZ (left <$> book).

Lemma traded_app (a b : list Trade.t) : traded (a ++ b) = traded a + traded b.
Proof. unfold traded. by rewrite fmap_app, sumZ_app. Qed.

Lemma traded_one (t : Trade.t) : traded [t] = units (Trade.quantity t).
Proof. unfold traded; cbn. lia. Qed.

Lemma depth_cons (r : Order.t) (rest : list Order.t) : depth (r :: rest) = left r + depth rest.
Proof. reflexivity. Qed.

Lemma left_set_status (s : OrderStatus) (r : Order.t) : left (Order.set_status s r) = left r.
Proof. reflexivity. Qed.

Lemma is_zero_spec (o : Order.t) :
  amount_ok o -> dec_eqb (Order.remaining o) dec_zero = (left o =? 0).
Proof.
  intros [Hg _]. destruct (grid_zero (2 ^ 63) ltac:(lia)) as [Hz Hu].
  by rewrite (grid_eqb _ _ _ _ Hg Hz), Hu.
Qed.
End Specification.

#[export] Hint Resolve live_amount_ok : sme.
#[export] Hint Rewrite @traded_app @traded_one @depth_cons @left_set_status : sme.

Section Walk.
Context `{C : Crates, L : !CratesLaws C}.
Context (new_v4 : nat -> uuid) (now : nat -> datetime).

Local Abbreviation walk := (walk new_v4 now).
Local Abbreviation fill := (fill new_v4 now).

(** One fill moves the smaller of the two remainders. *)
Lemma fill_spec (st : MatchResult.t) (r : Order.t) :
  amount_ok (MatchResult.incoming st) -> amount_ok r ->
  let inc := MatchResult.incoming st in
  let q := Z.min (left inc) (left r) in
  let '(st', r') := fill st r in
  amount_ok (MatchResult.incoming st') /\ amount_ok r' /\
  left (MatchResult.incoming st') = left inc - q /\ left r' = left r - q /\
  exists t, MatchResult.trades st' = MatchResult.trades st ++ [t] /\
            units (Trade.quantity t) = q /\
            same_terms inc (MatchResult.incoming st') /\ same_terms r r' /\
            (price_matches inc r = true -> stp_action inc r = Stp.None -> trade_between inc r t).
Proof.
  intros [Hi Hi0] [Hr Hr0]. cbv zeta. unfold fill, left.
  destruct (grid_min _ _ _ Hi Hr) as [Hq Hqu].
  set (q := dec_min _ _) in *.
  unfold on_grid, grid in Hi, Hr. destruct Hi as [Hi Hib], Hr as [Hr Hrb].
  destruct (grid_sub (2 ^ 63) (2 ^ 63) (2 ^ 63) (Order.remaining (MatchResult.incoming st)) q)
    as [Hsi Hsiu]; [done | done | lia | lia |].
  destruct (grid_sub (2 ^ 63) (2 ^ 63) (2 ^ 63) (Order.remaining r) q)
    as [Hsr Hsru]; [done | done | lia | lia |].
  unfold amount_ok, on_grid. cbn. rewrite Hsiu, Hsru, Hqu.
  split; [split; [done | lia] |]. split; [split; [done | lia] |].
  split; [lia |]. split; [lia |].
  eexists. split; [done |]. split; [by unfold fill_trade; destruct (Order.side _) |].
  split; [by repeat split |]. split; [by repeat split |].
  intros. by apply fill_trade_between.
Qed.

(** ** Conservation *)

Lemma walk_amounts (st : MatchResult.t) (book : list Order.t) st' book' :
  walk st book st' book' ->
  amount_ok (MatchResult.incoming st) -> Forall amount_ok book ->
  amount_ok (MatchResult.incoming st') /\ Forall amount_ok book' /\
  traded (MatchResult.trades st') + left (MatchResult.incoming st')
    = traded (MatchResult.trades st) + left (MatchResult.incoming st) /\
  traded (MatchResult.trades st') + depth book' = traded (MatchResult.trades st) + depth book.
Proof.
  induction 1 as [| | | st r rest H1 H2 H3 | st r rest H1 H2 H3
                  | st r rest st' rest' H1 H2 H3 _ IH | st r rest st' rest' H1 H2 H3 _ IH];
    intros Hi Hb; try (split; [done |]; split; [done |]; done).
  - inversion Hb; subst. split; [done |]. split; [by constructor |]. done.
  - inversion Hb as [| ?? Hr Hrest]; subst.
    destruct IH as (Ha & Hb' & HT & HD); [done.. |].
    autorewrite with sme in *. cbn [MatchResult.trades MatchResult.incoming cancel_maker] in *.
    split; [done |]. split; [by constructor |]. lia.
  - inversion Hb as [| ?? Hr Hrest]; subst.
    pose proof (fill_spec st r Hi Hr) as Hf. cbv zeta in Hf.
    destruct (fill st r) as [st1 r1] eqn:Ef. cbn [fst snd] in *.
    destruct Hf as (Hi1 & Hr1 & Eli & Elr & t & Et & Eq & _).
    destruct IH as (Ha & Hb' & HT & HD); [done.. |].
    rewrite Et in HT, HD. autorewrite with sme in *.
    split; [done |]. split; [by constructor |]. lia.
Qed.

(** ** Terms, trades and updates *)

Lemma fill_terms (st : MatchResult.t) (r : Order.t) :
  same_terms (MatchResult.incoming st) (MatchResult.incoming (fst (fill st r))) /\
  same_terms r (snd (fill st r)).
Proof. by repeat split. Qed.

Lemma walk_terms (st : MatchResult.t) (book : list Order.t) st' book' :
  walk st book st' book' ->
  same_terms (MatchResult.incoming st) (MatchResult.incoming st') /\
  Forall2 same_terms book book'.
Proof.
  assert (forall l : list Order.t, Forall2 same_terms l l) as Hrefl
    by (intros l; induction l; constructor; [by repeat split | done]).
  induction 1 as [| | | | st r rest H1 H2 H3
                  | st r rest st' rest' H1 H2 H3 _ [IHi IHb]
                  | st r rest st' rest' H1 H2 H3 _ [IHi IHb]].
  all: try (split; [by repeat split | done]).
  - split; [by repeat split |]. constructor; [by repeat split | done].
  - split; [done |]. constructor; [by repeat split | done].
  - destruct (fill_terms st r) as [Hi Hr]. split; [by etransitivity |]. by constructor.
Qed.

(** Every new trade fills a resting order of the book at its price, in book order. *)
Lemma walk_trades (st : MatchResult.t) (book : list Order.t) st' book' :
  walk st book st' book' ->
  amount_ok (MatchResult.incoming st) -> Forall live book ->
  let inc := MatchResult.incoming st in
  exists new, MatchResult.trades st' = MatchResult.trades st ++ new /\
    Forall (fun t => 0 < units (Trade.quantity t) /\
                     exists r, r ∈ book /\ trade_between inc r t /\
                               units (Trade.quantity t) <= left r) new /\
    (trade_resting_id inc <$> new) `sublist_of` (Order.id <$> book).
Proof.
  induction 1 as [| | | | st r rest H1 H2 H3
                  | st r rest st' rest' H1 H2 H3 _ IH
                  | st r rest st' rest' H1 H2 H3 _ IH];
    intros Hi Hb; cbv zeta.
  1-5: exists []; rewrite app_nil_r; split; [done |]; split; [constructor | apply sublist_nil_l].
  - apply Forall_cons in Hb as [Hr Hb].
    destruct IH as (new & Et & Hn & Hs); [done.. |].
    exists new. split; [done |]. split.
    + eapply Forall_impl; [exact Hn |]. intros t (Hq & r' & Hin & Ht).
      split; [done |]. exists r'. split; [by right | done].
    + by apply sublist_cons.
  - apply Forall_cons in Hb as [Hr Hb].
    pose proof (fill_spec st r Hi (live_amount_ok r Hr)) as Hf. cbv zeta in Hf.
    destruct (fill st r) as [st1 r1] eqn:Ef. cbn [fst snd] in *.
    destruct Hf as (Hi1 & _ & Eli & _ & t & Et1 & Eq & Hterms & _ & Ht).
    specialize (Ht H2 H3). rewrite is_zero_spec in H1 by done. apply Z.eqb_neq in H1.
    pose proof Hi as [_ Hi0]. pose proof Hr as [_ Hr0]. fold (left r) in Hr0.
    unfold left in H1 at 1. fold (left (MatchResult.incoming st)) in Hi0, H1.
    destruct IH as (new & Et & Hn & Hs); [done.. |].
    exists (t :: new). split; [by rewrite Et, Et1, <- app_assoc |]. split.
    + constructor.
      { split; [lia |]. exists r. split; [by left | split; [done | lia]]. }
      eapply Forall_impl; [exact Hn |]. intros t' (Hq & r' & Hin & Ht' & Hle).
      split; [done |]. exists r'. split; [by right | split; [| done]].
      by eapply trade_between_terms.
    + cbn. assert (trade_resting_id (MatchResult.incoming st) t = Order.id r) as ->.
      { destruct Ht as (_ & _ & _ & _ & Hd). unfold trade_resting_id.
        destruct (Order.side _); by destruct_and!. }
      apply sublist_skip.
      assert (trade_resting_id (MatchResult.incoming st) <$> new
              = trade_resting_id (MatchResult.incoming st1) <$> new) as ->; [| done].
      apply list_fmap_ext. intros _ x _. unfold trade_resting_id, same_terms in *.
      destruct_and!. by replace (Order.side (MatchResult.incoming st1))
        with (Order.side (MatchResult.incoming st)).
Qed.

(** The updates are exactly the entries the walk touched. *)
Lemma walk_updates (st : MatchResult.t) (book : list Order.t) st' book' :
  walk st book st' book' ->
  exists n, MatchResult.book_updates st' = MatchResult.book_updates st ++ take n book' /\
            drop n book' = drop n book.
Proof.
  induction 1 as [| | | | st r rest H1 H2 H3
                  | st r rest st' rest' H1 H2 H3 _ (n & Hu & Hd)
                  | st r rest st' rest' H1 H2 H3 _ (n & Hu & Hd)].
  1-4: exists 0%nat; by rewrite take_0, app_nil_r.
  - by exists 1%nat.
  - exists (S n). cbn in *. by rewrite Hu, <- app_assoc.
  - exists (S n). cbn in *. by rewrite Hu, <- app_assoc.
Qed.

(** ** Priority *)

(** A resting order the walk is done with. *)
Definition exhausted (r : Order.t) : Prop := left r = 0 \/ Order.status r = Cancelled.

Lemma walk_nothing_left (st : MatchResult.t) (book : list Order.t) st' book' :
  walk st book st' book' ->
  amount_ok (MatchResult.incoming st) -> left (MatchResult.incoming st) = 0 ->
  st' = st /\ book' = book.
Proof.
  intros Hw Hi H0. apply is_zero_spec in Hi. rewrite H0 in Hi. cbn in Hi.
  destruct Hw; try done; congruence.
Qed.

(** At most one order is left partially filled; everything before it is
    exhausted and everything after it untouched. *)
Lemma walk_priority (st : MatchResult.t) (book : list Order.t) st' book' :
  walk st book st' book' ->
  amount_ok (MatchResult.incoming st) -> Forall amount_ok book ->
  exists k, Forall exhausted (take k book') /\ drop (S k) book' = drop (S k) book.
Proof.
  induction 1 as [| | | | st r rest H1 H2 H3
                  | st r rest st' rest' H1 H2 H3 _ IH
                  | st r rest st' rest' H1 H2 H3 Hw IH]; intros Hi Hb.
  1-5: by exists 0%nat.
  - apply Forall_cons in Hb as [Hr Hb].
    destruct IH as (k & Hk & Hd); [done.. |].
    exists (S k). split; [| done]. cbn. constructor; [by right | done].
  - apply Forall_cons in Hb as [Hr Hb].
    pose proof (fill_spec st r Hi Hr) as Hf. cbv zeta in Hf.
    destruct (fill st r) as [st1 r1] eqn:Ef. cbn [fst snd] in *.
    destruct Hf as (Hi1 & Hr1 & Eli & Elr & _).
    destruct (decide (left r1 = 0)) as [Hz | Hnz].
    + destruct IH as (k & Hk & Hd); [done.. |].
      exists (S k). split; [| done]. cbn. constructor; [by left | done].
    + destruct (walk_nothing_left _ _ _ _ Hw Hi1) as [_ ->]; [lia |]. by exists 0%nat.
Qed.

(** ** How much is traded *)

(** The longest crossing prefix of the book. *)
Fixpoint crossing (incoming : Order.t) (book : list Order.t) : list Order.t :=
  match book with
  | [] => []
  | r :: rest => if price_matches incoming r then r :: crossing incoming rest else []
  end.

Lemma depth_nonneg (book : list Order.t) : Forall amount_ok book -> 0 <= depth book.
Proof.
  intros H. apply sumZ_nonneg, Forall_fmap. eapply Forall_impl; [exact H |].
  by intros r [_ ?].
Qed.

Lemma depth_crossing_le (i : Order.t) (book : list Order.t) :
  Forall amount_ok book -> depth (crossing i book) <= depth book.
Proof.
  induction 1 as [| r rest Hr Hrest IH]; cbn [crossing]; [done |].
  case_cond; rewrite !depth_cons; [lia |].
  pose proof (depth_nonneg _ Hrest). destruct Hr as [_ ?]. cbn. unfold left in *. lia.
Qed.

Lemma Forall2_true_refl_terms (book : list Order.t) : Forall2 same_terms book book.
Proof. induction book; constructor; [by repeat split | done]. Qed.

Lemma crossing_amounts (P : Order.t -> Prop) (i : Order.t) (book : list Order.t) :
  Forall P book -> Forall P (crossing i book).
Proof. induction 1; cbn; [constructor |]. case_cond; by constructor. Qed.

Lemma crossing_terms (i i' : Order.t) (book : list Order.t) :
  same_terms i i' -> crossing i' book = crossing i book.
Proof.
  intros Hi. induction book as [| r rest IH]; cbn; [done |].
  rewrite (price_matches_terms i i' r r); [by rewrite IH | done | by repeat split].
Qed.

(** No self-trade prevention applies anywhere in the book. *)
Definition no_stp (i : Order.t) (book : list Order.t) : Prop :=
  Forall (fun r => stp_action i r = Stp.None) book.

Lemma no_stp_terms (i i' : Order.t) (book : list Order.t) :
  same_terms i i' -> no_stp i book -> no_stp i' book.
Proof.
  intros Hi H. eapply Forall_impl; [exact H |]. cbn. intros r Hr.
  by rewrite (stp_action_terms i i' r r) by (done || by repeat split).
Qed.

(** Without self-trade prevention the walk trades all it can. *)
Lemma walk_traded (st : MatchResult.t) (book : list Order.t) st' book' :
  walk st book st' book' ->
  amount_ok (MatchResult.incoming st) -> Forall amount_ok book ->
  no_stp (MatchResult.incoming st) book ->
  traded (MatchResult.trades st') = traded (MatchResult.trades st) +
    Z.min (left (MatchResult.incoming st)) (depth (crossing (MatchResult.incoming st) book)).
Proof.
  induction 1 as [st | st r rest H1 | st r rest H1 H2 | | st r rest H1 H2 H3
                  | st r rest st' rest' H1 H2 H3 _ IH
                  | st r rest st' rest' H1 H2 H3 Hw IH]; intros Hi Hb Hstp;
    try (apply Forall_cons in Hstp as [Hs _]; congruence).
  - destruct Hi as [_ ?]. cbn. unfold left. lia.
  - rewrite is_zero_spec in H1 by done. apply Z.eqb_eq in H1.
    pose proof (depth_nonneg _ (crossing_amounts _ (MatchResult.incoming st) _ Hb)). lia.
  - cbn. rewrite H2. destruct Hi as [_ ?]. cbn. unfold left. lia.
  - apply Forall_cons in Hb as [Hr Hb]. apply Forall_cons in Hstp as [_ Hstp].
    pose proof (fill_spec st r Hi Hr) as Hf. cbv zeta in Hf.
    destruct (fill_terms st r) as [Hterms _].
    destruct (fill st r) as [st1 r1] eqn:Ef. cbn [fst snd] in *.
    destruct Hf as (Hi1 & _ & Eli & _ & t & Et & Eq & _).
    rewrite IH; [| done | done | by eapply no_stp_terms].
    rewrite Et, (crossing_terms (MatchResult.incoming st)) by done.
    cbn [crossing]. rewrite H2. autorewrite with sme.
    pose proof (depth_nonneg _ (crossing_amounts _ (MatchResult.incoming st) _ Hb)).
    destruct Hi as [_ ?], Hr as [_ ?]. unfold left in *. lia.
Qed.

(** ** The book order *)

(** Best price first: asks ascending for a buy, bids descending for a sell. *)
Definition not_worse (side : Side) (a b : Order.t) : Prop :=
  match Order.price a, Order.price b with
  | Some pa, Some pb =>
      match side with
      | Buy => (dval pa <= dval pb)%Q
      | Sell => (dval pb <= dval pa)%Q
      end
  | _, _ => False
  end.

Definition price_sorted (side : Side) (book : list Order.t) : Prop :=
  StronglySorted (not_worse side) book.

Lemma price_matches_closed (i a b : Order.t) :
  not_worse (Order.side i) a b -> price_matches i b = true -> price_matches i a = true.
Proof.
  unfold not_worse, price_matches. case_decide; [done |].
  destruct (Order.price a), (Order.price b), (Order.side i), (Order.price i);
    try done; rewrite ?dec_geb_val, ?dec_leb_val; lra.
Qed.

Lemma crossing_sorted (i : Order.t) (book : list Order.t) :
  price_sorted (Order.side i) book ->
  crossing i book = filter (fun r => price_matches i r = true) book.
Proof.
  induction 1 as [| r rest _ IH Hr]; cbn [crossing]; [done |].
  destruct (price_matches i r) eqn:Hm.
  - by rewrite filter_cons_True, IH.
  - rewrite filter_cons_False by congruence.
    rewrite filter_none; [done |]. eapply Forall_impl; [exact Hr |].
    intros b Hb Hmb. by rewrite (price_matches_closed i r b) in Hm.
Qed.

(** The sum of the FOK pre-check is exact. *)
Lemma dec_sum_units (l : list decimal) :
  Forall (fun d => on_grid d /\ 0 <= units d) l -> sumZ (units <$> l) < 2 ^ 96 ->
  grid (2 ^ 96) (dec_sum l) /\ units (dec_sum l) = sumZ (units <$> l).
Proof.
  unfold dec_sum. destruct (grid_zero (2 ^ 96) ltac:(lia)) as [Hz Hzu].
  assert (0 <= units dec_zero) as H0 by lia.
  replace (sumZ (units <$> l)) with (units dec_zero + sumZ (units <$> l)) by lia.
  clear Hzu. revert Hz H0. generalize dec_zero as acc.
  induction l as [| d l IH]; intros acc Ha H0 Hl Hs; cbn in *.
  - split; [done | lia].
  - apply Forall_cons in Hl as [[Hd Hd0] Hl].
    assert (0 <= sumZ (units <$> l)) as Hpos.
    { apply sumZ_nonneg, Forall_fmap. eapply Forall_impl; [exact Hl |]. by intros x [_ ?]. }
    unfold sumZ in *.
    destruct (grid_add (2 ^ 96) (2 ^ 63) (2 ^ 96) acc d) as [Hg Hu]; [done | done | lia | lia |].
    destruct (IH (dec_add acc d)) as [Hg' Hu']; [done | lia | done | lia |].
    split; [done |]. rewrite Hu'. lia.
Qed.

(** ** The status the walk leaves *)

Definition taker_stp (i r : Order.t) : bool :=
  bool_decide (stp_action i r = Stp.CancelTaker \/ stp_action i r = Stp.CancelBoth).

Lemma taker_stp_terms (i i' : Order.t) (book : list Order.t) :
  same_terms i i' -> Forall (fun r => taker_stp i r = false) book ->
  Forall (fun r => taker_stp i' r = false) book.
Proof.
  intros Hi H. eapply Forall_impl; [exact H |]. cbn. unfold taker_stp. intros x.
  by rewrite (stp_action_terms i i' x x) by (done || by repeat split).
Qed.

Lemma walk_status (st : MatchResult.t) (book : list Order.t) st' book' :
  walk st book st' book' ->
  Forall (fun r => taker_stp (MatchResult.incoming st) r = false) book ->
  (MatchResult.trades st' = MatchResult.trades st /\
   MatchResult.incoming st' = MatchResult.incoming st) \/
  (MatchResult.trades st' <> [] /\
   Order.status (MatchResult.incoming st')
     = fill_status (Order.remaining (MatchResult.incoming st'))).
Proof.
  induction 1 as [| | | st r rest H1 H2 H3 | st r rest H1 H2 H3
                  | st r rest st' rest' H1 H2 H3 _ IH
                  | st r rest st' rest' H1 H2 H3 Hw IH]; intros Hb; auto.
  1-2: apply Forall_cons in Hb as [Hs _]; apply bool_decide_eq_false in Hs; tauto.
  - apply Forall_cons in Hb as [_ Hb]. by apply IH.
  - apply Forall_cons in Hb as [_ Hb].
    destruct IH as [[Et ->] | ?]; [| | by right].
    + eapply taker_stp_terms; [apply fill_terms | done].
    + right. rewrite Et. split; [cbn; by destruct (MatchResult.trades st) | done].
Qed.
End Walk.

(** ** The properties of [match_order] *)

Section MatchOrder.
Context `{C : Crates, L : !CratesLaws C}.
Context (new_v4 : nat -> uuid) (now : nat -> datetime).

Local Abbreviation match_order := (match_order new_v4 now).
Local Abbreviation match_loop := (match_loop new_v4 now).

Definition start (incoming : Order.t) : MatchResult.t := MatchResult.mk [] [] incoming [].

Lemma apply_tif_keeps (tif : TimeInForce) (st : MatchResult.t) :
  MatchResult.trades (apply_tif tif st) = MatchResult.trades st /\
  MatchResult.book_updates (apply_tif tif st) = MatchResult.book_updates st /\
  Order.remaining (MatchResult.incoming (apply_tif tif st))
    = Order.remaining (MatchResult.incoming st).
Proof. unfold apply_tif. by case_cond. Qed.

Lemma apply_tif_amounts (tif : TimeInForce) (st : MatchResult.t) :
  left (MatchResult.incoming (apply_tif tif st)) = left (MatchResult.incoming st) /\
  (amount_ok (MatchResult.incoming st) -> amount_ok (MatchResult.incoming (apply_tif tif st))).
Proof.
  unfold left, amount_ok. destruct (apply_tif_keeps tif st) as (_ & _ & ->). done.
Qed.

(** The two runs of [match_order]: refused by the FOK pre-check, or a walk. *)
Lemma match_order_cases (incoming : Order.t) (book : list Order.t) :
  (fok_rejected incoming book = true /\
   match_order incoming book
     = (MatchResult.mk [] [] (Order.set_status Cancelled incoming) [], book)) \/
  (fok_rejected incoming book = false /\
   exists st book', walk new_v4 now (start incoming) book st book' /\
     match_order incoming book = (apply_tif (effective_tif incoming) st, book')).
Proof.
  unfold Engine.match_order. destruct (fok_rejected incoming book); [by left | right].
  split; [done |]. pose proof (match_loop_walk new_v4 now (start incoming) book) as Hw.
  unfold start in *. destruct (match_loop _ book) as [st book']. by exists st, book'.
Qed.

(** C1: quantities are conserved: what the trades take is exactly what the
    incoming order loses and exactly what the resting book loses, and no
    remaining quantity becomes negative or leaves the 10^-8 grid. *)
Theorem match_order_conserves (incoming : Order.t) (book : list Order.t) :
  amount_ok incoming -> Forall amount_ok book ->
  let '(res, book') := match_order incoming book in
  traded (MatchResult.trades res) + left (MatchResult.incoming res) = left incoming /\
  traded (MatchResult.trades res) + depth book' = depth book /\
  amount_ok (MatchResult.incoming res) /\ Forall amount_ok book'.
Proof.
  intros Hi Hb.
  destruct (match_order_cases incoming book) as [[_ ->] | (_ & st & book' & Hw & ->)].
  - split; [done |]. by split.
  - destruct (walk_amounts _ _ _ _ _ _ Hw Hi Hb) as (Hi' & Hb' & HT & HD).
    destruct (apply_tif_keeps (effective_tif incoming) st) as (-> & _ & _).
    destruct (apply_tif_amounts (effective_tif incoming) st) as (-> & Ha).
    change (traded (MatchResult.trades (start incoming))) with 0 in HT, HD.
    split; [done |]. split; [done |]. auto.
Qed.


(** C3: price-time priority: on a book sorted best price first, an order is
    touched only when every order before it, none of which has a worse price,
    is exhausted (filled, or cancelled by self-trade prevention). *)
Theorem match_order_priority (incoming : Order.t) (book : list Order.t)
    (i j : nat) (a a' b b' : Order.t) :
  amount_ok incoming -> Forall amount_ok book -> price_sorted (Order.side incoming) book ->
  let book' := snd (match_order incoming book) in
  (i < j)%nat -> book !! i = Some a -> book' !! i = Some a' ->
  book !! j = Some b -> book' !! j = Some b' -> b' <> b ->
  exhausted a' /\ not_worse (Order.side incoming) a b.
Proof.
  intros Hi Hb Hsort book' Hij Ha Ha' Hbj Hbj' Hne. split.
  - unfold book' in *.
    destruct (match_order_cases incoming book) as [[_ E] | (_ & st & bk & Hw & E)];
      rewrite E in Ha', Hbj'; cbn [snd] in Ha', Hbj'; [congruence |].
    destruct (walk_priority _ _ _ _ _ _ Hw Hi Hb) as (k & Hk & Hd).
    destruct (decide (j < S k)%nat) as [Hjk | Hjk].
    + rewrite Forall_lookup in Hk. apply (Hk i). rewrite lookup_take_lt by lia. done.
    + exfalso. apply Hne.
      assert (drop (S k) bk !! (j - S k)%nat = drop (S k) book !! (j - S k)%nat) as Ed by by rewrite Hd.
      rewrite !lookup_drop in Ed. replace (S k + (j - S k))%nat with j in Ed by lia. congruence.
  - by eapply StronglySorted_lookup.
Qed.

(** Where self-trade prevention does not apply, an order that the FOK
    pre-check lets through trades exactly the smaller of its quantity and the
    depth of the crossing prefix of the book. *)
Theorem match_order_amount (incoming : Order.t) (book : list Order.t) :
  amount_ok incoming -> Forall amount_ok book -> no_stp incoming book ->
  fok_rejected incoming book = false ->
  traded (MatchResult.trades (fst (match_order incoming book)))
    = Z.min (left incoming) (depth (crossing incoming book)).
Proof.
  intros Hi Hb Hs Hf.
  destruct (match_order_cases incoming book) as [[? _] | (_ & st & book' & Hw & ->)];
    [congruence |]. cbn [fst].
  destruct (apply_tif_keeps (effective_tif incoming) st) as (-> & _ & _).
  by rewrite (walk_traded _ _ _ _ _ _ Hw Hi Hb Hs).
Qed.

(** The FOK pre-check compares the order with the depth of the crossing prefix. *)
Lemma fok_rejected_spec (incoming : Order.t) (book : list Order.t) :
  amount_ok incoming -> Forall amount_ok book -> price_sorted (Order.side incoming) book ->
  depth book < 2 ^ 96 -> Order.tif incoming = FOK ->
  fok_rejected incoming book = (depth (crossing incoming book) <? left incoming).
Proof.
  intros [Hi Hi0] Hb Hsort Hd Ht. unfold fok_rejected, available. rewrite Ht.
  rewrite bool_decide_eq_true_2 by done. cbn [andb].
  rewrite <- crossing_sorted by done.
  destruct (dec_sum_units (Order.remaining <$> crossing incoming book)) as [Hg Hu].
  { apply Forall_fmap. apply (crossing_amounts _ incoming) in Hb. exact Hb. }
  { rewrite <- list_fmap_compose. fold (depth (crossing incoming book)).
    eapply Z.le_lt_trans; [by apply depth_crossing_le | done]. }
  rewrite (grid_ltb _ _ _ _ Hg Hi), Hu, <- list_fmap_compose. reflexivity.
Qed.

(** C31: fill-or-kill: without self-trade prevention, a FOK order against a
    book sorted by price is either rejected, with no trade and an untouched
    book, exactly when the crossing depth is short, or filled completely. *)
Theorem match_order_fok (incoming : Order.t) (book : list Order.t) :
  live incoming -> Forall live book -> no_stp incoming book ->
  price_sorted (Order.side incoming) book -> depth book < 2 ^ 96 ->
  Order.tif incoming = FOK ->
  let '(res, book') := match_order incoming book in
  if depth (crossing incoming book) <? left incoming then
    MatchResult.trades res = [] /\ book' = book /\
    MatchResult.incoming res = Order.set_status Cancelled incoming
  else
    left (MatchResult.incoming res) = 0 /\
    Order.status (MatchResult.incoming res) = Filled /\
    traded (MatchResult.trades res) = left incoming.
Proof.
  intros Hi Hb Hs Hsort Hd Ht.
  assert (Forall amount_ok book) as Hb' by (eapply Forall_impl; [exact Hb | apply live_amount_ok]).
  pose proof (fok_rejected_spec incoming book (live_amount_ok _ Hi) Hb' Hsort Hd Ht) as Hr.
  destruct (match_order_cases incoming book) as [[E ->] | (E & st & book' & Hw & ->)];
    rewrite E in Hr; rewrite <- Hr; [done |].
  symmetry in Hr. apply Z.ltb_ge in Hr. destruct Hi as [Hig Hi0]. fold (left incoming) in Hi0.
  pose proof (conj Hig (Z.lt_le_incl _ _ Hi0) : amount_ok incoming) as Hia.
  destruct (walk_amounts _ _ _ _ _ _ Hw Hia Hb') as (Ha' & _ & HT & _).
  pose proof (walk_traded _ _ _ _ _ _ Hw Hia Hb' Hs) as Hq.
  change (traded (MatchResult.trades (start incoming))) with 0 in HT, Hq.
  cbn [MatchResult.incoming start] in HT, Hq.
  assert (left (MatchResult.incoming st) = 0) as H0 by lia.
  unfold apply_tif.
  assert (dec_ltb dec_zero (Order.remaining (MatchResult.incoming st)) = false) as ->.
  { destruct (grid_zero (2 ^ 63) ltac:(lia)) as [Hz Hzu]. destruct Ha' as [Hg _].
    rewrite (grid_ltb _ _ _ _ Hz Hg), Hzu. unfold left in H0. rewrite H0. done. }
  cbn [andb]. split; [done |]. split; [| lia].
  destruct (walk_status _ _ _ _ _ _ Hw) as [[Et _] | [_ ->]].
  - eapply Forall_impl; [exact Hs |]. intros r Hr'. unfold taker_stp.
    apply bool_decide_eq_false. cbn in *. rewrite Hr'. by intros [|].
  - rewrite Et in Hq. cbn in Hq. lia.
  - unfold fill_status. by rewrite is_zero_spec, H0.
Qed.

(** The final status of a new order that self-trade prevention does not
    cancel: [Filled] exactly when nothing is left; otherwise GTC keeps it
    [New] or [PartiallyFilled] by whether it traded, and IOC, FOK and market
    orders cancel the rest. *)
Theorem match_order_status (incoming : Order.t) (book : list Order.t) :
  live incoming -> Forall amount_ok book -> Order.status incoming = New ->
  Forall (fun r => taker_stp incoming r = false) book ->
  let res := fst (match_order incoming book) in
  Order.status (MatchResult.incoming res) =
    if left (MatchResult.incoming res) =? 0 then Filled
    else match effective_tif incoming with
         | GTC => match MatchResult.trades res with [] => New | _ => PartiallyFilled end
         | IOC | FOK => Cancelled
         end.
Proof.
  intros Hi Hb Hnew Hs. cbv zeta.
  pose proof (live_amount_ok _ Hi) as Hia. destruct Hi as [_ Hi0]. fold (left incoming) in Hi0.
  destruct (match_order_cases incoming book) as [[E ->] | (E & st & book' & Hw & ->)]; cbn [fst].
  - cbn. rewrite left_set_status, (proj2 (Z.eqb_neq _ _)) by lia.
    unfold effective_tif. case_decide; [done |].
    unfold fok_rejected in E. split_bools. apply bool_decide_eq_true in H0. by rewrite H0.
  - destruct (walk_amounts _ _ _ _ _ _ Hw Hia Hb) as (Ha' & _ & _ & _).
    assert (dec_ltb dec_zero (Order.remaining (MatchResult.incoming st))
            = negb (left (MatchResult.incoming st) =? 0)) as Hlt.
    { destruct (grid_zero (2 ^ 63) ltac:(lia)) as [Hz Hzu]. destruct Ha' as [Hg Hg0].
      rewrite (grid_ltb _ _ _ _ Hz Hg), Hzu. unfold left in *.
      destruct (Z.eqb_spec (units (Order.remaining (MatchResult.incoming st))) 0); cbn; lia. }
    assert (Order.status (MatchResult.incoming st) =
            match MatchResult.trades st with
            | [] => New
            | _ => if left (MatchResult.incoming st) =? 0 then Filled else PartiallyFilled
            end /\ (MatchResult.trades st = [] -> left (MatchResult.incoming st) <> 0)) as [Hst Hne].
    { destruct (walk_status _ _ _ _ _ _ Hw Hs) as [[-> ->] | [Hne Hf]].
      - cbn. split; [done |]. intros _. change (left incoming <> 0). lia.
      - destruct (MatchResult.trades st); [done |]. split; [| done].
        rewrite Hf. unfold fill_status. by rewrite is_zero_spec. }
    unfold apply_tif. rewrite Hlt, Hst. clear Hlt.
    destruct (Z.eqb_spec (left (MatchResult.incoming st)) 0) as [Hz | Hz]; cbn [negb andb].
    + rewrite Hst, Hz. destruct (MatchResult.trades st); [by destruct Hne | done].
    + assert (bool_decide (match MatchResult.trades st with
                           | [] => New | _ :: _ => PartiallyFilled end = Cancelled) = false) as ->
        by (by destruct (MatchResult.trades st)).
      cbn [negb MatchResult.incoming]. rewrite left_set_status, (proj2 (Z.eqb_neq _ _) Hz).
      cbn [MatchResult.trades Order.set_status Order.status].
      destruct (effective_tif incoming); try done. by destruct (MatchResult.trades st).
Qed.

(** The caller can persist the outcome from [book_updates] alone: the
    updates are the touched prefix of the book, entry by entry with unchanged
    terms, and the rest of the book is as it was. *)
Theorem match_order_updates (incoming : Order.t) (book : list Order.t) :
  let '(res, book') := match_order incoming book in
  same_terms incoming (MatchResult.incoming res) /\ Forall2 same_terms book book' /\
  exists n, MatchResult.book_updates res = take n book' /\ drop n book' = drop n book.
Proof.
  destruct (match_order_cases incoming book) as [[_ ->] | (_ & st & book' & Hw & ->)].
  - split; [by repeat split |]. split; [| by exists 0%nat].
    apply Forall2_true_refl_terms.
  - destruct (walk_terms _ _ _ _ _ _ Hw) as [Hi Hb].
    destruct (walk_updates _ _ _ _ _ _ Hw) as (n & Hu & Hd).
    destruct (apply_tif_keeps (effective_tif incoming) st) as (_ & Eu & _).
    split; [| split; [done |]].
    + etransitivity; [exact Hi |]. unfold apply_tif. case_cond; by repeat split.
    + exists n. rewrite Eu. by rewrite Hu.
Qed.
End MatchOrder.

(** ** Concrete runs *)

Module EngineExamples.
Import RefCrates.

Definition order (i : positive) (user : string) (side : Side) (ot : OrderType)
    (tif : TimeInForce) (price : option Q) (qty : Q) (stp : Stp.t) : @Order.t ref_crates :=
  @Order.mk ref_crates i user "BTC-USDT" side ot tif price qty qty New stp 1 0 0 0
    None None None None.

Definition ids (k : nat) : @uuid ref_crates := Pos.of_succ_nat k.
Definition clock (k : nat) : @datetime ref_crates := Z.of_nat k.

Definition asks : list (@Order.t ref_crates) :=
  [order 11 "maker-1" Sell Limit GTC (Some 100%Q) 1%Q Stp.None;
   order 12 "maker-2" Sell Limit GTC (Some 101%Q) (3 # 2)%Q Stp.None;
   order 13 "maker-3" Sell Limit GTC (Some 105%Q) 2%Q Stp.None].

Definition buy (tif : TimeInForce) (price qty : Q) : @Order.t ref_crates :=
  order 1 "taker" Buy Limit tif (Some price) qty Stp.CancelMaker.

Ltac concrete :=
  repeat match goal with
  | |- Forall _ _ => constructor
  | |- StronglySorted _ _ => constructor
  | |- _ /\ _ => split
  | |- live _ => unfold live
  | |- amount_ok _ => unfold amount_ok
  | |- on_grid _ => unfold on_grid
  | |- grid _ _ => unfold grid
  | |- no_stp _ _ => unfold no_stp
  | |- price_sorted _ _ => unfold price_sorted
  end; try reflexivity; try done; vm_compute; try reflexivity; try done; try congruence.

Lemma asks_live : Forall live asks.
Proof. concrete. Qed.

Lemma asks_amount_ok : Forall amount_ok asks.
Proof. concrete. Qed.

Lemma asks_sorted : price_sorted Buy asks.
Proof. concrete. Qed.

Lemma buy_live (tif : TimeInForce) : live (buy tif 101 2).
Proof. concrete. Qed.

Lemma match_order_conserves_witness :
  let '(res, book') := match_order ids clock (buy GTC 101 2) asks in
  traded (MatchResult.trades res) + left (MatchResult.incoming res) = left (buy GTC 101 2) /\
  traded (MatchResult.trades res) + depth book' = depth asks /\
  amount_ok (MatchResult.incoming res) /\ Forall amount_ok book'.
Proof.
  apply (match_order_conserves ids clock (buy GTC 101 2) asks).
  - apply live_amount_ok, buy_live.
  - exact asks_amount_ok.
Defined.


Definition remaining_at (n : nat) (book : list (@Order.t ref_crates)) : option Q :=
  match book !! n with
  | Some o => Some (Order.remaining o)
  | None => None
  end.

(** The second ask is touched, so the first is exhausted. *)
Lemma match_order_priority_witness :
  exists a a' b b',
    asks !! 0%nat = Some a /\ asks !! 1%nat = Some b /\ b' <> b /\
    snd (match_order ids clock (buy GTC 101 2) asks) !! 0%nat = Some a' /\
    snd (match_order ids clock (buy GTC 101 2) asks) !! 1%nat = Some b' /\
    exhausted a' /\ not_worse Buy a b.
Proof.
  assert (remaining_at 1 (snd (match_order ids clock (buy GTC 101 2) asks)) = Some (1 # 2)%Q) as E1
    by (vm_compute; reflexivity).
  assert (remaining_at 0 (snd (match_order ids clock (buy GTC 101 2) asks)) = Some 0%Q) as E0
    by (vm_compute; reflexivity).
  set (book' := snd (match_order ids clock (buy GTC 101 2) asks)) in *.
  unfold remaining_at in *.
  destruct (book' !! 0%nat) as [a' |] eqn:Ha; [| discriminate].
  destruct (book' !! 1%nat) as [b' |] eqn:Hb; [| discriminate].
  exists (order 11 "maker-1" Sell Limit GTC (Some 100%Q) 1%Q Stp.None), a',
         (order 12 "maker-2" Sell Limit GTC (Some 101%Q) (3 # 2)%Q Stp.None), b'.
  split; [done |]. split; [done |].
  assert (b' <> order 12 "maker-2" Sell Limit GTC (Some 101%Q) (3 # 2)%Q Stp.None) as Hne
    by (intros ->; discriminate).
  split; [done |]. split; [done |]. split; [done |].
  apply (match_order_priority ids clock (buy GTC 101 2) asks 0 1 _ a' _ b');
    [apply live_amount_ok, buy_live | exact asks_amount_ok | exact asks_sorted | lia
     | reflexivity | exact Ha | reflexivity | exact Hb | exact Hne].
Defined.

Lemma match_order_amount_witness :
  traded (MatchResult.trades (fst (match_order ids clock (buy GTC 101 2) asks))) = 200000000.
Proof.
  rewrite (match_order_amount ids clock (buy GTC 101 2) asks).
  - reflexivity.
  - apply live_amount_ok, buy_live.
  - exact asks_amount_ok.
  - concrete.
  - reflexivity.
Defined.

Lemma match_order_fok_witness :
  let '(res, _) := match_order ids clock (buy FOK 101 2) asks in
  left (MatchResult.incoming res) = 0 /\
  Order.status (MatchResult.incoming res) = Filled /\
  traded (MatchResult.trades res) = left (buy FOK 101 2).
Proof.
  assert (no_stp (buy FOK 101 2) asks) as Hs by concrete.
  pose proof (match_order_fok ids clock (buy FOK 101 2) asks (buy_live FOK) asks_live Hs asks_sorted
                ltac:(vm_compute; reflexivity) eq_refl) as H.
  destruct (match_order ids clock (buy FOK 101 2) asks) as [res bk].
  replace (depth (crossing (buy FOK 101 2) asks) <? left (buy FOK 101 2)) with false in H
    by (vm_compute; reflexivity).
  exact H.
Defined.

Lemma match_order_status_witness :
  Order.status (MatchResult.incoming (fst (match_order ids clock (buy IOC 100 2) asks))) = Cancelled.
Proof.
  rewrite (match_order_status ids clock (buy IOC 100 2) asks).
  - vm_compute. reflexivity.
  - concrete.
  - exact asks_amount_ok.
  - reflexivity.
  - concrete.
Defined.

(** ** Divergences *)

Definition own_and_foreign : list (@Order.t ref_crates) :=
  [order 11 "taker" Sell Limit GTC (Some 100%Q) 1%Q Stp.None;
   order 12 "maker-2" Sell Limit GTC (Some 100%Q) 1%Q Stp.None].

(** The FOK pre-check counts the taker's own resting orders: with
    [CancelMaker] the order trades half of its quantity and is cancelled. *)
Lemma fok_partially_filled :
  let res := fst (match_order ids clock (buy FOK 100 2) own_and_foreign) in
  traded (MatchResult.trades res) = 100000000 /\
  left (MatchResult.incoming res) = 100000000 /\
  Order.status (MatchResult.incoming res) = Cancelled.
Proof. vm_compute. done. Qed.

(** The doc comment says the book slice is not mutated; it is. *)
Lemma match_order_mutates_book :
  snd (match_order ids clock (buy GTC 101 2) asks) <> asks.
Proof.
  intros H. apply (f_equal (fmap Order.status)) in H. vm_compute in H. congruence.
Qed.
End EngineExamples.
