(* ===== verification/Valkey.v ===== *)
(** * The Valkey server

    The server is not part of the repository.  Its commands are the fields of
    the class [Valkey] over an abstract [store]; [view] is what its data
    commands can observe, and each law states the documented effect of a command
    on the view.  A collection that becomes empty does not exist any more, an
    expiry is dropped with its key and by SET, and a range by score breaks ties
    by the bytes of the member.  The key families of the program are disjoint
    by prefix, so no command meets a key of another type; connection errors are
    outside the model.  [RefValkey] is an instance, for the witnesses. *)

From S2P Require Import Prelude Numbers.

Open Scope Z_scope.

(** What the commands observe: one keyspace per data type, the expiries set
    (seconds) and the messages published so far. *)
Record kv : Type := mk_kv {
  strs : gmap string string;
  hashes : gmap string (gmap string string);
  zsets : gmap string (gmap string Z);
  sets : gmap string (gset string);
  lists : gmap string (list string);
  ttls : gmap string Z;
  published : list (string * string);
}.

Definition kv_empty : kv := mk_kv ∅ ∅ ∅ ∅ ∅ ∅ [].

(** ** Collections: an empty one is absent *)

Section Collections.
Context {A : Type} `{Empty A, !EqDecision A}.

Definition at_key (k : string) (m : gmap string A) : A := default ∅ (m !! k).

Definition put (k : string) (v : A) (m : gmap string A) : gmap string A :=
  if decide (v = ∅) then delete k m else <[k := v]> m.

Lemma at_put_eq (k : string) (v : A) (m : gmap string A) : at_key k (put k v m) = v.
Proof.
  unfold at_key, put. case_decide; [by rewrite lookup_delete_eq | by rewrite lookup_insert_eq].
Qed.

Lemma at_put_ne (k k' : string) (v : A) (m : gmap string A) :
  k <> k' -> at_key k' (put k v m) = at_key k' m.
Proof.
  intros Hne. unfold at_key, put.
  case_decide; [by rewrite lookup_delete_ne | by rewrite lookup_insert_ne].
Qed.

Lemma at_delete_eq (k : string) (m : gmap string A) : at_key k (delete k m) = ∅.
Proof. unfold at_key. by rewrite lookup_delete_eq. Qed.

Lemma at_delete_ne (k k' : string) (m : gmap string A) :
  k <> k' -> at_key k' (delete k m) = at_key k' m.
Proof. intros Hne. unfold at_key. by rewrite lookup_delete_ne. Qed.
End Collections.

#[export] Instance list_empty {A} : Empty (list A) := [].

#[export] Hint Rewrite @at_put_eq @at_delete_eq : sme.

(** ** Observations *)

Definition hash (s : kv) (k : string) : gmap string string := at_key k (hashes s).
Definition zset (s : kv) (k : string) : gmap string Z := at_key k (zsets s).
Definition members (s : kv) (k : string) : gset string := at_key k (sets s).
Definition lst (s : kv) (k : string) : list string := at_key k (lists s).

Definition kv_exists (s : kv) (k : string) : bool :=
  bool_decide (is_Some (strs s !! k)) || bool_decide (is_Some (hashes s !! k))
  || bool_decide (is_Some (zsets s !! k)) || bool_decide (is_Some (sets s !! k))
  || bool_decide (is_Some (lists s !! k)).

Definition set_strs f (s : kv) := mk_kv (f (strs s)) (hashes s) (zsets s) (sets s) (lists s) (ttls s) (published s).
Definition set_hashes f (s : kv) := mk_kv (strs s) (f (hashes s)) (zsets s) (sets s) (lists s) (ttls s) (published s).
Definition set_zsets f (s : kv) := mk_kv (strs s) (hashes s) (f (zsets s)) (sets s) (lists s) (ttls s) (published s).
Definition set_sets f (s : kv) := mk_kv (strs s) (hashes s) (zsets s) (f (sets s)) (lists s) (ttls s) (published s).
Definition set_lists f (s : kv) := mk_kv (strs s) (hashes s) (zsets s) (sets s) (f (lists s)) (ttls s) (published s).
Definition set_ttls f (s : kv) := mk_kv (strs s) (hashes s) (zsets s) (sets s) (lists s) (f (ttls s)) (published s).
Definition add_msg m (s : kv) := mk_kv (strs s) (hashes s) (zsets s) (sets s) (lists s) (ttls s) (published s ++ [m]).

(** A key that no longer exists has no expiry. *)
Definition drop_ttl (k : string) (s : kv) : kv :=
  if kv_exists s k then s else set_ttls (delete k) s.

(** ** Commands on the view *)

Definition kv_set (k v : string) (s : kv) : kv :=
  set_ttls (delete k) (set_strs <[k := v]> s).

(** SET key value NX EX seconds *)
Definition kv_set_nx_ex (k v : string) (secs : Z) (s : kv) : kv * bool :=
  if kv_exists s k then (s, false)
  else (set_ttls <[k := secs]> (set_strs <[k := v]> s), true).

(** The integers INCR and HINCRBY accept. *)
Definition redis_int (s : string) : option Z :=
  z ← parse_i64 s; if bool_decide (Z_to_string z = s) then Some z else None.

Definition not_an_integer : string := "ERR value is not an integer or out of range".

(** The new value of an integer cell, or the server's error. *)
Definition incr_cell (cell : option string) (n : Z) : result Z :=
  match match cell with None => Some 0 | Some s => redis_int s end with
  | Some z => if in_i64 (z + n) then Ok (z + n) else Err "ERR increment or decrement would overflow"
  | None => Err not_an_integer
  end.

Definition kv_incrby (k : string) (n : Z) (s : kv) : kv * result Z :=
  match incr_cell (strs s !! k) n with
  | Ok z => (set_strs <[k := Z_to_string z]> s, Ok z)
  | Err e => (s, Err e)
  end.

Definition kv_del (k : string) (s : kv) : kv :=
  mk_kv (delete k (strs s)) (delete k (hashes s)) (delete k (zsets s)) (delete k (sets s))
    (delete k (lists s)) (delete k (ttls s)) (published s).

Definition kv_expire (k : string) (secs : Z) (s : kv) : kv :=
  if kv_exists s k then set_ttls <[k := secs]> s else s.

(** HSET key f1 v1 f2 v2 ... *)
Definition hset_fields (fvs : list (string * string)) (h : gmap string string) : gmap string string :=
  fold_left (fun h fv => <[fv.1 := fv.2]> h) fvs h.

Definition kv_hset (k : string) (fvs : list (string * string)) (s : kv) : kv :=
  set_hashes (put k (hset_fields fvs (hash s k))) s.

Definition kv_hincrby (k f : string) (n : Z) (s : kv) : kv * result Z :=
  match incr_cell (hash s k !! f) n with
  | Ok z => (set_hashes (put k (<[f := Z_to_string z]> (hash s k))) s, Ok z)
  | Err e => (s, Err e)
  end.

Definition kv_zadd (k : string) (score : Z) (m : string) (s : kv) : kv :=
  set_zsets (put k (<[m := score]> (zset s k))) s.

Definition kv_zrem (k m : string) (s : kv) : kv :=
  drop_ttl k (set_zsets (put k (delete m (zset s k))) s).

Definition kv_sadd (k m : string) (s : kv) : kv := set_sets (put k ({[ m ]} ∪ members s k)) s.

Definition kv_srem (k m : string) (s : kv) : kv :=
  drop_ttl k (set_sets (put k (members s k ∖ {[ m ]})) s).

Definition kv_lpush (k v : string) (s : kv) : kv := set_lists (put k (v :: lst s k)) s.

(** RPOP takes the oldest element of a list filled by LPUSH. *)
Definition kv_rpop (k : string) (s : kv) : kv * option string :=
  match reverse (lst s k) with
  | [] => (s, None)
  | v :: rest => (drop_ttl k (set_lists (put k (reverse rest)) s), Some v)
  end.

(** LTRIM key 0 (n-1) and LRANGE key 0 (n-1). *)
Definition kv_ltrim (k : string) (n : nat) (s : kv) : kv :=
  drop_ttl k (set_lists (put k (take n (lst s k))) s).

(** *** Ranges by score *)

(** By score, then by the bytes of the member. *)
Definition by_score (a b : string * Z) : Prop :=
  a.2 < b.2 \/ (a.2 = b.2 /\ String.leb a.1 b.1 = true).

#[export] Instance by_score_dec : RelDecision by_score.
Proof. intros a b. unfold by_score. apply _. Defined.

Definition ranked (z : gmap string Z) : list (string * Z) := merge_sort by_score (map_to_list z).

(** ZRANGEBYSCORE key -inf max; [None] is +inf. *)
Definition up_to (max : option Z) (e : string * Z) : Prop :=
  match max with
  | None => True
  | Some b => e.2 <= b
  end.

#[export] Instance up_to_dec (max : option Z) (e : string * Z) : Decision (up_to max e).
Proof. destruct max; cbn; apply _. Defined.

Definition kv_zrangebyscore (k : string) (max : option Z) (s : kv) : list string :=
  fst <$> filter (up_to max) (ranked (zset s k)).

(** ** The interface *)

Class Valkey : Type := {
  store : Type;
  view : store -> kv;
  v_get : string -> store -> option string;
  v_set : string -> string -> store -> store;
  v_set_nx_ex : string -> string -> Z -> store -> store * bool;
  v_incrby : string -> Z -> store -> store * result Z;
  v_del : string -> store -> store;
  v_exists : string -> store -> bool;
  v_expire : string -> Z -> store -> store;
  v_publish : string -> string -> store -> store;
  v_hset : string -> list (string * string) -> store -> store;
  v_hget : string -> string -> store -> option string;
  v_hincrby : string -> string -> Z -> store -> store * result Z;
  v_zadd : string -> Z -> string -> store -> store;
  v_zrem : string -> string -> store -> store;
  v_zrangebyscore : string -> option Z -> store -> list string;
  v_sadd : string -> string -> store -> store;
  v_srem : string -> string -> store -> store;
  v_smembers : string -> store -> list string;
  v_lpush : string -> string -> store -> store;
  v_rpop : string -> store -> store * option string;
  v_ltrim : string -> nat -> store -> store;
  v_lrange : string -> nat -> store -> list string;
}.

Class ValkeyLaws (V : Valkey) : Prop := {
  get_view k s : v_get k s = strs (view s) !! k;
  set_view k x s : view (v_set k x s) = kv_set k x (view s);
  set_nx_ex_view k x t s : view (v_set_nx_ex k x t s).1 = (kv_set_nx_ex k x t (view s)).1;
  set_nx_ex_reply k x t s : (v_set_nx_ex k x t s).2 = (kv_set_nx_ex k x t (view s)).2;
  incrby_view k n s : view (v_incrby k n s).1 = (kv_incrby k n (view s)).1;
  incrby_reply k n s : (v_incrby k n s).2 = (kv_incrby k n (view s)).2;
  del_view k s : view (v_del k s) = kv_del k (view s);
  exists_view k s : v_exists k s = kv_exists (view s) k;
  expire_view k t s : view (v_expire k t s) = kv_expire k t (view s);
  publish_view c m s : view (v_publish c m s) = add_msg (c, m) (view s);
  hset_view k fvs s : view (v_hset k fvs s) = kv_hset k fvs (view s);
  hget_view k f s : v_hget k f s = hash (view s) k !! f;
  hincrby_view k f n s : view (v_hincrby k f n s).1 = (kv_hincrby k f n (view s)).1;
  hincrby_reply k f n s : (v_hincrby k f n s).2 = (kv_hincrby k f n (view s)).2;
  zadd_view k z m s : view (v_zadd k z m s) = kv_zadd k z m (view s);
  zrem_view k m s : view (v_zrem k m s) = kv_zrem k m (view s);
  zrangebyscore_view k b s : v_zrangebyscore k b s = kv_zrangebyscore k b (view s);
  sadd_view k m s : view (v_sadd k m s) = kv_sadd k m (view s);
  srem_view k m s : view (v_srem k m s) = kv_srem k m (view s);
  (** SMEMBERS promises no order. *)
  smembers_view k s : list_to_set (v_smembers k s) = members (view s) k;
  lpush_view k x s : view (v_lpush k x s) = kv_lpush k x (view s);
  rpop_view k s : view (v_rpop k s).1 = (kv_rpop k (view s)).1;
  rpop_reply k s : (v_rpop k s).2 = (kv_rpop k (view s)).2;
  ltrim_view k n s : view (v_ltrim k n s) = kv_ltrim k n (view s);
  lrange_view k n s : v_lrange k n s = take n (lst (view s) k);
}.

Create Rewrite HintDb valkey.

#[export] Hint Rewrite @get_view @set_view @set_nx_ex_view @set_nx_ex_reply @incrby_view @incrby_reply
  @del_view @exists_view @expire_view @publish_view @hset_view @hget_view @hincrby_view @hincrby_reply
  @zadd_view @zrem_view @zrangebyscore_view @sadd_view @srem_view @lpush_view @rpop_view @rpop_reply
  @ltrim_view @lrange_view using (typeclasses eauto) : valkey.

(** HMGET is one HGET per field. *)
Definition v_hmget `{Valkey} (k : string) (fields : list string) (s : store) : list (option string) :=
  (fun f => v_hget k f s) <$> fields.

Lemma hmget_view `{V : Valkey, !ValkeyLaws V} (k : string) (fields : list string) (s : store) :
  v_hmget k fields s = (fun f => hash (view s) k !! f) <$> fields.
Proof. unfold v_hmget. apply list_fmap_ext. intros. apply hget_view. Qed.

#[export] Hint Rewrite @hmget_view using (typeclasses eauto) : valkey.

(** ** What each command changes *)

(** The value HSET leaves in a field: the last one given for it. *)
Fixpoint field_value (f : string) (fvs : list (string * string)) : option string :=
  match fvs with
  | [] => None
  | (g, v) :: rest =>
      match field_value f rest with
      | Some w => Some w
      | None => if decide (g = f) then Some v else None
      end
  end.

Lemma hset_lookup (f : string) (fvs : list (string * string)) (h : gmap string string) :
  hset_fields fvs h !! f = match field_value f fvs with Some v => Some v | None => h !! f end.
Proof.
  unfold hset_fields. revert h. induction fvs as [| [g v] rest IH]; intros h; cbn; [done |].
  rewrite IH. destruct (field_value f rest); [done |]. rewrite lookup_insert. by case_decide.
Qed.

Lemma drop_ttl_frame (k : string) (s : kv) :
  strs (drop_ttl k s) = strs s /\ hashes (drop_ttl k s) = hashes s /\
  zsets (drop_ttl k s) = zsets s /\ sets (drop_ttl k s) = sets s /\
  lists (drop_ttl k s) = lists s /\ published (drop_ttl k s) = published s.
Proof. unfold drop_ttl. by case_cond. Qed.

Create Rewrite HintDb kv.

Section Frames.
Implicit Types (s : kv) (k m f : string).

Lemma hash_hset_eq k fvs s : hash (kv_hset k fvs s) k = hset_fields fvs (hash s k).
Proof. unfold hash, kv_hset; cbn. apply at_put_eq. Qed.

Lemma hash_hset_ne k k' fvs s : k <> k' -> hash (kv_hset k fvs s) k' = hash s k'.
Proof. intros. unfold hash, kv_hset; cbn. by apply at_put_ne. Qed.

Lemma zset_hset k fvs s k' : zset (kv_hset k fvs s) k' = zset s k'.
Proof. done. Qed.

Lemma strs_hset k fvs s : strs (kv_hset k fvs s) = strs s.
Proof. done. Qed.

Lemma zset_zadd_eq k z m s : zset (kv_zadd k z m s) k = <[m := z]> (zset s k).
Proof. unfold zset, kv_zadd; cbn. apply at_put_eq. Qed.

Lemma zset_zadd_ne k k' z m s : k <> k' -> zset (kv_zadd k z m s) k' = zset s k'.
Proof. intros. unfold zset, kv_zadd; cbn. by apply at_put_ne. Qed.

Lemma hash_zadd k z m s k' : hash (kv_zadd k z m s) k' = hash s k'.
Proof. done. Qed.

Lemma strs_zadd k z m s : strs (kv_zadd k z m s) = strs s.
Proof. done. Qed.

Lemma zset_zrem_eq k m s : zset (kv_zrem k m s) k = delete m (zset s k).
Proof.
  unfold zset, kv_zrem. rewrite (proj1 (proj2 (proj2 (drop_ttl_frame _ _)))). cbn. apply at_put_eq.
Qed.

Lemma zset_zrem_ne k k' m s : k <> k' -> zset (kv_zrem k m s) k' = zset s k'.
Proof.
  intros. unfold zset, kv_zrem. rewrite (proj1 (proj2 (proj2 (drop_ttl_frame _ _)))). cbn.
  by apply at_put_ne.
Qed.

Lemma hash_zrem k m s k' : hash (kv_zrem k m s) k' = hash s k'.
Proof. unfold hash, kv_zrem. by rewrite (proj1 (proj2 (drop_ttl_frame _ _))). Qed.

Lemma strs_zrem k m s : strs (kv_zrem k m s) = strs s.
Proof. unfold kv_zrem. by rewrite (proj1 (drop_ttl_frame _ _)). Qed.

Lemma hash_del_eq k s : hash (kv_del k s) k = ∅.
Proof. apply at_delete_eq. Qed.

Lemma hash_del_ne k k' s : k <> k' -> hash (kv_del k s) k' = hash s k'.
Proof. apply at_delete_ne. Qed.

Lemma zset_del_ne k k' s : k <> k' -> zset (kv_del k s) k' = zset s k'.
Proof. apply at_delete_ne. Qed.

Lemma strs_del k s : strs (kv_del k s) = delete k (strs s).
Proof. done. Qed.

Lemma strs_del_ne k k' s : k <> k' -> strs (kv_del k s) !! k' = strs s !! k'.
Proof. intros. cbn. by rewrite lookup_delete_ne. Qed.

Lemma expire_frame k t s :
  strs (kv_expire k t s) = strs s /\ hashes (kv_expire k t s) = hashes s /\
  zsets (kv_expire k t s) = zsets s.
Proof. unfold kv_expire. by case_cond. Qed.

Lemma hash_expire k t s k' : hash (kv_expire k t s) k' = hash s k'.
Proof. unfold hash. by rewrite (proj1 (proj2 (expire_frame k t s))). Qed.

Lemma zset_expire k t s k' : zset (kv_expire k t s) k' = zset s k'.
Proof. unfold zset. by rewrite (proj2 (proj2 (expire_frame k t s))). Qed.

Lemma strs_expire k t s : strs (kv_expire k t s) = strs s.
Proof. apply (expire_frame k t s). Qed.

Lemma hash_incrby k n s k' : hash (kv_incrby k n s).1 k' = hash s k'.
Proof. unfold kv_incrby. by destruct (incr_cell _ _). Qed.

Lemma zset_incrby k n s k' : zset (kv_incrby k n s).1 k' = zset s k'.
Proof. unfold kv_incrby. by destruct (incr_cell _ _). Qed.

Lemma zset_hincrby k f n s k' : zset (kv_hincrby k f n s).1 k' = zset s k'.
Proof. unfold kv_hincrby. by destruct (incr_cell _ _). Qed.

Lemma strs_hincrby k f n s : strs (kv_hincrby k f n s).1 = strs s.
Proof. unfold kv_hincrby. by destruct (incr_cell _ _). Qed.

Lemma hash_hincrby_ne k f n s k' : k <> k' -> hash (kv_hincrby k f n s).1 k' = hash s k'.
Proof.
  intros. unfold kv_hincrby. destruct (incr_cell _ _); [| done]. cbn. unfold hash; cbn.
  by apply at_put_ne.
Qed.

Lemma hincrby_ok k f n s z :
  (kv_hincrby k f n s).2 = Ok z ->
  hash (kv_hincrby k f n s).1 k = <[f := Z_to_string z]> (hash s k).
Proof.
  unfold kv_hincrby. destruct (incr_cell _ _) as [z' | e]; cbn; [| discriminate].
  intros [= ->]. unfold hash; cbn. apply at_put_eq.
Qed.
End Frames.

#[export] Hint Rewrite hash_hset_eq zset_hset strs_hset zset_zadd_eq hash_zadd strs_zadd zset_zrem_eq
  hash_zrem strs_zrem hash_del_eq strs_del hash_expire zset_expire strs_expire hash_incrby zset_incrby
  zset_hincrby strs_hincrby : kv.

(** The cell of an integer in range moves by the increment. *)
Lemma redis_int_to_string (z : Z) : in_i64 z = true -> redis_int (Z_to_string z) = Some z.
Proof.
  intros H. unfold redis_int. rewrite parse_i64_to_string by done. cbn. by rewrite bool_decide_eq_true_2.
Qed.

Lemma incr_cell_ok (z n : Z) :
  in_i64 z = true -> in_i64 (z + n) = true -> incr_cell (Some (Z_to_string z)) n = Ok (z + n).
Proof. intros Hz Hn. unfold incr_cell. by rewrite redis_int_to_string, Hn. Qed.

(** ** Ranges *)

Lemma string_leb_total (a b : string) : String.leb a b = true \/ String.leb b a = true.
Proof.
  unfold String.leb. rewrite (String.compare_antisym a b). by destruct (String.compare b a); auto.
Qed.

Lemma ascii_compare_trans_lt (a b c : ascii) :
  Ascii.compare a b = Lt -> Ascii.compare b c = Lt -> Ascii.compare a c = Lt.
Proof. unfold Ascii.compare. rewrite !N.compare_lt_iff. lia. Qed.

Lemma ascii_compare_refl (a : ascii) : Ascii.compare a a = Eq.
Proof. unfold Ascii.compare. apply N.compare_refl. Qed.

Lemma string_leb_trans (a b c : string) :
  String.leb a b = true -> String.leb b c = true -> String.leb a c = true.
Proof.
  revert b c. induction a as [| x a IH]; intros [| y b] [| z c]; try done.
  unfold String.leb in *. cbn [String.compare].
  destruct (Ascii.compare x y) eqn:Exy; try done; destruct (Ascii.compare y z) eqn:Eyz; try done.
  - apply Ascii.compare_eq_iff in Exy as ->, Eyz as ->. rewrite ascii_compare_refl. apply IH.
  - apply Ascii.compare_eq_iff in Exy as ->. by rewrite Eyz.
  - apply Ascii.compare_eq_iff in Eyz as ->. by rewrite Exy.
  - by rewrite (ascii_compare_trans_lt x y z).
Qed.

#[export] Instance by_score_total : Total by_score.
Proof.
  intros [m a] [m' b]. unfold by_score. cbn.
  destruct (Z.lt_trichotomy a b) as [? | [-> | ?]]; [tauto | | tauto].
  destruct (string_leb_total m m'); auto.
Qed.

#[export] Instance by_score_trans : Transitive by_score.
Proof.
  intros [m a] [m' b] [m'' c]. unfold by_score. cbn. intros [? | [-> ?]] [? | [-> ?]].
  1-3: left; lia.
  right. split; [done |]. by eapply string_leb_trans.
Qed.

Lemma ranked_perm (z : gmap string Z) : ranked z ≡ₚ map_to_list z.
Proof. apply merge_sort_Permutation. Qed.

Lemma elem_of_ranked (z : gmap string Z) (m : string) (x : Z) : (m, x) ∈ ranked z <-> z !! m = Some x.
Proof. rewrite ranked_perm. apply elem_of_map_to_list. Qed.

Lemma ranked_sorted (z : gmap string Z) : StronglySorted by_score (ranked z).
Proof. apply StronglySorted_merge_sort; apply _. Qed.

Lemma ranked_nodup (z : gmap string Z) : NoDup (ranked z).*1.
Proof. rewrite ranked_perm. apply NoDup_fst_map_to_list. Qed.

Lemma StronglySorted_filter {A} (R : A -> A -> Prop) (P : A -> Prop) `{!forall x, Decision (P x)}
    (l : list A) : StronglySorted R l -> StronglySorted R (filter P l).
Proof.
  induction 1 as [| x l _ IH Hx]; [constructor |].
  rewrite filter_cons. case_decide; [| done]. constructor; [done |].
  rewrite Forall_forall in *. intros y Hy. apply Hx. by apply list_elem_of_filter in Hy as [_ Hy].
Qed.

Lemma sublist_filter {A} (P : A -> Prop) `{!forall x, Decision (P x)} (l : list A) :
  filter P l `sublist_of` l.
Proof.
  induction l as [| x l IH]; [constructor |]. rewrite filter_cons.
  case_decide; by constructor.
Qed.

Lemma sublist_fmap {A B} (f : A -> B) (l k : list A) :
  l `sublist_of` k -> (f <$> l) `sublist_of` (f <$> k).
Proof. induction 1; cbn; by constructor. Qed.

(** A range lists exactly the members up to the bound, best score first, once each. *)
Lemma zrangebyscore_spec (k : string) (b : option Z) (s : kv) (m : string) :
  m ∈ kv_zrangebyscore k b s <-> exists x, zset s k !! m = Some x /\ up_to b (m, x).
Proof.
  unfold kv_zrangebyscore. rewrite list_elem_of_fmap. split.
  - intros ([m' x] & -> & Hin). apply list_elem_of_filter in Hin as [Hb Hin].
    apply elem_of_ranked in Hin. eauto.
  - intros (x & Hx & Hb). exists (m, x). split; [done |].
    apply list_elem_of_filter. by rewrite elem_of_ranked.
Qed.

Lemma zrangebyscore_nodup (k : string) (b : option Z) (s : kv) : NoDup (kv_zrangebyscore k b s).
Proof.
  unfold kv_zrangebyscore. eapply sublist_NoDup; [apply (ranked_nodup (zset s k)) |].
  apply sublist_fmap, sublist_filter.
Qed.

Lemma zrangebyscore_sorted (k : string) (b : option Z) (s : kv) :
  StronglySorted (fun m m' => exists x x', zset s k !! m = Some x /\ zset s k !! m' = Some x' /\
                                          by_score (m, x) (m', x'))
    (kv_zrangebyscore k b s).
Proof.
  unfold kv_zrangebyscore.
  pose proof (StronglySorted_filter by_score (up_to b) _ (ranked_sorted (zset s k))) as H.
  assert (Forall (fun e => zset s k !! e.1 = Some e.2) (filter (up_to b) (ranked (zset s k)))) as Hin.
  { apply Forall_forall. intros [m x] Hx. apply list_elem_of_filter in Hx as [_ Hx].
    by apply elem_of_ranked in Hx. }
  induction H as [| [m x] l _ IH Hx]; cbn; [constructor |].
  apply Forall_cons in Hin as [Hm Hl]. constructor; [by apply IH |].
  apply Forall_fmap. rewrite Forall_forall in *. intros [m' x'] Hin. cbn.
  exists x, x'. split; [done |]. split; [by apply (Hl (m', x')) | by apply (Hx (m', x'))].
Qed.

(** ** A reference instance *)

Module RefValkey.
#[export] Instance ref_valkey : Valkey := {
  store := kv;
  view s := s;
  v_get k s := strs s !! k;
  v_set := kv_set;
  v_set_nx_ex := kv_set_nx_ex;
  v_incrby := kv_incrby;
  v_del := kv_del;
  v_exists k s := kv_exists s k;
  v_expire := kv_expire;
  v_publish c m := add_msg (c, m);
  v_hset := kv_hset;
  v_hget k f s := hash s k !! f;
  v_hincrby := kv_hincrby;
  v_zadd := kv_zadd;
  v_zrem := kv_zrem;
  v_zrangebyscore := kv_zrangebyscore;
  v_sadd := kv_sadd;
  v_srem := kv_srem;
  v_smembers k s := elements (members s k);
  v_lpush := kv_lpush;
  v_rpop := kv_rpop;
  v_ltrim := kv_ltrim;
  v_lrange k n s := take n (lst s k);
}.

#[export] Instance ref_valkey_laws : ValkeyLaws ref_valkey.
Proof. constructor; try reflexivity. intros. cbn. apply list_to_set_elements_L. Qed.

Definition empty_store : @store ref_valkey := kv_empty.
End RefValkey.
