(* ===== verification/Codec.v ===== *)
(** * Order hashes ([crates/shared/src/cache.rs], the serialization helpers)

    An order is cached as a hash of thirteen string fields; the writer and the
    reader of that hash, the key names and the round trip between them. *)

From S2P Require Import Prelude Numbers Externals Fixed Types Valkey.

Open Scope Z_scope.

(** ** Keys *)

Module PairKeys.
Record t : Type := mk { bids_key : string; asks_key : string; version_key : string }.

Definition new (pair_id : string) : t :=
  mk ("book:" +:+ pair_id +:+ ":bids") ("book:" +:+ pair_id +:+ ":asks") ("version:" +:+ pair_id).
End PairKeys.

Definition book_key (pair_id : string) (side : Side) : string :=
  match side with
  | Buy => "book:" +:+ pair_id +:+ ":bids"
  | Sell => "book:" +:+ pair_id +:+ ":asks"
  end.

Definition version_key (pair_id : string) : string := "version:" +:+ pair_id.

(** The key of an order hash, from the text of its id. *)
Definition order_key_str (id : string) : string := "order:" +:+ id.

Definition order_key `{C : Crates} (id : uuid) : string := order_key_str (uuid_to_string id).

Definition balance_key (user_id asset : string) : string :=
  "balance:" +:+ user_id +:+ ":" +:+ asset.

Lemma order_key_book (id pair_id : string) (side : Side) : order_key_str id <> book_key pair_id side.
Proof. by destruct side. Qed.

Lemma order_key_version (id pair_id : string) : order_key_str id <> version_key pair_id.
Proof. done. Qed.

Lemma order_key_balance (id user asset : string) : order_key_str id <> balance_key user asset.
Proof. done. Qed.

Lemma order_key_str_inj (a b : string) : order_key_str a = order_key_str b -> a = b.
Proof. apply str_app_inj. Qed.

Lemma book_key_sides (pair_id : string) : book_key pair_id Buy <> book_key pair_id Sell.
Proof.
  cbn. intros H%str_app_inj. assert (":bids" = ":asks") as E; [by eapply str_app_inj | discriminate].
Qed.

#[export] Hint Resolve order_key_book order_key_version order_key_balance book_key_sides : sme.

(** ** Enum codes *)

Definition side_char (s : Side) : string := match s with Buy => "B" | Sell => "S" end.

Definition order_type_char (ot : OrderType) : string := match ot with Limit => "L" | Market => "M" end.

Definition tif_char (t : TimeInForce) : string := match t with GTC => "G" | IOC => "I" | FOK => "F" end.

Definition status_char (s : OrderStatus) : string :=
  match s with
  | New => "N"
  | PartiallyFilled => "PF"
  | Filled => "F"
  | Cancelled | Rejected => "C"
  end.

Definition stp_char (s : Stp.t) : string :=
  match s with
  | Stp.None => "N"
  | Stp.CancelMaker => "CM"
  | Stp.CancelTaker => "CT"
  | Stp.CancelBoth => "CB"
  end.

Definition parse_side (s : string) : option Side :=
  if decide (s = "B") then Some Buy else if decide (s = "S") then Some Sell else None.

Definition parse_order_type (s : string) : option OrderType :=
  if decide (s = "L") then Some Limit else if decide (s = "M") then Some Market else None.

Definition parse_tif (s : string) : option TimeInForce :=
  if decide (s = "G") then Some GTC else if decide (s = "I") then Some IOC
  else if decide (s = "F") then Some FOK else None.

(** An unknown status reads as [New]. *)
Definition parse_status (s : string) : OrderStatus :=
  if decide (s = "N") then New else if decide (s = "PF") then PartiallyFilled
  else if decide (s = "F") then Filled else if decide (s = "C") then Cancelled else New.

Definition parse_stp (s : string) : Stp.t :=
  if decide (s = "N") then Stp.None else if decide (s = "CM") then Stp.CancelMaker
  else if decide (s = "CT") then Stp.CancelTaker else if decide (s = "CB") then Stp.CancelBoth
  else Stp.None.

Definition ORDER_FIELDS : list string :=
  ["id"; "pair_id"; "side"; "order_type"; "tif"; "price_i"; "qty_i"; "remaining_i"; "status"; "stp";
   "user_id"; "ts_ms"; "version"].

Section Codec.
Context `{C : Crates}.

(** ** Reader *)

Definition parse_order_from_hmget (now : datetime) (values : list (option string)) : option Order.t :=
  let v (n : nat) : option string := mjoin (values !! n) in
  if (length values <? 13)%nat then None
  else
    id_str ← v 0%nat;
    if bool_decide (id_str = EmptyString) then None
    else
      id ← uuid_parse id_str;
      pair_id ← v 1%nat;
      side ← v 2%nat ≫= parse_side;
      order_type ← v 3%nat ≫= parse_order_type;
      tif ← v 4%nat ≫= parse_tif;
      price_i ← parse_i64 (default "0" (v 5%nat));
      qty_i ← v 6%nat ≫= parse_i64;
      remaining_i ← v 7%nat ≫= parse_i64;
      status ← parse_status <$> v 8%nat;
      stp_mode ← parse_stp <$> v 9%nat;
      user_id ← v 10%nat;
      ts_ms ← v 11%nat ≫= parse_i64;
      let version := default 1 (parse_i64 (default "1" (v 12%nat))) in
      let price :=
        if bool_decide (order_type = Market) || (price_i =? 0) then None
        else Some (i64_to_decimal price_i) in
      let created_at :=
        default now (timestamp_opt (Z.quot ts_ms 1000) ((Z.rem ts_ms 1000 * 1000000) mod 2 ^ 32)) in
      Some (Order.mk id user_id pair_id side order_type tif price (i64_to_decimal qty_i)
              (i64_to_decimal remaining_i) status stp_mode version 0 created_at created_at
              None None None None).

(** ** Writer *)

Definition price_i_of (o : Order.t) : Z :=
  match Order.price o with
  | Some p => decimal_to_i64 p
  | None => 0
  end.

(** The score of the book entry: an [i64] cast to [f64]. *)
Definition score_of (o : Order.t) : Z :=
  f64_of_Z (match Order.side o with
            | Buy => - price_i_of o
            | Sell => price_i_of o
            end).

Definition order_hash_fields (o : Order.t) : list (string * string) :=
  [("id", uuid_to_string (Order.id o));
   ("pair_id", Order.pair_id o);
   ("side", side_char (Order.side o));
   ("order_type", order_type_char (Order.order_type o));
   ("tif", tif_char (Order.tif o));
   ("price_i", Z_to_string (price_i_of o));
   ("qty_i", Z_to_string (decimal_to_i64 (Order.quantity o)));
   ("remaining_i", Z_to_string (decimal_to_i64 (Order.remaining o)));
   ("status", status_char (Order.status o));
   ("stp", stp_char (Order.stp_mode o));
   ("user_id", Order.user_id o);
   ("ts_ms", Z_to_string (timestamp_millis (Order.created_at o)));
   ("version", Z_to_string (Order.version o))].

(** ** Round trip *)

(** The fields of a written order, read back in the reader's order. *)
Lemma hset_order_fields (o : Order.t) (h : gmap string string) :
  (fun f => hset_fields (order_hash_fields o) h !! f) <$> ORDER_FIELDS
  = Some <$> (order_hash_fields o).*2.
Proof.
  unfold ORDER_FIELDS. cbn [fmap list_fmap]. rewrite !hset_lookup. reflexivity.
Qed.

Lemma parse_side_char (s : Side) : parse_side (side_char s) = Some s.
Proof. by destruct s. Qed.

Lemma parse_order_type_char (t : OrderType) : parse_order_type (order_type_char t) = Some t.
Proof. by destruct t. Qed.

Lemma parse_tif_char (t : TimeInForce) : parse_tif (tif_char t) = Some t.
Proof. by destruct t. Qed.

Lemma parse_stp_char (s : Stp.t) : parse_stp (stp_char s) = s.
Proof. by destruct s. Qed.

Lemma parse_status_char (s : OrderStatus) :
  parse_status (status_char s) = if decide (s = Rejected) then Cancelled else s.
Proof. by destruct s. Qed.

Context `{L : !CratesLaws C}.

(** The price the cache can hold: a limit price of at least one unit. *)
Definition cached_price (o : Order.t) : option decimal :=
  match Order.order_type o, Order.price o with
  | Limit, Some p => if units p =? 0 then None else Some p
  | _, _ => None
  end.

(** An order whose amounts and times the cache represents exactly. *)
Definition cacheable (o : Order.t) : Prop :=
  match Order.price o with Some p => on_grid p | None => True end /\
  on_grid (Order.quantity o) /\ on_grid (Order.remaining o) /\
  0 <= timestamp_millis (Order.created_at o) < 253402300800000 /\
  in_i64 (Order.version o) = true.

(** What reading back promises. *)
Record cached_as (o o' : Order.t) : Prop := {
  ca_id : Order.id o' = Order.id o;
  ca_user : Order.user_id o' = Order.user_id o;
  ca_pair : Order.pair_id o' = Order.pair_id o;
  ca_side : Order.side o' = Order.side o;
  ca_type : Order.order_type o' = Order.order_type o;
  ca_tif : Order.tif o' = Order.tif o;
  ca_stp : Order.stp_mode o' = Order.stp_mode o;
  ca_version : Order.version o' = Order.version o;
  ca_status : Order.status o' = if decide (Order.status o = Rejected) then Cancelled else Order.status o;
  ca_price : option_Forall2 dec_equiv (cached_price o) (Order.price o');
  ca_quantity : dec_equiv (Order.quantity o) (Order.quantity o');
  ca_remaining : dec_equiv (Order.remaining o) (Order.remaining o');
  ca_created : timestamp_millis (Order.created_at o') = timestamp_millis (Order.created_at o);
}.

(** Through the scaled integer and back. *)
Lemma decimal_i64_round_trip (d : decimal) :
  on_grid d ->
  parse_i64 (Z_to_string (decimal_to_i64 d)) = Some (units d) /\ dec_equiv d (i64_to_decimal (units d)).
Proof.
  intros Hd. rewrite decimal_to_i64_grid by done. destruct Hd as [Hv Hb].
  assert (in_i64 (units d) = true) as Hi.
  { apply in_i64_spec. unfold i64_min, i64_max. lia. }
  split; [by apply parse_i64_to_string |].
  unfold dec_equiv. rewrite Hv. symmetry. by apply i64_to_decimal_val.
Qed.

Lemma timestamp_round_trip (now : datetime) (ms : Z) :
  0 <= ms < 253402300800000 ->
  timestamp_millis (default now (timestamp_opt (Z.quot ms 1000) ((Z.rem ms 1000 * 1000000) mod 2 ^ 32)))
  = ms.
Proof.
  intros Hms.
  assert (Z.quot ms 1000 = ms / 1000) as -> by (apply Z.quot_div_nonneg; lia).
  assert (Z.rem ms 1000 = ms mod 1000) as -> by (apply Z.rem_mod_nonneg; lia).
  pose proof (Z.mod_pos_bound ms 1000 ltac:(lia)) as Hm.
  rewrite (Z.mod_small (_ * _)) by lia.
  destruct (timestamp_opt_some (ms / 1000) (ms mod 1000 * 1000000)) as (t & -> & Ht);
    [split; [apply Z.div_pos; lia | apply Z.div_lt_upper_bound; lia] | lia |].
  cbn. rewrite Ht. change (10 ^ 6) with 1000000. rewrite Z.div_mul by lia.
  pose proof (Z.div_mod ms 1000 ltac:(lia)). lia.
Qed.

(** What the writer stores, the reader returns. *)
Lemma parse_order_fields (now : datetime) (o : Order.t) :
  cacheable o ->
  exists o', parse_order_from_hmget now (Some <$> (order_hash_fields o).*2) = Some o' /\ cached_as o o'.
Proof.
  intros (Hp & Hq & Hr & Ht & Hv).
  destruct (decimal_i64_round_trip _ Hq) as [Eq Dq].
  destruct (decimal_i64_round_trip _ Hr) as [Er Dr].
  assert (exists pi, parse_i64 (Z_to_string (price_i_of o)) = Some pi /\
            option_Forall2 dec_equiv (cached_price o)
              (if bool_decide (Order.order_type o = Market) || (pi =? 0) then None
               else Some (i64_to_decimal pi))) as (pi & Ep & Dp).
  { unfold price_i_of, cached_price. destruct (Order.price o) as [p |].
    - destruct (decimal_i64_round_trip _ Hp) as [-> Dp]. exists (units p). split; [done |].
      destruct (Order.order_type o); cbn; [| constructor].
      destruct (units p =? 0); by constructor.
    - exists 0. split; [done |]. destruct (Order.order_type o); constructor. }
  eexists. split.
  - unfold parse_order_from_hmget, order_hash_fields. cbn.
    rewrite bool_decide_eq_false_2 by apply uuid_to_string_nonempty.
    rewrite uuid_parse_to_string. cbn.
    rewrite parse_side_char, parse_order_type_char, parse_tif_char. cbn.
    rewrite Ep. cbn. rewrite Eq. cbn. rewrite Er. cbn.
    rewrite (parse_i64_to_string (timestamp_millis _))
      by (apply in_i64_spec; unfold i64_min, i64_max; lia). cbn.
    rewrite parse_i64_to_string by done. reflexivity.
  - constructor; cbn; try done.
    + apply parse_stp_char.
    + apply parse_status_char.
    + by apply timestamp_round_trip.
Qed.

(** A hash without an id is no order, whatever else it holds. *)
Lemma parse_order_missing (now : datetime) (values : list (option string)) :
  mjoin (values !! 0%nat) = None -> parse_order_from_hmget now values = None.
Proof.
  intros H. unfold parse_order_from_hmget. case_cond; [done |]. by rewrite H.
Qed.
End Codec.
