(* ===== verification/Book.v ===== *)
(** * The order book cache ([crates/shared/src/cache.rs], the order book section)

    [book:{pair}:bids] and [book:{pair}:asks] are sorted sets of order ids, the
    score the price in units with the sign of the side; [order:{id}] is the
    hash of the order.  The book is coherent when every entry points to the hash
    of a limit order of that side with that score; loading a coherent book
    yields what the engine requires, an opposite side sorted best price first. *)

From S2P Require Import Prelude Numbers Externals Fixed Types Valkey Codec Engine EngineProps.

Open Scope Z_scope.

(** ZRANGEBYSCORE's LIMIT clause: a negative count means no limit. *)
Definition limit_clause {A} (offset count : Z) (l : list A) : list A :=
  if offset <? 0 then []
  else
    let l := drop (Z.to_nat offset) l in
    if count <? 0 then l else take (Z.to_nat count) l.

Definition CACHE_UPDATES_CHANNEL : string := "cache_updates".

Section Publish.
Context `{V : Valkey}.

Definition update_message (key value : string) : string := key +:+ String "010" value.

Definition set_and_publish (key value : string) (s : store) : store :=
  v_publish CACHE_UPDATES_CHANNEL (update_message key value) (v_set key value s).

Definition set_and_publish_batch (entries : list (string * string)) (s : store) : store :=
  fold_left (fun s e => set_and_publish e.1 e.2 s) entries s.
End Publish.

Section Book.
Context `{C : Crates, V : Valkey}.
Context (now : datetime).

(** One HMGET per id; missing or corrupt hashes are skipped. *)
Definition fetch_orders_by_ids (ids : list string) (s : store) : list Order.t :=
  omap (fun id => parse_order_from_hmget now (v_hmget (order_key_str id) ORDER_FIELDS s)) ids.

Definition load_order_book (pair_id : string) (side : Side) (s : store) : list Order.t :=
  fetch_orders_by_ids (v_zrangebyscore (book_key pair_id side) None s) s.

(** The bound of a range over one side: asks up to, bids down to the price. *)
Definition max_score (side : Side) (limit_price : option decimal) : option Z :=
  price ← limit_price;
  let price_i := decimal_to_i64 price in
  Some match side with
       | Sell => f64_of_Z price_i
       | Buy => - f64_of_Z price_i
       end.

Definition load_order_book_filtered (pair_id : string) (side : Side) (limit_price : option decimal)
    (s : store) : list Order.t :=
  fetch_orders_by_ids (v_zrangebyscore (book_key pair_id side) (max_score side limit_price) s) s.

Definition load_order_book_batched (pair_id : string) (side : Side) (offset count : Z) (s : store)
    : list Order.t :=
  fetch_orders_by_ids (limit_clause offset count (v_zrangebyscore (book_key pair_id side) None s)) s.

Definition save_order_to_book (o : Order.t) (s : store) : store :=
  let s := v_zadd (book_key (Order.pair_id o) (Order.side o)) (score_of o)
             (uuid_to_string (Order.id o)) s in
  v_hset (order_key (Order.id o)) (order_hash_fields o) s.

Definition remove_order_from_book (o : Order.t) (s : store) : store :=
  let s := v_zrem (book_key (Order.pair_id o) (Order.side o)) (uuid_to_string (Order.id o)) s in
  v_del (order_key (Order.id o)) s.

Definition get_order (id : uuid) (s : store) : option Order.t :=
  let values := v_hmget (order_key id) ORDER_FIELDS s in
  if forallb (fun v => bool_decide (v = None)) values then None
  else parse_order_from_hmget now values.

Definition increment_version (pair_id : string) (s : store) : store * result Z :=
  v_incrby (version_key pair_id) 1 s.

Definition get_version (pair_id : string) (s : store) : result Z :=
  match v_get (version_key pair_id) s with
  | None => Ok 0
  | Some v => ok_or (parse_i64 v) "GET version"
  end.

(** ** Seeding from the database *)

(** A row of the query on the orders table. *)
Record seed_row : Type := mk_seed_row {
  sr_id : uuid; sr_user_id : string; sr_pair_id : string; sr_side : string;
  sr_order_type : string; sr_tif : string; sr_price : option decimal; sr_quantity : decimal;
  sr_remaining : decimal; sr_status : string; sr_stp_mode : string; sr_version : Z;
  sr_created_at : datetime;
}.

Definition side_of_str (s : string) : option Side :=
  if decide (s = "Buy") then Some Buy else if decide (s = "Sell") then Some Sell else None.

Definition order_type_of_str (s : string) : option OrderType :=
  if decide (s = "Limit") then Some Limit else if decide (s = "Market") then Some Market else None.

Definition tif_of_str (s : string) : option TimeInForce :=
  if decide (s = "GTC") then Some GTC else if decide (s = "IOC") then Some IOC
  else if decide (s = "FOK") then Some FOK else None.

Definition stp_of_str (s : string) : Stp.t :=
  if decide (s = "CancelMaker") then Stp.CancelMaker
  else if decide (s = "CancelTaker") then Stp.CancelTaker
  else if decide (s = "CancelBoth") then Stp.CancelBoth else Stp.None.

(** The order of a row; rows with unknown enum spellings are skipped. *)
Definition order_of_row (r : seed_row) : option Order.t :=
  side ← side_of_str (sr_side r);
  order_type ← order_type_of_str (sr_order_type r);
  tif ← tif_of_str (sr_tif r);
  let status := if decide (sr_status r = "PartiallyFilled") then PartiallyFilled else New in
  Some (Order.mk (sr_id r) (sr_user_id r) (sr_pair_id r) side order_type tif (sr_price r)
          (sr_quantity r) (sr_remaining r) status (stp_of_str (sr_stp_mode r)) (sr_version r) 0
          (sr_created_at r) (sr_created_at r) None None None None).

(** The WHERE clause of the query. *)
Definition seed_selected (r : seed_row) : Prop :=
  (sr_status r = "New" \/ sr_status r = "PartiallyFilled") /\ sr_tif r = "GTC".

#[export] Instance seed_selected_dec (r : seed_row) : Decision (seed_selected r).
Proof. unfold seed_selected. apply _. Defined.

(** [orders] is the table in the order of [created_at]. *)
Definition seed_orderbook_from_pg (orders : list seed_row) (s : store) : store :=
  fold_left
    (fun s r => match order_of_row r with
                | Some o => save_order_to_book o s
                | None => s
                end)
    (filter seed_selected orders) s.
End Book.
