(* ===== verification/BookProps.v ===== *)
(** * Correctness of the book cache

    Saving, reading, removing and loading orders: round trips, frames, and the
    coherence of the book with the hashes it points to. *)

From S2P Require Import Prelude Numbers Externals Fixed Types Valkey Codec Engine EngineProps Book.

Open Scope Z_scope.

Section BookProps.
Context `{C : Crates, L : !CratesLaws C, V : Valkey, VL : !ValkeyLaws V}.
Context (now : datetime).

(** The stored text of the fields of an order hash. *)
Definition stored_fields (s : kv) (id : string) : list (option string) :=
  (fun f => hash s (order_key_str id) !! f) <$> ORDER_FIELDS.

(** The hash of [id] is what the writer stores for [o]. *)
Definition stored (s : kv) (id : string) (o : Order.t) : Prop :=
  stored_fields s id = Some <$> (order_hash_fields o).*2.

Lemma stored_hset (o : Order.t) (s : kv) (id : string) :
  stored (kv_hset (order_key_str id) (order_hash_fields o) s) id o.
Proof. unfold stored, stored_fields. rewrite hash_hset_eq. apply hset_order_fields. Qed.

Lemma stored_other (s s' : kv) (id : string) (o : Order.t) :
  hash s' (order_key_str id) = hash s (order_key_str id) -> stored s id o -> stored s' id o.
Proof. unfold stored, stored_fields. by intros ->. Qed.

Lemma stored_parse (s : store) (id : string) (o : Order.t) :
  cacheable o -> stored (view s) id o ->
  exists o', parse_order_from_hmget now (v_hmget (order_key_str id) ORDER_FIELDS s) = Some o' /\
             cached_as o o'.
Proof.
  intros Hc Hs. autorewrite with valkey. fold (stored_fields (view s) id). rewrite Hs.
  by apply parse_order_fields.
Qed.

(** The view after the two commands of a save and of a removal. *)
Definition kv_save (o : Order.t) (s : kv) : kv :=
  kv_hset (order_key (Order.id o)) (order_hash_fields o)
    (kv_zadd (book_key (Order.pair_id o) (Order.side o)) (score_of o) (uuid_to_string (Order.id o)) s).

Definition kv_remove (o : Order.t) (s : kv) : kv :=
  kv_del (order_key (Order.id o))
    (kv_zrem (book_key (Order.pair_id o) (Order.side o)) (uuid_to_string (Order.id o)) s).

Lemma save_view (o : Order.t) (s : store) : view (save_order_to_book o s) = kv_save o (view s).
Proof. unfold save_order_to_book. by autorewrite with valkey. Qed.

Lemma remove_view (o : Order.t) (s : store) : view (remove_order_from_book o s) = kv_remove o (view s).
Proof. unfold remove_order_from_book. by autorewrite with valkey. Qed.

(** An order saved to the book is read back by [get_order] with the same
    terms, the same remaining quantity and the same creation time. *)
Theorem get_order_save (o : Order.t) (s : store) :
  cacheable o ->
  exists o', get_order now (Order.id o) (save_order_to_book o s) = Some o' /\ cached_as o o'.
Proof.
  intros Hc.
  assert (stored (view (save_order_to_book o s)) (uuid_to_string (Order.id o)) o) as Hs.
  { rewrite save_view. apply stored_hset. }
  destruct (stored_parse _ _ _ Hc Hs) as (o' & Hp & Ho'). exists o'. split; [| done].
  unfold get_order, order_key. rewrite Hp. autorewrite with valkey.
  fold (stored_fields (view (save_order_to_book o s)) (uuid_to_string (Order.id o))).
  by rewrite Hs.
Qed.

(** A removed order is gone: [get_order] finds nothing and its side of
    the book no longer lists it; every other order's hash is untouched. *)
Theorem remove_order_gone (o : Order.t) (s : store) :
  get_order now (Order.id o) (remove_order_from_book o s) = None /\
  ~ (uuid_to_string (Order.id o) ∈
       v_zrangebyscore (book_key (Order.pair_id o) (Order.side o)) None (remove_order_from_book o s)) /\
  (forall id, id <> Order.id o -> get_order now id (remove_order_from_book o s) = get_order now id s).
Proof.
  split; [| split].
  - unfold get_order. autorewrite with valkey. rewrite remove_view. unfold kv_remove.
    rewrite hash_del_eq. reflexivity.
  - autorewrite with valkey. rewrite remove_view. intros (x & Hx & _)%zrangebyscore_spec.
    unfold kv_remove in Hx. rewrite zset_del_ne in Hx by apply order_key_book.
    rewrite zset_zrem_eq, lookup_delete_eq in Hx. discriminate.
  - intros id Hid. unfold get_order. autorewrite with valkey. rewrite remove_view. unfold kv_remove.
    rewrite hash_del_ne; [by rewrite hash_zrem |].
    intros E%order_key_str_inj%uuid_to_string_inj. congruence.
Qed.

(** ** Coherence *)

(** Limit orders whose price is an integer a double holds exactly. *)
Definition bookable (o : Order.t) : Prop :=
  cacheable o /\ Order.order_type o = Limit /\
  exists p, Order.price o = Some p /\ 0 < units p <= 2 ^ 53.

Definition book_entry (s : kv) (side : Side) (id : string) (score : Z) (o : Order.t) : Prop :=
  bookable o /\ uuid_to_string (Order.id o) = id /\ Order.side o = side /\ score = score_of o /\
  stored s id o.

Definition coherent (s : kv) (pair_id : string) (side : Side) : Prop :=
  forall id score, zset s (book_key pair_id side) !! id = Some score ->
    exists o, book_entry s side id score o.

Lemma bookable_score (o : Order.t) (p : decimal) :
  bookable o -> Order.price o = Some p ->
  score_of o = match Order.side o with Buy => - units p | Sell => units p end.
Proof.
  intros ((Hp & _) & _ & p' & E & Hu) Ep. rewrite Ep in Hp, E. injection E as <-.
  unfold score_of, price_i_of. rewrite Ep, decimal_to_i64_grid by done.
  apply f64_of_Z_exact. destruct (Order.side o); lia.
Qed.

(** What loading makes of one entry. *)
Definition loaded (s : kv) (pair_id : string) (side : Side) (id : string) (o' : Order.t) : Prop :=
  uuid_to_string (Order.id o') = id /\
  exists score p, zset s (book_key pair_id side) !! id = Some score /\ Order.price o' = Some p /\
    (dval p == match side with Buy => - score | Sell => score end # 100000000)%Q.

Lemma load_entry (s : store) (pair_id : string) (side : Side) (id : string) :
  coherent (view s) pair_id side ->
  id ∈ kv_zrangebyscore (book_key pair_id side) None (view s) ->
  exists o', parse_order_from_hmget now (v_hmget (order_key_str id) ORDER_FIELDS s) = Some o' /\
             loaded (view s) pair_id side id o'.
Proof.
  intros Hco (score & Hz & _)%zrangebyscore_spec.
  destruct (Hco _ _ Hz) as (o & Hb & Hid & Hside & Hscore & Hst).
  destruct (stored_parse s id o (proj1 Hb) Hst) as (o' & Hp & Ho').
  exists o'. split; [done |]. split; [by rewrite (ca_id _ _ Ho') |].
  destruct Hb as (Hc & Ht & p & Ep & Hu).
  pose proof (bookable_score o p (conj Hc (conj Ht (ex_intro _ p (conj Ep Hu)))) Ep) as Hsc.
  pose proof (ca_price _ _ Ho') as Hpr. unfold cached_price in Hpr.
  rewrite Ht, Ep, (proj2 (Z.eqb_neq _ _)) in Hpr by lia.
  inversion Hpr as [a p' Hpp Ea Ep' |]; subst a.
  exists score, p'. split; [done |]. split; [done |].
  destruct Hc as (Hpg & _). rewrite Ep in Hpg. destruct Hpg as [Hv _].
  unfold dec_equiv in Hpp. rewrite <- Hpp, Hv, Hscore, Hsc, Hside.
  destruct side; [by rewrite Z.opp_involutive | done].
Qed.

(** Loading one side of a coherent book returns exactly its entries, in the
    server's order, sorted best price first: the input [match_order] requires
    for an incoming order of the opposite side. *)
Theorem load_order_book_sorted (pair_id : string) (side : Side) (s : store) :
  coherent (view s) pair_id side ->
  let book := load_order_book now pair_id side s in
  (uuid_to_string ∘ Order.id <$> book) = v_zrangebyscore (book_key pair_id side) None s /\
  price_sorted (opposite side) book.
Proof.
  intros Hco. cbv zeta. unfold load_order_book. autorewrite with valkey.
  set (ids := kv_zrangebyscore (book_key pair_id side) None (view s)).
  assert (Forall2 (loaded (view s) pair_id side) ids (fetch_orders_by_ids now ids s)) as Hl.
  { apply omap_total. intros id Hid. by apply load_entry. }
  split.
  - clear -Hl. induction Hl as [| id o' l k [Hid _] _ IH]; cbn; [done |]. by rewrite <- IH, <- Hid.
  - eapply StronglySorted_Forall2; [| apply zrangebyscore_sorted | exact Hl].
    cbn. intros id id' a b (x & x' & Hx & Hx' & Hle) (_ & y & p & Hy & Hp & Hv) (_ & y' & p' & Hy' & Hp' & Hv').
    assert (y = x) as -> by congruence. assert (y' = x') as -> by congruence.
    assert (x <= x') as Hxx by (destruct Hle as [? | [? _]]; cbn in *; lia).
    unfold not_worse. rewrite Hp, Hp'.
    destruct side; cbn; rewrite Hv, Hv'; unfold Qle; cbn [Qnum Qden]; lia.
Qed.

(** Saving a limit order keeps a side of the book coherent: its own, and
    every other one that does not list the same id. *)
Theorem save_coherent (o : Order.t) (s : store) (pair_id : string) (side : Side) :
  bookable o -> coherent (view s) pair_id side ->
  (book_key pair_id side = book_key (Order.pair_id o) (Order.side o) /\ side = Order.side o) \/
  (book_key pair_id side <> book_key (Order.pair_id o) (Order.side o) /\
   zset (view s) (book_key pair_id side) !! uuid_to_string (Order.id o) = None) ->
  coherent (view (save_order_to_book o s)) pair_id side.
Proof.
  intros Hb Hco Hcase id score. rewrite save_view. unfold kv_save. rewrite zset_hset. intros Hz.
  destruct (decide (id = uuid_to_string (Order.id o))) as [-> | Hne].
  - destruct Hcase as [[Hk ->] | [Hk Hnone]].
    + exists o. rewrite Hk, zset_zadd_eq, lookup_insert_eq in Hz. injection Hz as <-.
      repeat split; try done; try apply Hb. apply stored_hset.
    + rewrite zset_zadd_ne in Hz by done. congruence.
  - assert (zset (view s) (book_key pair_id side) !! id = Some score) as Hold.
    { destruct Hcase as [[Hk _] | [Hk _]].
      - by rewrite Hk, zset_zadd_eq, lookup_insert_ne, <- Hk in Hz.
      - by rewrite zset_zadd_ne in Hz. }
    destruct (Hco _ _ Hold) as (x & Hx & Hid & Hs & Hsc & Hst).
    exists x. repeat split; try done; try apply Hx.
    eapply stored_other; [| exact Hst]. unfold order_key.
    by rewrite hash_hset_ne by (intros E%order_key_str_inj; congruence).
Qed.

(** Removing an order keeps a side of the book coherent: its own, and every
    other one that does not list the same id. *)
Theorem remove_coherent (o : Order.t) (s : store) (pair_id : string) (side : Side) :
  coherent (view s) pair_id side ->
  book_key pair_id side = book_key (Order.pair_id o) (Order.side o) \/
  zset (view s) (book_key pair_id side) !! uuid_to_string (Order.id o) = None ->
  coherent (view (remove_order_from_book o s)) pair_id side.
Proof.
  intros Hco Hcase id score. rewrite remove_view. unfold kv_remove.
  rewrite zset_del_ne by apply order_key_book. intros Hz.
  assert (zset (view s) (book_key pair_id side) !! id = Some score /\ id <> uuid_to_string (Order.id o))
    as [Hold Hne].
  { destruct (decide (book_key pair_id side = book_key (Order.pair_id o) (Order.side o))) as [Hk | Hk].
    - rewrite Hk, zset_zrem_eq in Hz. apply lookup_delete_Some in Hz as [? ?]. by rewrite Hk.
    - rewrite zset_zrem_ne in Hz by done. split; [done |]. intros ->.
      destruct Hcase; congruence. }
  destruct (Hco _ _ Hold) as (x & Hx & Hid & Hs & Hsc & Hst).
  exists x. repeat split; try done; try apply Hx.
  eapply stored_other; [| exact Hst]. unfold order_key.
  rewrite hash_del_ne by (intros E%order_key_str_inj; congruence). apply hash_zrem.
Qed.
End BookProps.

(** ** Concrete books *)

Module BookExamples.
Import RefCrates RefValkey EngineExamples.

Definition ask (i : positive) (price qty : Q) (created : Z) : @Order.t ref_crates :=
  @Order.mk ref_crates i "maker" "BTC-USDT" Sell Limit GTC (Some price) qty qty New Stp.None 1 0
    created created None None None None.

Lemma ask_bookable : bookable (ask 11 100 1 0).
Proof. split; [concrete | split; [done | eexists; split; [done | concrete]]]. Qed.

Lemma empty_coherent (pair_id : string) (side : Side) : coherent kv_empty pair_id side.
Proof. intros id score H. unfold zset, at_key in H. cbn in H. rewrite lookup_empty in H. discriminate. Qed.

Lemma get_order_save_witness :
  exists o', get_order (0 : @datetime ref_crates) (11%positive : @uuid ref_crates) (save_order_to_book (ask 11 100 1 0) empty_store) = Some o' /\
             cached_as (ask 11 100 1 0) o'.
Proof. exact (get_order_save (0 : @datetime ref_crates) (ask 11 100 1 0) empty_store (proj1 ask_bookable)). Defined.

Lemma save_coherent_witness :
  coherent (view (save_order_to_book (ask 11 100 1 0) empty_store)) "BTC-USDT" Sell.
Proof.
  apply (save_coherent (ask 11 100 1 0) empty_store "BTC-USDT" Sell ask_bookable).
  - apply empty_coherent.
  - left. split; reflexivity.
Defined.

Lemma remove_coherent_witness :
  coherent (view (remove_order_from_book (ask 11 100 1 0) empty_store)) "BTC-USDT" Sell.
Proof.
  apply (remove_coherent (ask 11 100 1 0) empty_store "BTC-USDT" Sell).
  - apply empty_coherent.
  - left. reflexivity.
Defined.

Definition one_ask : @store ref_valkey := save_order_to_book (ask 11 100 1 0) empty_store.

Lemma load_order_book_sorted_witness :
  (uuid_to_string ∘ Order.id <$> load_order_book 0 "BTC-USDT" Sell one_ask)
    = v_zrangebyscore "book:BTC-USDT:asks" None one_ask /\
  price_sorted Buy (load_order_book 0 "BTC-USDT" Sell one_ask).
Proof.
  apply (load_order_book_sorted (0 : @datetime ref_crates) "BTC-USDT" Sell one_ask).
  apply (save_coherent (ask 11 100 1 0) empty_store "BTC-USDT" Sell ask_bookable).
  - apply empty_coherent.
  - left. split; reflexivity.
Defined.

(** Equal prices are listed by the text of the id, not by age: the order of
    the first second loses to one created an hour later. *)
Lemma load_order_book_not_fifo :
  timestamp_millis <$> (Order.created_at <$>
    load_order_book 0 "BTC-USDT" Sell
      (save_order_to_book (ask 12 100 1 (3600 * 10 ^ 9))
         (save_order_to_book (ask 13 100 1 (10 ^ 9)) empty_store)))
  = [3600000; 1000].
Proof. vm_compute. reflexivity. Qed.
End BookExamples.
