(* ===== verification/MatchLua.v ===== *)
(** * The atomic match ([lua/match_order.lua] and [match_order_lua] of [cache.rs])

    The script locks the taker's balance, walks up to fifty resting orders of
    the opposite side in score order, applies the time-in-force rule, rests the
    remainder and bumps the book version; Valkey runs it atomically, so it is
    one function on the store.  An error raised by a command aborts the script
    and keeps the effects so far, so the store comes back beside the result.
    Lua numbers are doubles: the amounts are integers, rounded by [f64_of_Z]
    where an operation may round, and printed by [tostring] (%.14g). *)

From S2P Require Import Prelude Numbers Externals Fixed Types Valkey Codec Book.

Open Scope Z_scope.

(** The declared keys, and the arguments the script receives. *)
Module Keys.
Record t : Type := mk { bids : string; asks : string; version : string; order : string }.
End Keys.

Module Argv.
Record t : Type := mk {
  order_id : string;
  side : string;
  order_type : string;
  tif : string;
  price_i : string;
  qty_i : string;
  user_id : string;
  stp_mode : string;
  ts_ms : string;
  pair_id : string;
  score : Z;
  max_score : option Z;
  lock_asset : string;
  lock_amount : string;
}.
End Argv.

(** One entry of the script's trade table. *)
Module LTrade.
Record t : Type := mk {
  resting_id : string;
  price_i : Z;
  qty_i : Z;
  buyer_id : string;
  seller_id : string;
}.
End LTrade.

(** The fields of a resting order the loop reads, with its defaults. *)
Module Resting.
Record t : Type := mk {
  price_i : Z;
  remaining_i : Z;
  user_id : string;
  stp : string;
  status : string;
  order_type : string;
}.
End Resting.

(** Subtraction of doubles. *)
Definition lua_sub (a b : Z) : Z := f64_of_Z (a - b).

(** A Lua number as a command argument is printed with 17 significant digits;
    beyond them the text is no integer. *)
Definition lua_int_arg (z : Z) : option Z := if Z.abs z <? 10 ^ 17 then Some z else None.

Definition MATCH_LIMIT : Z := 50.

(** The locals of the loop beside the store. *)
Module LState.
Section LState.
Context `{V : Valkey}.
Record t : Type := mk {
  st : store;
  remaining_i : Z;
  status : string;
  trades : list LTrade.t;
  match_break : bool;
}.
End LState.
End LState.

Section Script.
Context `{V : Valkey}.

Definition lua_hincrby (key field : string) (n : Z) (s : store) : store * result Z :=
  match lua_int_arg n with
  | Some n => v_hincrby key field n s
  | None => (s, Err not_an_integer)
  end.

(** ** Balance lock: [Ok false] when the balance is short. *)
Definition lock_balance (a : Argv.t) (s : store) : store * result bool :=
  match lua_tonumber (Argv.lock_amount a) with
  | None => (s, Ok true)
  | Some lock_amount =>
      if bool_decide (Argv.lock_asset a = EmptyString) || negb (0 <? lock_amount) then (s, Ok true)
      else
        let bal_key := balance_key (Argv.user_id a) (Argv.lock_asset a) in
        match lua_tonumber (default "0" (v_hget bal_key "available" s)) with
        | None => (s, Err "attempt to compare nil with number")
        | Some avail =>
            if avail <? lock_amount then (s, Ok false)
            else
              match lua_hincrby bal_key "available" (- lock_amount) s with
              | (s, Err e) => (s, Err e)
              | (s, Ok _) =>
                  match lua_hincrby bal_key "locked" lock_amount s with
                  | (s, Err e) => (s, Err e)
                  | (s, Ok _) => (s, Ok true)
                  end
              end
        end
  end.

(** ** The match loop *)

Definition read_resting (rkey : string) (s : store) : Resting.t :=
  let num (f : string) := default 0 (v_hget rkey f s ≫= lua_tonumber) in
  let txt (f d : string) := default d (v_hget rkey f s) in
  Resting.mk (num "price_i") (num "remaining_i") (txt "user_id" "") (txt "stp" "N")
    (txt "status" "") (txt "order_type" "L").

Definition crosses (a : Argv.t) (price_i : Z) (r : Resting.t) : bool :=
  if decide (Argv.order_type a = "M") then true
  else if decide (Argv.side a = "B") then Resting.price_i r <=? price_i
  else price_i <=? Resting.price_i r.

Definition ghost (r : Resting.t) : bool :=
  bool_decide (Resting.status r = "F") || bool_decide (Resting.status r = "C")
  || (Resting.remaining_i r <=? 0).

(** The self-trade prevention of the pair; only the codes below act. *)
Definition combined_stp (a : Argv.t) (r : Resting.t) : string :=
  if decide (Argv.stp_mode a = "N") then Resting.stp r else Argv.stp_mode a.

Definition trade_of (a : Argv.t) (price_i : Z) (rid : string) (r : Resting.t) (fill_i : Z) : LTrade.t :=
  let trade_price_i := if decide (Resting.order_type r = "M") then price_i else Resting.price_i r in
  if decide (Argv.side a = "B")
  then LTrade.mk rid trade_price_i fill_i (Argv.user_id a) (Resting.user_id r)
  else LTrade.mk rid trade_price_i fill_i (Resting.user_id r) (Argv.user_id a).

Definition drop_resting (opp_key rid : string) (s : store) : store :=
  v_del (order_key_str rid) (v_zrem opp_key rid s).

Definition fill_resting (a : Argv.t) (price_i : Z) (opp_key rid : string) (r : Resting.t)
    (L : LState.t) : LState.t :=
  let remaining_i := LState.remaining_i L in
  let fill_i := if Resting.remaining_i r <? remaining_i then Resting.remaining_i r else remaining_i in
  let new_r_remaining_i := lua_sub (Resting.remaining_i r) fill_i in
  let s :=
    if new_r_remaining_i <=? 0 then drop_resting opp_key rid (LState.st L)
    else v_hset (order_key_str rid)
           [("remaining_i", lua_tostring new_r_remaining_i); ("status", "PF")] (LState.st L) in
  LState.mk s (lua_sub remaining_i fill_i) (LState.status L)
    (LState.trades L ++ [trade_of a price_i rid r fill_i]) (LState.match_break L).

(** The body of the loop for one candidate. *)
Definition match_one (a : Argv.t) (price_i : Z) (opp_key rid : string) (L : LState.t) : LState.t :=
  let s := LState.st L in
  let r := read_resting (order_key_str rid) s in
  if ghost r then L
  else if negb (crosses a price_i r) then
    LState.mk s (LState.remaining_i L) (LState.status L) (LState.trades L) true
  else if decide (Argv.user_id a = Resting.user_id r) then
    if decide (combined_stp a r = "CM") then
      LState.mk (drop_resting opp_key rid s) (LState.remaining_i L) (LState.status L)
        (LState.trades L) (LState.match_break L)
    else if decide (combined_stp a r = "CT") then LState.mk s 0 "C" (LState.trades L) true
    else if decide (combined_stp a r = "CB") then
      LState.mk (drop_resting opp_key rid s) 0 "C" (LState.trades L) true
    else fill_resting a price_i opp_key rid r L
  else fill_resting a price_i opp_key rid r L.

Fixpoint match_loop (a : Argv.t) (price_i : Z) (opp_key : string) (ids : list string)
    (L : LState.t) : LState.t :=
  match ids with
  | [] => L
  | rid :: rest =>
      if (LState.remaining_i L <=? 0) || LState.match_break L then L
      else match_loop a price_i opp_key rest (match_one a price_i opp_key rid L)
  end.

(** ** Time in force *)

Definition final_status (tif status : string) (qty_i remaining_i : Z) : string :=
  let status :=
    if decide (status = "C") then status
    else if remaining_i <=? 0 then "F"
    else if remaining_i <? qty_i then "PF"
    else "N" in
  if bool_decide (tif = "I") && (0 <? remaining_i) && negb (bool_decide (status = "C")) then "C"
  else status.

Definition rests (tif status : string) (remaining_i : Z) : bool :=
  bool_decide (tif = "G") && (0 <? remaining_i) && negb (bool_decide (status = "C")).

(** The hash of a resting incoming order. *)
Definition rest_fields (a : Argv.t) (price_i qty_i remaining_i : Z) (status : string)
    : list (string * string) :=
  [("id", Argv.order_id a); ("pair_id", Argv.pair_id a); ("side", Argv.side a);
   ("order_type", Argv.order_type a); ("tif", Argv.tif a); ("price_i", lua_tostring price_i);
   ("qty_i", lua_tostring qty_i); ("remaining_i", lua_tostring remaining_i); ("status", status);
   ("stp", Argv.stp_mode a); ("user_id", Argv.user_id a); ("ts_ms", Argv.ts_ms a); ("version", "1")].

Definition rest_order (k : Keys.t) (own_key : string) (a : Argv.t) (price_i qty_i remaining_i : Z)
    (status : string) (s : store) : store :=
  let s := v_zadd own_key (Argv.score a) (Argv.order_id a) s in
  let s := v_hset (Keys.order k) (rest_fields a price_i qty_i remaining_i status) s in
  v_expire (Keys.order k) 3600 s.

Definition reply (remaining_i : Z) (status : string) (trades : list LTrade.t) : list string :=
  ["OK"; lua_tostring remaining_i; status; lua_tostring (Z.of_nat (length trades))] ++
  mjoin ((fun t => [LTrade.resting_id t; lua_tostring (LTrade.price_i t); lua_tostring (LTrade.qty_i t);
                    LTrade.buyer_id t; LTrade.seller_id t]) <$> trades).

Definition opp_key (k : Keys.t) (a : Argv.t) : string :=
  if decide (Argv.side a = "B") then Keys.asks k else Keys.bids k.

Definition own_key (k : Keys.t) (a : Argv.t) : string :=
  if decide (Argv.side a = "B") then Keys.bids k else Keys.asks k.

(** The candidates, and the loop over them. *)
Definition run_loop (k : Keys.t) (a : Argv.t) (price_i qty_i : Z) (s : store) : LState.t :=
  let resting_ids :=
    limit_clause 0 MATCH_LIMIT (v_zrangebyscore (opp_key k a) (Argv.max_score a) s) in
  match_loop a price_i (opp_key k a) resting_ids (LState.mk s qty_i "N" [] false).

(** What follows the loop. *)
Definition finish (k : Keys.t) (a : Argv.t) (price_i qty_i : Z) (L : LState.t)
    : store * result (list string) :=
  let remaining_i := LState.remaining_i L in
  let status := final_status (Argv.tif a) (LState.status L) qty_i remaining_i in
  let s :=
    if rests (Argv.tif a) status remaining_i
    then rest_order k (own_key k a) a price_i qty_i remaining_i status (LState.st L)
    else LState.st L in
  match v_incrby (Keys.version k) 1 s with
  | (s, Err e) => (s, Err e)
  | (s, Ok _) => (s, Ok (reply remaining_i status (LState.trades L)))
  end.

Definition match_order_script (k : Keys.t) (a : Argv.t) (s : store) : store * result (list string) :=
  let price_i := default 0 (lua_tonumber (Argv.price_i a)) in
  match lock_balance a s with
  | (s, Err e) => (s, Err e)
  | (s, Ok false) => (s, Ok ["INSUFFICIENT_BALANCE"])
  | (s, Ok true) =>
      match lua_tonumber (Argv.qty_i a) with
      | None => (s, Err "attempt to compare nil with number")
      | Some qty_i => finish k a price_i qty_i (run_loop k a price_i qty_i s)
      end
  end.
End Script.

(** ** The caller *)

Module LuaTrade.
Section LuaTrade.
Context `{C : Crates}.
Record t : Type := mk {
  resting_order_id : uuid;
  price : decimal;
  quantity : decimal;
  buyer_id : string;
  seller_id : string;
}.
End LuaTrade.
End LuaTrade.

Module LuaMatchResult.
Section LuaMatchResult.
Context `{C : Crates}.
Record t : Type := mk {
  remaining : decimal;
  status : OrderStatus;
  trades : list LuaTrade.t;
}.
End LuaMatchResult.
End LuaMatchResult.

Section Caller.
Context `{C : Crates}.

Definition lua_argv (o : Order.t) (lock_asset : string) (lock_amount_scaled : Z) : Argv.t :=
  let max_score :=
    match Order.side o, Order.price o with
    | Buy, Some price => Some (f64_of_Z (decimal_to_i64 price))
    | Sell, Some price => Some (- f64_of_Z (decimal_to_i64 price))
    | _, None => None
    end in
  Argv.mk (uuid_to_string (Order.id o)) (side_char (Order.side o)) (order_type_char (Order.order_type o))
    (tif_char (Order.tif o)) (Z_to_string (price_i_of o)) (Z_to_string (decimal_to_i64 (Order.quantity o)))
    (Order.user_id o) (stp_char (Order.stp_mode o)) (Z_to_string (timestamp_millis (Order.created_at o)))
    (Order.pair_id o) (score_of o) max_score lock_asset (Z_to_string lock_amount_scaled).

Definition lua_keys (o : Order.t) (k : PairKeys.t) : Keys.t :=
  Keys.mk (PairKeys.bids_key k) (PairKeys.asks_key k) (PairKeys.version_key k) (order_key (Order.id o)).

Definition lua_status (s : string) : result OrderStatus :=
  if decide (s = "N") then Ok New else if decide (s = "PF") then Ok PartiallyFilled
  else if decide (s = "F") then Ok Filled else if decide (s = "C") then Ok Cancelled
  else Err ("unknown status from Lua: " +:+ s).

(** The five fields of one trade. *)
Definition parse_lua_trade (id p q b sl : string) : result LuaTrade.t :=
  id ← ok_or (uuid_parse id) "invalid resting_id UUID";
  p ← ok_or (parse_i64 p) "invalid price_i";
  q ← ok_or (parse_i64 q) "invalid qty_i";
  mret (LuaTrade.mk id (i64_to_decimal p) (i64_to_decimal q) b sl).

Fixpoint parse_lua_trades (n : nat) (items : list string) : result (list LuaTrade.t) :=
  match n with
  | O => mret []
  | S n =>
      match items with
      | id :: p :: q :: b :: sl :: rest =>
          t ← parse_lua_trade id p q b sl;
          ts ← parse_lua_trades n rest;
          mret (t :: ts)
      | _ => Err "missing resting_id"
      end
  end.

(** The reply of the script is an array of strings. *)
Definition parse_lua_reply (lock_asset user_id : string) (items : list string)
    : result LuaMatchResult.t :=
  _ ← bail_if (bool_decide (head items = Some "INSUFFICIENT_BALANCE"))
        ("INSUFFICIENT_BALANCE: insufficient " +:+ lock_asset +:+ " for user " +:+ user_id);
  match items with
  | ok_str :: rem :: st :: cnt :: rest =>
      _ ← bail_if (negb (bool_decide (ok_str = "OK"))) ("Lua script returned error: " +:+ ok_str);
      let remaining_i := default 0 (parse_i64 rem) in
      status ← lua_status st;
      let trade_count := default 0 (parse_usize cnt) in
      _ ← bail_if (Z.of_nat (length items) <? 4 + trade_count * 5) "Lua returned too few items";
      trades ← parse_lua_trades (Z.to_nat trade_count) rest;
      mret (LuaMatchResult.mk (i64_to_decimal remaining_i) status trades)
  | _ => Err "Lua script returned too few fields"
  end.

Definition match_order_lua `{V : Valkey} (o : Order.t) (k : PairKeys.t) (lock_asset : string)
    (lock_amount_scaled : Z) (s : store) : store * result LuaMatchResult.t :=
  match match_order_script (lua_keys o k) (lua_argv o lock_asset lock_amount_scaled) s with
  | (s, Err e) => (s, Err ("Lua match_order EVAL: " +:+ e))
  | (s, Ok items) => (s, parse_lua_reply lock_asset (Order.user_id o) items)
  end.
End Caller.
