(* ===== verification/MatchLuaProps.v ===== *)
(** * Correctness of the atomic match

    The loop: what it does to each candidate, to the rest of the store and to
    the quantities; the balance lock; the time-in-force rule; the reply and its
    parser.  Amounts below 2^53 are exact doubles; amounts below 10^14 (a
    million units of the asset) also survive [tostring]. *)

From S2P Require Import Prelude Numbers Externals Fixed Types Valkey Codec Book MatchLua.

Open Scope Z_scope.

Definition max_exact : Z := 2 ^ 53.

Section Loop.
Context `{V : Valkey, VL : !ValkeyLaws V}.
Context (a : Argv.t) (price_i : Z) (opp : string).
Context (Hopp : forall id, order_key_str id <> opp).

(** A resting order as its hash determines it. *)
Definition resting_of (h : gmap string string) : Resting.t :=
  let num (f : string) := default 0 (h !! f ≫= lua_tonumber) in
  let txt (f d : string) := default d (h !! f) in
  Resting.mk (num "price_i") (num "remaining_i") (txt "user_id" "") (txt "stp" "N")
    (txt "status" "") (txt "order_type" "L").

Definition resting (s : kv) (id : string) : Resting.t := resting_of (hash s (order_key_str id)).

Lemma read_resting_view (s : store) (id : string) :
  read_resting (order_key_str id) s = resting (view s) id.
Proof. unfold read_resting. by autorewrite with valkey. Qed.

(** Everything the loop may see or change of one candidate. *)
Definition cell (s : kv) (id : string) : gmap string string * option Z :=
  (hash s (order_key_str id), zset s opp !! id).

(** A run that changes no more than these candidates. *)
Definition clear_of (ids : list string) (k : string) : Prop :=
  forall id, id ∈ ids -> k <> order_key_str id.

Record only_touches (ids : list string) (s s' : kv) : Prop := {
  ot_strs k : clear_of ids k -> strs s' !! k = strs s !! k;
  ot_hash k : clear_of ids k -> hash s' k = hash s k;
  ot_zset k : k <> opp -> clear_of ids k -> zset s' k = zset s k;
  ot_members id : ~ (id ∈ ids) -> zset s' opp !! id = zset s opp !! id;
}.

Lemma clear_of_cons (id : string) (ids : list string) (k : string) :
  clear_of (id :: ids) k -> clear_of [id] k /\ clear_of ids k.
Proof.
  intros H. split; intros i Hi; apply H; [| by right].
  apply list_elem_of_singleton in Hi as ->. by left.
Qed.

Lemma clear_of_one (id k : string) : clear_of [id] k -> order_key_str id <> k.
Proof. intros H E. by apply (H id); [left |]. Qed.

Lemma only_touches_refl (ids : list string) (s : kv) : only_touches ids s s.
Proof. by constructor. Qed.

Lemma only_touches_trans (id : string) (ids : list string) (s1 s2 s3 : kv) :
  only_touches [id] s1 s2 -> only_touches ids s2 s3 -> only_touches (id :: ids) s1 s3.
Proof.
  intros H1 H2. constructor.
  - intros k [? ?]%clear_of_cons. by rewrite (ot_strs _ _ _ H2), (ot_strs _ _ _ H1).
  - intros k [? ?]%clear_of_cons. by rewrite (ot_hash _ _ _ H2), (ot_hash _ _ _ H1).
  - intros k Hk [? ?]%clear_of_cons. by rewrite (ot_zset _ _ _ H2), (ot_zset _ _ _ H1).
  - intros i Hi. apply not_elem_of_cons in Hi as [Hne Hi].
    rewrite (ot_members _ _ _ H2) by done. apply (ot_members _ _ _ H1).
    by rewrite list_elem_of_singleton.
Qed.

Lemma only_touches_cell (ids : list string) (s s' : kv) (id : string) :
  only_touches ids s s' -> ~ (id ∈ ids) -> cell s' id = cell s id.
Proof.
  intros H Hid. unfold cell. rewrite (ot_members _ _ _ H) by done.
  rewrite (ot_hash _ _ _ H); [done |]. intros i Hi E%order_key_str_inj. congruence.
Qed.

Lemma drop_resting_touches (id : string) (s : store) :
  only_touches [id] (view s) (view (drop_resting opp id s)) /\
  cell (view (drop_resting opp id s)) id = (∅, None).
Proof.
  unfold drop_resting. autorewrite with valkey. split.
  - constructor; intros k.
    + intros Hk%clear_of_one. rewrite strs_del_ne by done. by autorewrite with kv.
    + intros Hk%clear_of_one. rewrite hash_del_ne by done. by autorewrite with kv.
    + intros Hopp' Hk%clear_of_one. rewrite zset_del_ne by done. by rewrite zset_zrem_ne.
    + intros Hk. rewrite list_elem_of_singleton in Hk.
      rewrite zset_del_ne, zset_zrem_eq by apply Hopp. by rewrite lookup_delete_ne.
  - unfold cell. rewrite hash_del_eq, zset_del_ne, zset_zrem_eq by apply Hopp.
    by rewrite lookup_delete_eq.
Qed.

Lemma hset_resting_touches (id : string) (fvs : list (string * string)) (s : store) :
  only_touches [id] (view s) (view (v_hset (order_key_str id) fvs s)) /\
  cell (view (v_hset (order_key_str id) fvs s)) id
    = (hset_fields fvs (hash (view s) (order_key_str id)), zset (view s) opp !! id).
Proof.
  autorewrite with valkey. split.
  - constructor; intros k; try done. intros Hk%clear_of_one. by rewrite hash_hset_ne.
  - unfold cell. by rewrite hash_hset_eq.
Qed.

(** ** One candidate *)

(** Self-trade prevention does not apply to the candidate. *)
Definition stp_free (r : Resting.t) : Prop :=
  Argv.user_id a = Resting.user_id r -> ~ (combined_stp a r ∈ ["CM"; "CT"; "CB"]).

Definition tradable (r : Resting.t) : Prop :=
  ghost r = false /\ crosses a price_i r = true /\ stp_free r.

(** What can become of a candidate: its trades, and its cell afterwards. *)
Inductive fate (id : string) (r : Resting.t) (c c' : gmap string string * option Z)
    : list LTrade.t -> Prop :=
| kept : c' = c -> fate id r c c' []
| self_traded : Argv.user_id a = Resting.user_id r -> c' = (∅, None) -> fate id r c c' []
| consumed :
    tradable r -> 0 < Resting.remaining_i r -> c' = (∅, None) ->
    fate id r c c' [trade_of a price_i id r (Resting.remaining_i r)]
| reduced q :
    tradable r -> 0 < q < Resting.remaining_i r ->
    c' = (hset_fields [("remaining_i", lua_tostring (Resting.remaining_i r - q)); ("status", "PF")] c.1,
          c.2) ->
    fate id r c c' [trade_of a price_i id r q].

Definition filled (ts : list LTrade.t) : Z := sumZ (LTrade.qty_i <$> ts).

Lemma filled_app (ts us : list LTrade.t) : filled (ts ++ us) = filled ts + filled us.
Proof. unfold filled. by rewrite fmap_app, sumZ_app. Qed.

Lemma trade_of_qty (id : string) (r : Resting.t) (q : Z) : LTrade.qty_i (trade_of a price_i id r q) = q.
Proof. unfold trade_of. by case_decide. Qed.

Lemma trade_of_id (id : string) (r : Resting.t) (q : Z) :
  LTrade.resting_id (trade_of a price_i id r q) = id.
Proof. unfold trade_of. by case_decide. Qed.

Lemma filled_one (id : string) (r : Resting.t) (q : Z) : filled [trade_of a price_i id r q] = q.
Proof. unfold filled. cbn. rewrite trade_of_qty. lia. Qed.

(** The quantities a run of the loop moves: what it fills leaves the taker,
    unless self-trade prevention cancelled the taker outright. *)
Definition taker_moves (L L' : LState.t) (new : list LTrade.t) : Prop :=
  (LState.status L' = LState.status L /\ 0 <= LState.remaining_i L' /\ 0 <= filled new /\
   filled new + LState.remaining_i L' = LState.remaining_i L) \/
  (LState.status L' = "C" /\ LState.remaining_i L' = 0 /\ 0 <= filled new <= LState.remaining_i L).

Lemma lua_sub_exact (x y : Z) : 0 <= y <= x -> x <= max_exact -> lua_sub x y = x - y.
Proof. intros H Hx. apply f64_of_Z_exact. unfold max_exact in Hx. lia. Qed.

Lemma fill_resting_step (id : string) (L : LState.t) :
  let r := resting (view (LState.st L)) id in
  let L' := fill_resting a price_i opp id r L in
  tradable r -> Resting.remaining_i r <= max_exact -> 0 < LState.remaining_i L <= max_exact ->
  exists q,
    LState.trades L' = LState.trades L ++ [trade_of a price_i id r q] /\
    0 < q <= Resting.remaining_i r /\
    LState.remaining_i L' = LState.remaining_i L - q /\ 0 <= LState.remaining_i L' /\
    LState.status L' = LState.status L /\ LState.match_break L' = LState.match_break L /\
    (q < Resting.remaining_i r -> LState.remaining_i L' = 0) /\
    only_touches [id] (view (LState.st L)) (view (LState.st L')) /\
    fate id r (cell (view (LState.st L)) id) (cell (view (LState.st L')) id)
      [trade_of a price_i id r q].
Proof.
  cbv zeta. intros Ht0 Hr HL. unfold fill_resting. cbn [LState.trades LState.remaining_i LState.st
    LState.status LState.match_break].
  assert (0 < Resting.remaining_i (resting (view (LState.st L)) id)) as Hr0.
  { destruct Ht0 as [Hg _]. unfold ghost in Hg. split_bools. lia. }
  set (r := resting (view (LState.st L)) id) in *.
  set (q := if Resting.remaining_i r <? LState.remaining_i L then Resting.remaining_i r
            else LState.remaining_i L).
  assert (q = Z.min (Resting.remaining_i r) (LState.remaining_i L)) as Eq.
  { unfold q. destruct (Z.ltb_spec (Resting.remaining_i r) (LState.remaining_i L)); lia. }
  rewrite !lua_sub_exact by lia. exists q.
  repeat (split; [done || lia |]).
  destruct (Z.leb_spec (Resting.remaining_i r - q) 0) as [Hz | Hz].
  - assert (q = Resting.remaining_i r) as -> by lia.
    destruct (drop_resting_touches id (LState.st L)) as [Ht Hcell]. rewrite Hcell.
    split; [done |]. apply consumed; [done | lia | done].
  - destruct (hset_resting_touches id
      [("remaining_i", lua_tostring (Resting.remaining_i r - q)); ("status", "PF")] (LState.st L))
      as [Ht Hcell].
    split; [done |]. rewrite Hcell. apply reduced; [done | lia | done].
Qed.

(** One turn of the loop. *)
Lemma match_one_step (id : string) (L : LState.t) :
  let r := resting (view (LState.st L)) id in
  let L' := match_one a price_i opp id L in
  Resting.remaining_i r <= max_exact -> 0 < LState.remaining_i L <= max_exact ->
  exists new,
    LState.trades L' = LState.trades L ++ new /\
    only_touches [id] (view (LState.st L)) (view (LState.st L')) /\
    fate id r (cell (view (LState.st L)) id) (cell (view (LState.st L')) id) new /\
    taker_moves L L' new.
Proof.
  cbv zeta. intros Hr HL. unfold match_one. rewrite read_resting_view.
  set (r := resting (view (LState.st L)) id) in *.
  assert (exists new, LState.trades L = LState.trades L ++ new /\
            only_touches [id] (view (LState.st L)) (view (LState.st L)) /\
            fate id r (cell (view (LState.st L)) id) (cell (view (LState.st L)) id) new /\
            filled new = 0) as (e & Ee & Te & Fe & Qe).
  { exists []. rewrite app_nil_r. split; [done |]. split; [apply only_touches_refl |].
    split; [by apply kept | done]. }
  destruct (drop_resting_touches id (LState.st L)) as [Td Cd].
  destruct (ghost r) eqn:Hg.
  { exists e. repeat (split; [done |]). left. split; [done | lia]. }
  destruct (crosses a price_i r) eqn:Hc; cbn [negb].
  2: { exists e. repeat (split; [done |]). left. cbn. split; [done | lia]. }
  assert (stp_free r -> exists new,
    LState.trades (fill_resting a price_i opp id r L) = LState.trades L ++ new /\
    only_touches [id] (view (LState.st L)) (view (LState.st (fill_resting a price_i opp id r L))) /\
    fate id r (cell (view (LState.st L)) id)
      (cell (view (LState.st (fill_resting a price_i opp id r L))) id) new /\
    taker_moves L (fill_resting a price_i opp id r L) new) as Hfill.
  { intros Hs. destruct (fill_resting_step id L (conj Hg (conj Hc Hs)) Hr HL) as (q & E & Hq & Em & Em0 & Es & _ & _ & T & F).
    eexists. split; [exact E |]. split; [exact T |]. split; [exact F |].
    left. rewrite filled_one. fold r in Em, Em0, Es |- *. split; [done | lia]. }
  case_decide as Hu; [| apply Hfill; by intros ?].
  case_decide; [| case_decide; [| case_decide; [| apply Hfill; intros _; rewrite !elem_of_cons, elem_of_nil; tauto]]].
  - exists []. rewrite app_nil_r. cbn. split; [done |]. split; [done |].
    split; [rewrite Cd; by apply self_traded |]. left. change (filled []) with 0. split; [done | cbn; lia].
  - exists e. repeat (split; [done |]). right. cbn. repeat (split; [done |]). lia.
  - exists []. rewrite app_nil_r. cbn. split; [done |]. split; [done |].
    split; [rewrite Cd; by apply self_traded |]. right. change (filled []) with 0.
    cbn. repeat (split; [done |]). lia.
Qed.
(** A candidate the loop has passed is a ghost, or is gone. *)
Lemma match_one_done (id : string) (L : LState.t) :
  let r := resting (view (LState.st L)) id in
  let L' := match_one a price_i opp id L in
  Resting.remaining_i r <= max_exact -> 0 < LState.remaining_i L <= max_exact ->
  0 < LState.remaining_i L' -> LState.match_break L' = false ->
  ghost r = true \/ cell (view (LState.st L')) id = (∅, None).
Proof.
  cbv zeta. intros Hr HL. unfold match_one. rewrite read_resting_view.
  set (r := resting (view (LState.st L)) id) in *.
  destruct (drop_resting_touches id (LState.st L)) as [_ Cd].
  destruct (ghost r) eqn:Hg; [by left |].
  destruct (crosses a price_i r) eqn:Hc; cbn [negb]; [| by cbn].
  assert (stp_free r -> 0 < LState.remaining_i (fill_resting a price_i opp id r L) ->
          cell (view (LState.st (fill_resting a price_i opp id r L))) id = (∅, None)) as Hfill.
  { intros Hs. destruct (fill_resting_step id L (conj Hg (conj Hc Hs)) Hr HL) as (q & _ & Hq & Em & _ & _ & _ & Hz & _ & F).
    fold r in Em, Hz, Hq, F |- *. intros Hpos.
    assert (q = Resting.remaining_i r) as -> by lia.
    clearbody r. inversion F as [| | ? ? ? |]; [done |].
    match goal with E : trade_of _ _ _ _ _ = trade_of _ _ _ _ _ |- _ =>
      apply (f_equal LTrade.qty_i) in E; rewrite !trade_of_qty in E end. lia. }
  case_decide as Hu; [| intros; right; apply Hfill; [by intros ? | done]].
  case_decide; [by right | case_decide; [by cbn | case_decide; [by cbn |]]].
  intros Hpos _. right. apply Hfill; [| done]. intros _. rewrite !elem_of_cons, elem_of_nil. tauto.
Qed.

(** ** The whole loop *)

Definition trades_of (id : string) (ts : list LTrade.t) : list LTrade.t :=
  filter (fun t => LTrade.resting_id t = id) ts.

Lemma fate_trades (id : string) (r : Resting.t) c c' (ts : list LTrade.t) :
  fate id r c c' ts -> Forall (fun t => LTrade.resting_id t = id) ts /\ (length ts <= 1)%nat.
Proof. destruct 1; repeat constructor; apply trade_of_id. Qed.

Lemma trades_of_all (id : string) (ts : list LTrade.t) :
  Forall (fun t => LTrade.resting_id t = id) ts -> trades_of id ts = ts.
Proof. apply filter_all. Qed.

Lemma trades_of_none (id : string) (ids : list string) (ts : list LTrade.t) :
  (LTrade.resting_id <$> ts) `sublist_of` ids -> ~ (id ∈ ids) -> trades_of id ts = [].
Proof.
  intros Hs Hid. apply filter_none, Forall_forall. intros t Ht E. apply Hid.
  eapply sublist_subseteq; [exact Hs |]. apply list_elem_of_fmap. eauto.
Qed.

Lemma taker_moves_trans (L1 L2 L3 : LState.t) (n1 n2 : list LTrade.t) :
  taker_moves L1 L2 n1 -> taker_moves L2 L3 n2 -> taker_moves L1 L3 (n1 ++ n2).
Proof.
  unfold taker_moves. rewrite filled_app.
  intros [(S1 & ?)|(S1 & ?)] [(S2 & ?)|(S2 & ?)].
  - left. split; [congruence | lia].
  - right. split; [done | lia].
  - right. split; [congruence | lia].
  - right. split; [done | lia].
Qed.

Lemma match_loop_stopped (ids : list string) (L : LState.t) :
  (LState.remaining_i L <=? 0) || LState.match_break L = true -> match_loop a price_i opp ids L = L.
Proof. intros H. destruct ids; cbn; [done |]. by rewrite H. Qed.

Lemma match_loop_spec (ids : list string) (L : LState.t) :
  NoDup ids ->
  (forall id, id ∈ ids -> Resting.remaining_i (resting (view (LState.st L)) id) <= max_exact) ->
  0 <= LState.remaining_i L <= max_exact ->
  let L' := match_loop a price_i opp ids L in
  exists new,
    LState.trades L' = LState.trades L ++ new /\
    only_touches ids (view (LState.st L)) (view (LState.st L')) /\
    (forall id, id ∈ ids ->
       fate id (resting (view (LState.st L)) id) (cell (view (LState.st L)) id)
         (cell (view (LState.st L')) id) (trades_of id new)) /\
    (LTrade.resting_id <$> new) `sublist_of` ids /\
    taker_moves L L' new.
Proof.
  intros Hnd. revert L. induction Hnd as [| rid rest Hrid Hnd IH]; intros L Hb HL; cbv zeta.
  - exists []. cbn. rewrite app_nil_r. split; [done |]. split; [apply only_touches_refl |].
    split; [intros id Hid; by apply not_elem_of_nil in Hid |]. split; [done |].
    left. change (filled []) with 0. split; [done | lia].
  - destruct ((LState.remaining_i L <=? 0) || LState.match_break L) eqn:Hstop.
    { rewrite match_loop_stopped by done. exists []. rewrite app_nil_r. split; [done |].
      split; [apply only_touches_refl |]. split; [intros; by apply kept |].
      split; [apply sublist_nil_l |]. left. change (filled []) with 0. split; [done | lia]. }
    cbn [match_loop]. rewrite Hstop. split_bools.
    destruct (match_one_step rid L) as (n1 & E1 & T1 & F1 & M1); [apply Hb; by left | lia |].
    destruct (IH (match_one a price_i opp rid L)) as (n2 & E2 & T2 & F2 & S2 & M2).
    { intros id Hid. unfold resting.
      assert (~ (id ∈ [rid])) as Hne by (rewrite list_elem_of_singleton; by intros ->).
      pose proof (only_touches_cell _ _ _ _ T1 Hne) as Hc. unfold cell in Hc.
      injection Hc as Hc _. rewrite Hc. apply Hb. by right. }
    { destruct M1 as [(_ & ?)|(_ & ?)]; lia. }
    destruct (fate_trades _ _ _ _ _ F1) as [Hn1 Hlen].
    exists (n1 ++ n2). split; [by rewrite E2, E1, <- app_assoc |].
    split; [by eapply only_touches_trans |]. split.
    + intros id Hid. unfold trades_of. rewrite filter_app. fold (trades_of id n1) (trades_of id n2).
      destruct (decide (id = rid)) as [-> | Hne].
      * rewrite (trades_of_all rid n1), (trades_of_none rid rest n2), app_nil_r by done.
        by rewrite (only_touches_cell _ _ _ _ T2 Hrid).
      * assert (~ (id ∈ [rid])) as Hne' by (by rewrite list_elem_of_singleton).
        rewrite (trades_of_none id [rid] n1), app_nil_l; [| | done].
        2: { destruct n1 as [| t [|]]; cbn in *; [apply sublist_nil_l | | lia].
             apply Forall_cons in Hn1 as [-> _]. done. }
        pose proof (only_touches_cell _ _ _ _ T1 Hne') as Hc.
        unfold resting. injection (eq_sym Hc) as Hh _. rewrite Hh, <- Hc.
        apply F2. apply elem_of_cons in Hid as [? | ?]; done.
    + split; [| by eapply taker_moves_trans].
      rewrite fmap_app. change (rid :: rest) with ([rid] ++ rest). apply sublist_app; [| done].
      destruct n1 as [| t [|]]; cbn in *; [apply sublist_nil_l | | lia].
      apply Forall_cons in Hn1 as [-> _]. done.
Qed.

(** Price priority: when a candidate trades, every one before it is a ghost
    or is gone from the book. *)
Lemma match_loop_priority (pre : list string) (id : string) (post : list string) (L : LState.t) :
  NoDup (pre ++ id :: post) ->
  (forall i, i ∈ pre ++ id :: post -> Resting.remaining_i (resting (view (LState.st L)) i) <= max_exact) ->
  0 <= LState.remaining_i L <= max_exact ->
  let L' := match_loop a price_i opp (pre ++ id :: post) L in
  (exists t, t ∈ drop (length (LState.trades L)) (LState.trades L') /\ LTrade.resting_id t = id) ->
  forall i, i ∈ pre ->
    ghost (resting (view (LState.st L)) i) = true \/ cell (view (LState.st L')) i = (∅, None).
Proof.
  revert L. induction pre as [| x pre IH]; intros L Hnd Hb HL; cbv zeta;
    [intros _ i Hi; by apply not_elem_of_nil in Hi |].
  intros (t & Ht & Hid) i Hi. cbn [app] in *. apply NoDup_cons in Hnd as [Hx Hnd].
  destruct ((LState.remaining_i L <=? 0) || LState.match_break L) eqn:Hstop.
  { rewrite match_loop_stopped, drop_all in Ht by done. by apply not_elem_of_nil in Ht. }
  cbn [match_loop] in *. rewrite Hstop in *. split_bools.
  set (L1 := match_one a price_i opp x L) in *.
  destruct (match_one_step x L) as (n1 & E1 & T1 & F1 & M1); [apply Hb; by left | lia |].
  fold L1 in E1, T1, F1, M1.
  assert (forall j, j ∈ pre ++ id :: post -> resting (view (LState.st L1)) j = resting (view (LState.st L)) j)
    as Hres.
  { intros j Hj. unfold resting.
    assert (~ (j ∈ [x])) as Hne by (rewrite list_elem_of_singleton; by intros ->).
    pose proof (only_touches_cell _ _ _ _ T1 Hne) as Hc. by injection Hc as ->. }
  assert (forall j, j ∈ pre ++ id :: post -> Resting.remaining_i (resting (view (LState.st L1)) j) <= max_exact)
    as Hb1 by (intros j Hj; rewrite Hres by done; apply Hb; by right).
  assert (0 <= LState.remaining_i L1 <= max_exact) as HL1 by (destruct M1 as [(_ & ?)|(_ & ?)]; lia).
  destruct (match_loop_spec _ L1 Hnd Hb1 HL1) as (n2 & E2 & T2 & _ & S2 & _).
  destruct (fate_trades _ _ _ _ _ F1) as [Hn1 _].
  assert (t ∈ n2) as Ht2.
  { rewrite E2, E1, <- app_assoc, drop_app_length in Ht. apply elem_of_app in Ht as [Ht | Ht]; [| done].
    exfalso. rewrite Forall_forall in Hn1. apply Hn1 in Ht. apply Hx. rewrite <- Ht, Hid.
    apply elem_of_app. right. by left. }
  apply elem_of_cons in Hi as [-> | Hi].
  - assert ((LState.remaining_i L1 <=? 0) = false /\ LState.match_break L1 = false) as [Hr1 Hm1].
    { destruct ((LState.remaining_i L1 <=? 0) || LState.match_break L1) eqn:Hs.
      - rewrite match_loop_stopped in E2 by done.
        assert (n2 = []) as -> by (apply (f_equal length) in E2; rewrite length_app in E2;
                                   destruct n2; cbn in *; [done | lia]).
        by apply not_elem_of_nil in Ht2.
      - by apply orb_false_elim in Hs. }
    apply Z.leb_gt in Hr1.
    destruct (match_one_done x L) as [Hg | Hc]; [apply Hb; by left | lia | done | done | by left |].
    right. rewrite (only_touches_cell _ _ _ _ T2 Hx). exact Hc.
  - rewrite <- Hres by (apply elem_of_app; by left). apply IH; try done.
    exists t. split; [| done]. rewrite E2, drop_app_length. done.
Qed.
End Loop.

(** ** The balance lock *)

Section Lock.
Context `{V : Valkey, VL : !ValkeyLaws V}.

(** The lock touches nothing but the balance hash it names. *)
Record lock_frame (a : Argv.t) (s s' : kv) : Prop := {
  lf_strs : strs s' = strs s;
  lf_zset k : zset s' k = zset s k;
  lf_hash k : k <> balance_key (Argv.user_id a) (Argv.lock_asset a) -> hash s' k = hash s k;
}.

Lemma lock_frame_refl (a : Argv.t) (s : kv) : lock_frame a s s.
Proof. by constructor. Qed.

Lemma lua_hincrby_frame (a : Argv.t) (f : string) (n : Z) (s : store) (s0 : kv) :
  lock_frame a s0 (view s) ->
  lock_frame a s0 (view (lua_hincrby (balance_key (Argv.user_id a) (Argv.lock_asset a)) f n s).1).
Proof.
  intros H. unfold lua_hincrby. destruct (lua_int_arg n); [| done].
  autorewrite with valkey. constructor; autorewrite with kv.
  - apply (lf_strs _ _ _ H).
  - intros k. autorewrite with kv. apply (lf_zset _ _ _ H).
  - intros k Hk. rewrite hash_hincrby_ne by congruence. by apply (lf_hash _ _ _ H).
Qed.

Lemma lock_balance_frame (a : Argv.t) (s : store) :
  lock_frame a (view s) (view (lock_balance a s).1).
Proof.
  unfold lock_balance. pose proof (lock_frame_refl a (view s)) as H0.
  destruct (lua_tonumber _) as [amt |]; [| done]. case_cond; [done |].
  destruct (lua_tonumber (default _ _)) as [avail |]; [| done]. case_cond; [done |].
  pose proof (lua_hincrby_frame a "available" (- amt) s (view s) H0) as H1.
  destruct (lua_hincrby _ "available" _ s) as [s1 [z1 | e1]]; cbn [fst] in *; [| done].
  pose proof (lua_hincrby_frame a "locked" amt s1 (view s) H1) as H2.
  by destruct (lua_hincrby _ "locked" _ s1) as [s2 [z2 | e2]].
Qed.

(** A balance hash as the program writes it. *)
Definition balance_is (s : kv) (user asset : string) (available locked : Z) : Prop :=
  hash s (balance_key user asset) !! "available" = Some (Z_to_string available) /\
  hash s (balance_key user asset) !! "locked" = Some (Z_to_string locked).

Definition small (z : Z) : Prop := 0 <= z < 10 ^ 15.

Lemma hincrby_small (key f : string) (z n : Z) (s : store) :
  hash (view s) key !! f = Some (Z_to_string z) -> small z -> Z.abs n < 10 ^ 15 ->
  hash (view (lua_hincrby key f n s).1) key = <[f := Z_to_string (z + n)]> (hash (view s) key) /\
  (lua_hincrby key f n s).2 = Ok (z + n).
Proof.
  intros Hz Hs Hn. unfold lua_hincrby, lua_int_arg. unfold small in Hs.
  rewrite (proj2 (Z.ltb_lt _ _)) by lia.
  assert ((kv_hincrby key f n (view s)).2 = Ok (z + n)) as Hok.
  { unfold kv_hincrby. rewrite Hz.
    by rewrite incr_cell_ok by (apply in_i64_spec; unfold i64_min, i64_max; lia). }
  autorewrite with valkey. split; [| done]. by apply hincrby_ok.
Qed.

(** The balance lock is all or nothing: with enough available balance it
    moves exactly the amount from available to locked, and otherwise the
    script answers INSUFFICIENT_BALANCE without changing anything. *)
Theorem lock_balance_spec (k : Keys.t) (a : Argv.t) (s : store) (amount available locked : Z) :
  Argv.lock_amount a = Z_to_string amount -> Argv.lock_asset a <> EmptyString ->
  0 < amount < 10 ^ 15 -> small available -> small locked ->
  balance_is (view s) (Argv.user_id a) (Argv.lock_asset a) available locked ->
  if available <? amount then
    match_order_script k a s = (s, Ok ["INSUFFICIENT_BALANCE"])
  else
    (lock_balance a s).2 = Ok true /\
    balance_is (view (lock_balance a s).1) (Argv.user_id a) (Argv.lock_asset a)
      (available - amount) (locked + amount).
Proof.
  intros Ha Hasset Hamt Hav Hlk [Hb1 Hb2].
  assert (lock_balance a s =
    if available <? amount then (s, Ok false)
    else match lua_hincrby (balance_key (Argv.user_id a) (Argv.lock_asset a)) "available" (- amount) s with
         | (s, Err e) => (s, Err e)
         | (s, Ok _) =>
             match lua_hincrby (balance_key (Argv.user_id a) (Argv.lock_asset a)) "locked" amount s with
             | (s, Err e) => (s, Err e)
             | (s, Ok _) => (s, Ok true)
             end
         end) as E.
  { unfold lock_balance, small in *. rewrite Ha, lua_tonumber_Z_to_string, f64_of_Z_exact by lia.
    rewrite bool_decide_eq_false_2, (proj2 (Z.ltb_lt 0 amount)) by (done || lia). cbn [negb orb].
    rewrite hget_view, Hb1. cbn [from_option]. unfold id.
    rewrite lua_tonumber_Z_to_string, f64_of_Z_exact by lia. reflexivity. }
  unfold match_order_script. rewrite E. destruct (Z.ltb_spec available amount) as [Hlt | Hge]; [done |].
  destruct (hincrby_small _ "available" available (- amount) s Hb1 Hav ltac:(lia)) as [H1 R1].
  destruct (lua_hincrby _ "available" (- amount) s) as [s1 r1]. cbn [fst snd] in *. rewrite R1.
  assert (hash (view s1) (balance_key (Argv.user_id a) (Argv.lock_asset a)) !! "locked"
          = Some (Z_to_string locked)) as Hl by (rewrite H1; by rewrite lookup_insert_ne).
  destruct (hincrby_small _ "locked" locked amount s1 Hl Hlk ltac:(lia)) as [H2 R2].
  destruct (lua_hincrby _ "locked" amount s1) as [s2 r2]. cbn [fst snd] in *. rewrite R2. cbn [fst snd].
  split; [done |]. unfold balance_is. rewrite H2, H1. split.
  - by rewrite lookup_insert_ne, lookup_insert_eq.
  - by rewrite lookup_insert_eq.
Qed.
End Lock.

(** ** The whole script *)

Section Script.
Context `{V : Valkey, VL : !ValkeyLaws V}.
Context (pair_id : string) (a : Argv.t).

(** The keys [match_order_lua] passes. *)
Definition script_keys : Keys.t :=
  Keys.mk (book_key pair_id Buy) (book_key pair_id Sell) (version_key pair_id)
    (order_key_str (Argv.order_id a)).

Definition opp_side : Side := if decide (Argv.side a = "B") then Sell else Buy.
Definition own_side : Side := if decide (Argv.side a = "B") then Buy else Sell.
Definition opp_book : string := book_key pair_id opp_side.
Definition own_book : string := book_key pair_id own_side.
Definition taker_price : Z := default 0 (lua_tonumber (Argv.price_i a)).

(** The resting orders the script considers. *)
Definition candidates (s : kv) : list string :=
  limit_clause 0 MATCH_LIMIT (kv_zrangebyscore opp_book (Argv.max_score a) s).

Lemma opp_key_script : opp_key script_keys a = opp_book.
Proof. unfold opp_key, opp_book, opp_side. by case_decide. Qed.

Lemma own_key_script : own_key script_keys a = own_book.
Proof. unfold own_key, own_book, own_side. by case_decide. Qed.

Lemma own_opp_differ : own_book <> opp_book.
Proof.
  unfold own_book, opp_book, own_side, opp_side.
  case_decide; [| symmetry]; apply book_key_sides.
Qed.

Lemma order_key_opp (id : string) : order_key_str id <> opp_book.
Proof. apply order_key_book. Qed.

Lemma candidates_nodup (s : kv) : NoDup (candidates s).
Proof.
  unfold candidates, limit_clause. cbn. rewrite drop_0.
  eapply sublist_NoDup; [apply zrangebyscore_nodup | apply sublist_take].
Qed.

Lemma candidates_length (s : kv) : (length (candidates s) <= 50)%nat.
Proof.
  unfold candidates, limit_clause. change (MATCH_LIMIT <? 0) with false. cbn [Z.ltb Z.compare].
  rewrite length_take. change (Z.to_nat MATCH_LIMIT) with 50%nat. lia.
Qed.

(** The part of a store the loop depends on. *)
Lemma frame_cell (s s1 : kv) (id : string) :
  lock_frame a s s1 -> cell opp_book s1 id = cell opp_book s id /\ resting s1 id = resting s id.
Proof.
  intros H. unfold cell, resting. rewrite (lf_zset _ _ _ H).
  rewrite (lf_hash _ _ _ H) by apply order_key_balance. done.
Qed.

Lemma frame_candidates (s s1 : kv) : lock_frame a s s1 -> candidates s1 = candidates s.
Proof.
  intros H. unfold candidates, kv_zrangebyscore. by rewrite (lf_zset _ _ _ H).
Qed.

(** The script's loop runs over the candidates of the store it started from. *)
Lemma run_loop_candidates (s s1 : store) (qty : Z) :
  lock_frame a (view s) (view s1) ->
  run_loop script_keys a taker_price qty s1
  = match_loop a taker_price opp_book (candidates (view s)) (LState.mk s1 qty "N" [] false).
Proof.
  intros Hf. unfold run_loop. rewrite opp_key_script. autorewrite with valkey.
  by rewrite <- (frame_candidates _ _ Hf).
Qed.

(** The final store: the loop's, with the remainder rested and the version bumped. *)
Definition settled (qty : Z) (L : LState.t) : kv :=
  let st := final_status (Argv.tif a) (LState.status L) qty (LState.remaining_i L) in
  let s := view (LState.st L) in
  (kv_incrby (version_key pair_id) 1
    (if rests (Argv.tif a) st (LState.remaining_i L)
     then kv_expire (order_key_str (Argv.order_id a)) 3600
            (kv_hset (order_key_str (Argv.order_id a))
               (rest_fields a taker_price qty (LState.remaining_i L) st)
               (kv_zadd own_book (Argv.score a) (Argv.order_id a) s))
     else s)).1.

Lemma script_run (s : store) (qty v : Z) :
  lua_tonumber (Argv.qty_i a) = Some qty ->
  (lock_balance a s).2 = Ok true ->
  incr_cell (strs (view s) !! version_key pair_id) 1 = Ok v ->
  (forall id, id ∈ candidates (view s) ->
     Resting.remaining_i (resting (view s) id) <= max_exact) ->
  0 < qty <= max_exact ->
  let L := run_loop script_keys a taker_price qty (lock_balance a s).1 in
  (match_order_script script_keys a s).2
    = Ok (reply (LState.remaining_i L) (final_status (Argv.tif a) (LState.status L) qty (LState.remaining_i L))
            (LState.trades L)) /\
  view (match_order_script script_keys a s).1 = settled qty L /\
  strs (view (match_order_script script_keys a s).1) !! version_key pair_id = Some (Z_to_string v) /\
  only_touches opp_book (candidates (view s)) (view (lock_balance a s).1) (view (LState.st L)) /\
  (forall id, id ∈ candidates (view s) ->
     fate a taker_price id (resting (view s) id) (cell opp_book (view s) id)
       (cell opp_book (view (LState.st L)) id) (trades_of id (LState.trades L))) /\
  (LTrade.resting_id <$> LState.trades L) `sublist_of` candidates (view s) /\
  taker_moves (LState.mk s qty "N" [] false) L (LState.trades L).
Proof.
  cbv zeta. intros Hq Hl Hv Hb Hq0.
  pose proof (lock_balance_frame a s) as Hf.
  destruct (lock_balance a s) as [s1 r] eqn:El. cbn [fst snd] in *. subst r.
  unfold match_order_script. rewrite El, Hq. fold taker_price.
  pose proof (run_loop_candidates s s1 qty Hf) as Erun.
  destruct (match_loop_spec a taker_price opp_book order_key_opp (candidates (view s))
              (LState.mk s1 qty "N" [] false)) as (new & E & T & F & S & M).
  { apply candidates_nodup. }
  { intros id Hid. cbn [LState.st]. rewrite (proj2 (frame_cell _ _ id Hf)). by apply Hb. }
  { cbn. lia. }
  cbn [LState.st LState.trades] in E, T, F. rewrite <- Erun in E, T, F, M.
  set (L := run_loop script_keys a taker_price qty s1) in *. cbn [app] in E. subst new.
  assert (strs (view (LState.st L)) !! version_key pair_id = strs (view s) !! version_key pair_id) as Hver.
  { rewrite (ot_strs _ _ _ _ T) by (intros ? _; done). by rewrite (lf_strs _ _ _ Hf). }
  assert (view (finish script_keys a taker_price qty L).1 = settled qty L /\
          (finish script_keys a taker_price qty L).2
          = Ok (reply (LState.remaining_i L)
                  (final_status (Argv.tif a) (LState.status L) qty (LState.remaining_i L)) (LState.trades L)) /\
          strs (settled qty L) !! version_key pair_id = Some (Z_to_string v)) as (Hs & Hr & Hvs).
  { unfold finish, settled. cbv zeta. cbn [Keys.version script_keys].
    set (st := final_status _ _ _ _).
    set (s2 := if rests (Argv.tif a) st (LState.remaining_i L) then _ else LState.st L).
    match goal with |- context [kv_incrby _ 1 ?x] => set (s2' := x) end.
    assert (view s2 = s2') as Hs2.
    { unfold s2, s2'. case_cond; [| done]. unfold rest_order. rewrite own_key_script.
      autorewrite with valkey. done. }
    assert (strs s2' !! version_key pair_id = strs (view s) !! version_key pair_id) as Hver2.
    { rewrite <- Hver. unfold s2'. case_cond; [| done]. by autorewrite with kv. }
    assert (kv_incrby (version_key pair_id) 1 s2'
            = (set_strs <[version_key pair_id := Z_to_string v]> s2', Ok v)) as Ev.
    { unfold kv_incrby. by rewrite Hver2, Hv. }
    pose proof (incrby_view (version_key pair_id) 1 s2) as Hvw.
    pose proof (incrby_reply (version_key pair_id) 1 s2) as Hrp.
    destruct (v_incrby (version_key pair_id) 1 s2) as [s3 r3]. cbn [fst snd] in Hvw, Hrp.
    rewrite Hs2, Ev in Hvw, Hrp. cbn [fst snd] in *. subst r3. cbn [fst snd].
    rewrite Hvw, Ev. split; [done |]. split; [done |]. cbn. by rewrite lookup_insert_eq. }
  split; [exact Hr |]. split; [exact Hs |]. split; [by rewrite Hs |]. split; [exact T |].
  split; [| split; [exact S | exact M]].
  intros id Hid. specialize (F id Hid).
  destruct (frame_cell _ _ id Hf) as [Hc Hre]. by rewrite Hc, Hre in F.
Qed.
(** ** The properties of the script *)

(** A call of the script whose balance lock succeeds, on exact amounts. *)
Record ready (s : store) (qty v : Z) : Prop := {
  rd_qty : lua_tonumber (Argv.qty_i a) = Some qty;
  rd_range : 0 < qty <= max_exact;
  rd_lock : (lock_balance a s).2 = Ok true;
  rd_version : incr_cell (strs (view s) !! version_key pair_id) 1 = Ok v;
  rd_amounts id : id ∈ candidates (view s) -> Resting.remaining_i (resting (view s) id) <= max_exact;
  rd_fresh : ~ (Argv.order_id a ∈ candidates (view s));
}.

Definition final_view (s : store) : kv := view (match_order_script script_keys a s).1.

Definition answered (s : store) (rem : Z) (st : string) (trades : list LTrade.t) : Prop :=
  (match_order_script script_keys a s).2 = Ok (reply rem st trades).

(** Resting the remainder touches only the taker's own key and its own side. *)
Lemma settled_cell (qty : Z) (L : LState.t) (id : string) :
  id <> Argv.order_id a -> cell opp_book (settled qty L) id = cell opp_book (view (LState.st L)) id.
Proof.
  intros Hid. unfold settled, cell. rewrite hash_incrby, zset_incrby. case_cond; [| done].
  rewrite hash_expire, zset_expire, zset_hset. pose proof own_opp_differ.
  rewrite hash_hset_ne by (intros ?%order_key_str_inj; congruence).
  by rewrite hash_zadd, zset_zadd_ne.
Qed.


(** What the script does to each resting order it considers: it is left
    alone, or removed by self-trade prevention, or filled completely by one
    trade and removed, or reduced by one smaller trade and marked PF. *)
Theorem script_makers (s : store) (qty v : Z) (id : string) :
  ready s qty v -> id ∈ candidates (view s) ->
  exists rem st trades, answered s rem st trades /\
    fate a taker_price id (resting (view s) id) (cell opp_book (view s) id)
      (cell opp_book (final_view s) id) (trades_of id trades).
Proof.
  intros [Hq Hr Hl Hv Ha Hf] Hid.
  destruct (script_run s qty v Hq Hl Hv Ha Hr) as (R & S & _ & _ & F & _ & _).
  eexists _, _, _. split; [exact R |]. unfold final_view. rewrite S.
  rewrite settled_cell by (intros ->; done). by apply F.
Qed.

(** What the fates say of each trade. *)
Definition trade_sound (s : kv) (t : LTrade.t) : Prop :=
  let id := LTrade.resting_id t in
  let r := resting s id in
  tradable a taker_price r /\ 0 < LTrade.qty_i t <= Resting.remaining_i r /\
  t = trade_of a taker_price id r (LTrade.qty_i t).

Lemma fates_sound (s s' : kv) (ids : list string) (trades : list LTrade.t) :
  (forall id, id ∈ ids ->
     fate a taker_price id (resting s id) (cell opp_book s id) (cell opp_book s' id) (trades_of id trades)) ->
  (LTrade.resting_id <$> trades) `sublist_of` ids ->
  Forall (fun t => LTrade.resting_id t ∈ ids /\ trade_sound s t) trades.
Proof.
  intros F S. apply Forall_forall. intros t Ht.
  assert (LTrade.resting_id t ∈ ids) as Hid.
  { eapply sublist_subseteq; [exact S |]. apply list_elem_of_fmap. eauto. }
  split; [done |]. pose proof (F _ Hid) as Hfate.
  assert (t ∈ trades_of (LTrade.resting_id t) trades) as Hin by by apply list_elem_of_filter.
  unfold trade_sound. cbv zeta. clear Ht. remember (LTrade.resting_id t) as id eqn:Eid. clear Eid Hid.
  inversion Hfate as [? E|? ? E|Ht0 Hpos ? E|q Ht0 Hqr ? E]; rewrite <- E in Hin;
    rewrite ?elem_of_nil, ?list_elem_of_singleton in Hin; try done.
  - split; [done |]. rewrite Hin, trade_of_qty. split; [| done]. split; [exact Hpos | reflexivity].
  - split; [done |]. rewrite Hin, trade_of_qty. split; [| done].
    split; [apply Hqr | apply Z.lt_le_incl, Hqr].
Qed.

(** What a trade of the script owes to the order it fills, spelled out: the
    resting order [r] as its hash read before the script ran. *)
Record fair_trade (s : kv) (t : LTrade.t) : Prop := {
  ft_live : Resting.status (resting s (LTrade.resting_id t)) <> "F" /\
            Resting.status (resting s (LTrade.resting_id t)) <> "C";
  ft_qty : 0 < LTrade.qty_i t <= Resting.remaining_i (resting s (LTrade.resting_id t));
  ft_limit : Argv.order_type a <> "M" ->
    (Argv.side a = "B" -> Resting.price_i (resting s (LTrade.resting_id t)) <= taker_price) /\
    (Argv.side a <> "B" -> taker_price <= Resting.price_i (resting s (LTrade.resting_id t)));
  ft_price : LTrade.price_i t =
    if bool_decide (Resting.order_type (resting s (LTrade.resting_id t)) = "M") then taker_price
    else Resting.price_i (resting s (LTrade.resting_id t));
  ft_buyer : LTrade.buyer_id t =
    if bool_decide (Argv.side a = "B") then Argv.user_id a
    else Resting.user_id (resting s (LTrade.resting_id t));
  ft_seller : LTrade.seller_id t =
    if bool_decide (Argv.side a = "B") then Resting.user_id (resting s (LTrade.resting_id t))
    else Argv.user_id a;
  ft_stp : Argv.user_id a = Resting.user_id (resting s (LTrade.resting_id t)) ->
    ~ (Argv.stp_mode a ∈ ["CM"; "CT"; "CB"]) /\
    (Argv.stp_mode a = "N" ->
     ~ (Resting.stp (resting s (LTrade.resting_id t)) ∈ ["CM"; "CT"; "CB"]));
}.

Lemma crosses_limit (r : Resting.t) :
  crosses a taker_price r = true -> Argv.order_type a <> "M" ->
  (Argv.side a = "B" -> Resting.price_i r <= taker_price) /\
  (Argv.side a <> "B" -> taker_price <= Resting.price_i r).
Proof. unfold crosses. repeat case_decide; intros; split; intros; try done; lia. Qed.

Lemma stp_free_codes (r : Resting.t) :
  stp_free a r -> Argv.user_id a = Resting.user_id r ->
  ~ (Argv.stp_mode a ∈ ["CM"; "CT"; "CB"]) /\
  (Argv.stp_mode a = "N" -> ~ (Resting.stp r ∈ ["CM"; "CT"; "CB"])).
Proof.
  intros H Hu. specialize (H Hu). unfold combined_stp in H. case_decide as E; [| done].
  split; [| done]. rewrite E. set_solver.
Qed.

Lemma trade_sound_fair (s : kv) (t : LTrade.t) : trade_sound s t -> fair_trade s t.
Proof.
  intros ((Hg & Hc & Hs) & Hq & Et). unfold ghost in Hg.
  apply orb_false_iff in Hg as [[HF HC]%orb_false_iff _].
  apply bool_decide_eq_false in HF, HC.
  split; [done | exact Hq | by apply crosses_limit | | | | by apply stp_free_codes];
    rewrite Et at 1; unfold trade_of; repeat case_bool_decide; repeat case_decide; try done.
Qed.

(** C5: every trade of the script fills a candidate of the opposite book, in
    the order of the book, that was live (neither F nor C) and rests more
    than the trade takes, for a positive quantity; a limit taker gives no more
    than its price as a buyer and takes no less as a seller; the price is the
    resting order's own (the taker's when a market order rests); the buyer
    and the seller are the users of the two orders, each on its side; and when
    the user trades with itself neither the taker's self-trade prevention nor,
    under the taker's "N", the resting order's is one of CM, CT, CB. *)
Theorem script_trades_sound (s : store) (qty v : Z) :
  ready s qty v ->
  exists rem st trades, answered s rem st trades /\
    (LTrade.resting_id <$> trades) `sublist_of` candidates (view s) /\
    Forall (fair_trade (view s)) trades.
Proof.
  intros [Hq Hr Hl Hv Ha Hf].
  destruct (script_run s qty v Hq Hl Hv Ha Hr) as (R & _ & _ & _ & F & S & _).
  eexists _, _, _. split; [exact R |]. split; [exact S |].
  eapply Forall_impl; [apply (fates_sound _ _ _ _ F S) |]. intros t [_ ?]. by apply trade_sound_fair.
Qed.

(** The script answers with the status its quantities determine, rests the
    order exactly when a GTC remainder is left on a taker that was not
    cancelled, with the hash of an order of that remainder, and otherwise
    leaves the taker's own side of the book as it was. *)
Theorem script_rests (s : store) (qty v : Z) :
  ready s qty v ->
  exists rem st trades, answered s rem st trades /\
    (exists st0, (st0 = "N" \/ st0 = "C") /\ st = final_status (Argv.tif a) st0 qty rem) /\
    if rests (Argv.tif a) st rem then
      zset (final_view s) own_book = <[Argv.order_id a := Argv.score a]> (zset (view s) own_book) /\
      exists h, hash (final_view s) (order_key_str (Argv.order_id a))
                = hset_fields (rest_fields a taker_price qty rem st) h
    else
      zset (final_view s) own_book = zset (view s) own_book /\
      hash (final_view s) (order_key_str (Argv.order_id a))
      = hash (view s) (order_key_str (Argv.order_id a)).
Proof.
  intros [Hq Hr Hl Hv Ha Hf].
  destruct (script_run s qty v Hq Hl Hv Ha Hr) as (R & Sv & _ & T & _ & _ & M).
  pose proof (lock_balance_frame a s) as Hlf.
  eexists _, _, _. split; [exact R |]. split.
  { eexists. split; [| done]. destruct M as [(E & _)|(E & _)]; rewrite E; auto. }
  assert (zset (view (LState.st (run_loop script_keys a taker_price qty (lock_balance a s).1))) own_book
          = zset (view s) own_book) as Hown.
  { rewrite (ot_zset _ _ _ _ T); [apply (lf_zset _ _ _ Hlf) | apply own_opp_differ |].
    intros i _ E. by apply (order_key_book i pair_id own_side). }
  unfold final_view. rewrite Sv. unfold settled. rewrite zset_incrby, hash_incrby.
  case_cond.
  - rewrite zset_expire, hash_expire, zset_hset, hash_hset_eq, zset_zadd_eq, Hown. eauto.
  - split; [exact Hown |].
    rewrite (ot_hash _ _ _ _ T).
    + apply (lf_hash _ _ _ Hlf), order_key_balance.
    + intros i Hi E1%order_key_str_inj. congruence.
Qed.

(** C6: price priority: when a candidate trades, every candidate before it in
    the book is a ghost entry or has been removed. *)
Theorem script_priority (s : store) (qty v : Z) (pre post : list string) (id : string) :
  ready s qty v -> candidates (view s) = pre ++ id :: post ->
  exists rem st trades, answered s rem st trades /\
    (trades_of id trades <> [] ->
     forall i, i ∈ pre -> ghost (resting (view s) i) = true \/ cell opp_book (final_view s) i = (∅, None)).
Proof.
  intros [Hq Hr Hl Hv Ha Hf] Hc.
  destruct (script_run s qty v Hq Hl Hv Ha Hr) as (R & Sv & _ & _ & _ & _ & _).
  eexists _, _, _. split; [exact R |]. intros Hne i Hi.
  pose proof (lock_balance_frame a s) as Hlf.
  set (s1 := (lock_balance a s).1) in *.
  pose proof (run_loop_candidates s s1 qty Hlf) as Erun. rewrite Hc in Erun.
  assert (i ∈ candidates (view s)) as Hic by (rewrite Hc; apply elem_of_app; by left).
  unfold final_view. rewrite Sv, settled_cell by (intros ->; done).
  destruct (match_loop_priority a taker_price opp_book order_key_opp pre id post
              (LState.mk s1 qty "N" [] false)) with (i := i) as [Hg | Hg]; try done.
  - rewrite <- Hc. apply candidates_nodup.
  - intros j Hj. cbn [LState.st]. rewrite (proj2 (frame_cell _ _ j Hlf)). apply Ha. by rewrite Hc.
  - cbn [LState.remaining_i]. lia.
  - rewrite <- Erun. cbn [LState.trades length]. rewrite drop_0.
    destruct (trades_of id (LState.trades (run_loop script_keys a taker_price qty s1))) as [| t ts] eqn:E;
      [done |].
    assert (t ∈ trades_of id (LState.trades (run_loop script_keys a taker_price qty s1))) as Ht
      by (rewrite E; left).
    apply list_elem_of_filter in Ht as [? ?]. eauto.
  - left. cbn [LState.st] in Hg. by rewrite (proj2 (frame_cell _ _ i Hlf)) in Hg.
  - right. by rewrite Erun.
Qed.

(** Every answered run bumps the book version by one. *)
Theorem script_bumps_version (s : store) (qty v : Z) :
  ready s qty v ->
  strs (final_view s) !! version_key pair_id = Some (Z_to_string v) /\
  incr_cell (strs (view s) !! version_key pair_id) 1 = Ok v.
Proof.
  intros [Hq Hr Hl Hv Ha Hf].
  by destruct (script_run s qty v Hq Hl Hv Ha Hr) as (_ & _ & Hver & _).
Qed.
End Script.
