(* ===== verification/MatchLuaReply.v ===== *)
(** * The reply of the match and its caller

    [match_order_lua] parses the strings the script returns.  Below 10^14 the
    reply is read back exactly, so the caller sees the conservation the script
    guarantees; from 10^14 on, [tostring] prints an exponent and the caller
    fails after the match, or reads a remainder of zero. *)

From S2P Require Import Prelude Numbers Externals Fixed Types Valkey Codec Book MatchLua.
From S2P Require Import MatchLuaProps.

Open Scope Z_scope.

Definition printable (z : Z) : Prop := 0 <= z < 10 ^ 14.

Lemma printable_i64 (z : Z) : printable z -> in_i64 z = true.
Proof. unfold printable. intros ?. apply in_i64_spec. unfold i64_min, i64_max. lia. Qed.

Lemma parse_usize_numeral (s : string) (n : Z) :
  parse_unsigned s = Some n -> n < 2 ^ 64 -> parse_usize s = Some n.
Proof.
  intros H Hn. unfold parse_usize.
  assert (match s with String "+" r => parse_unsigned r | _ => parse_unsigned s end = Some n) as E.
  { destruct s as [| c r]; [done |]. destruct (numeral_head _ _ c r H eq_refl) as [_ Hp].
    destruct c as [b0 b1 b2 b3 b4 b5 b6 b7].
    destruct b0, b1, b2, b3, b4, b5, b6, b7; try exact H; exfalso; auto. }
  rewrite E. cbn. by rewrite (proj2 (Z.ltb_lt n _)).
Qed.

Lemma parse_usize_lua_tostring (n : Z) : printable n -> parse_usize (lua_tostring n) = Some n.
Proof.
  unfold printable. intros H. rewrite lua_tostring_small by lia.
  apply parse_usize_numeral; [apply parse_unsigned_Z_to_string |]; lia.
Qed.

Section Reply.
Context `{C : Crates}.

(** The trade the caller builds. *)
Definition caller_trade (id : uuid) (t : LTrade.t) : LuaTrade.t :=
  LuaTrade.mk id (i64_to_decimal (LTrade.price_i t)) (i64_to_decimal (LTrade.qty_i t))
    (LTrade.buyer_id t) (LTrade.seller_id t).

Definition readable_trade (t : LTrade.t) (t' : LuaTrade.t) : Prop :=
  printable (LTrade.price_i t) /\ printable (LTrade.qty_i t) /\
  exists id, uuid_parse (LTrade.resting_id t) = Some id /\ t' = caller_trade id t.

Definition trade_fields (t : LTrade.t) : list string :=
  [LTrade.resting_id t; lua_tostring (LTrade.price_i t); lua_tostring (LTrade.qty_i t);
   LTrade.buyer_id t; LTrade.seller_id t].

Lemma parse_lua_trades_fields (ts : list LTrade.t) (ts' : list LuaTrade.t) :
  Forall2 readable_trade ts ts' ->
  parse_lua_trades (length ts) (mjoin (trade_fields <$> ts)) = Ok ts'.
Proof.
  induction 1 as [| t t' ts ts' (Hp & Hq & id & Hid & ->) _ IH]; [done |].
  unfold printable in Hp, Hq.
  change (mjoin (trade_fields <$> t :: ts)) with (trade_fields t ++ mjoin (trade_fields <$> ts)).
  cbn [length parse_lua_trades trade_fields app]. unfold parse_lua_trade.
  rewrite Hid, !parse_i64_lua_tostring by lia. cbn [ok_or mbind result_bind mret result_ret].
  by rewrite IH.
Qed.

Lemma trade_fields_length (ts : list LTrade.t) :
  length (mjoin (trade_fields <$> ts)) = (5 * length ts)%nat.
Proof.
  induction ts as [| t ts IH]; [done |].
  change (mjoin (trade_fields <$> t :: ts)) with (trade_fields t ++ mjoin (trade_fields <$> ts)).
  rewrite length_app, IH. cbn [length trade_fields]. lia.
Qed.

Definition status_code (st : string) (status : OrderStatus) : Prop := lua_status st = Ok status.

Lemma parse_lua_reply_ok (lock_asset user st : string) (status : OrderStatus) (rem : Z)
    (ts : list LTrade.t) (ts' : list LuaTrade.t) :
  printable rem -> status_code st status -> (length ts <= 50)%nat -> Forall2 readable_trade ts ts' ->
  parse_lua_reply lock_asset user (reply rem st ts)
    = Ok (LuaMatchResult.mk (i64_to_decimal rem) status ts').
Proof.
  intros Hr Hs Hlen Hts. unfold reply. fold trade_fields.
  assert (printable (Z.of_nat (length ts))) as Hc by (unfold printable; lia).
  unfold parse_lua_reply. cbn [app hd_error].
  change (bool_decide (Some "OK" = Some "INSUFFICIENT_BALANCE")) with false.
  change (bool_decide ("OK" = "OK")) with true. cbn [negb bail_if mbind result_bind].
  rewrite (parse_i64_lua_tostring rem) by (unfold printable in Hr; lia).
  rewrite parse_usize_lua_tostring by done. cbn [default from_option]. unfold id.
  unfold status_code in Hs. rewrite Hs. cbn [mbind result_bind].
  assert ((Z.of_nat (length ("OK" :: lua_tostring rem :: st :: lua_tostring (Z.of_nat (length ts))
            :: mjoin (trade_fields <$> ts))) <? 4 + Z.of_nat (length ts) * 5) = false) as ->.
  { apply Z.ltb_ge. cbn [length]. rewrite trade_fields_length. lia. }
  cbn [bail_if mbind result_bind]. rewrite Nat2Z.id.
  by rewrite (parse_lua_trades_fields ts ts' Hts).
Qed.

(** The caller reads back exactly what the script answered, as long as
    every amount is below 10^14 and the resting ids are uuids. *)
Theorem parse_reply_round_trip (lock_asset user st : string) (status : OrderStatus) (rem : Z)
    (ts : list LTrade.t) (ts' : list LuaTrade.t) :
  printable rem -> status_code st status -> (length ts <= 50)%nat -> Forall2 readable_trade ts ts' ->
  parse_lua_reply lock_asset user (reply rem st ts)
    = Ok (LuaMatchResult.mk (i64_to_decimal rem) status ts').
Proof. apply parse_lua_reply_ok. Qed.

(** From a million units of price on, the caller cannot read the trade the
    script has already executed. *)
Lemma parse_reply_large_price (lock_asset user st : string) (status : OrderStatus) (rem : Z) (t : LTrade.t)
    (u : uuid) :
  status_code st status -> uuid_parse (LTrade.resting_id t) = Some u -> 10 ^ 14 <= LTrade.price_i t ->
  parse_lua_reply lock_asset user (reply rem st [t]) = Err "invalid price_i".
Proof.
  intros Hs Hu Hp. unfold parse_lua_reply, reply. cbn [app hd_error length fmap list_fmap].
  change (bool_decide (Some "OK" = Some "INSUFFICIENT_BALANCE")) with false.
  change (bool_decide ("OK" = "OK")) with true. cbn [negb bail_if mbind result_bind].
  unfold status_code in Hs. rewrite Hs. cbn.
  change (default 0 (parse_usize (lua_tostring (Z.of_nat 1)))) with 1.
  change (Z.of_nat 9 <? 4 + 1 * 5) with false. change (Z.to_nat 1) with 1%nat. cbn.
  unfold parse_lua_trade. rewrite Hu. cbn. rewrite (parse_i64_lua_tostring_large (LTrade.price_i t)) by done. reflexivity.
Qed.

(** A remainder of a million units or more is read as zero. *)
Lemma parse_reply_large_remaining (lock_asset user st : string) (status : OrderStatus) (rem : Z) :
  status_code st status -> 10 ^ 14 <= rem ->
  parse_lua_reply lock_asset user (reply rem st []) = Ok (LuaMatchResult.mk (i64_to_decimal 0) status []).
Proof.
  intros Hs Hr. unfold parse_lua_reply, reply. cbn [app hd_error length fmap list_fmap].
  change (bool_decide (Some "OK" = Some "INSUFFICIENT_BALANCE")) with false.
  change (bool_decide ("OK" = "OK")) with true. cbn [negb bail_if mbind result_bind].
  unfold status_code in Hs. rewrite Hs. cbn. rewrite parse_i64_lua_tostring_large by done.
  change (default 0 (parse_usize (lua_tostring (Z.of_nat 0)))) with 0. reflexivity.
Qed.
End Reply.

(** ** End to end *)

Section Caller.
Context `{C : Crates, L : !CratesLaws C, V : Valkey, VL : !ValkeyLaws V}.
Context (o : Order.t) (lock_asset : string) (lock_amount : Z).

Definition argv : Argv.t := lua_argv o lock_asset lock_amount.

Lemma argv_keys : lua_keys o (PairKeys.new (Order.pair_id o)) = script_keys (Order.pair_id o) argv.
Proof. reflexivity. Qed.

(** What the caller needs of the resting side: uuids and printable prices. *)
Definition readable_book (s : kv) : Prop :=
  printable (taker_price argv) /\
  forall id, id ∈ candidates (Order.pair_id o) argv s ->
    printable (Resting.price_i (resting s id)) /\ is_Some (uuid_parse id).

Lemma trade_of_price (id : string) (r : Resting.t) (q : Z) :
  printable (taker_price argv) -> printable (Resting.price_i r) ->
  printable (LTrade.price_i (trade_of argv (taker_price argv) id r q)).
Proof. intros. unfold trade_of. do 2 case_decide; done. Qed.

Lemma filled_bound (ts : list LTrade.t) :
  Forall (fun t => 0 < LTrade.qty_i t) ts -> Forall (fun t => LTrade.qty_i t <= filled ts) ts.
Proof.
  induction 1 as [| t ts Ht Hts IH]; constructor.
  - unfold filled in *. cbn. enough (0 <= sumZ (LTrade.qty_i <$> ts)) by (unfold sumZ in *; lia).
    apply sumZ_nonneg, Forall_fmap. eapply Forall_impl; [exact Hts |]. cbn. lia.
  - eapply Forall_impl; [exact IH |]. unfold filled. cbn. intros. unfold sumZ in *. lia.
Qed.

Lemma readable_trades (s : kv) (ts : list LTrade.t) :
  readable_book s -> filled ts < 10 ^ 14 ->
  Forall (fun t => LTrade.resting_id t ∈ candidates (Order.pair_id o) argv s /\ trade_sound argv s t) ts ->
  exists ts', Forall2 readable_trade ts ts' /\
    (fun t => units (LuaTrade.quantity t)) <$> ts' = LTrade.qty_i <$> ts.
Proof.
  intros [Hp Hb] Hfill Hts.
  assert (Forall (fun t => 0 < LTrade.qty_i t) ts) as Hpos.
  { eapply Forall_impl; [exact Hts |]. intros t (_ & _ & [? _] & _). done. }
  pose proof (filled_bound ts Hpos) as Hbound. clear -Hp Hb Hfill Hts Hpos Hbound L.
  revert Hfill Hbound. generalize (filled ts) as total. intros total Hfill Hbound.
  induction ts as [| t ts IH]; [by exists [] |].
  apply Forall_cons in Hts as [(Hid & _ & _ & Et) Hts].
  apply Forall_cons in Hpos as [Ht Hpos]. apply Forall_cons in Hbound as [Htb Hbound].
  destruct (IH Hts Hpos Hbound) as (ts' & Hf & Hu).
  destruct (Hb _ Hid) as [Hpr [u Hpu]].
  exists (caller_trade u t :: ts'). split.
  - constructor; [| done]. split; [rewrite Et; by apply trade_of_price |].
    split; [unfold printable; lia | eauto].
  - cbn. f_equal; [| exact Hu]. apply i64_to_decimal_units. lia.
Qed.

(** End to end through the script and the parser: the quantities the
    caller sees of a matched order add up exactly to the quantity it sent,
    unless self-trade prevention cancelled it. *)
Theorem match_order_lua_conserves (s : store) (qty v : Z) :
  ready (Order.pair_id o) argv s qty v -> readable_book (view s) -> qty < 10 ^ 14 ->
  exists res,
    (match_order_lua o (PairKeys.new (Order.pair_id o)) lock_asset lock_amount s).2 = Ok res /\
    let traded := sumZ ((fun t => units (LuaTrade.quantity t)) <$> LuaMatchResult.trades res) in
    0 <= units (LuaMatchResult.remaining res) /\
    (traded + units (LuaMatchResult.remaining res) = qty \/
     (LuaMatchResult.status res = Cancelled /\ units (LuaMatchResult.remaining res) = 0 /\ traded <= qty)).
Proof.
  intros [Hq Hr Hl Hv Ha Hf] Hb Hqty.
  destruct (script_run (Order.pair_id o) argv s qty v Hq Hl Hv Ha Hr) as (R & _ & _ & _ & F & S & M).
  pose proof (fates_sound _ _ _ _ _ _ F S) as Hsound.
  set (Lp := run_loop (script_keys (Order.pair_id o) argv) argv (taker_price argv) qty (lock_balance argv s).1) in *.
  set (ts := LState.trades Lp) in *. set (rem := LState.remaining_i Lp) in *.
  assert (0 <= rem /\ filled ts <= qty /\
    ((LState.status Lp = "N" /\ filled ts + rem = qty) \/ (LState.status Lp = "C" /\ rem = 0)))
    as (Hrem & Hfl & Hcase).
  { unfold taker_moves in M. cbn [LState.remaining_i LState.status] in M. fold rem in M.
    destruct M as [(Hs & ? & ? & E)|(Hs & E & ?)]; (split; [lia |]; split; [lia |]); [left | right]; done. }
  destruct (readable_trades (view s) ts Hb ltac:(lia) Hsound) as (ts' & Hts & Hu).
  assert (length ts <= 50)%nat as Hlen.
  { pose proof (sublist_length _ _ S) as Hsl. rewrite length_fmap in Hsl.
    pose proof (candidates_length (Order.pair_id o) argv (view s)). lia. }
  set (st := final_status (Argv.tif argv) (LState.status Lp) qty rem) in *.
  assert (exists status, status_code st status /\ (LState.status Lp = "C" -> status = Cancelled))
    as (status & Hst & Hcan).
  { unfold st, final_status. destruct Hcase as [[Es _]|[Es _]]; rewrite Es.
    - repeat case_cond; eexists; (split; [reflexivity | done]).
    - cbn. rewrite andb_false_r. by exists Cancelled. }
  assert (printable rem) as Hpr.
  { unfold printable. destruct Hcase as [[_ ?]|[_ ->]]; [| lia].
    enough (0 <= filled ts) by lia. apply sumZ_nonneg, Forall_fmap.
    eapply Forall_impl; [exact Hsound |]. intros t (_ & _ & [? _] & _). cbn. lia. }
  eexists. split.
  { unfold match_order_lua. rewrite argv_keys. fold argv.
    destruct (match_order_script (script_keys (Order.pair_id o) argv) argv s) as [s' r]. cbn [snd] in *.
    rewrite R. apply parse_lua_reply_ok; eassumption. }
  cbn [LuaMatchResult.trades LuaMatchResult.remaining LuaMatchResult.status]. cbv zeta.
  rewrite Hu. fold (filled ts). destruct (i64_to_decimal_units rem) as [_ ->]; [unfold printable in Hpr; lia |].
  split; [lia |]. destruct Hcase as [[_ ?]|[Hc ->]]; [by left | right]. auto.
Qed.
End Caller.
