(* ===== verification/MatchBounds.v ===== *)
(** * What a match answers, whatever the store holds

    The theorems of [MatchLuaProps] assume stored amounts that f64 holds exactly.
    The bounds below hold for every store: the remainder the caller reads lies
    between zero and the quantity it sent, an order is filled only when nothing
    remains, and no trade has a negative quantity. *)

From S2P Require Import Prelude Numbers Externals Fixed Types Valkey Codec Book MatchLua MatchLuaProps MatchLuaReply.

Open Scope Z_scope.

Lemma f64_of_Z_nonneg (z : Z) : 0 <= z -> 0 <= f64_of_Z z.
Proof.
  intros Hz. unfold f64_of_Z. case_cond; [done |]. cbv zeta.
  set (p := 2 ^ _). assert (0 < p) as Hp by (apply Z.pow_pos_nonneg; [lia | apply Z.ltb_ge in E;
    pose proof (Z.log2_le_mono _ _ E) as H; rewrite Z.log2_pow2 in H by lia; lia]).
  pose proof (Z.div_pos (Z.abs z) p ltac:(lia) Hp). repeat case_cond; nia.
Qed.

Section Loop.
Context `{V : Valkey}.
Context (a : Argv.t) (price_i : Z) (opp : string).

(** The taker's remainder stays within what it was, as far as it is printed in
    full, and every trade takes something. *)
Record within (q : Z) (L : LState.t) : Prop := {
  wi_nonneg : 0 <= LState.remaining_i L;
  wi_below : q < 10 ^ 14 -> LState.remaining_i L <= q;
  wi_trades : Forall (fun t => 0 < LTrade.qty_i t) (LState.trades L);
}.

Lemma fill_resting_within (q : Z) (id : string) (r : Resting.t) (L : LState.t) :
  within q L -> 0 < LState.remaining_i L -> 0 < Resting.remaining_i r ->
  within q (fill_resting a price_i opp id r L).
Proof.
  intros [H0 Hq Ht] HL Hr. unfold fill_resting.
  set (f := if _ <? _ then _ else _).
  assert (0 < f <= LState.remaining_i L) as Hf.
  { unfold f. destruct (Z.ltb_spec (Resting.remaining_i r) (LState.remaining_i L)); lia. }
  constructor; cbn [LState.remaining_i LState.trades].
  - apply f64_of_Z_nonneg. lia.
  - intros Hs. specialize (Hq Hs). rewrite lua_sub_exact by (unfold max_exact; lia). lia.
  - apply Forall_app. split; [done |]. constructor; [| done]. rewrite trade_of_qty. lia.
Qed.

Lemma match_one_within (q : Z) (id : string) (L : LState.t) :
  within q L -> 0 < LState.remaining_i L -> 0 <= q -> within q (match_one a price_i opp id L).
Proof.
  intros H HL Hq. unfold match_one. set (r := read_resting _ _).
  destruct (ghost r) eqn:Hg; [done |].
  assert (0 < Resting.remaining_i r) as Hr by (unfold ghost in Hg; split_bools; lia).
  pose proof (fill_resting_within q id r L H HL Hr) as Hf. destruct H as [H0 Hb Ht].
  repeat case_cond; repeat case_decide; try done; constructor; cbn; done || lia.
Qed.

Lemma match_loop_within (q : Z) (ids : list string) (L : LState.t) :
  within q L -> 0 <= q -> within q (match_loop a price_i opp ids L).
Proof.
  intros H Hq. revert L H. induction ids as [| id ids IH]; intros L H; [done |]. cbn [match_loop].
  case_cond; [done |]. split_bools. apply IH, match_one_within; [done | lia | done].
Qed.
End Loop.

(** The two answers of the script that are not errors. *)
Lemma script_answers `{V : Valkey} (k : Keys.t) (a : Argv.t) (s s' : store) (items : list string) (q : Z) :
  match_order_script k a s = (s', Ok items) ->
  lua_tonumber (Argv.qty_i a) = Some q -> 0 <= q ->
  items = ["INSUFFICIENT_BALANCE"] \/
  exists rem st trades, items = reply rem st trades /\ 0 <= rem /\ (q < 10 ^ 14 -> rem <= q) /\
    Forall (fun t => 0 < LTrade.qty_i t) trades /\ (st = "F" -> rem = 0).
Proof.
  unfold match_order_script. intros H Eq Hq.
  destruct (lock_balance a s) as [s1 [[] | e]]; [| left; congruence | done].
  rewrite Eq in H. right. unfold finish in H.
  assert (within q (run_loop k a (default 0 (lua_tonumber (Argv.price_i a))) q s1)) as [H0 Hb Ht].
  { apply match_loop_within; [| done]. by constructor; cbn. }
  set (L := run_loop k a _ q s1) in *. destruct (v_incrby _ 1 _) as [s2 [z | e]]; [| done].
  injection H as _ <-. eexists _, _, _. split; [reflexivity |]. split_and!; try done.
  unfold final_status. repeat case_cond; repeat case_decide; intros Est; try congruence; lia.
Qed.

(** ** What the caller reads *)

Section Caller.
Context `{C : Crates, L : !CratesLaws C}.

(** A decimal of a whole number of units, not negative. *)
Definition amount_in (lo hi : Z) (d : decimal) : Prop := on_grid d /\ lo <= units d <= hi.

Lemma i64_amount (z : Z) : 0 <= z < 2 ^ 63 -> amount_in z z (i64_to_decimal z).
Proof. intros H. destruct (i64_to_decimal_units z) as [Hg Hu]; [lia |]. split; [done | lia]. Qed.

Lemma parse_i64_printed (z n : Z) : 0 < z -> parse_i64 (lua_tostring z) = Some n -> n = z /\ 0 < n < 2 ^ 63.
Proof.
  intros Hz H. destruct (Z_lt_le_dec z (10 ^ 14)) as [Hs | Hl].
  - rewrite parse_i64_lua_tostring in H by lia. injection H as <-. lia.
  - by rewrite parse_i64_lua_tostring_large in H.
Qed.

Lemma parse_lua_trades_positive (n : nat) (ts : list LTrade.t) (ts' : list LuaTrade.t) :
  Forall (fun t => 0 < LTrade.qty_i t) ts ->
  parse_lua_trades n (mjoin (trade_fields <$> ts)) = Ok ts' ->
  Forall (fun t => 0 < units (LuaTrade.quantity t)) ts'.
Proof.
  intros Hts. revert n ts'. induction Hts as [| t ts Ht Hts IH]; intros [| n] ts' H;
    try (injection H as <-; constructor); [done |].
  change (mjoin (trade_fields <$> t :: ts)) with (trade_fields t ++ mjoin (trade_fields <$> ts)) in H.
  cbn [parse_lua_trades trade_fields app] in H. inv_ok. injection H as <-. constructor; [| by eapply IH].
  unfold parse_lua_trade in H0. inv_ok. injection H0 as <-. cbn [LuaTrade.quantity].
  match goal with Hq : parse_i64 (lua_tostring (LTrade.qty_i t)) = Some _ |- _ =>
    apply parse_i64_printed in Hq as [-> Hq]; [| done] end.
  destruct (i64_amount (LTrade.qty_i t)) as [_ ?]; lia.
Qed.

(** The bounds of an answer. *)
Record answer_ok (o : Order.t) (m : LuaMatchResult.t) : Prop := {
  an_remaining : amount_in 0 (units (Order.quantity o)) (LuaMatchResult.remaining m);
  an_filled : LuaMatchResult.status m = Filled -> units (LuaMatchResult.remaining m) = 0;
  an_trades : Forall (fun t => 0 < units (LuaTrade.quantity t)) (LuaMatchResult.trades m);
}.

Context `{V : Valkey}.

Lemma match_order_lua_answer (o : Order.t) (k : PairKeys.t) (asset : string) (amount : Z) (s s' : store)
    (m : LuaMatchResult.t) :
  on_grid (Order.quantity o) -> 0 <= units (Order.quantity o) ->
  match_order_lua o k asset amount s = (s', Ok m) -> answer_ok o m.
Proof.
  intros Hg Hq. unfold match_order_lua.
  destruct (match_order_script _ _ s) as [s1 [items | e]] eqn:Es; [| done]. intros [= _ Hp].
  eapply script_answers in Es as [-> | (rem & st & ts & -> & H0 & Hb & Hts & Hf)];
    [discriminate | | | apply f64_of_Z_nonneg, Hq].
  2: { cbn -[lua_tonumber]. by rewrite (decimal_to_i64_grid _ Hg), lua_tonumber_Z_to_string. }
  unfold parse_lua_reply, reply in Hp. fold trade_fields in Hp. cbn [app] in Hp. inv_ok.
  set (z := default 0 (parse_i64 (lua_tostring rem))) in *.
  assert (0 <= z <= units (Order.quantity o) /\ z < 2 ^ 63 /\ (rem = 0 -> z = 0)) as (Hz & Hz' & Hz0).
  { unfold z. destruct (Z_lt_le_dec rem (10 ^ 14)) as [Hs | Hl].
    - rewrite parse_i64_lua_tostring by lia. cbn. destruct (Z_lt_le_dec (units (Order.quantity o)) (10 ^ 14)).
      + rewrite f64_of_Z_exact in Hb by lia. lia.
      + lia.
    - rewrite parse_i64_lua_tostring_large by done. cbn. lia. }
  destruct (i64_amount z) as [Hzg Hzu]; [lia |]. injection Hp as <-.
  constructor; cbn [LuaMatchResult.remaining LuaMatchResult.status LuaMatchResult.trades].
  - split; [done | lia].
  - intros ->. assert (st = "F") as E by (unfold lua_status in *; repeat case_decide; congruence).
    specialize (Hz0 (Hf E)). lia.
  - by eapply parse_lua_trades_positive.
Qed.
End Caller.
