(* ===== verification/MatchLuaExamples.v ===== *)
(** * Concrete runs of the atomic match

    A small market on which every hypothesis of the match theorems holds, and
    the runs that show where the code departs from its documentation. *)

From S2P Require Import Prelude Numbers Externals Fixed Types Valkey Codec Engine EngineProps Book.
From S2P Require Import BookProps MatchLua MatchLuaProps MatchLuaReply.

Open Scope Z_scope.

Module MatchLuaExamples.
Import RefCrates RefValkey EngineExamples BookExamples.

Definition with_balance (user asset : string) (available : Z) (s : @store ref_valkey)
    : @store ref_valkey :=
  v_hset (balance_key user asset) [("available", Z_to_string available); ("locked", "0")] s.

(** Two asks, and a taker with balance in both assets. *)
Definition market : @store ref_valkey :=
  with_balance "taker" "USDT" 100000000000
    (with_balance "taker" "BTC" 100000000000
       (save_order_to_book (ask 12 101 2 0) (save_order_to_book (ask 11 100 1 0) empty_store))).

Definition bid (tif : TimeInForce) (price qty : Q) : @Order.t ref_crates :=
  order 1 "taker" Buy Limit tif (Some price) qty Stp.None.

Definition bid_argv : Argv.t := argv (bid GTC 101 2) "USDT" 20200000000.

Lemma market_candidates : candidates "BTC-USDT" bid_argv (view market) = ["11"; "12"].
Proof. vm_compute. reflexivity. Qed.

Lemma market_ready : ready "BTC-USDT" bid_argv market 200000000 1.
Proof.
  constructor.
  - vm_compute. reflexivity.
  - unfold max_exact. lia.
  - vm_compute. reflexivity.
  - vm_compute. reflexivity.
  - intros id. rewrite market_candidates, !elem_of_cons, elem_of_nil.
    intros [-> | [-> | []]]; vm_compute; congruence.
  - rewrite market_candidates, !elem_of_cons, elem_of_nil. intros [H | [H | []]]; vm_compute in H; congruence.
Qed.

Lemma market_readable : readable_book (bid GTC 101 2) "USDT" 20200000000 (view market).
Proof.
  split; [vm_compute; split; congruence |].
  intros id. change (candidates _ _ _) with (candidates "BTC-USDT" bid_argv (view market)).
  rewrite market_candidates, !elem_of_cons, elem_of_nil.
  intros [-> | [-> | []]]; (split; [vm_compute; split; congruence | by eexists]).
Qed.


Lemma script_makers_witness :
  exists rem st trades, answered "BTC-USDT" bid_argv market rem st trades /\
    fate bid_argv (taker_price bid_argv) "12" (resting (view market) "12")
      (cell (opp_book "BTC-USDT" bid_argv) (view market) "12")
      (cell (opp_book "BTC-USDT" bid_argv) (final_view "BTC-USDT" bid_argv market) "12")
      (trades_of "12" trades).
Proof.
  apply (script_makers "BTC-USDT" bid_argv market 200000000 1 "12" market_ready).
  rewrite market_candidates. right. left.
Defined.

Lemma script_trades_sound_witness :
  exists rem st trades, answered "BTC-USDT" bid_argv market rem st trades /\
    (LTrade.resting_id <$> trades) `sublist_of` candidates "BTC-USDT" bid_argv (view market) /\
    Forall (fair_trade bid_argv (view market)) trades.
Proof. exact (script_trades_sound "BTC-USDT" bid_argv market 200000000 1 market_ready). Defined.

Lemma script_rests_witness :
  exists rem st trades, answered "BTC-USDT" bid_argv market rem st trades /\
    (exists st0, (st0 = "N" \/ st0 = "C") /\ st = final_status "G" st0 200000000 rem) /\
    if rests "G" st rem then
      zset (final_view "BTC-USDT" bid_argv market) (own_book "BTC-USDT" bid_argv)
        = <["1" := Argv.score bid_argv]> (zset (view market) (own_book "BTC-USDT" bid_argv)) /\
      exists h, hash (final_view "BTC-USDT" bid_argv market) "order:1"
                = hset_fields (rest_fields bid_argv (taker_price bid_argv) 200000000 rem st) h
    else
      zset (final_view "BTC-USDT" bid_argv market) (own_book "BTC-USDT" bid_argv)
        = zset (view market) (own_book "BTC-USDT" bid_argv) /\
      hash (final_view "BTC-USDT" bid_argv market) "order:1" = hash (view market) "order:1".
Proof. exact (script_rests "BTC-USDT" bid_argv market 200000000 1 market_ready). Defined.

Lemma script_priority_witness :
  exists rem st trades, answered "BTC-USDT" bid_argv market rem st trades /\
    (trades_of "12" trades <> [] ->
     forall i, i ∈ ["11"] ->
       ghost (resting (view market) i) = true \/
       cell (opp_book "BTC-USDT" bid_argv) (final_view "BTC-USDT" bid_argv market) i = (∅, None)).
Proof.
  exact (script_priority "BTC-USDT" bid_argv market 200000000 1 ["11"] [] "12" market_ready
           market_candidates).
Defined.

Lemma script_bumps_version_witness :
  strs (final_view "BTC-USDT" bid_argv market) !! "version:BTC-USDT" = Some "1".
Proof.
  exact (proj1 (script_bumps_version "BTC-USDT" bid_argv market 200000000 1 market_ready)).
Defined.

Lemma lock_balance_spec_witness :
  (lock_balance bid_argv market).2 = Ok true /\
  balance_is (view (lock_balance bid_argv market).1) "taker" "USDT" 79800000000 20200000000.
Proof.
  apply (lock_balance_spec (script_keys "BTC-USDT" bid_argv) bid_argv market 20200000000 100000000000 0);
    try (unfold small; lia); try (vm_compute; done).
Defined.

Lemma match_order_lua_conserves_witness :
  exists res,
    (match_order_lua (bid GTC 101 2) (PairKeys.new "BTC-USDT") "USDT" 20200000000 market).2 = Ok res /\
    let traded := sumZ ((fun t => units (LuaTrade.quantity t)) <$> LuaMatchResult.trades res) in
    0 <= units (LuaMatchResult.remaining res) /\
    (traded + units (LuaMatchResult.remaining res) = 200000000 \/
     (LuaMatchResult.status res = Cancelled /\ units (LuaMatchResult.remaining res) = 0 /\
      traded <= 200000000)).
Proof.
  apply (match_order_lua_conserves (bid GTC 101 2) "USDT" 20200000000 market 200000000 1 market_ready
           market_readable).
  lia.
Defined.

Lemma parse_reply_round_trip_witness :
  parse_lua_reply "USDT" "taker" (reply 100 "PF" [LTrade.mk "11" 7 5 "taker" "maker"])
    = Ok (LuaMatchResult.mk (i64_to_decimal 100) PartiallyFilled
            [LuaTrade.mk (11%positive : @uuid ref_crates) (i64_to_decimal 7) (i64_to_decimal 5) "taker" "maker"]).
Proof.
  apply (parse_reply_round_trip "USDT" "taker" "PF" PartiallyFilled 100).
  - unfold printable. lia.
  - reflexivity.
  - cbn. lia.
  - constructor; [| constructor]. split; [unfold printable; cbn; lia |].
    split; [unfold printable; cbn; lia |]. exists (11%positive : @uuid ref_crates). split; reflexivity.
Defined.

(** ** Divergences *)

(** At a price of a million the script fills the resting order and locks the
    taker's balance, but the caller cannot read the reply and reports an error. *)
Definition expensive : @store ref_valkey :=
  with_balance "taker" "USDT" 100000000000000
    (save_order_to_book (ask 11 1000000 1 0) empty_store).

Lemma expensive_match_lost :
  let '(s, r) := match_order_lua (bid IOC 1000000 1) (PairKeys.new "BTC-USDT") "USDT" 100000000000000
                   expensive in
  is_ok r = false /\ zset (view s) "book:BTC-USDT:asks" = ∅ /\
  hash (view s) "balance:taker:USDT" !! "available" = Some "0".
Proof. vm_compute. done. Qed.

(** A market order with the default GTC rests in its own book at score 0. *)
Lemma market_order_rests :
  let o := order 1 "taker" Buy Market GTC None 1%Q Stp.None in
  let '(s, r) := match_order_lua o (PairKeys.new "BTC-USDT") "USDT" 0 empty_store in
  is_ok r = true /\ zset (view s) "book:BTC-USDT:bids" !! "1" = Some 0.
Proof. vm_compute. done. Qed.

(** Self-trade prevention that cancels the taker reports a remainder of zero,
    so the caller never releases the lock it took. *)
Lemma stp_keeps_lock :
  let o := order 1 "maker" Buy Limit GTC (Some 100%Q) 1%Q Stp.CancelTaker in
  let '(s, r) := match_order_lua o (PairKeys.new "BTC-USDT") "USDT" 10000000000
                   (with_balance "maker" "USDT" 10000000000
                      (save_order_to_book (ask 11 100 1 0) empty_store)) in
  (match r with
   | Ok res => LuaMatchResult.status res = Cancelled /\ dec_eqb (LuaMatchResult.remaining res) dec_zero = true
   | Err _ => False
   end) /\
  hash (view s) "balance:maker:USDT" !! "locked" = Some "10000000000".
Proof. vm_compute. done. Qed.
End MatchLuaExamples.
