(* ===== verification/Refine.v ===== *)
(** * The match script refines the in-memory engine

    The repository has two matchers: [engine.rs] walks a slice of orders, and
    [match_order.lua] walks a sorted set of ids and the hashes behind them.  A
    simulation relates the two loops: while the store holds the engine's book,
    both fill the same resting orders, by the same quantities at the same
    prices, and leave books that again hold the same orders. *)

From S2P Require Import Prelude Numbers Externals Fixed Types Valkey Codec Engine EngineProps Book.
From S2P Require Import BookProps MatchLua MatchLuaProps MatchLuaReply MatchLuaExamples.

Open Scope Z_scope.

(** A field just written, and a field the write leaves. *)
Lemma hset_stored (f v : string) (fvs : list (string * string)) (h : gmap string string) :
  field_value f fvs = Some v -> hset_fields fvs h !! f = Some v.
Proof. intros E. by rewrite hset_lookup, E. Qed.

Lemma hset_untouched (f : string) (fvs : list (string * string)) (h : gmap string string) :
  field_value f fvs = None -> hset_fields fvs h !! f = h !! f.
Proof. intros E. by rewrite hset_lookup, E. Qed.

Section Orders.
Context `{C : Crates, L : !CratesLaws C}.

(** What the script reads of a resting order. *)
Definition resting_view (o : Order.t) : Resting.t :=
  Resting.mk (price_i_of o) (left o) (Order.user_id o) (stp_char (Order.stp_mode o))
    (status_char (Order.status o)) (order_type_char (Order.order_type o)).

(** A limit price the script compares and prints exactly. *)
Definition exact_price (o : Order.t) : Prop :=
  exists p, Order.price o = Some p /\ on_grid p /\ 0 <= units p < 10 ^ 14.

Definition open_status (s : OrderStatus) : Prop := s = New \/ s = PartiallyFilled.

(** Both matchers apply the taker's self-trade prevention; the script falls
    back on the resting order's when the taker has none. *)
Definition stp_agreed (i r : Order.t) : Prop :=
  Order.user_id i = Order.user_id r -> Order.stp_mode i = Stp.None -> Order.stp_mode r = Stp.None.

(** An order the book may hold for the taker [i]. *)
Record maker (i r : Order.t) : Prop := {
  mk_live : live r;
  mk_left : left r < 10 ^ 14;
  mk_price : exact_price r;
  mk_limit : Order.order_type r = Limit;
  mk_open : open_status (Order.status r);
  mk_stp : stp_agreed i r;
}.

(** An order as the gateway builds it, before it is matched.  The script has
    no fill-or-kill rule, and no rule of its own for market orders. *)
Record taker (i : Order.t) : Prop := {
  tk_live : live i;
  tk_left : left i < 10 ^ 14;
  tk_new : Order.status i = New;
  tk_quantity : on_grid (Order.quantity i) /\ units (Order.quantity i) = left i;
  tk_price : exact_price i \/ (Order.order_type i = Market /\ Order.price i = None);
  tk_tif : Order.tif i = IOC \/ (Order.tif i = GTC /\ Order.order_type i = Limit);
}.

(** The hash the book keeps of a maker is read as that maker. *)
Lemma resting_of_fields (i r : Order.t) (h : gmap string string) :
  maker i r -> resting_of (hset_fields (order_hash_fields r) h) = resting_view r.
Proof.
  intros [[Hg H0] Hl (p & Ep & Hp & Hpb) _ _ _]. unfold left, max_exact in *.
  assert (price_i_of r = units p) as Epi
    by (unfold price_i_of; rewrite Ep; by apply decimal_to_i64_grid).
  unfold resting_of, resting_view.
  rewrite (hset_stored "price_i" _ (order_hash_fields r) h eq_refl), (hset_stored "remaining_i" _ (order_hash_fields r) h eq_refl), (hset_stored "user_id" _ (order_hash_fields r) h eq_refl),
    (hset_stored "stp" _ (order_hash_fields r) h eq_refl), (hset_stored "status" _ (order_hash_fields r) h eq_refl), (hset_stored "order_type" _ (order_hash_fields r) h eq_refl).
  cbn [mbind option_bind]. rewrite (decimal_to_i64_grid _ Hg), Epi, !lua_tonumber_Z_to_string, !f64_of_Z_exact by lia.
  reflexivity.
Qed.

Lemma exact_price_i (o : Order.t) : exact_price o -> 0 <= price_i_of o < 10 ^ 14.
Proof.
  intros (p & E & Hp & Hb). unfold price_i_of. by rewrite E, decimal_to_i64_grid.
Qed.

(** The same trade in both representations. *)
Definition same_trade (i : Order.t) (lt : LTrade.t) (t : Trade.t) : Prop :=
  LTrade.resting_id lt = uuid_to_string (trade_resting_id i t) /\
  LTrade.price_i lt = units (Trade.price t) /\ LTrade.qty_i lt = units (Trade.quantity t) /\
  LTrade.buyer_id lt = Trade.buyer_id t /\ LTrade.seller_id lt = Trade.seller_id t.

Context (asset : string) (amount : Z).
Local Abbreviation arg i := (lua_argv i asset amount).

Definition limit_price (i : Order.t) : Z := default 0 (lua_tonumber (Argv.price_i (arg i))).

Lemma limit_price_exact (i : Order.t) : exact_price i -> limit_price i = price_i_of i.
Proof.
  intros H%exact_price_i. unfold limit_price, max_exact in *. cbn -[lua_tonumber].
  rewrite lua_tonumber_Z_to_string, f64_of_Z_exact by lia. reflexivity.
Qed.

(** ** The decisions of the loop *)

Lemma ghost_maker (i r : Order.t) : maker i r -> ghost (resting_view r) = false.
Proof.
  intros [[_ H0] _ _ _ Ho _]. unfold ghost. cbn. fold (left r) in H0.
  rewrite (proj2 (Z.leb_gt _ _) H0). destruct Ho as [-> | ->]; reflexivity.
Qed.

Lemma crosses_price_matches (i i' r : Order.t) :
  taker i -> same_terms i i' -> maker i r ->
  crosses (arg i) (limit_price i) (resting_view r) = price_matches i' r.
Proof.
  intros Ht Hs [_ _ (p & Ep & Hp & Hpb) _ _ _].
  rewrite (price_matches_terms i i' r r Hs) by reflexivity.
  assert (price_i_of r = units p) as Epi
    by (unfold price_i_of; rewrite Ep; by apply decimal_to_i64_grid).
  unfold crosses, price_matches. cbn -[limit_price]. destruct (Order.order_type i) eqn:Et; [| done].
  assert (exact_price i) as Hi by (destruct (tk_price _ Ht) as [? | [? _]]; [done | congruence]).
  rewrite (limit_price_exact _ Hi), Epi, Ep.
  destruct Hi as (b & Eb & Hb & _). unfold price_i_of. rewrite Eb, (decimal_to_i64_grid _ Hb).
  unfold dec_geb, dec_leb. rewrite (grid_cmp _ _ _ _ Hb Hp).
  destruct (Order.side i); cbn; unfold Z.leb; [rewrite (Z.compare_antisym (units b)) |];
    by destruct (units b ?= units p).
Qed.

(** The code on which the script acts is the engine's action. *)
Lemma combined_stp_action (i i' r : Order.t) :
  same_terms i i' -> stp_agreed i r -> Order.user_id i = Order.user_id r ->
  combined_stp (arg i) (resting_view r) = stp_char (stp_action i' r).
Proof.
  intros Hs Ha Hu. rewrite (stp_action_terms i i' r r Hs) by reflexivity.
  unfold combined_stp, stp_action. rewrite (decide_True (P := Order.user_id i = _)) by done.
  cbn -[decide]. destruct (Order.stp_mode i) eqn:E; try reflexivity. rewrite (Ha Hu E). reflexivity.
Qed.
End Orders.

(** ** The simulation *)

Section Simulation.
Context `{C : Crates, L : !CratesLaws C, V : Valkey, VL : !ValkeyLaws V}.
Context (new_v4 : nat -> uuid) (now : nat -> datetime).
Context (asset : string) (amount : Z) (opp : string).
Context (Hopp : forall id, order_key_str id <> opp).
Context (i : Order.t) (Hi : taker i).

Local Abbreviation a := (lua_argv i asset amount).
Local Abbreviation price := (limit_price asset amount i).
Local Abbreviation text o := (uuid_to_string (Order.id o)).
Local Abbreviation texts book := ((fun o => text o) <$> book).

(** The store holds an order of the engine's book. *)
Definition holds (s : kv) (o : Order.t) : Prop := resting s (text o) = resting_view o.

(** The store after the match against the engine's book after it. *)
Definition holds_after (s : kv) (o : Order.t) : Prop :=
  if (left o =? 0) || bool_decide (Order.status o = Cancelled)
  then cell opp s (text o) = (∅, None) else holds s o.

(** The locals of the script against the engine's state, while the taker is
    live and when self-trade prevention has cancelled it. *)
Record running (st : MatchResult.t) (Ls : LState.t) : Prop := {
  rn_status : LState.status Ls = "N";
  rn_left : LState.remaining_i Ls = left (MatchResult.incoming st);
  rn_ok : amount_ok (MatchResult.incoming st);
  rn_terms : same_terms i (MatchResult.incoming st);
  rn_outcome :
    (MatchResult.trades st = [] /\ Order.status (MatchResult.incoming st) = New /\
     left (MatchResult.incoming st) = left i) \/
    (MatchResult.trades st <> [] /\ left (MatchResult.incoming st) < left i /\
     Order.status (MatchResult.incoming st) = fill_status (Order.remaining (MatchResult.incoming st)));
}.

Definition stopped (st : MatchResult.t) (Ls : LState.t) : Prop :=
  LState.status Ls = "C" /\ LState.remaining_i Ls = 0 /\
  Order.status (MatchResult.incoming st) = Cancelled.

Definition same_trades (st : MatchResult.t) (Ls : LState.t) : Prop :=
  Forall2 (same_trade i) (LState.trades Ls) (MatchResult.trades st).

Lemma running_bound (st : MatchResult.t) (Ls : LState.t) :
  running st Ls -> 0 <= LState.remaining_i Ls < 10 ^ 14.
Proof.
  intros [_ -> [_ ?] _ Ho]. pose proof (tk_left _ Hi). unfold left in *.
  destruct Ho as [(_ & _ & ?) | (_ & ? & _)]; lia.
Qed.

Lemma holds_cell (s s' : kv) (o : Order.t) :
  cell opp s' (text o) = cell opp s (text o) ->
  (holds s o -> holds s' o) /\ (holds_after s o -> holds_after s' o).
Proof.
  unfold cell, holds_after, holds, resting. intros E. pose proof E as Eh. injection Eh as Eh _.
  rewrite Eh. split; [done |]. unfold cell. by rewrite E.
Qed.

(** A resting order that was not touched. *)
Lemma holds_untouched (s : kv) (o : Order.t) : maker i o -> holds s o -> holds_after s o.
Proof.
  intros [[_ H0] _ _ _ Ho _] H. unfold holds_after. fold (left o) in H0.
  rewrite (proj2 (Z.eqb_neq _ _)) by lia.
  rewrite bool_decide_eq_false_2; [done |]. destruct Ho as [-> | ->]; done.
Qed.

(** A reduced hash is read as the reduced order. *)
Lemma resting_of_reduced (h : gmap string string) (q : Z) :
  Z.abs q < 10 ^ 14 ->
  resting_of (hset_fields [("remaining_i", lua_tostring q); ("status", "PF")] h)
  = Resting.mk (Resting.price_i (resting_of h)) q (Resting.user_id (resting_of h))
      (Resting.stp (resting_of h)) "PF" (Resting.order_type (resting_of h)).
Proof.
  intros Hq. unfold resting_of. set (w := [_; _]).
  rewrite (hset_stored "remaining_i" _ w h eq_refl), (hset_stored "status" _ w h eq_refl).
  rewrite (hset_untouched "price_i" w h eq_refl), (hset_untouched "user_id" w h eq_refl),
    (hset_untouched "stp" w h eq_refl), (hset_untouched "order_type" w h eq_refl).
  cbn [mbind option_bind]. by rewrite lua_tonumber_tostring.
Qed.


(** One trade in both representations. *)
Lemma same_trade_of (r : Order.t) (q : Z) (t : Trade.t) :
  maker i r -> trade_between i r t -> units (Trade.quantity t) = q ->
  same_trade i (trade_of a price (text r) (resting_view r) q) t.
Proof.
  intros [_ _ (p & Ep & Hp & _) Hl _ _] (_ & _ & _ & Et & Hs) Hq. rewrite Ep in Et.
  unfold same_trade, trade_of, trade_resting_id, resting_view.
  cbn [Resting.order_type Resting.price_i Resting.user_id Argv.side Argv.user_id lua_argv].
  rewrite Hl. unfold price_i_of. rewrite Ep, (decimal_to_i64_grid _ Hp), Et.
  destruct (Order.side i); destruct Hs as (E1 & E2 & E3 & E4); cbn; rewrite ?E1, ?E2, E3, E4; auto.
Qed.

(** The maker's cell after a fill. *)
Lemma fill_resting_holds (r r' : Order.t) (q : Z) (s : store) :
  maker i r -> holds (view s) r -> same_terms r r' -> left r' = left r - q -> 0 <= left r' ->
  0 <= q -> Order.status r' = fill_status (Order.remaining r') -> amount_ok r' ->
  holds_after
    (view (if lua_sub (Resting.remaining_i (resting_view r)) q <=? 0 then drop_resting opp (text r) s
           else v_hset (order_key_str (text r))
                  [("remaining_i", lua_tostring (lua_sub (Resting.remaining_i (resting_view r)) q));
                   ("status", "PF")] s)) r'.
Proof.
  intros Hm Hh Ht El H0 Hq Es Ha. pose proof (mk_left _ _ Hm).
  destruct Ht as (Eid & Eu & _ & _ & Eot & _ & Ep & _ & Estp).
  cbn [resting_view Resting.remaining_i].
  assert (lua_sub (left r) q = left r') as -> by (unfold lua_sub; rewrite El; apply f64_of_Z_exact; lia).
  unfold holds_after. rewrite <- Eid, Es. unfold fill_status. rewrite (is_zero_spec _ Ha).
  destruct (Z.eqb_spec (left r') 0) as [-> | Hne].
  - cbn. by destruct (drop_resting_touches opp Hopp (text r) s) as [_ ->].
  - rewrite (proj2 (Z.leb_gt _ _)) by lia. rewrite bool_decide_eq_false_2 by done. cbn [orb].
    unfold holds, resting in *. rewrite <- Eid, hset_view, hash_hset_eq, resting_of_reduced by lia.
    rewrite Hh. unfold resting_view, price_i_of. cbn.
    rewrite Es. unfold fill_status. rewrite (is_zero_spec _ Ha), (proj2 (Z.eqb_neq _ _) Hne).
    by rewrite Eu, Ep, Eot, Estp.
Qed.

Lemma fill_agrees (st : MatchResult.t) (Ls : LState.t) (r : Order.t) :
  running st Ls -> left (MatchResult.incoming st) <> 0 -> maker i r ->
  holds (view (LState.st Ls)) r ->
  price_matches (MatchResult.incoming st) r = true ->
  stp_action (MatchResult.incoming st) r = Stp.None -> same_trades st Ls ->
  let st' := fst (fill new_v4 now st r) in
  let Ls' := MatchLua.fill_resting a price opp (text r) (resting_view r) Ls in
  running st' Ls' /\ LState.match_break Ls' = LState.match_break Ls /\ same_trades st' Ls' /\
  holds_after (view (LState.st Ls')) (snd (fill new_v4 now st r)).
Proof.
  intros Hrun Hne Hm Hh Hp Hs Hts. pose proof (running_bound _ _ Hrun) as Hb.
  pose proof (fill_spec new_v4 now st r (rn_ok _ _ Hrun) (live_amount_ok _ (mk_live _ _ Hm))) as Hf.
  assert (Order.status (MatchResult.incoming (fill new_v4 now st r).1)
          = fill_status (Order.remaining (MatchResult.incoming (fill new_v4 now st r).1))) as Est
    by reflexivity.
  assert (Order.status (fill new_v4 now st r).2
          = fill_status (Order.remaining (fill new_v4 now st r).2)) as Er by reflexivity.
  cbv zeta in *. destruct (fill new_v4 now st r) as [st' r']. cbn [fst snd] in *.
  destruct Hf as (Ha & Hr & Eli & Elr & t & Etr & Eq & Hti & Htr & Htb). specialize (Htb Hp Hs).
  pose proof (mk_live _ _ Hm) as [_ Hr0]. pose proof (mk_left _ _ Hm) as Hrl. fold (left r) in Hr0.
  destruct Hrun as [Hst Hl Hok Hterms Hout]. pose proof Hok as [_ Hok0].
  fold (left (MatchResult.incoming st)) in Hok0.
  set (q := Z.min (left (MatchResult.incoming st)) (left r)) in *.
  unfold MatchLua.fill_resting.
  assert ((if Resting.remaining_i (resting_view r) <? LState.remaining_i Ls
           then Resting.remaining_i (resting_view r) else LState.remaining_i Ls) = q) as ->.
  { rewrite Hl. cbn [resting_view Resting.remaining_i]. unfold q.
    destruct (Z.ltb_spec (left r) (left (MatchResult.incoming st))); lia. }
  split; [| split; [done | split]].
  - constructor; cbn [LState.status LState.remaining_i]; try done.
    + rewrite Hl, Eli. apply f64_of_Z_exact. lia.
    + by etransitivity.
    + right. split; [rewrite Etr; by destruct (MatchResult.trades st) |]. split; [| done].
      destruct Hout as [(_ & _ & ?) | (_ & ? & _)]; lia.
  - unfold same_trades in *. cbn [LState.trades]. rewrite Etr. apply Forall2_app; [done |].
    constructor; [| constructor]. apply same_trade_of; [done | | done].
    by eapply trade_between_terms.
  - cbn [LState.st]. apply fill_resting_holds with (q := q); try done; lia.
Qed.


(** ** The loop *)

Definition agrees (st : MatchResult.t) (Ls : LState.t) : Prop :=
  (running st Ls \/ stopped st Ls) /\ same_trades st Ls.

(** One turn of the script, by the engine's decisions. *)
Lemma match_one_action (st : MatchResult.t) (Ls : LState.t) (r : Order.t) :
  running st Ls -> maker i r -> holds (view (LState.st Ls)) r ->
  match_one a price opp (text r) Ls =
    let cut (s : store) := LState.mk s 0 "C" (LState.trades Ls) true in
    if price_matches (MatchResult.incoming st) r then
      match stp_action (MatchResult.incoming st) r with
      | Stp.None => MatchLua.fill_resting a price opp (text r) (resting_view r) Ls
      | Stp.CancelMaker =>
          LState.mk (drop_resting opp (text r) (LState.st Ls)) (LState.remaining_i Ls)
            (LState.status Ls) (LState.trades Ls) (LState.match_break Ls)
      | Stp.CancelTaker => cut (LState.st Ls)
      | Stp.CancelBoth => cut (drop_resting opp (text r) (LState.st Ls))
      end
    else LState.mk (LState.st Ls) (LState.remaining_i Ls) (LState.status Ls) (LState.trades Ls) true.
Proof.
  unfold holds. intros Hrun Hm Hh. cbv zeta. unfold match_one. rewrite !read_resting_view, !Hh.
  rewrite (ghost_maker _ _ Hm), (crosses_price_matches _ _ _ _ _ Hi (rn_terms _ _ Hrun) Hm).
  destruct (price_matches _ r); [cbn [negb] | done].
  pose proof (combined_stp_action asset amount i _ r (rn_terms _ _ Hrun) (mk_stp _ _ Hm)) as Hc.
  change (Argv.user_id a) with (Order.user_id i).
  change (Resting.user_id (resting_view r)) with (Order.user_id r).
  destruct (decide (Order.user_id i = Order.user_id r)) as [Hu | Hu].
  - rewrite (Hc Hu). by destruct (stp_action _ r).
  - unfold stp_action. rewrite decide_False; [done |].
    destruct (rn_terms _ _ Hrun) as (_ & <- & _). done.
Qed.

(** A cell is settled once the loop has passed it. *)
Lemma match_one_frame (Ls : LState.t) (r : Order.t) (rest : list Order.t) :
  maker i r -> holds (view (LState.st Ls)) r -> 0 < LState.remaining_i Ls < 10 ^ 14 ->
  ~ (text r ∈ texts rest) -> Forall (holds (view (LState.st Ls))) rest ->
  Forall (holds (view (LState.st (match_one a price opp (text r) Ls)))) rest.
Proof.
  intros Hm Hh Hb Hr Hrest. pose proof (mk_left _ _ Hm) as Hl.
  destruct (match_one_step a price opp Hopp (text r) Ls) as (_ & _ & T & _).
  { rewrite Hh. cbn. unfold max_exact. lia. }
  { unfold max_exact. lia. }
  rewrite Forall_forall in *. intros o Ho. specialize (Hrest o Ho). revert Hrest.
  apply holds_cell. apply (only_touches_cell _ _ _ _ _ T). rewrite list_elem_of_singleton.
  intros E. apply Hr. rewrite <- E. apply list_elem_of_fmap. by exists o.
Qed.

Lemma match_loop_frame (Ls : LState.t) (r : Order.t) (rest : list Order.t) :
  NoDup (texts rest) -> Forall (maker i) rest -> Forall (holds (view (LState.st Ls))) rest ->
  0 <= LState.remaining_i Ls < 10 ^ 14 -> ~ (text r ∈ texts rest) ->
  holds_after (view (LState.st Ls)) r ->
  holds_after (view (LState.st (MatchLua.match_loop a price opp (texts rest) Ls))) r.
Proof.
  intros Hnd Hm Hh Hb Hr.
  destruct (match_loop_spec a price opp Hopp (texts rest) Ls) as (_ & _ & T & _); [done | | |].
  - intros id (o & -> & Ho)%list_elem_of_fmap. rewrite Forall_forall in *.
    rewrite (Hh o Ho). pose proof (mk_left _ _ (Hm o Ho)). cbn. unfold max_exact. lia.
  - unfold max_exact. lia.
  - apply holds_cell. by apply (only_touches_cell _ _ _ _ _ T).
Qed.

Lemma untouched_book (s : kv) (book : list Order.t) :
  Forall (maker i) book -> Forall (holds s) book -> Forall (holds_after s) book.
Proof.
  intros Hm Hh. rewrite Forall_forall in *. intros o Ho. apply holds_untouched; auto.
Qed.


(** A maker removed by self-trade prevention. *)
Lemma dropped_holds (r : Order.t) (s : store) :
  holds_after (view (drop_resting opp (text r) s)) (Order.set_status Cancelled r).
Proof.
  unfold holds_after. rewrite bool_decide_eq_true_2 by done. rewrite orb_true_r.
  by destruct (drop_resting_touches opp Hopp (text r) s).
Qed.

(** The taker's state does not change when a maker is cancelled. *)
Lemma running_cancel_maker (st : MatchResult.t) (Ls : LState.t) (r : Order.t) (s : store) :
  running st Ls ->
  running (cancel_maker st r)
    (LState.mk s (LState.remaining_i Ls) (LState.status Ls) (LState.trades Ls) (LState.match_break Ls)).
Proof. by intros [? ? ? ? ?]. Qed.

Lemma live_is_nonzero (st : MatchResult.t) (Ls : LState.t) :
  running st Ls ->
  dec_eqb (Order.remaining (MatchResult.incoming st)) dec_zero = (LState.remaining_i Ls <=? 0).
Proof.
  intros H. rewrite (is_zero_spec _ (rn_ok _ _ H)), (rn_left _ _ H).
  destruct (rn_ok _ _ H) as [_ H0]. fold (left (MatchResult.incoming st)) in H0.
  apply eq_true_iff_eq. rewrite Z.eqb_eq, Z.leb_le. lia.
Qed.

Lemma match_loop_turn (st : MatchResult.t) (Ls : LState.t) (r : Order.t) (rest : list Order.t) :
  dec_eqb (Order.remaining (MatchResult.incoming st)) dec_zero = false -> running st Ls ->
  LState.match_break Ls = false ->
  MatchLua.match_loop a price opp (texts (r :: rest)) Ls
    = MatchLua.match_loop a price opp (texts rest) (match_one a price opp (text r) Ls) /\
  0 < LState.remaining_i Ls < 10 ^ 14.
Proof.
  intros Hz Hr Hb. rewrite (live_is_nonzero _ _ Hr) in Hz.
  pose proof (running_bound _ _ Hr). cbn. rewrite Hz, Hb. split; [done |]. apply Z.leb_gt in Hz. lia.
Qed.

(** The script's loop follows every walk of the engine. *)
Lemma walk_agrees (st : MatchResult.t) (book : list Order.t) st' book' :
  walk new_v4 now st book st' book' -> forall Ls,
  NoDup (texts book) -> Forall (maker i) book -> Forall (holds (view (LState.st Ls))) book ->
  running st Ls -> LState.match_break Ls = false -> same_trades st Ls ->
  let Ls' := MatchLua.match_loop a price opp (texts book) Ls in
  agrees st' Ls' /\ Forall (holds_after (view (LState.st Ls'))) book'.
Proof.
  induction 1 as [st|st r rest Hz|st r rest Hz Hp|st r rest Hz Hp Hs|st r rest Hz Hp Hs
    |st r rest st' rest' Hz Hp Hs Hw IH|st r rest st' rest' Hz Hp Hs Hw IH];
    intros Ls Hnd Hm Hh Hr Hb Ht; cbv zeta; [by split; [split; [left |] |] |..].
  1: { rewrite match_loop_stopped by (by rewrite <- (live_is_nonzero _ _ Hr), Hz).
       split; [by split; [left |] | by apply untouched_book]. }
  all: pose proof (match_one_action st Ls r Hr) as Hone; cbv zeta in Hone;
       destruct (match_loop_turn st Ls r rest Hz Hr Hb) as [-> Hpos];
       cbn [fmap list_fmap] in Hnd; apply NoDup_cons in Hnd as [Hfr Hnd];
       pose proof Hm as [Hmr Hmrest]%Forall_cons; pose proof Hh as [Hhr Hhrest]%Forall_cons;
       specialize (Hone Hmr Hhr); rewrite Hp, ?Hs in Hone;
       pose proof (match_one_frame Ls r rest Hmr Hhr Hpos Hfr Hhrest) as Hrest.
  - rewrite Hone, match_loop_stopped by (cbn; by rewrite orb_true_r).
    split; [| by apply untouched_book]. split; [left | done]. by destruct Hr.
  - rewrite Hone, match_loop_stopped by reflexivity.
    split; [by split; [right |] | by apply untouched_book].
  - rewrite Hone in *. rewrite match_loop_stopped by reflexivity.
    split; [by split; [right |] |]. constructor; [| by apply untouched_book].
    apply dropped_holds.
  - rewrite Hone in *. destruct (IH _ Hnd Hmrest Hrest) as [Ha Hafter]; [| done..|].
    { by apply running_cancel_maker. }
    split; [done |]. constructor; [| done].
    apply match_loop_frame; try done; [cbn; lia |]. apply dropped_holds.
  - assert (left (MatchResult.incoming st) <> 0) as Hne.
    { rewrite (is_zero_spec _ (rn_ok _ _ Hr)) in Hz. by apply Z.eqb_neq. }
    destruct (fill_agrees st Ls r Hr Hne Hmr Hhr Hp Hs Ht) as (Hr1 & Hb1 & Ht1 & Hafter1).
    rewrite <- Hone in *. rewrite Hb in Hb1.
    destruct (IH _ Hnd Hmrest Hrest Hr1 Hb1 Ht1) as [Ha Hafter].
    split; [done |]. constructor; [| done].
    pose proof (running_bound _ _ Hr1). apply match_loop_frame; done.
Qed.


(** ** The outcome *)

Lemma effective_tif_taker : effective_tif i = Order.tif i /\ Order.tif i <> FOK.
Proof.
  unfold effective_tif. destruct (tk_tif _ Hi) as [-> | [-> ->]]; [by case_decide |].
  by rewrite decide_False.
Qed.

Lemma final_status_agrees (st : MatchResult.t) (Ls : LState.t) :
  running st Ls \/ stopped st Ls ->
  let status := Order.status (MatchResult.incoming (apply_tif (effective_tif i) st)) in
  final_status (Argv.tif a) (LState.status Ls) (left i) (LState.remaining_i Ls) = status_char status /\
  lua_status (status_char status) = Ok status /\
  (LState.remaining_i Ls = left (MatchResult.incoming st) \/
   (LState.remaining_i Ls = 0 /\ Order.status (MatchResult.incoming st) = Cancelled /\ status = Cancelled)).
Proof.
  cbv zeta. change (Argv.tif a) with (tif_char (Order.tif i)).
  destruct effective_tif_taker as [-> Hf]. intros [Hr | (Es & Er & Ec)].
  - pose proof (rn_ok _ _ Hr) as Hok. pose proof Hok as [Hg H0].
    destruct (grid_zero (2 ^ 63) ltac:(lia)) as [Hz Hzu].
    assert (dec_ltb dec_zero (Order.remaining (MatchResult.incoming st))
            = (0 <? left (MatchResult.incoming st))) as Hlt
      by (by rewrite (grid_ltb _ _ _ _ Hz Hg), Hzu).
    pose proof (tk_live _ Hi) as [_ Hpos]. fold (left i) in Hpos.
    fold (left (MatchResult.incoming st)) in H0.
    unfold apply_tif, final_status. rewrite (rn_status _ _ Hr), (rn_left _ _ Hr), Hlt.
    rewrite (decide_False (P := "N" = "C")) by done.
    destruct (rn_outcome _ _ Hr) as [(Et & Est & El) | (Et & El & Est)]; [| unfold fill_status in Est].
    + rewrite Est, El, (proj2 (Z.leb_gt _ _)), (proj2 (Z.ltb_lt _ _)), Z.ltb_irrefl by lia.
      rewrite Et. cbn. destruct (Order.tif i); try done; auto.
    + rewrite (is_zero_spec _ Hok) in Est.
      rewrite (proj2 (Z.ltb_lt (left (MatchResult.incoming st)) (left i)) El).
      destruct (Z.eqb_spec (left (MatchResult.incoming st)) 0) as [E0 | E0].
      * rewrite E0. cbn. rewrite Est, andb_false_r. auto.
      * rewrite (proj2 (Z.leb_gt _ _)), (proj2 (Z.ltb_lt 0 _)), Est by lia. cbn.
        destruct (MatchResult.trades st); [done |]. destruct (Order.tif i); try done; auto.
  - unfold apply_tif. rewrite Ec, (bool_decide_eq_true_2 (Cancelled = Cancelled)) by done.
    cbn [negb]. rewrite andb_false_r, Ec, Es, Er. unfold final_status.
    rewrite (decide_True (P := "C" = "C")) by done. cbn. rewrite andb_false_r. split_and!; auto.
Qed.
End Simulation.

(** ** The two matchers *)

Section Matchers.
Context `{C : Crates, L : !CratesLaws C, V : Valkey, VL : !ValkeyLaws V}.
Context (new_v4 : nat -> uuid) (now : nat -> datetime) (asset : string) (amount : Z).

Local Abbreviation texts book := ((fun o => uuid_to_string (Order.id o)) <$> book).

(** Self-trade prevention cancels the taker: it is of a mode that does, and meets an
    order of its own user that it crosses. *)
Definition stp_cuts (i : Order.t) (book : list Order.t) : Prop :=
  (Order.stp_mode i = Stp.CancelTaker \/ Order.stp_mode i = Stp.CancelBoth) /\
  exists r, r ∈ book /\ Order.user_id r = Order.user_id i /\ price_matches i r = true.

Lemma stp_cuts_here (i r : Order.t) (rest : list Order.t) (m : Stp.t) :
  price_matches i r = true -> stp_action i r = m -> m = Stp.CancelTaker \/ m = Stp.CancelBoth -> stp_cuts i (r :: rest).
Proof.
  unfold stp_action. intros Hp Hs Hm. case_decide as Hu; [| destruct Hm; congruence].
  split; [by rewrite Hs |]. exists r. split; [left | done].
Qed.

Lemma stp_cuts_later (i i' r : Order.t) (rest : list Order.t) :
  same_terms i i' -> stp_cuts i' rest -> stp_cuts i (r :: rest).
Proof.
  intros Ht (Hm & x & Hx & Hu & Hp). pose proof (price_matches_terms i i' x x Ht ltac:(done)) as Ep.
  destruct Ht as (_ & Eu & _ & _ & _ & _ & _ & _ & Es). split; [by rewrite Es |].
  exists x. split; [by right |]. split; congruence.
Qed.

(** Nothing else cancels it before its time in force is applied. *)
Lemma walk_cut (st : MatchResult.t) (book : list Order.t) st' book' :
  walk new_v4 now st book st' book' -> Order.status (MatchResult.incoming st') = Cancelled ->
  Order.status (MatchResult.incoming st) = Cancelled \/ stp_cuts (MatchResult.incoming st) book.
Proof.
  induction 1 as [st|st r rest Hz|st r rest Hz Hp|st r rest Hz Hp Hs|st r rest Hz Hp Hs
    |st r rest st' rest' Hz Hp Hs Hw IH|st r rest st' rest' Hz Hp Hs Hw IH]; intros Hc; try by left.
  - right. by eapply stp_cuts_here; eauto.
  - right. by eapply stp_cuts_here; eauto.
  - destruct (IH Hc) as [H | H]; [by left |]. right. eapply stp_cuts_later; [| exact H]. by repeat split.
  - destruct (IH Hc) as [H | H].
    + exfalso. revert H. change (fill_status (Order.remaining (MatchResult.incoming (fill new_v4 now st r).1)) <> Cancelled).
      unfold fill_status. case_match; intros [=].
    + right. eapply stp_cuts_later; [| exact H]. by repeat split.
Qed.

(** A store from which the script can match [i] against the engine's [book]:
    the taker's balance covers the lock, the counter of the book is an integer,
    and the first fifty resting orders in reach are those of [book]. *)
Record mirrors (s : store) (i : Order.t) (book : list Order.t) (v : Z) : Prop := {
  mi_lock : (lock_balance (lua_argv i asset amount) s).2 = Ok true;
  mi_version : incr_cell (strs (view s) !! version_key (Order.pair_id i)) 1 = Ok v;
  mi_candidates :
    candidates (Order.pair_id i) (lua_argv i asset amount) (view s) = texts book;
  mi_makers : Forall (maker i) book;
  mi_holds : Forall (holds (view s)) book;
  mi_fresh : ~ (uuid_to_string (Order.id i) ∈ texts book);
}.

Definition book_of (i : Order.t) : string := opp_book (Order.pair_id i) (lua_argv i asset amount).

(** A trade of the caller against the engine's. *)
Definition seen_as (i : Order.t) (lt : LuaTrade.t) (t : Trade.t) : Prop :=
  LuaTrade.resting_order_id lt = trade_resting_id i t /\
  units (LuaTrade.price lt) = units (Trade.price t) /\
  units (LuaTrade.quantity lt) = units (Trade.quantity t) /\
  LuaTrade.buyer_id lt = Trade.buyer_id t /\ LuaTrade.seller_id lt = Trade.seller_id t.

Lemma seen_as_read (i : Order.t) (lts : list LTrade.t) (cts : list LuaTrade.t) (ts : list Trade.t) :
  Forall2 readable_trade lts cts -> Forall2 (same_trade i) lts ts -> Forall2 (seen_as i) cts ts.
Proof.
  intros H. revert ts. induction H as [| lt ct lts cts (Hp & Hq & u & Hu & ->) _ IH];
    intros ts Hs; inversion Hs as [| ? t ? ts' (E1 & E2 & E3 & E4 & E5) Hs']; subst; constructor;
    [| by apply IH].
  rewrite E1, uuid_parse_to_string in Hu. injection Hu as <-. unfold printable in *.
  unfold seen_as, caller_trade. cbn.
  destruct (i64_to_decimal_units (LTrade.price_i lt)) as [_ ->]; [lia |].
  destruct (i64_to_decimal_units (LTrade.qty_i lt)) as [_ ->]; [lia |]. auto.
Qed.

(** The engine's run, for an order without a fill-or-kill check. *)
Lemma engine_run (i : Order.t) (book : list Order.t) :
  Order.tif i <> FOK ->
  exists st book', walk new_v4 now (EngineProps.start i) book st book' /\
    Engine.match_order new_v4 now i book = (apply_tif (effective_tif i) st, book').
Proof.
  intros Hf. destruct (match_order_cases new_v4 now i book) as [[E _] | (_ & st & book' & H)]; [| eauto].
  unfold fok_rejected in E. by rewrite bool_decide_eq_false_2 in E.
Qed.

Lemma mirrors_ready (s : store) (i : Order.t) (book : list Order.t) (v : Z) :
  taker i -> mirrors s i book v ->
  ready (Order.pair_id i) (lua_argv i asset amount) s (left i) v /\
  readable_book i asset amount (view s).
Proof.
  intros Ht [Hl Hv Hc Hm Hh Hf]. pose proof (tk_live _ Ht) as [_ Hpos]. pose proof (tk_left _ Ht).
  destruct (tk_quantity _ Ht) as [Hq Eq]. fold (left i) in Hpos.
  assert (forall id, id ∈ texts book -> exists r, r ∈ book /\ id = uuid_to_string (Order.id r) /\
            maker i r /\ resting (view s) id = resting_view r) as Hb.
  { intros id (r & -> & Hr)%list_elem_of_fmap. rewrite Forall_forall in *. exists r.
    split; [done |]. split; [done |]. split; [by apply Hm | by apply Hh]. }
  split.
  - constructor; try done.
    + cbn -[lua_tonumber]. rewrite (decimal_to_i64_grid _ Hq), Eq, lua_tonumber_Z_to_string.
      rewrite f64_of_Z_exact by lia. done.
    + unfold max_exact. lia.
    + intros id. rewrite Hc. intros (r & _ & _ & Hr & ->)%Hb. pose proof (mk_left _ _ Hr).
      cbn. unfold max_exact. lia.
    + by rewrite Hc.
  - split.
    + change (taker_price _) with (limit_price asset amount i). unfold printable.
      destruct (tk_price _ Ht) as [Hp | [_ Hn]].
      * rewrite (limit_price_exact _ _ _ Hp). by apply exact_price_i.
      * unfold limit_price. cbn -[lua_tonumber]. unfold price_i_of. rewrite Hn. done.
    + intros id. change (candidates _ _ _) with (candidates (Order.pair_id i) (lua_argv i asset amount) (view s)).
      rewrite Hc. intros (r & _ & -> & Hr & ->)%Hb. split.
      * apply exact_price_i, (mk_price _ _ Hr).
      * rewrite uuid_parse_to_string. eauto.
Qed.


Lemma script_loop_agrees (s : store) (i : Order.t) (book : list Order.t) (v : Z) st book' :
  taker i -> mirrors s i book v -> walk new_v4 now (EngineProps.start i) book st book' ->
  let a := lua_argv i asset amount in
  let Ls := run_loop (script_keys (Order.pair_id i) a) a (taker_price a) (left i)
              (lock_balance a s).1 in
  agrees i st Ls /\ Forall (holds_after (book_of i) (view (LState.st Ls))) book'.
Proof.
  intros Ht [Hl Hv Hc Hm Hh Hf] Hw. cbv zeta. set (a := lua_argv i asset amount) in *.
  pose proof (lock_balance_frame a s) as Hlf.
  rewrite (run_loop_candidates (Order.pair_id i) a s _ (left i) Hlf), Hc.
  apply (walk_agrees new_v4 now asset amount (book_of i)
           (order_key_opp (Order.pair_id i) a) i Ht _ _ _ _ Hw); cbn; try done.
  - rewrite <- Hc. apply candidates_nodup.
  - eapply Forall_impl; [exact Hh |]. intros r Hr. unfold holds.
    by rewrite (proj2 (frame_cell (Order.pair_id i) a _ _ _ Hlf)).
  - pose proof (live_amount_ok _ (tk_live _ Ht)). constructor; cbn; try done.
    left. split; [done |]. split; [apply (tk_new _ Ht) | done].
  - constructor.
Qed.

(** Resting the taker's remainder and counting the match leave the makers. *)
Lemma settled_book (i : Order.t) (qty : Z) (Ls : LState.t) (book book' : list Order.t) :
  ~ (uuid_to_string (Order.id i) ∈ texts book) -> Forall2 same_terms book book' ->
  Forall (holds_after (book_of i) (view (LState.st Ls))) book' ->
  Forall (holds_after (book_of i)
            (settled (Order.pair_id i) (lua_argv i asset amount) qty Ls)) book'.
Proof.
  intros Hfr Hterms. induction Hterms as [| r r' rest rest' (E & _) _ IH]; intros Hb; [constructor |].
  cbn [fmap list_fmap] in Hfr. apply not_elem_of_cons in Hfr as [Hne Hfr].
  apply Forall_cons in Hb as [Hr Hb]. constructor; [| by apply IH].
  revert Hr. apply holds_cell. apply settled_cell. rewrite <- E. by apply not_eq_sym.
Qed.

(** Everything a matched order leaves: the engine's run, the script's run beside it,
    what the caller gets, and the final store. *)
Record lua_run (s : store) (i : Order.t) (book : list Order.t) (v : Z) (st : MatchResult.t) (book' : list Order.t)
    (Ls : LState.t) (s' : store) (m : LuaMatchResult.t) : Prop := {
  lr_walk : walk new_v4 now (EngineProps.start i) book st book';
  lr_engine : Engine.match_order new_v4 now i book = (apply_tif (effective_tif i) st, book');
  lr_agrees : agrees i st Ls;
  lr_trades : Forall2 (seen_as i) (LuaMatchResult.trades m) (MatchResult.trades (apply_tif (effective_tif i) st));
  lr_status : LuaMatchResult.status m = Order.status (MatchResult.incoming (apply_tif (effective_tif i) st));
  lr_remaining : units (LuaMatchResult.remaining m) = left (MatchResult.incoming (apply_tif (effective_tif i) st)) \/
                 stp_cuts i book /\ units (LuaMatchResult.remaining m) = 0 /\ LuaMatchResult.status m = Cancelled;
  lr_view : view s' = settled (Order.pair_id i) (lua_argv i asset amount) (left i) Ls;
  lr_version : strs (view s') !! version_key (Order.pair_id i) = Some (Z_to_string v);
  lr_touches : only_touches (book_of i) (texts book) (view (lock_balance (lua_argv i asset amount) s).1) (view (LState.st Ls));
  lr_fates id : id ∈ texts book ->
    exists ts, fate (lua_argv i asset amount) (taker_price (lua_argv i asset amount)) id (resting (view s) id)
                 (cell (book_of i) (view s) id) (cell (book_of i) (view (LState.st Ls)) id) ts;
  lr_book : Forall (holds_after (book_of i) (view s')) book';
}.

Lemma match_order_lua_run (s : store) (i : Order.t) (book : list Order.t) (v : Z) :
  taker i -> mirrors s i book v ->
  exists st book' Ls s' m, match_order_lua i (PairKeys.new (Order.pair_id i)) asset amount s = (s', Ok m) /\
    lua_run s i book v st book' Ls s' m.
Proof.
  intros Ht Hmi. destruct (mirrors_ready s i book v Ht Hmi) as [[Hq Hr Hl Hv Ha Hf] Hb].
  destruct (engine_run i book (proj2 (effective_tif_taker i Ht))) as (st & book' & Hw & He).
  destruct (script_loop_agrees s i book v st book' Ht Hmi Hw) as [Hag Hbook]. pose proof Hag as [Hrun Htr].
  set (a := lua_argv i asset amount) in *.
  destruct (script_run (Order.pair_id i) a s (left i) v Hq Hl Hv Ha Hr)
    as (R & Sv & Hver & T & F & S & M).
  pose proof (fates_sound _ _ _ _ _ _ F S) as Hsound.
  set (Ls := run_loop _ a _ _ _) in *.
  destruct (apply_tif_keeps (effective_tif i) st) as (Ets & _ & _).
  destruct (apply_tif_amounts (effective_tif i) st) as [El _].
  destruct (final_status_agrees asset amount i Ht st Ls Hrun) as (Est & Elua & Erem).
  pose proof (tk_left _ Ht) as Hli.
  assert (printable (LState.remaining_i Ls) /\ filled (LState.trades Ls) < 10 ^ 14) as [Hpr Hfl].
  { unfold taker_moves in M. cbn [LState.remaining_i] in M. unfold printable. lia. }
  destruct (readable_trades i asset amount (view s) (LState.trades Ls) Hb Hfl Hsound) as (cts & Hcts & _).
  assert (length (LState.trades Ls) <= 50)%nat as Hlen.
  { pose proof (sublist_length _ _ S) as Hsl. rewrite length_fmap in Hsl.
    pose proof (candidates_length (Order.pair_id i) a (view s)). lia. }
  unfold match_order_lua. rewrite (argv_keys i asset amount).
  change (argv i asset amount) with a. fold a.
  destruct (match_order_script (script_keys (Order.pair_id i) a) a s) as [s' r]. cbn [fst snd] in *.
  subst r. eexists st, book', Ls, s', _. split.
  { f_equal. apply parse_lua_reply_ok; [exact Hpr | | exact Hlen | exact Hcts]. fold a in Est. rewrite Est. exact Elua. }
  pose proof (mi_candidates _ _ _ _ Hmi) as Hc. fold a in Hc. rewrite Hc in T, F.
  constructor; cbn [LuaMatchResult.trades LuaMatchResult.status LuaMatchResult.remaining]; try done.
  - rewrite Ets. by eapply seen_as_read.
  - rewrite El. unfold printable in Hpr. destruct (i64_to_decimal_units (LState.remaining_i Ls)) as [_ ->]; [lia |].
    destruct Erem as [E | (E & Ec & Es)]; [by left | right]. split; [| done].
    destruct (walk_cut _ _ _ _ Hw Ec) as [Hnew | Hcut]; [| exact Hcut].
    cbn in Hnew. rewrite (tk_new _ Ht) in Hnew. discriminate.
  - intros id Hid. eexists. by apply F.
  - rewrite Sv. apply (settled_book i (left i) Ls book book' (mi_fresh _ _ _ _ Hmi)); [| done].
    by destruct (walk_terms _ _ _ _ _ _ Hw).
Qed.

End Matchers.

(** ** A concrete book *)

Module RefineExamples.
Import RefCrates RefValkey EngineExamples BookExamples MatchLuaExamples.

Definition two_asks : list (@Order.t ref_crates) := [ask 11 100 1 0; ask 12 101 2 0].

Lemma bid_taker : taker (bid GTC 101 2).
Proof.
  constructor; [by vm_compute | by vm_compute | done | by vm_compute | | by right].
  left. eexists. split; [done |]. by vm_compute.
Qed.

Lemma two_asks_makers : Forall (maker (bid GTC 101 2)) two_asks.
Proof.
  repeat apply Forall_cons_2; [..| apply Forall_nil_2];
    (constructor; [by vm_compute | by vm_compute | | done | by left | by intros [=]]);
    eexists; (split; [done |]); by vm_compute.
Qed.

Lemma market_mirrors : mirrors "USDT" 20200000000 market (bid GTC 101 2) two_asks 1.
Proof.
  constructor.
  - by vm_compute.
  - by vm_compute.
  - exact market_candidates.
  - exact two_asks_makers.
  - repeat apply Forall_cons_2; [..| apply Forall_nil_2]; by vm_compute.
  - change (~ ("1" ∈ ["11"; "12"])). rewrite !elem_of_cons, elem_of_nil. intros [H | [H | []]]; discriminate.
Qed.


(** Where the two differ: a cancelled taker keeps its remainder in the engine,
    and reports zero through the script. *)
Definition own_ask : @Order.t ref_crates :=
  order 11 "taker" Sell Limit GTC (Some 100%Q) 1 Stp.None.

Definition stp_bid : @Order.t ref_crates :=
  order 1 "taker" Buy Limit GTC (Some 101%Q) 2 Stp.CancelTaker.

Example stp_remainder_differs :
  left (MatchResult.incoming (Engine.match_order ids clock stp_bid [own_ask]).1) = 200000000 /\
  match (match_order_lua stp_bid (PairKeys.new "BTC-USDT") "USDT" 20200000000
           (with_balance "taker" "USDT" 100000000000 (save_order_to_book own_ask empty_store))).2 with
  | Ok m => units (LuaMatchResult.remaining m) = 0 /\ LuaMatchResult.status m = Cancelled
  | Err _ => False
  end.
Proof. vm_compute. auto. Qed.
End RefineExamples.
