(* ===== verification/Balance.v ===== *)
(** * Balances in the cache ([crates/shared/src/cache.rs], balance locking)

    [balance:{user}:{asset}] holds [available] and [locked] as scaled integers.
    LOCK_BALANCE_LUA moves an amount from one to the other when it is covered,
    [unlock_balance_redis] moves it back, and every balance is initialised from
    the rows of the database. *)

From S2P Require Import Prelude Numbers Externals Fixed Types Valkey Codec Book MatchLua.
From S2P Require Import MatchLuaProps.

Open Scope Z_scope.

Section Balance.
Context `{V : Valkey}.

(** LOCK_BALANCE_LUA; the error reply is the text of the error. *)
Definition lock_balance_script (key amount_text : string) (s : store) : store * result string :=
  match lua_tonumber amount_text with
  | None => (s, Err "attempt to compare number with nil")
  | Some amount =>
      match lua_tonumber (default "0" (v_hget key "available" s)) with
      | None => (s, Err "INSUFFICIENT_BALANCE")
      | Some avail =>
          if avail <? amount then (s, Err "INSUFFICIENT_BALANCE")
          else
            match lua_hincrby key "available" (- amount) s with
            | (s, Err e) => (s, Err e)
            | (s, Ok _) =>
                match lua_hincrby key "locked" amount s with
                | (s, Err e) => (s, Err e)
                | (s, Ok _) => (s, Ok "OK")
                end
            end
      end
  end.

Definition lock_balance_redis (user_id asset : string) (amount_scaled : Z) (s : store)
    : store * result unit :=
  match lock_balance_script (balance_key user_id asset) (Z_to_string amount_scaled) s with
  | (s, Ok _) => (s, Ok tt)
  | (s, Err e) =>
      (s, if str_contains "INSUFFICIENT_BALANCE" e
          then Err ("insufficient " +:+ asset +:+ " balance for user " +:+ user_id)
          else Err ("lock_balance Lua error: " +:+ e))
  end.

(** A pipeline of two HINCRBYs: both run, the first error is reported. *)
Definition unlock_balance_redis (user_id asset : string) (amount_scaled : Z) (s : store)
    : store * result unit :=
  let key := balance_key user_id asset in
  let '(s, r1) := v_hincrby key "available" amount_scaled s in
  let '(s, r2) := v_hincrby key "locked" (wrap_i64 (- amount_scaled)) s in
  (s, _ ← r1; _ ← r2; mret tt).

Context `{C : Crates}.

(** A row of [balances]. *)
Definition balance_row : Type := string * string * decimal * decimal.

Definition init_balance (row : balance_row) (s : store) : store :=
  let '(user_id, asset, available, locked) := row in
  v_hset (balance_key user_id asset)
    [("available", Z_to_string (decimal_to_i64 available)); ("locked", Z_to_string (decimal_to_i64 locked))] s.

Definition init_balances_from_pg (rows : list balance_row) (s : store) : store :=
  fold_left (fun s row => init_balance row s) rows s.
End Balance.

Section BalanceProps.
Context `{V : Valkey, VL : !ValkeyLaws V}.

Lemma hincrby_cell (key f : string) (z n : Z) (s : store) :
  hash (view s) key !! f = Some (Z_to_string z) -> in_i64 z = true -> in_i64 (z + n) = true ->
  hash (view (v_hincrby key f n s).1) key = <[f := Z_to_string (z + n)]> (hash (view s) key) /\
  (v_hincrby key f n s).2 = Ok (z + n).
Proof.
  intros Hz Hi Hn.
  assert ((kv_hincrby key f n (view s)).2 = Ok (z + n)) as Hok.
  { unfold kv_hincrby. by rewrite Hz, incr_cell_ok. }
  autorewrite with valkey. split; [by apply hincrby_ok | done].
Qed.

(** [lock_balance_redis] succeeds exactly when the amount is covered, moves
    it from available to locked, and otherwise changes nothing. *)
Theorem lock_balance_redis_spec (user asset : string) (amount available locked : Z) (s : store) :
  0 <= amount < 10 ^ 15 -> small available -> small locked ->
  balance_is (view s) user asset available locked ->
  let '(s', r) := lock_balance_redis user asset amount s in
  if available <? amount then
    s' = s /\ r = Err ("insufficient " +:+ asset +:+ " balance for user " +:+ user)
  else r = Ok tt /\ balance_is (view s') user asset (available - amount) (locked + amount).
Proof.
  intros Hamt Hav Hlk [Hb1 Hb2]. unfold lock_balance_redis, lock_balance_script, small in *.
  rewrite lua_tonumber_Z_to_string, f64_of_Z_exact by lia. rewrite hget_view, Hb1.
  cbn [from_option]. unfold id. rewrite lua_tonumber_Z_to_string, f64_of_Z_exact by lia.
  destruct (Z.ltb_spec available amount) as [Hlt | Hge]; [done |].
  destruct (hincrby_small _ "available" available (- amount) s Hb1 Hav ltac:(lia)) as [H1 R1].
  destruct (lua_hincrby _ "available" (- amount) s) as [s1 r1]. cbn [fst snd] in *. rewrite R1.
  assert (hash (view s1) (balance_key user asset) !! "locked" = Some (Z_to_string locked)) as Hl
    by (rewrite H1; by rewrite lookup_insert_ne).
  destruct (hincrby_small _ "locked" locked amount s1 Hl Hlk ltac:(lia)) as [H2 R2].
  destruct (lua_hincrby _ "locked" amount s1) as [s2 r2]. cbn [fst snd] in *. rewrite R2.
  split; [done |]. unfold balance_is. rewrite H2, H1. split.
  - by rewrite lookup_insert_ne, lookup_insert_eq.
  - by rewrite lookup_insert_eq.
Qed.

(** Unlocking what was locked restores the balance. *)
Theorem unlock_after_lock (user asset : string) (amount available locked : Z) (s : store) :
  0 <= amount <= available -> small available -> small locked -> amount < 10 ^ 15 ->
  balance_is (view s) user asset (available - amount) (locked + amount) ->
  let '(s', r) := unlock_balance_redis user asset amount s in
  r = Ok tt /\ balance_is (view s') user asset available locked.
Proof.
  intros Ha Hav Hlk Hamt [Hb1 Hb2]. unfold unlock_balance_redis, small in *.
  rewrite wrap_i64_id by (apply in_i64_spec; unfold i64_min, i64_max; lia).
  destruct (hincrby_cell _ "available" (available - amount) amount s Hb1) as [H1 R1];
    [apply in_i64_spec; unfold i64_min, i64_max; lia .. |].
  destruct (v_hincrby _ "available" amount s) as [s1 r1]. cbn [fst snd] in *. subst r1.
  assert (hash (view s1) (balance_key user asset) !! "locked" = Some (Z_to_string (locked + amount))) as Hl
    by (rewrite H1; by rewrite lookup_insert_ne).
  destruct (hincrby_cell _ "locked" (locked + amount) (- amount) s1 Hl) as [H2 R2];
    [apply in_i64_spec; unfold i64_min, i64_max; lia .. |].
  destruct (v_hincrby _ "locked" (- amount) s1) as [s2 r2]. cbn [fst snd] in *. subst r2.
  split; [done |]. unfold balance_is. rewrite H2, H1. split.
  - rewrite lookup_insert_ne, lookup_insert_eq by done. do 2 f_equal. lia.
  - rewrite lookup_insert_eq. do 2 f_equal. lia.
Qed.

Context `{C : Crates, L : !CratesLaws C}.

Definition row_key (row : balance_row) : string := balance_key row.1.1.1 row.1.1.2.

Lemma init_balance_view (row : balance_row) (s : store) (k : string) :
  hash (view (init_balance row s)) k =
    if decide (row_key row = k)
    then hset_fields [("available", Z_to_string (decimal_to_i64 row.1.2));
                      ("locked", Z_to_string (decimal_to_i64 row.2))] (hash (view s) k)
    else hash (view s) k.
Proof.
  destruct row as [[[u a] av] lk]. unfold init_balance, row_key. cbn [fst snd].
  rewrite hset_view. case_decide as Hk; [subst k; apply hash_hset_eq | by rewrite hash_hset_ne].
Qed.

Lemma init_balances_frame (rows : list balance_row) (s : store) (k : string) :
  Forall (fun row => row_key row <> k) rows ->
  hash (view (init_balances_from_pg rows s)) k = hash (view s) k.
Proof.
  unfold init_balances_from_pg. revert s. induction rows as [| row rows IH]; intros s H; [done |].
  apply Forall_cons in H as [Hne H]. cbn. rewrite IH by done. rewrite init_balance_view.
  by case_decide.
Qed.

(** After initialisation every balance row is in the cache at the scale of
    10^-8, whatever the cache held before. *)
Theorem init_balances_spec (rows : list balance_row) (s : store) (user asset : string)
    (available locked : decimal) :
  NoDup (row_key <$> rows) -> (user, asset, available, locked) ∈ rows ->
  on_grid available -> on_grid locked ->
  balance_is (view (init_balances_from_pg rows s)) user asset (units available) (units locked).
Proof.
  intros Hnd Hin Ha Hl. revert s.
  induction rows as [| row rows IH]; intros s; [by apply not_elem_of_nil in Hin |].
  cbn in Hnd. apply NoDup_cons in Hnd as [Hnew Hnd]. apply elem_of_cons in Hin as [<- | Hin].
  - match goal with |- context [init_balances_from_pg (?x :: _) s] =>
      change (init_balances_from_pg (x :: rows) s) with (init_balances_from_pg rows (init_balance x s)) end.
    assert (hash (view (init_balances_from_pg rows (init_balance (user, asset, available, locked) s)))
              (balance_key user asset)
            = hset_fields [("available", Z_to_string (units available)); ("locked", Z_to_string (units locked))]
                (hash (view s) (balance_key user asset))) as E.
    { rewrite init_balances_frame by
        (apply Forall_forall; intros r Hr E; apply Hnew, list_elem_of_fmap; eauto).
      rewrite init_balance_view, decide_True by done. cbn [fst snd].
      by rewrite !decimal_to_i64_grid. }
    unfold balance_is. rewrite E, !hset_lookup. done.
  - by apply IH.
Qed.
End BalanceProps.

Module BalanceExamples.
Import RefCrates RefValkey.

Definition funded : @store ref_valkey :=
  v_hset "balance:alice:USDT" [("available", "100"); ("locked", "0")] empty_store.

Lemma lock_balance_redis_spec_witness :
  (lock_balance_redis "alice" "USDT" 60 funded).2 = Ok tt /\
  balance_is (view (lock_balance_redis "alice" "USDT" 60 funded).1) "alice" "USDT" 40 60.
Proof.
  pose proof (lock_balance_redis_spec "alice" "USDT" 60 100 0 funded ltac:(lia)
                ltac:(unfold small; lia) ltac:(unfold small; lia) ltac:(by vm_compute)) as H.
  destruct (lock_balance_redis "alice" "USDT" 60 funded). exact H.
Defined.

Lemma unlock_after_lock_witness :
  (unlock_balance_redis "alice" "USDT" 60 (lock_balance_redis "alice" "USDT" 60 funded).1).2 = Ok tt.
Proof.
  pose proof (unlock_after_lock "alice" "USDT" 60 100 0 (lock_balance_redis "alice" "USDT" 60 funded).1
                ltac:(lia) ltac:(unfold small; lia) ltac:(unfold small; lia) ltac:(lia)
                ltac:(by vm_compute)) as H.
  destruct (unlock_balance_redis "alice" "USDT" 60 _). exact (proj1 H).
Defined.

Definition ten_btc : @balance_row ref_crates := ("alice", "BTC", 10%Q, 0%Q).

Lemma init_balances_spec_witness :
  balance_is (view (init_balances_from_pg [ten_btc] funded)) "alice" "BTC" (units (C:=ref_crates) (10%Q : @decimal ref_crates))
    (units (C:=ref_crates) (0%Q : @decimal ref_crates)).
Proof.
  apply (init_balances_spec (C:=ref_crates) [ten_btc] funded "alice" "BTC" (10%Q : @decimal ref_crates) (0%Q : @decimal ref_crates)).
  - apply NoDup_singleton.
  - left.
  - split; vm_compute; done.
  - split; vm_compute; done.
Defined.

(** An amount beyond an [i64] is scaled to 0, and a lock of 0 always succeeds. *)
Lemma overflow_locks_nothing :
  decimal_to_i64 (C:=ref_crates) (100000000000%Q : @decimal ref_crates) = 0 /\
  (lock_balance_redis "bob" "USDT"
     (decimal_to_i64 (C:=ref_crates) (100000000000%Q : @decimal ref_crates)) funded).2 = Ok tt.
Proof. vm_compute. done. Qed.
End BalanceExamples.
