(* ===== verification/Snapshot.v ===== *)
(** * Order book snapshots ([ORDERBOOK_SNAPSHOT_LUA] and [orderbook_snapshot_lua] of [cache.rs])

    The script aggregates the first entries of each side by the text of their
    price and answers a flat array; the caller parses it into price levels. *)

From S2P Require Import Prelude Numbers Externals Fixed Types Valkey Codec Book MatchLua.
From S2P Require Import MatchLuaProps MatchLuaReply.

Open Scope Z_scope.

Definition lua_add (a b : Z) : Z := f64_of_Z (a + b).

(** [levels] and [level_order] together: levels in order of first appearance. *)
Fixpoint add_level (p : string) (r : Z) (levels : list (string * Z)) : list (string * Z) :=
  match levels with
  | [] => [(p, r)]
  | (q, x) :: rest => if decide (q = p) then (q, lua_add x r) :: rest else (q, x) :: add_level p r rest
  end.

Section Snapshot.
Context `{V : Valkey}.

(** The price text and positive remaining quantity of an entry. *)
Definition live_entry (s : store) (id : string) : option (string * Z) :=
  pi ← v_hget (order_key_str id) "price_i" s;
  ri ← v_hget (order_key_str id) "remaining_i" s;
  let r := default 0 (lua_tonumber ri) in
  if 0 <? r then Some (pi, r) else None.

Definition aggregate_side (book : string) (limit : Z) (s : store) : list (string * Z) :=
  let ids := limit_clause 0 limit (v_zrangebyscore book None s) in
  fold_left
    (fun levels id => match live_entry s id with
                      | Some (p, r) => add_level p r levels
                      | None => levels
                      end)
    ids [].

Definition flatten_levels (levels : list (string * Z)) : list string :=
  mjoin ((fun l => [l.1; lua_tostring l.2]) <$> levels).

Definition snapshot_script (pair_id : string) (limit : Z) (s : store) : list string :=
  let bids := flatten_levels (aggregate_side (book_key pair_id Buy) limit s) in
  let asks := flatten_levels (aggregate_side (book_key pair_id Sell) limit s) in
  Z_to_string (Z.of_nat (length bids)) :: bids ++ Z_to_string (Z.of_nat (length asks)) :: asks.

Context `{C : Crates}.

(** [n] turns of the pairwise iteration. *)
Fixpoint parse_levels (n : nat) (abs : bool) (items : list string)
    : list (string * string) * list string :=
  match n with
  | O => ([], items)
  | S n =>
      match items with
      | p :: q :: rest =>
          let p_i := default 0 (parse_i64 p) in
          let price := i64_to_decimal (if abs then Z.abs p_i else p_i) in
          let qty := i64_to_decimal (default 0 (parse_i64 q)) in
          let '(ls, rest) := parse_levels n abs rest in
          ((dec_to_string price, dec_to_string qty) :: ls, rest)
      | _ => parse_levels n abs []
      end
  end.

Definition parse_count (items : list string) : Z * list string :=
  match items with
  | [] => (default 0 (parse_usize ""), [])
  | c :: rest => (default 0 (parse_usize c), rest)
  end.

Definition parse_snapshot (result : list string)
    : list (string * string) * list (string * string) :=
  let '(bid_count, rest) := parse_count result in
  let '(bids, rest) := parse_levels (Z.to_nat (bid_count / 2)) true rest in
  let '(ask_count, rest) := parse_count rest in
  let '(asks, _) := parse_levels (Z.to_nat (ask_count / 2)) false rest in
  (bids, asks).

Definition orderbook_snapshot_lua (pair_id : string) (limit : Z) (s : store)
    : list (string * string) * list (string * string) :=
  parse_snapshot (snapshot_script pair_id limit s).
End Snapshot.

(** ** Aggregation *)

Definition level_total (p : string) (es : list (string * Z)) : Z :=
  sumZ (snd <$> filter (fun e => e.1 = p) es).

Definition levels_of (es : list (string * Z)) : list (string * Z) :=
  fold_left (fun ls e => add_level e.1 e.2 ls) es [].

Lemma level_total_app (p : string) (es fs : list (string * Z)) :
  level_total p (es ++ fs) = level_total p es + level_total p fs.
Proof. unfold level_total. by rewrite filter_app, fmap_app, sumZ_app. Qed.

Lemma level_total_one (p q : string) (r : Z) :
  level_total p [(q, r)] = if decide (q = p) then r else 0.
Proof. unfold level_total. rewrite filter_cons. cbn. case_decide; cbn; lia. Qed.

Lemma add_level_keys (p : string) (r : Z) (ls : list (string * Z)) :
  (add_level p r ls).*1 = if decide (p ∈ ls.*1) then ls.*1 else ls.*1 ++ [p].
Proof.
  induction ls as [| [q x] ls IH]; [done |]. cbn [add_level].
  destruct (decide (q = p)) as [-> | Hq]; cbn [fmap list_fmap fst].
  - rewrite decide_True by left. done.
  - fold (fmap (M:=list) (fst (A:=string) (B:=Z))). rewrite IH. case_decide as Hin.
    + rewrite decide_True by (by right). done.
    + rewrite decide_False; [done |]. rewrite elem_of_cons. intros [?|?]; congruence.
Qed.

Lemma add_level_lookup (p : string) (r : Z) (ls : list (string * Z)) (k : string) (x : Z) :
  NoDup ls.*1 ->
  (k, x) ∈ add_level p r ls <->
  (k <> p /\ (k, x) ∈ ls) \/
  (k = p /\ (((p ∉ ls.*1) /\ x = r) \/ exists y, (p, y) ∈ ls /\ x = lua_add y r)).
Proof.
  induction ls as [| [q y] ls IH]; cbn; intros Hnd.
  - rewrite list_elem_of_singleton. split.
    + intros [= -> ->]. right. split; [done |]. left. split; [apply not_elem_of_nil | done].
    + intros [[_ H]|[-> [[_ ->]|(? & H & _)]]]; [by apply not_elem_of_nil in H | done |
        by apply not_elem_of_nil in H].
  - apply NoDup_cons in Hnd as [Hq Hnd].
    assert (forall z, (q, z) ∈ ls -> False) as Hnq.
    { intros z Hz. apply Hq. apply list_elem_of_fmap. by exists (q, z). }
    destruct (decide (q = p)) as [-> | Hqp]; cbn [fmap list_fmap fst]; setoid_rewrite elem_of_cons.
    + split.
      * intros [[= -> ->]|Hin]; [right; split; [done |]; right; exists y; auto |].
        left. split; [intros ->; by eapply Hnq | auto].
      * intros [[Hk [[= E1 E2]|Hin]]|[-> [[Hn _]|(z & [[= ->]|Hz] & ->)]]].
        -- by destruct Hk.
        -- by right.
        -- exfalso. apply Hn. by left.
        -- by left.
        -- exfalso. by eapply Hnq.
    + rewrite IH by done. split.
      * intros [[= -> ->]|[[? ?]|[-> [[Hn ->]|(z & Hz & ->)]]]].
        -- left. auto.
        -- left. auto.
        -- right. split; [done |]. left. split; [| done]. intros [?|?]; [congruence | done].
        -- right. split; [done |]. right. exists z. auto.
      * intros [[Hk [[= -> ->]|Hin]]|[-> [[Hn ->]|(z & [[= E1 E2]|Hz] & ->)]]].
        -- by left.
        -- right. by left.
        -- right. right. split; [done |]. left. auto.
        -- by destruct Hqp.
        -- right. right. split; [done |]. right. eauto.
Qed.

Lemma level_total_nonneg (p : string) (es : list (string * Z)) :
  Forall (fun e => 0 < e.2) es -> 0 <= level_total p es.
Proof.
  intros H. apply sumZ_nonneg, Forall_fmap, Forall_forall. intros e He.
  apply list_elem_of_filter in He as [_ He]. rewrite Forall_forall in H. specialize (H _ He). cbn. lia.
Qed.

Lemma level_total_le (p : string) (es : list (string * Z)) :
  Forall (fun e => 0 < e.2) es -> level_total p es <= sumZ (snd <$> es).
Proof.
  induction 1 as [| [q r] es Hr Hes IH]; [done |].
  change ((q, r) :: es) with ([(q, r)] ++ es). rewrite level_total_app, level_total_one.
  pose proof (level_total_nonneg p es Hes). cbn in *. unfold sumZ in *. case_decide; lia.
Qed.

(** Each price once, with the total quantity resting at it. *)
Lemma levels_of_spec (es : list (string * Z)) :
  Forall (fun e => 0 < e.2) es -> sumZ (snd <$> es) <= 2 ^ 53 ->
  NoDup (levels_of es).*1 /\
  (forall p x, (p, x) ∈ levels_of es <-> p ∈ es.*1 /\ x = level_total p es).
Proof.
  unfold levels_of. intros Hpos Hsum.
  induction es as [| [q r] es IH] using rev_ind.
  { split; [constructor |]. intros p x. cbn. split; [by intros ?%not_elem_of_nil |].
    by intros [?%not_elem_of_nil _]. }
  apply Forall_app in Hpos as [Hpos Hr]. apply Forall_cons in Hr as [Hr _]. cbn in Hr.
  rewrite fmap_app, sumZ_app in Hsum. cbn in Hsum.
  assert (sumZ (snd <$> es) <= 2 ^ 53) as Hsum' by lia.
  destruct (IH Hpos Hsum') as [Hnd Hin]. rewrite fold_left_app. cbn [fold_left fst snd].
  set (ls := fold_left _ es []) in *. split.
  - rewrite add_level_keys. case_decide; [done |].
    apply NoDup_app. split; [done |]. split; [| apply NoDup_singleton].
    intros k Hk Hk'. apply list_elem_of_singleton in Hk' as ->. done.
  - intros p x. rewrite add_level_lookup, fmap_app, elem_of_app, level_total_app, level_total_one by done.
    cbn. rewrite list_elem_of_singleton.
    assert (q ∈ ls.*1 <-> q ∈ es.*1) as Hkeys.
    { rewrite !list_elem_of_fmap. split.
      - intros ([k z] & -> & Hz). apply Hin in Hz as [Hz _]. by apply list_elem_of_fmap in Hz.
      - intros Hz. exists (q, level_total q es). split; [done |]. apply Hin. split; [| done].
        by apply list_elem_of_fmap. }
    assert (q ∉ es.*1 -> level_total q es = 0) as Hzero.
    { intros Hq. unfold level_total. rewrite filter_none; [done |]. apply Forall_forall.
      intros e He E. apply Hq. apply list_elem_of_fmap. eauto. }
    pose proof (level_total_le q es Hpos) as Hle. pose proof (level_total_nonneg q es Hpos) as H0.
    split.
    + intros [[Hk H]|[-> [[Hn ->]|(y & Hy & ->)]]].
      * apply Hin in H as [? ->]. rewrite decide_False by congruence. split; [auto | lia].
      * rewrite decide_True by done. rewrite Hkeys in Hn. rewrite Hzero by done. auto with lia.
      * apply Hin in Hy as [Hy ->]. rewrite decide_True by done.
        unfold lua_add. rewrite f64_of_Z_exact by lia. auto.
    + intros [[H| ->] ->].
      * case_decide as E; [subst p | left; split; [congruence | apply Hin; split; [done | lia]]].
        right. split; [done |]. right. exists (level_total q es). split; [by apply Hin |].
        unfold lua_add. by rewrite f64_of_Z_exact by lia.
      * rewrite decide_True by done. right. split; [done |].
        destruct (decide (q ∈ es.*1)) as [Hq | Hq].
        -- right. exists (level_total q es). split; [by apply Hin |].
           unfold lua_add. by rewrite f64_of_Z_exact by lia.
        -- left. rewrite Hkeys, Hzero by done. auto.
Qed.

Section SnapshotProps.
Context `{V : Valkey, VL : !ValkeyLaws V}.

(** The entries a side contributes. *)
Definition side_entries (book : string) (limit : Z) (s : store) : list (string * Z) :=
  omap (live_entry s) (limit_clause 0 limit (v_zrangebyscore book None s)).

Lemma live_entry_pos (s : store) (id : string) (e : string * Z) : live_entry s id = Some e -> 0 < e.2.
Proof.
  unfold live_entry. destruct (v_hget _ "price_i" s); [| done]. cbn.
  destruct (v_hget _ "remaining_i" s) as [ri |]; [| done]. cbn.
  destruct (Z.ltb_spec 0 (default 0 (lua_tonumber ri))); [| done]. intros [= <-]. done.
Qed.

Lemma side_entries_pos (book : string) (limit : Z) (s : store) :
  Forall (fun e => 0 < e.2) (side_entries book limit s).
Proof.
  apply Forall_forall. intros e (id & _ & He)%list_elem_of_omap. by eapply live_entry_pos.
Qed.

Lemma aggregate_side_levels (book : string) (limit : Z) (s : store) :
  aggregate_side book limit s = levels_of (side_entries book limit s).
Proof.
  unfold aggregate_side, levels_of, side_entries. generalize (@nil (string * Z)).
  induction (limit_clause 0 limit (v_zrangebyscore book None s)) as [| id ids IH]; intros ls; [done |].
  cbn. destruct (live_entry s id) as [[p r] |]; cbn; apply IH.
Qed.

(** A side of the snapshot lists each price once, with exactly the total
    remaining quantity of the live entries at that price. *)
Theorem snapshot_levels (pair_id : string) (side : Side) (limit : Z) (s : store) :
  let es := side_entries (book_key pair_id side) limit s in
  let levels := aggregate_side (book_key pair_id side) limit s in
  sumZ (snd <$> es) <= 2 ^ 53 ->
  NoDup levels.*1 /\
  (forall p x, (p, x) ∈ levels <-> p ∈ es.*1 /\ x = level_total p es).
Proof.
  cbv zeta. intros Hs. rewrite aggregate_side_levels.
  by apply levels_of_spec; [apply side_entries_pos |].
Qed.

Context `{C : Crates}.

Definition shown_level (abs : bool) (l : string * Z) (t : string * string) : Prop :=
  exists p, parse_i64 l.1 = Some p /\ 0 <= l.2 < 10 ^ 14 /\
    t = (dec_to_string (i64_to_decimal (if abs then Z.abs p else p)), dec_to_string (i64_to_decimal l.2)).

Lemma parse_levels_flatten (abs : bool) (ls : list (string * Z)) (ts : list (string * string))
    (rest : list string) :
  Forall2 (shown_level abs) ls ts ->
  parse_levels (length ls) abs (flatten_levels ls ++ rest) = (ts, rest).
Proof.
  unfold flatten_levels. induction 1 as [| [p x] t ls ts (p_i & Hp & Hx & ->) _ IH]; [done |].
  change (mjoin ((fun l : string * Z => [l.1; lua_tostring l.2]) <$> (p, x) :: ls))
    with ([p; lua_tostring x] ++ mjoin ((fun l : string * Z => [l.1; lua_tostring l.2]) <$> ls)).
  cbn [length parse_levels app fst snd] in *. rewrite IH, Hp.
  by rewrite parse_i64_lua_tostring by lia.
Qed.

Lemma flatten_length (ls : list (string * Z)) : length (flatten_levels ls) = (2 * length ls)%nat.
Proof.
  unfold flatten_levels. induction ls as [| l ls IH]; [done |].
  change (mjoin ((fun l : string * Z => [l.1; lua_tostring l.2]) <$> l :: ls))
    with ([l.1; lua_tostring l.2] ++ mjoin ((fun l : string * Z => [l.1; lua_tostring l.2]) <$> ls)).
  rewrite length_app, IH. cbn. lia.
Qed.

Lemma parse_count_flatten (ls : list (string * Z)) (rest : list string) :
  Z.of_nat (length ls) < 2 ^ 32 ->
  parse_count (Z_to_string (Z.of_nat (length (flatten_levels ls))) :: rest)
    = (2 * Z.of_nat (length ls), rest).
Proof.
  intros H. unfold parse_count. rewrite flatten_length.
  rewrite (parse_usize_numeral _ (Z.of_nat (2 * length ls)));
    [| apply parse_unsigned_Z_to_string; lia | lia].
  cbn [from_option]. unfold id. f_equal. lia.
Qed.

End SnapshotProps.

Module SnapshotExamples.
Import RefCrates RefValkey.

Definition entry (id price rem : string) (score : Z) (s : @store ref_valkey) : @store ref_valkey :=
  v_hset (order_key_str id) [("price_i", price); ("remaining_i", rem)]
    (v_zadd "book:BTC-USDT:asks" score id s).

Definition three_asks : @store ref_valkey :=
  entry "c" "200" "7" 200 (entry "b" "100" "5" 100 (entry "a" "100" "3" 100 empty_store)).

Lemma snapshot_levels_witness :
  NoDup (aggregate_side "book:BTC-USDT:asks" 50 three_asks).*1 /\
  (forall p x, (p, x) ∈ aggregate_side "book:BTC-USDT:asks" 50 three_asks <->
     p ∈ (side_entries "book:BTC-USDT:asks" 50 three_asks).*1 /\
     x = level_total p (side_entries "book:BTC-USDT:asks" 50 three_asks)).
Proof.
  apply (snapshot_levels "BTC-USDT" Sell 50 three_asks). vm_compute. congruence.
Defined.

End SnapshotExamples.
