(* ===== verification/Cas.v ===== *)
(** * Optimistic book updates ([crates/shared/src/cache.rs], OCC / CAS primitives)

    [load_order_book_snapshot] reads a side with the version of the pair;
    [apply_book_mutations_cas] writes the hashes of the upserted orders and then
    runs CAS_SCRIPT, which applies the sorted-set mutations and bumps the
    version only when the version is still the expected one. *)

From S2P Require Import Prelude Numbers Externals Fixed Types Valkey Codec Engine EngineProps Book.
From S2P Require Import BookProps.

Open Scope Z_scope.

Inductive CasResult := CasOk | Conflict.

Inductive CasOp := REMOVE_BID | REMOVE_ASK | UPSERT_BID | UPSERT_ASK.

Module Mutation.
Record t : Type := mk { op : CasOp; oid : string; okey : string; score : Z }.
End Mutation.

Section Cas.
Context `{C : Crates, V : Valkey}.

Definition load_order_book_snapshot (now : datetime) (pair_id : string) (side : Side)
    (limit_price : option decimal) (s : store) : list Order.t * Z :=
  let version := default 0 (v_get (version_key pair_id) s ≫= parse_i64) in
  let ids := v_zrangebyscore (book_key pair_id side) (max_score side limit_price) s in
  (fetch_orders_by_ids now ids s, version).

(** ** CAS_SCRIPT *)

Definition apply_mutation (pair_id : string) (m : Mutation.t) (s : store) : store :=
  match Mutation.op m with
  | REMOVE_BID => v_del (Mutation.okey m) (v_zrem (book_key pair_id Buy) (Mutation.oid m) s)
  | REMOVE_ASK => v_del (Mutation.okey m) (v_zrem (book_key pair_id Sell) (Mutation.oid m) s)
  | UPSERT_BID => v_zadd (book_key pair_id Buy) (Mutation.score m) (Mutation.oid m) s
  | UPSERT_ASK => v_zadd (book_key pair_id Sell) (Mutation.score m) (Mutation.oid m) s
  end.

(** Lua's [tostring] of the reply to GET: a missing key is [false]. *)
Definition current_version (pair_id : string) (s : store) : string :=
  default "false" (v_get (version_key pair_id) s).

Definition cas_script (pair_id : string) (expected : string) (ms : list Mutation.t) (s : store)
    : store * result string :=
  if decide (current_version pair_id s = expected) then
    match v_incrby (version_key pair_id) 1 (fold_left (fun s m => apply_mutation pair_id m s) ms s) with
    | (s, Err e) => (s, Err e)
    | (s, Ok _) => (s, Ok "OK")
    end
  else (s, Err "VERSION_CONFLICT").

(** ** The caller *)

Definition closed (o : Order.t) : bool :=
  bool_decide (Order.status o = Filled) || bool_decide (Order.status o = Cancelled).

Definition update_op (o : Order.t) : CasOp :=
  match Order.side o with
  | Buy => if closed o then REMOVE_BID else UPSERT_BID
  | Sell => if closed o then REMOVE_ASK else UPSERT_ASK
  end.

Definition upsert_op (o : Order.t) : CasOp :=
  match Order.side o with Buy => UPSERT_BID | Sell => UPSERT_ASK end.

Definition mutation (op : CasOp) (o : Order.t) : Mutation.t :=
  Mutation.mk op (uuid_to_string (Order.id o)) (order_key (Order.id o)) (score_of o).

Definition mutations (book_updates : list Order.t) (incoming_if_resting : option Order.t)
    : list Mutation.t :=
  ((fun o => mutation (update_op o) o) <$> book_updates) ++
  match incoming_if_resting with
  | Some o => [mutation (upsert_op o) o]
  | None => []
  end.

Definition upsert_orders (book_updates : list Order.t) (incoming_if_resting : option Order.t)
    : list Order.t :=
  filter (fun o => closed o = false) book_updates ++ option_list incoming_if_resting.

(** Phase 1: the hashes of the upserted orders, outside the script. *)
Definition write_hashes (os : list Order.t) (s : store) : store :=
  fold_left (fun s o => v_hset (order_key (Order.id o)) (order_hash_fields o) s) os s.

Definition apply_book_mutations_cas (pair_id : string) (expected_version : Z)
    (book_updates : list Order.t) (incoming_if_resting : option Order.t) (s : store)
    : store * result CasResult :=
  let s := write_hashes (upsert_orders book_updates incoming_if_resting) s in
  match cas_script pair_id (Z_to_string expected_version) (mutations book_updates incoming_if_resting) s with
  | (s, Ok _) => (s, Ok CasOk)
  | (s, Err e) =>
      (s, if str_contains "VERSION_CONFLICT" e then Ok Conflict else Err ("CAS script error: " +:+ e))
  end.
End Cas.

Section CasProps.
Context `{C : Crates, L : !CratesLaws C, V : Valkey, VL : !ValkeyLaws V}.
Context (pair_id : string).

Lemma write_hashes_frame (os : list Order.t) (s : store) :
  strs (view (write_hashes os s)) = strs (view s) /\ zsets (view (write_hashes os s)) = zsets (view s) /\
  (forall id, Forall (fun o => uuid_to_string (Order.id o) <> id) os ->
     hash (view (write_hashes os s)) (order_key_str id) = hash (view s) (order_key_str id)).
Proof.
  unfold write_hashes. revert s. induction os as [| o os IH]; intros s; [done |]. cbn.
  destruct (IH (v_hset (order_key (Order.id o)) (order_hash_fields o) s)) as (H1 & H2 & H3).
  rewrite hset_view in *. split; [by rewrite H1 |]. split; [by rewrite H2 |].
  intros id [Hne Hf]%Forall_cons. rewrite H3 by done. unfold order_key.
  by rewrite hash_hset_ne by (intros ?%order_key_str_inj; congruence).
Qed.

Lemma write_hashes_stored (os : list Order.t) (o : Order.t) (s : store) :
  NoDup ((fun o => uuid_to_string (Order.id o)) <$> os) -> o ∈ os ->
  stored (view (write_hashes os s)) (uuid_to_string (Order.id o)) o.
Proof.
  unfold write_hashes. revert s. induction os as [| x os IH]; intros s Hnd Ho; [by apply not_elem_of_nil in Ho |].
  cbn in Hnd. apply NoDup_cons in Hnd as [Hx Hnd]. apply elem_of_cons in Ho as [-> | Ho]; [| by apply IH].
  cbn. fold (write_hashes os (v_hset (order_key (Order.id x)) (order_hash_fields x) s)).
  eapply stored_other.
  - apply write_hashes_frame. apply Forall_forall. intros y Hy E. apply Hx, list_elem_of_fmap. eauto.
  - rewrite hset_view. apply stored_hset.
Qed.

(** A mutation concerns its own id and the two sides of the pair only. *)
Lemma apply_mutation_frame (op : CasOp) (o : Order.t) (s : store) :
  let s' := apply_mutation pair_id (mutation op o) s in
  strs (view s') !! version_key pair_id = strs (view s) !! version_key pair_id /\
  (forall id, id <> uuid_to_string (Order.id o) ->
     hash (view s') (order_key_str id) = hash (view s) (order_key_str id) /\
     forall side, zset (view s') (book_key pair_id side) !! id = zset (view s) (book_key pair_id side) !! id).
Proof.
  cbv zeta. unfold apply_mutation, mutation. cbn [Mutation.op Mutation.oid Mutation.okey Mutation.score].
  assert (forall sd, strs (kv_del (order_key (Order.id o))
            (kv_zrem (book_key pair_id sd) (uuid_to_string (Order.id o)) (view s))) !! version_key pair_id
          = strs (view s) !! version_key pair_id) as Hv1.
  { intros sd. rewrite strs_del_ne by apply order_key_version. by autorewrite with kv. }
  assert (forall sd id, id <> uuid_to_string (Order.id o) ->
      hash (kv_del (order_key (Order.id o)) (kv_zrem (book_key pair_id sd) (uuid_to_string (Order.id o)) (view s)))
        (order_key_str id) = hash (view s) (order_key_str id) /\
      forall side, zset (kv_del (order_key (Order.id o))
        (kv_zrem (book_key pair_id sd) (uuid_to_string (Order.id o)) (view s))) (book_key pair_id side) !! id
        = zset (view s) (book_key pair_id side) !! id) as Hr.
  { intros sd id Hid. split.
    - rewrite hash_del_ne by (intros ?%order_key_str_inj; congruence). apply hash_zrem.
    - intros side. rewrite zset_del_ne by apply order_key_book.
      destruct (decide (book_key pair_id sd = book_key pair_id side)) as [E | E].
      + by rewrite E, zset_zrem_eq, lookup_delete_ne.
      + by rewrite zset_zrem_ne. }
  assert (forall sd id, id <> uuid_to_string (Order.id o) -> forall side,
      zset (kv_zadd (book_key pair_id sd) (score_of o) (uuid_to_string (Order.id o)) (view s))
        (book_key pair_id side) !! id = zset (view s) (book_key pair_id side) !! id) as Ha.
  { intros sd id Hid side.
    destruct (decide (book_key pair_id sd = book_key pair_id side)) as [E | E].
    - by rewrite E, zset_zadd_eq, lookup_insert_ne.
    - by rewrite zset_zadd_ne. }
  destruct op; rewrite ?del_view, ?zrem_view, ?zadd_view; (split; [done || apply Hv1 | auto]).
  all: intros id Hid; (split; [done | by apply Ha]).
Qed.

(** What a mutation leaves of its own order. *)
Definition applied (s : kv) (op : CasOp) (o : Order.t) : Prop :=
  let id := uuid_to_string (Order.id o) in
  match op with
  | REMOVE_BID => zset s (book_key pair_id Buy) !! id = None /\ hash s (order_key_str id) = ∅
  | REMOVE_ASK => zset s (book_key pair_id Sell) !! id = None /\ hash s (order_key_str id) = ∅
  | UPSERT_BID => zset s (book_key pair_id Buy) !! id = Some (score_of o) /\ stored s id o
  | UPSERT_ASK => zset s (book_key pair_id Sell) !! id = Some (score_of o) /\ stored s id o
  end.

Lemma applied_frame (s s' : kv) (op : CasOp) (o : Order.t) :
  hash s' (order_key_str (uuid_to_string (Order.id o))) = hash s (order_key_str (uuid_to_string (Order.id o))) ->
  (forall side, zset s' (book_key pair_id side) !! uuid_to_string (Order.id o)
                = zset s (book_key pair_id side) !! uuid_to_string (Order.id o)) ->
  applied s op o -> applied s' op o.
Proof.
  intros Hh Hz. unfold applied, stored, stored_fields. destruct op; rewrite Hz, Hh; done.
Qed.

Lemma apply_mutation_applied (op : CasOp) (o : Order.t) (s : store) :
  (op = UPSERT_BID \/ op = UPSERT_ASK -> stored (view s) (uuid_to_string (Order.id o)) o) ->
  applied (view (apply_mutation pair_id (mutation op o) s)) op o.
Proof.
  intros Hst. unfold apply_mutation, mutation, applied.
  destruct op; cbn [Mutation.op Mutation.oid Mutation.okey Mutation.score];
    rewrite ?del_view, ?zrem_view, ?zadd_view.
  1-2: unfold order_key; rewrite hash_del_eq, zset_del_ne, zset_zrem_eq, lookup_delete_eq
         by apply order_key_book; done.
  1-2: rewrite zset_zadd_eq, lookup_insert_eq; split; [done |]; by apply Hst; auto.
Qed.

Definition run_mutations (ms : list Mutation.t) (s : store) : store :=
  fold_left (fun s m => apply_mutation pair_id m s) ms s.

Lemma run_mutations_frame (ops : list (CasOp * Order.t)) (s : store) :
  let s' := run_mutations ((fun x => mutation x.1 x.2) <$> ops) s in
  strs (view s') !! version_key pair_id = strs (view s) !! version_key pair_id /\
  (forall id, Forall (fun x => uuid_to_string (Order.id x.2) <> id) ops ->
     hash (view s') (order_key_str id) = hash (view s) (order_key_str id) /\
     forall side, zset (view s') (book_key pair_id side) !! id = zset (view s) (book_key pair_id side) !! id).
Proof.
  cbv zeta. unfold run_mutations. revert s. induction ops as [| [op o] ops IH]; intros s; [done |]. cbn.
  destruct (IH (apply_mutation pair_id (mutation op o) s)) as [H1 H2].
  destruct (apply_mutation_frame op o s) as [F1 F2]. split; [by rewrite H1 |].
  intros id [Hne Hf]%Forall_cons. cbn in Hne. destruct (H2 id Hf) as [Ha Hb].
  destruct (F2 id) as [Hc Hd]; [congruence |]. split; [by rewrite Ha |]. intros side. by rewrite Hb.
Qed.

Lemma run_mutations_applied (ops : list (CasOp * Order.t)) (s : store) :
  NoDup ((fun x => uuid_to_string (Order.id x.2)) <$> ops) ->
  Forall (fun x => x.1 = UPSERT_BID \/ x.1 = UPSERT_ASK -> stored (view s) (uuid_to_string (Order.id x.2)) x.2)
    ops ->
  Forall (fun x => applied (view (run_mutations ((fun x => mutation x.1 x.2) <$> ops) s)) x.1 x.2) ops.
Proof.
  unfold run_mutations. revert s. induction ops as [| [op o] ops IH]; intros s Hnd Hst; [constructor |].
  cbn in Hnd. apply NoDup_cons in Hnd as [Ho Hnd]. apply Forall_cons in Hst as [Hop Hst]. cbn in *.
  assert (Forall (fun x => uuid_to_string (Order.id x.2) <> uuid_to_string (Order.id o)) ops) as Hne.
  { apply Forall_forall. intros x Hx E. apply Ho, list_elem_of_fmap. eauto. }
  constructor.
  - destruct (run_mutations_frame ops (apply_mutation pair_id (mutation op o) s)) as [_ H2].
    destruct (H2 _ Hne) as [Hh Hz]. cbn [fst snd].
    eapply applied_frame; [exact Hh | exact Hz |]. by apply apply_mutation_applied.
  - apply IH; [done |]. apply Forall_forall. intros x Hx Hups. rewrite Forall_forall in Hst, Hne.
    eapply stored_other; [| by apply Hst].
    destruct (apply_mutation_frame op o s) as [_ F2]. by apply (proj1 (F2 _ (Hne x Hx))).
Qed.

(** The operations a call performs, with their orders. *)
Definition operations (updates : list Order.t) (resting : option Order.t) : list (CasOp * Order.t) :=
  ((fun o => (update_op o, o)) <$> updates) ++ ((fun o => (upsert_op o, o)) <$> option_list resting).

Lemma mutations_operations (updates : list Order.t) (resting : option Order.t) :
  mutations updates resting = (fun x => mutation x.1 x.2) <$> operations updates resting.
Proof.
  unfold mutations, operations. rewrite fmap_app, <- !list_fmap_compose. by destruct resting.
Qed.

Lemma operations_upserts (updates : list Order.t) (resting : option Order.t) (x : CasOp * Order.t) :
  x ∈ operations updates resting -> x.1 = UPSERT_BID \/ x.1 = UPSERT_ASK ->
  x.2 ∈ upsert_orders updates resting.
Proof.
  unfold operations, upsert_orders. rewrite !elem_of_app. intros [Hx | Hx] Hop.
  - left. apply list_elem_of_fmap in Hx as (o & -> & Ho). cbn in *. apply list_elem_of_filter. split; [| done].
    unfold update_op in Hop. destruct (Order.side o), (closed o); naive_solver.
  - right. apply list_elem_of_fmap in Hx as (o & -> & Ho). done.
Qed.

Lemma upsert_orders_sub (updates : list Order.t) (resting : option Order.t) :
  NoDup ((fun x => uuid_to_string (Order.id x.2)) <$> operations updates resting) ->
  NoDup ((fun o => uuid_to_string (Order.id o)) <$> upsert_orders updates resting).
Proof.
  unfold operations, upsert_orders. rewrite !fmap_app, <- !list_fmap_compose. intros Hnd.
  eapply sublist_NoDup; [exact Hnd |]. apply sublist_app; [| done].
  apply (sublist_fmap (fun o => uuid_to_string (Order.id o))), sublist_filter.
Qed.

Lemma upserted_operation (updates : list Order.t) (resting : option Order.t) (o : Order.t) :
  o ∈ upsert_orders updates resting -> exists op, (op, o) ∈ operations updates resting.
Proof.
  unfold upsert_orders, operations. rewrite elem_of_app. intros [[_ Ho]%list_elem_of_filter | Ho].
  - exists (update_op o). apply elem_of_app. left. apply list_elem_of_fmap. eauto.
  - exists (upsert_op o). apply elem_of_app. right. apply list_elem_of_fmap. eauto.
Qed.

(** The run of a commit, operation by operation. *)
Lemma cas_commits_ops (v : Z) (updates : list Order.t) (resting : option Order.t) (s : store) :
  strs (view s) !! version_key pair_id = Some (Z_to_string v) ->
  in_i64 v = true -> in_i64 (v + 1) = true ->
  NoDup ((fun x => uuid_to_string (Order.id x.2)) <$> operations updates resting) ->
  let '(s', r) := apply_book_mutations_cas pair_id v updates resting s in
  r = Ok CasOk /\ strs (view s') !! version_key pair_id = Some (Z_to_string (v + 1)) /\
  Forall (fun x => applied (view s') x.1 x.2) (operations updates resting) /\
  (forall id, Forall (fun x => uuid_to_string (Order.id x.2) <> id) (operations updates resting) ->
     hash (view s') (order_key_str id) = hash (view s) (order_key_str id) /\
     forall side, zset (view s') (book_key pair_id side) !! id = zset (view s) (book_key pair_id side) !! id).
Proof.
  intros Hv Hi Hi' Hnd. unfold apply_book_mutations_cas, cas_script, current_version.
  set (s1 := write_hashes (upsert_orders updates resting) s).
  destruct (write_hashes_frame (upsert_orders updates resting) s) as (Hs & Hz1 & Hh1). fold s1 in Hs, Hz1, Hh1.
  rewrite get_view, Hs, Hv. cbn [from_option]. unfold id. rewrite decide_True by done.
  rewrite mutations_operations.
  fold (run_mutations ((fun x : CasOp * Order.t => mutation x.1 x.2) <$> operations updates resting) s1).
  destruct (run_mutations_frame (operations updates resting) s1) as [Hver Hfr]. cbv zeta in Hver, Hfr.
  pose proof (run_mutations_applied (operations updates resting) s1 Hnd) as Happ.
  set (s2 := run_mutations ((fun x : CasOp * Order.t => mutation x.1 x.2) <$> operations updates resting) s1) in *.
  rewrite Hs, Hv in Hver.
  assert (kv_incrby (version_key pair_id) 1 (view s2)
          = (set_strs <[version_key pair_id := Z_to_string (v + 1)]> (view s2), Ok (v + 1))) as Ei.
  { unfold kv_incrby. by rewrite Hver, incr_cell_ok. }
  pose proof (incrby_view (version_key pair_id) 1 s2) as Hvw.
  pose proof (incrby_reply (version_key pair_id) 1 s2) as Hrp.
  destruct (v_incrby (version_key pair_id) 1 s2) as [s3 r3]. cbn [fst snd] in *.
  rewrite Ei in Hvw, Hrp. cbn [fst snd] in *. subst r3. split; [done |].
  rewrite Hvw. split; [cbn; by rewrite lookup_insert_eq |].
  split; [| intros id Hid; split].
  2: { destruct (Hfr id Hid) as [Hh _]. etransitivity; [exact Hh |]. apply Hh1.
       apply Forall_forall. intros o Ho. rewrite Forall_forall in Hid.
       destruct (upserted_operation updates resting o Ho) as [op Hop]. exact (Hid _ Hop). }
  2: { intros side. destruct (Hfr id Hid) as [_ Hz]. etransitivity; [exact (Hz side) |]. unfold zset. by rewrite Hz1. }
  eapply Forall_impl; [apply Happ |].
  - apply Forall_forall. intros x Hx Hup. apply write_hashes_stored.
    + by apply upsert_orders_sub.
    + by eapply operations_upserts.
  - intros x Hx. eapply applied_frame; [| | exact Hx]; done.
Qed.

(** An order that has left its side of the book, with its hash. *)
Definition off_book (s : kv) (o : Order.t) : Prop :=
  zset s (book_key pair_id (Order.side o)) !! uuid_to_string (Order.id o) = None /\
  hash s (order_key_str (uuid_to_string (Order.id o))) = ∅.

(** An order on its side of the book: bids are scored by their price with its sign
    changed, asks by their price, and the hash shows the order. *)
Record on_book (s : kv) (o : Order.t) : Prop := {
  ob_entry : zset s (book_key pair_id (Order.side o)) !! uuid_to_string (Order.id o) = Some (score_of o);
  ob_score p : bookable o -> Order.price o = Some p ->
    zset s (book_key pair_id (Order.side o)) !! uuid_to_string (Order.id o) =
    Some match Order.side o with Buy => - units p | Sell => units p end;
  ob_hash : stored s (uuid_to_string (Order.id o)) o;
  ob_side : hash s (order_key_str (uuid_to_string (Order.id o))) !! "side" =
    Some match Order.side o with Buy => "B" | Sell => "S" end;
  ob_user : hash s (order_key_str (uuid_to_string (Order.id o))) !! "user_id" = Some (Order.user_id o);
  ob_remaining : hash s (order_key_str (uuid_to_string (Order.id o))) !! "remaining_i" =
    Some (Z_to_string (decimal_to_i64 (Order.remaining o)));
  ob_price p : Order.price o = Some p ->
    hash s (order_key_str (uuid_to_string (Order.id o))) !! "price_i" = Some (Z_to_string (decimal_to_i64 p));
}.

Lemma stored_on_book (s : kv) (o : Order.t) :
  zset s (book_key pair_id (Order.side o)) !! uuid_to_string (Order.id o) = Some (score_of o) ->
  stored s (uuid_to_string (Order.id o)) o -> on_book s o.
Proof.
  intros Hz Hs. pose proof Hs as Hf. unfold stored, stored_fields, ORDER_FIELDS, order_hash_fields in Hf.
  cbn in Hf. injection Hf as _ _ Hsd _ _ Hp _ Hr _ _ Hu _ _.
  split; [done | | done | | done | done |].
  - intros p Hb Ep. by rewrite Hz, (bookable_score o p Hb Ep).
  - rewrite Hsd. by destruct (Order.side o).
  - intros p Ep. rewrite Hp. unfold price_i_of. by rewrite Ep.
Qed.

Lemma upsert_on_book (s : kv) (o : Order.t) : applied s (upsert_op o) o -> on_book s o.
Proof. intros H. unfold applied, upsert_op in H. destruct (Order.side o) eqn:E; apply stored_on_book; rewrite ?E; tauto. Qed.

Lemma update_on_book (s : kv) (o : Order.t) :
  Order.status o <> Filled -> Order.status o <> Cancelled -> applied s (update_op o) o -> on_book s o.
Proof.
  intros H1 H2 H. apply upsert_on_book. revert H. unfold update_op, upsert_op, closed.
  rewrite !bool_decide_eq_false_2 by done. done.
Qed.

Lemma update_off_book (s : kv) (o : Order.t) :
  Order.status o = Filled \/ Order.status o = Cancelled -> applied s (update_op o) o -> off_book s o.
Proof.
  intros Hc H. unfold applied, update_op, off_book in *. assert (closed o = true) as Ec.
  { unfold closed. destruct Hc as [-> | ->]; done. }
  rewrite Ec in H. by destruct (Order.side o).
Qed.

(** C33: when the version is the expected one and the call names each order once,
    the update commits: the version is bumped; every updated order that is
    filled or cancelled has left its own side of the book and its hash is gone;
    every other one, and the incoming order when it rests, is on its own side,
    bids at minus their price and asks at their price, with its hash; and no
    other order of the pair's book or its hash changes. *)
Theorem cas_commits (v : Z) (updates : list Order.t) (resting : option Order.t) (s : store) :
  strs (view s) !! version_key pair_id = Some (Z_to_string v) ->
  in_i64 v = true -> in_i64 (v + 1) = true ->
  NoDup (Order.id <$> updates ++ option_list resting) ->
  let '(s', r) := apply_book_mutations_cas pair_id v updates resting s in
  r = Ok CasOk /\ strs (view s') !! version_key pair_id = Some (Z_to_string (v + 1)) /\
  (forall o, o ∈ updates -> Order.status o = Filled \/ Order.status o = Cancelled -> off_book (view s') o) /\
  (forall o, o ∈ updates -> Order.status o <> Filled -> Order.status o <> Cancelled -> on_book (view s') o) /\
  (forall o, resting = Some o -> on_book (view s') o) /\
  (forall id, id ∉ (fun o => uuid_to_string (Order.id o)) <$> updates ++ option_list resting ->
     hash (view s') (order_key_str id) = hash (view s) (order_key_str id) /\
     forall side, zset (view s') (book_key pair_id side) !! id = zset (view s) (book_key pair_id side) !! id).
Proof.
  intros Hv Hi Hi' Hnd.
  assert ((fun x => uuid_to_string (Order.id x.2)) <$> operations updates resting =
          (fun o => uuid_to_string (Order.id o)) <$> updates ++ option_list resting) as Eids.
  { unfold operations. rewrite !fmap_app, <- !list_fmap_compose. done. }
  pose proof (cas_commits_ops v updates resting s Hv Hi Hi') as H. rewrite Eids in H.
  assert (NoDup ((fun o => uuid_to_string (Order.id o)) <$> updates ++ option_list resting)) as Hnd'.
  { change (NoDup ((uuid_to_string ∘ Order.id) <$> updates ++ option_list resting)).
    rewrite list_fmap_compose. apply NoDup_fmap; [| done]. intros ? ?. apply uuid_to_string_inj. }
  specialize (H Hnd'). destruct (apply_book_mutations_cas _ _ _ _ _) as [s' r].
  destruct H as (Hr & Hver & Happ & Hother). rewrite Forall_forall in Happ.
  assert (forall o, o ∈ updates -> applied (view s') (update_op o) o) as Hup.
  { intros o Ho. apply (Happ (update_op o, o)). unfold operations. apply elem_of_app. left. apply list_elem_of_fmap. eauto. }
  split; [exact Hr |]. split; [exact Hver |].
  split; [intros o Ho Hc; apply update_off_book; auto |]. split; [intros o Ho Hc1 Hc2; apply update_on_book; auto |].
  split.
  - intros o ->. apply upsert_on_book, (Happ (upsert_op o, o)). unfold operations. apply elem_of_app. right. left.
  - intros id Hid. apply Hother. apply Forall_forall. intros x Hx E. apply Hid. rewrite <- Eids.
    apply list_elem_of_fmap. eauto.
Qed.

(** No version prints as Lua's [false]. *)
Lemma Z_to_string_not_false (v : Z) : "false" <> Z_to_string v.
Proof.
  intros E. symmetry in E. destruct (Z_lt_le_dec v 0) as [Hneg | Hpos].
  - rewrite Z_to_string_neg in E by done. discriminate.
  - pose proof (parse_unsigned_Z_to_string v Hpos) as Hp. rewrite E in Hp. discriminate.
Qed.

(** When the version has moved, the update is refused: neither side of any
    book nor any version changes. *)
Theorem cas_conflicts (v : Z) (updates : list Order.t) (resting : option Order.t) (s : store) :
  strs (view s) !! version_key pair_id <> Some (Z_to_string v) ->
  let '(s', r) := apply_book_mutations_cas pair_id v updates resting s in
  r = Ok Conflict /\ zsets (view s') = zsets (view s) /\ strs (view s') = strs (view s).
Proof.
  intros Hv. unfold apply_book_mutations_cas, cas_script, current_version.
  destruct (write_hashes_frame (upsert_orders updates resting) s) as (Hs & Hz & _).
  rewrite get_view, Hs.
  assert (default "false" (strs (view s) !! version_key pair_id) <> Z_to_string v) as Hne.
  { destruct (strs (view s) !! version_key pair_id) as [x |]; cbn; [congruence |].
    apply Z_to_string_not_false. }
  rewrite decide_False by done. cbn. rewrite Hs, Hz. done.
Qed.

(** A pair that was never matched reports version 0, but no update that
    expects it, or any other version, can commit. *)
Theorem cas_fresh_pair_conflicts (now : datetime) (side : Side) (limit : option decimal) (v : Z)
    (updates : list Order.t) (resting : option Order.t) (s : store) :
  strs (view s) !! version_key pair_id = None ->
  (load_order_book_snapshot now pair_id side limit s).2 = 0 /\
  (apply_book_mutations_cas pair_id v updates resting s).2 = Ok Conflict.
Proof.
  intros Hn. split.
  - unfold load_order_book_snapshot. cbn. by rewrite get_view, Hn.
  - unfold apply_book_mutations_cas, cas_script, current_version.
    destruct (write_hashes_frame (upsert_orders updates resting) s) as (Hs & _ & _).
    rewrite get_view, Hs, Hn. cbn [from_option].
    rewrite decide_False by apply Z_to_string_not_false. done.
Qed.
End CasProps.

Module CasExamples.
Import RefCrates RefValkey EngineExamples BookExamples.

Definition at_version_7 : @store ref_valkey :=
  v_set "version:BTC-USDT" "7" (save_order_to_book (ask 11 100 1 0) empty_store).

Definition filled_ask : @Order.t ref_crates := Order.set_status Filled (ask 11 100 1 0).

Lemma cas_commits_witness :
  let '(s', r) := apply_book_mutations_cas "BTC-USDT" 7 [filled_ask] (Some (ask 12 101 1 0)) at_version_7 in
  r = Ok CasOk /\ off_book "BTC-USDT" (view s') filled_ask /\ on_book "BTC-USDT" (view s') (ask 12 101 1 0).
Proof.
  pose proof (cas_commits "BTC-USDT" 7 [filled_ask] (Some (ask 12 101 1 0)) at_version_7
                eq_refl eq_refl eq_refl) as H.
  assert (NoDup (Order.id <$> [filled_ask] ++ option_list (Some (ask 12 101 1 0)))) as Hnd.
  { apply (bool_decide_unpack _). vm_compute. exact I. }
  specialize (H Hnd). destruct (apply_book_mutations_cas _ _ _ _ _) as [s' r]. destruct H as (Hr & _ & Hoff & _ & Hon & _).
  split; [exact Hr |]. split; [apply Hoff; [left | by left] | by apply Hon].
Defined.

Lemma cas_conflicts_witness :
  (apply_book_mutations_cas "BTC-USDT" 6 [filled_ask] (Some (ask 12 101 1 0)) at_version_7).2 = Ok Conflict.
Proof.
  pose proof (cas_conflicts "BTC-USDT" 6 [filled_ask] (Some (ask 12 101 1 0)) at_version_7
                ltac:(vm_compute; congruence)) as H.
  destruct (apply_book_mutations_cas _ _ _ _ _) as [s' r]. exact (proj1 H).
Defined.

Lemma cas_fresh_pair_conflicts_witness :
  (apply_book_mutations_cas "BTC-USDT" 0 [] (Some (ask 12 101 1 0)) empty_store).2 = Ok Conflict.
Proof.
  exact (proj2 (cas_fresh_pair_conflicts "BTC-USDT" (0 : @datetime ref_crates) Sell None 0 []
                  (Some (ask 12 101 1 0)) empty_store eq_refl)).
Defined.

(** A refused update has already overwritten the hashes of its upserts. *)
Lemma conflict_overwrites_hash :
  let stale := Order.set_remaining (1 # 2)%Q (ask 11 100 1 0) in
  let '(s', r) := apply_book_mutations_cas "BTC-USDT" 6 [stale] None at_version_7 in
  r = Ok Conflict /\
  hash (view at_version_7) "order:11" !! "remaining_i" = Some "100000000" /\
  hash (view s') "order:11" !! "remaining_i" = Some "50000000".
Proof. vm_compute. done. Qed.
End CasExamples.
