(* ===== verification/Lock.v ===== *)
(** * The per-pair lock ([crates/shared/src/lock.rs])

    SET NX EX with a bounded number of attempts, a fence counter incremented at
    each acquisition, and a release script that deletes the lock only when it
    still names the worker.  The system of workers is a step relation: a worker
    acquires, a holder releases, the server expires the lock. *)

From S2P Require Import Prelude Numbers Valkey.

Open Scope Z_scope.

Definition BACKOFF_MS : list Z := [5; 10; 25; 50; 100; 200; 400; 800].
Definition MAX_RETRIES : nat := 20.
Definition LOCK_TTL_SECS : Z := 5.

Definition lock_key (pair_id : string) : string := "book:" +:+ pair_id +:+ ":lock".
Definition fence_key (pair_id : string) : string := "book:" +:+ pair_id +:+ ":fence".

Module LockGuard.
Record t : Type := mk { pair_id : string; worker_id : string; fence_token : Z; released : bool }.
End LockGuard.

(** The wait after a failed attempt; [random] is the [u64] drawn for the jitter. *)
Definition backoff_ms (attempt : nat) (random : Z) : Z :=
  let base_ms := default 0 (BACKOFF_MS !! (attempt `min` (length BACKOFF_MS - 1))%nat) in
  base_ms + random mod (base_ms / 2 + 1).

Section Lock.
Context `{V : Valkey}.

(** One attempt: SET NX EX, then INCR of the fence. *)
Definition try_acquire (pair_id worker_id : string) (s : store) : store * option LockGuard.t :=
  match v_set_nx_ex (lock_key pair_id) worker_id LOCK_TTL_SECS s with
  | (s, true) =>
      let '(s, fence) := v_incrby (fence_key pair_id) 1 s in
      let fence := match fence with Ok f => f | Err _ => 1 end in
      (s, Some (LockGuard.mk pair_id worker_id fence false))
  | (s, false) => (s, None)
  end.

(** [env k] is what the rest of the system does during the k-th wait. *)
Fixpoint acquire_attempts (env : nat -> store -> store) (pair_id worker_id : string)
    (attempt fuel : nat) (s : store) : store * result LockGuard.t :=
  match fuel with
  | O => (s, Err ("failed to acquire lock for pair " +:+ pair_id +:+ " after 20 retries"))
  | S fuel =>
      match try_acquire pair_id worker_id s with
      | (s, Some g) => (s, Ok g)
      | (s, None) => acquire_attempts env pair_id worker_id (S attempt) fuel (env attempt s)
      end
  end.

Definition acquire_lock (env : nat -> store -> store) (pair_id worker_id : string) (s : store)
    : store * result LockGuard.t :=
  acquire_attempts env pair_id worker_id 0 MAX_RETRIES s.

(** The script: the fence is not consulted. *)
Definition release_lock (pair_id worker_id : string) (fence : Z) (s : store) : store * Z :=
  if decide (v_get (lock_key pair_id) s = Some worker_id)
  then (v_del (lock_key pair_id) s, if v_exists (lock_key pair_id) s then 1 else 0)
  else (s, 0).

Definition release (g : LockGuard.t) (s : store) : store :=
  (release_lock (LockGuard.pair_id g) (LockGuard.worker_id g) (LockGuard.fence_token g) s).1.

(** Dropping a guard releases it unless it was released explicitly. *)
Definition drop_guard (g : LockGuard.t) (s : store) : store :=
  if LockGuard.released g then s else release g s.

Definition is_locked (pair_id : string) (s : store) : bool :=
  bool_decide (is_Some (v_get (lock_key pair_id) s)).

Definition current_fence (pair_id : string) (s : store) : result Z :=
  match v_get (fence_key pair_id) s with
  | None => Ok 0
  | Some v => ok_or (parse_i64 v) "GET fence"
  end.
End Lock.

(** ** Backoff *)

Lemma backoff_range (attempt : nat) (random b : Z) :
  BACKOFF_MS !! (attempt `min` (length BACKOFF_MS - 1))%nat = Some b -> 0 < b ->
  b <= backoff_ms attempt random <= b + b / 2.
Proof.
  intros Hb Hpos. unfold backoff_ms. rewrite Hb. cbn. unfold id.
  assert (0 <= b / 2) by (apply Z.div_pos; lia).
  pose proof (Z.mod_pos_bound random (b / 2 + 1) ltac:(lia)). lia.
Qed.

Lemma sumZ_between (f lo hi : nat -> Z) (l : list nat) :
  (forall k, lo k <= f k <= hi k) -> sumZ (lo <$> l) <= sumZ (f <$> l) <= sumZ (hi <$> l).
Proof.
  intros H. unfold sumZ. induction l as [| k l IH]; cbn; [lia |]. specialize (H k). lia.
Qed.

Definition base_ms (k : nat) : Z := default 0 (BACKOFF_MS !! (k `min` (length BACKOFF_MS - 1))%nat).

Lemma base_ms_some (k : nat) :
  BACKOFF_MS !! (k `min` (length BACKOFF_MS - 1))%nat = Some (base_ms k) /\ 0 < base_ms k.
Proof.
  unfold base_ms. cbn [length BACKOFF_MS Nat.sub].
  do 7 (destruct k as [| k]; [split; [reflexivity | cbn; lia] |]).
  rewrite Nat.min_r by lia. split; [reflexivity | cbn; lia].
Qed.

(** The waits of one acquisition take between 11.19 and 16.785 seconds in
    total, whatever jitter is drawn. *)
Theorem backoff_bounds (random : nat -> Z) :
  11190 <= sumZ ((fun k => backoff_ms k (random k)) <$> seq 0 MAX_RETRIES) <= 16785.
Proof.
  pose proof (sumZ_between (fun k => backoff_ms k (random k)) base_ms (fun k => base_ms k + base_ms k / 2)
                (seq 0 MAX_RETRIES)) as H.
  destruct H as [H1 H2].
  - intros k. destruct (base_ms_some k) as [Hb Hp]. by apply backoff_range.
  - replace (sumZ (base_ms <$> seq 0 MAX_RETRIES)) with 11190 in H1 by (vm_compute; reflexivity).
    assert (sumZ ((fun k => base_ms k + base_ms k / 2) <$> seq 0 MAX_RETRIES) <= 16785) as H3
      by (vm_compute; congruence).
    lia.
Qed.

Section LockProps.
Context `{V : Valkey, VL : !ValkeyLaws V}.
Context (pair_id : string).

Lemma lock_fence_differ : lock_key pair_id <> fence_key pair_id.
Proof.
  unfold lock_key, fence_key. intros H%str_app_inj.
  assert (":lock" = ":fence") as E; [by eapply str_app_inj | discriminate].
Qed.

(** The lock key holds a string or nothing. *)
Definition lock_cell (s : kv) : Prop :=
  hashes s !! lock_key pair_id = None /\ zsets s !! lock_key pair_id = None /\
  sets s !! lock_key pair_id = None /\ lists s !! lock_key pair_id = None.

Lemma lock_exists (s : kv) :
  lock_cell s -> kv_exists s (lock_key pair_id) = bool_decide (is_Some (strs s !! lock_key pair_id)).
Proof.
  intros (E1 & E2 & E3 & E4). unfold kv_exists. rewrite E1, E2, E3, E4. cbn.
  by destruct (bool_decide (is_Some (strs s !! lock_key pair_id))).
Qed.

(** The fence counts the acquisitions so far. *)
Definition fence_is (s : kv) (n : Z) : Prop := incr_cell (strs s !! fence_key pair_id) 1 = Ok (n + 1).

Lemma try_acquire_free (worker : string) (n : Z) (s : store) :
  lock_cell (view s) -> strs (view s) !! lock_key pair_id = None ->
  fence_is (view s) n -> 0 <= n < i64_max - 1 ->
  exists s', try_acquire pair_id worker s = (s', Some (LockGuard.mk pair_id worker (n + 1) false)) /\
    lock_cell (view s') /\ strs (view s') !! lock_key pair_id = Some worker /\ fence_is (view s') (n + 1).
Proof.
  intros Hc Hl Hf Hn. unfold try_acquire.
  pose proof (set_nx_ex_view (lock_key pair_id) worker LOCK_TTL_SECS s) as Hv.
  pose proof (set_nx_ex_reply (lock_key pair_id) worker LOCK_TTL_SECS s) as Hr.
  unfold kv_set_nx_ex in Hv, Hr. rewrite (lock_exists _ Hc), Hl in Hv, Hr.
  rewrite bool_decide_eq_false_2 in Hv, Hr by (intros [? ?]; done). cbn [fst snd] in Hv, Hr.
  destruct (v_set_nx_ex _ _ _ s) as [s1 b]. cbn [fst snd] in *. subst b.
  pose proof (incrby_view (fence_key pair_id) 1 s1) as Hv2.
  pose proof (incrby_reply (fence_key pair_id) 1 s1) as Hr2.
  unfold kv_incrby in Hv2, Hr2.
  assert (strs (view s1) !! fence_key pair_id = strs (view s) !! fence_key pair_id) as Hfs.
  { rewrite Hv. cbn. by rewrite lookup_insert_ne by apply lock_fence_differ. }
  rewrite Hfs in Hv2, Hr2. unfold fence_is in Hf. rewrite Hf in Hv2, Hr2. cbn [fst snd] in *.
  destruct (v_incrby _ _ s1) as [s2 r2]. cbn [fst snd] in *. subst r2.
  exists s2. split; [done |]. split; [| split].
  - unfold lock_cell in *. by rewrite Hv2, Hv.
  - rewrite Hv2. cbn. rewrite lookup_insert_ne by (intros E; by apply lock_fence_differ).
    rewrite Hv. cbn. by rewrite lookup_insert_eq.
  - unfold fence_is. rewrite Hv2. cbn. rewrite lookup_insert_eq.
    apply incr_cell_ok; apply in_i64_spec; unfold i64_min, i64_max in *; lia.
Qed.

Lemma try_acquire_held (worker other : string) (s : store) :
  lock_cell (view s) -> strs (view s) !! lock_key pair_id = Some other ->
  (try_acquire pair_id worker s).2 = None /\ view (try_acquire pair_id worker s).1 = view s.
Proof.
  intros Hc Hl. unfold try_acquire.
  pose proof (set_nx_ex_view (lock_key pair_id) worker LOCK_TTL_SECS s) as Hv.
  pose proof (set_nx_ex_reply (lock_key pair_id) worker LOCK_TTL_SECS s) as Hr.
  unfold kv_set_nx_ex in Hv, Hr. rewrite (lock_exists _ Hc), Hl in Hv, Hr.
  rewrite bool_decide_eq_true_2 in Hv, Hr by eauto. cbn [fst snd] in *.
  destruct (v_set_nx_ex _ _ _ s) as [s1 b]. cbn [fst snd] in *. by subst b.
Qed.

Lemma release_view (g : LockGuard.t) (s : store) :
  LockGuard.pair_id g = pair_id ->
  view (release g s) =
    if decide (strs (view s) !! lock_key pair_id = Some (LockGuard.worker_id g))
    then kv_del (lock_key pair_id) (view s) else view s.
Proof.
  intros Hp. unfold release, release_lock. rewrite Hp, get_view.
  case_decide; cbn [fst]; [apply del_view | done].
Qed.

(** ** The system *)

Record sys : Type := mk_sys { st : store; held : list LockGuard.t }.

Inductive step : sys -> sys -> Prop :=
| step_acquire worker s s' gs g :
    try_acquire pair_id worker s = (s', Some g) -> step (mk_sys s gs) (mk_sys s' (g :: gs))
| step_busy worker s s' gs :
    try_acquire pair_id worker s = (s', None) -> step (mk_sys s gs) (mk_sys s' gs)
| step_release s gs1 g gs2 :
    step (mk_sys s (gs1 ++ g :: gs2)) (mk_sys (release g s) (gs1 ++ gs2)).

(** The server's expiry of the lock. *)
Inductive expire : sys -> sys -> Prop :=
| expire_lock s gs : expire (mk_sys s gs) (mk_sys (v_del (lock_key pair_id) s) gs).

(** [n] steps, with or without expiry. *)
Inductive steps (R : sys -> sys -> Prop) : nat -> sys -> sys -> Prop :=
| steps_refl x : steps R 0 x x
| steps_trans n x y z : R x y -> steps R n y z -> steps R (S n) x z.

Definition idle (s : store) : Prop :=
  lock_cell (view s) /\ strs (view s) !! lock_key pair_id = None /\ fence_is (view s) 0.

(** Without expiry: the lock is free and nobody holds it, or one guard does. *)
Record exclusive (n : Z) (x : sys) : Prop := {
  ex_cell : lock_cell (view (st x));
  ex_fence : fence_is (view (st x)) n;
  ex_held : match held x with
            | [] => strs (view (st x)) !! lock_key pair_id = None
            | [g] => LockGuard.pair_id g = pair_id /\
                     strs (view (st x)) !! lock_key pair_id = Some (LockGuard.worker_id g)
            | _ => False
            end;
}.

Lemma lock_cell_del (s : kv) : lock_cell s -> lock_cell (kv_del (lock_key pair_id) s).
Proof. intros _. unfold lock_cell. cbn. by rewrite !lookup_delete_eq. Qed.

Lemma fence_is_del (s : kv) (n : Z) : fence_is s n -> fence_is (kv_del (lock_key pair_id) s) n.
Proof. unfold fence_is. by rewrite strs_del_ne by apply lock_fence_differ. Qed.

Lemma exclusive_step (n : Z) (x y : sys) :
  exclusive n x -> 0 <= n < i64_max - 1 -> step x y -> exists n', n <= n' <= n + 1 /\ exclusive n' y.
Proof.
  intros [Hc Hf Hh] Hn Hs. destruct Hs as [w s s' gs g Ht | w s s' gs Ht | s gs1 g gs2]; cbn in *.
  - destruct gs as [| g0 [|]]; [| | done].
    + destruct (try_acquire_free w n s Hc Hh Hf Hn) as (s2 & E & Hc2 & Hl2 & Hf2).
      rewrite Ht in E. injection E as -> ->. exists (n + 1). split; [lia |]. by constructor.
    + destruct Hh as [_ Hl]. destruct (try_acquire_held w _ s Hc Hl) as [E _]. by rewrite Ht in E.
  - assert (view s' = view s) as E.
    { destruct gs as [| g0 [|]]; [| | done].
      - destruct (try_acquire_free w n s Hc Hh Hf Hn) as (s2 & E & _). by rewrite Ht in E.
      - destruct Hh as [_ Hl]. destruct (try_acquire_held w _ s Hc Hl) as [_ E]. by rewrite Ht in E. }
    exists n. split; [lia |]. constructor; cbn; by rewrite E.
  - destruct gs1 as [| g1 gs1]; cbn in Hh; [| by destruct gs1 as [|]; cbn in Hh; destruct gs2].
    destruct gs2; [| done]. destruct Hh as [Hp Hl]. exists n. split; [lia |].
    constructor; cbn; rewrite release_view, decide_True by done.
    + by apply lock_cell_del.
    + by apply fence_is_del.
    + cbn. by rewrite lookup_delete_eq.
Qed.

(** C32: mutual exclusion: as long as the lock does not expire, at most one guard
    is held at any time, whatever the workers do. *)
Theorem lock_exclusive (k : nat) (s : store) (y : sys) :
  idle s -> Z.of_nat k < i64_max - 1 -> steps step k (mk_sys s []) y -> (length (held y) <= 1)%nat.
Proof.
  intros (Hc & Hl & Hf) Hk Hst.
  assert (forall m x, exclusive m x -> 0 <= m -> m + Z.of_nat k < i64_max - 1 -> steps step k x y ->
            exists m', exclusive m' y) as H.
  { clear -VL. intros m x. revert m x. induction k as [| k IH]; intros m x Hx Hm Hb Hs; inversion Hs; subst.
    - eauto.
    - destruct (exclusive_step m x y0 Hx ltac:(lia) ltac:(done)) as (m1 & Hm1 & Hy0).
      apply (IH m1 y0 Hy0); [lia | lia | done]. }
  destruct (H 0 (mk_sys s [])) as [m' [_ _ Hh]]; [by constructor | lia | lia | done |].
  destruct (held y) as [| g [|]]; cbn; [lia | lia | done].
Qed.

(** The fence invariant survives expiry. *)
Record fenced (n : Z) (x : sys) : Prop := {
  fe_cell : lock_cell (view (st x));
  fe_fence : fence_is (view (st x)) n;
  fe_pairs : Forall (fun g => LockGuard.pair_id g = pair_id) (held x);
  fe_sorted : StronglySorted (fun a b => b < a) (LockGuard.fence_token <$> held x);
  fe_bound : Forall (fun t => t <= n) (LockGuard.fence_token <$> held x);
}.

Definition any_step (x y : sys) : Prop := step x y \/ expire x y.

Lemma fenced_view (n : Z) (s s' : store) (gs : list LockGuard.t) :
  view s' = view s -> fenced n (mk_sys s gs) -> fenced n (mk_sys s' gs).
Proof. intros E [H1 H2 H3 H4 H5]. constructor; cbn in *; rewrite ?E; done. Qed.

Lemma fenced_del (n : Z) (s s' : store) (gs : list LockGuard.t) :
  view s' = kv_del (lock_key pair_id) (view s) -> fenced n (mk_sys s gs) -> fenced n (mk_sys s' gs).
Proof.
  intros E [H1 H2 H3 H4 H5]. constructor; cbn in *; rewrite ?E; try done.
  - by apply lock_cell_del.
  - by apply fence_is_del.
Qed.

Lemma fenced_less (n : Z) (s : store) (gs gs' : list LockGuard.t) :
  gs' `sublist_of` gs -> fenced n (mk_sys s gs) -> fenced n (mk_sys s gs').
Proof.
  intros Hsub [H1 H2 H3 H4 H5]. constructor; cbn in *; try done.
  - by eapply sublist_Forall.
  - eapply sublist_StronglySorted; [by apply sublist_map | exact H4].
  - eapply sublist_Forall; [by apply sublist_map | exact H5].
Qed.

Lemma fenced_step (n : Z) (x y : sys) :
  fenced n x -> 0 <= n < i64_max - 1 -> any_step x y -> exists n', n <= n' <= n + 1 /\ fenced n' y.
Proof.
  intros Hx Hn [Hs | Hs].
  - destruct Hs as [w s s' gs g Ht | w s s' gs Ht | s gs1 g gs2].
    + destruct (strs (view s) !! lock_key pair_id) as [o |] eqn:Hl.
      { destruct (try_acquire_held w o s (fe_cell _ _ Hx) Hl) as [E _]. by rewrite Ht in E. }
      destruct (try_acquire_free w n s (fe_cell _ _ Hx) Hl (fe_fence _ _ Hx) Hn) as (s2 & E & Hc2 & _ & Hf2).
      rewrite Ht in E. injection E as -> ->. exists (n + 1). split; [lia |].
      destruct Hx as [_ _ H3 H4 H5]. constructor; cbn in *; try done.
      * by constructor.
      * constructor; [done |]. eapply Forall_impl; [exact H5 |]. cbn. lia.
      * constructor; [lia |]. eapply Forall_impl; [exact H5 |]. cbn. lia.
    + exists n. split; [lia |]. eapply fenced_view; [| exact Hx].
      destruct (strs (view s) !! lock_key pair_id) as [o |] eqn:Hl.
      * destruct (try_acquire_held w o s (fe_cell _ _ Hx) Hl) as [_ E]. by rewrite Ht in E.
      * destruct (try_acquire_free w n s (fe_cell _ _ Hx) Hl (fe_fence _ _ Hx) Hn) as (s2 & E & _).
        by rewrite Ht in E.
    + exists n. split; [lia |].
      assert (LockGuard.pair_id g = pair_id) as Hp.
      { pose proof (fe_pairs _ _ Hx) as Hf. cbn in Hf. apply Forall_app in Hf as [_ Hf].
        by apply Forall_cons in Hf as [? _]. }
      pose proof (release_view g s Hp) as Hv.
      apply (fenced_less n s (gs1 ++ g :: gs2) (gs1 ++ gs2)) in Hx; [| by apply sublist_app, sublist_cons].
      case_decide; [by eapply fenced_del | by eapply fenced_view].
  - destruct Hs as [s gs]. exists n. split; [lia |]. eapply fenced_del; [apply del_view | done].
Qed.

(** Fence tokens: even when locks expire under their holders, the guards
    held have strictly decreasing tokens from the newest to the oldest, so a
    stale holder is recognisable by its token. *)
Theorem fence_tokens_decrease (k : nat) (s : store) (y : sys) :
  idle s -> Z.of_nat k < i64_max - 1 -> steps any_step k (mk_sys s []) y ->
  StronglySorted (fun a b => b < a) (LockGuard.fence_token <$> held y).
Proof.
  intros (Hc & Hl & Hf) Hk Hst.
  assert (forall m x, fenced m x -> 0 <= m -> m + Z.of_nat k < i64_max - 1 -> steps any_step k x y ->
            exists m', fenced m' y) as H.
  { clear -VL. intros m x. revert m x. induction k as [| k IH]; intros m x Hx Hm Hb Hs; inversion Hs; subst.
    - eauto.
    - destruct (fenced_step m x y0 Hx ltac:(lia) ltac:(done)) as (m1 & Hm1 & Hy0).
      apply (IH m1 y0 Hy0); [lia | lia | done]. }
  destruct (H 0 (mk_sys s [])) as [m' Hm']; [constructor; cbn; try done; constructor | lia | lia | done |].
  by apply (fe_sorted _ _ Hm').
Qed.

(** ** Acquisition *)

(** The lock is held at every one of the remaining attempts. *)
Fixpoint held_throughout (env : nat -> store -> store) (worker : string) (attempt fuel : nat)
    (s : store) : Prop :=
  match fuel with
  | O => True
  | S fuel =>
      strs (view s) !! lock_key pair_id <> None /\
      held_throughout env worker (S attempt) fuel (env attempt (try_acquire pair_id worker s).1)
  end.

Lemma try_acquire_some (worker : string) (s : store) :
  lock_cell (view s) -> strs (view s) !! lock_key pair_id = None ->
  exists s' g, try_acquire pair_id worker s = (s', Some g) /\
    LockGuard.worker_id g = worker /\ strs (view s') !! lock_key pair_id = Some worker.
Proof.
  intros Hc Hl. unfold try_acquire.
  pose proof (set_nx_ex_view (lock_key pair_id) worker LOCK_TTL_SECS s) as Hv.
  pose proof (set_nx_ex_reply (lock_key pair_id) worker LOCK_TTL_SECS s) as Hr.
  unfold kv_set_nx_ex in Hv, Hr. rewrite (lock_exists _ Hc), Hl in Hv, Hr.
  rewrite bool_decide_eq_false_2 in Hv, Hr by (intros [? ?]; done). cbn [fst snd] in Hv, Hr.
  destruct (v_set_nx_ex _ _ _ s) as [s1 b]. cbn [fst snd] in *. subst b.
  pose proof (incrby_view (fence_key pair_id) 1 s1) as Hv2.
  destruct (v_incrby _ _ s1) as [s2 r2]. cbn [fst snd] in *.
  eexists s2, _. split; [done |]. split; [done |]. rewrite Hv2. unfold kv_incrby.
  assert (strs (view s1) !! lock_key pair_id = Some worker) as Hs1
    by (rewrite Hv; cbn; by rewrite lookup_insert_eq).
  destruct (incr_cell _ _); cbn; [| done].
  by rewrite lookup_insert_ne by (intros E; by apply lock_fence_differ).
Qed.

(** [acquire_lock] either obtains the lock, which then names the worker, or
    found it held at each of its twenty attempts; it always terminates. *)
Theorem acquire_lock_spec (env : nat -> store -> store) (worker : string) (s : store) :
  (forall k s, lock_cell (view s) -> lock_cell (view (env k s))) -> lock_cell (view s) ->
  let '(s', r) := acquire_lock env pair_id worker s in
  match r with
  | Ok g => LockGuard.worker_id g = worker /\ strs (view s') !! lock_key pair_id = Some worker
  | Err _ => held_throughout env worker 0 MAX_RETRIES s
  end.
Proof.
  intros Henv. unfold acquire_lock. generalize 0%nat as attempt.
  generalize MAX_RETRIES as fuel. intros fuel. revert s.
  induction fuel as [| fuel IH]; intros s attempt Hc; [done |]. cbn [acquire_attempts held_throughout].
  destruct (strs (view s) !! lock_key pair_id) as [o |] eqn:Hl.
  - destruct (try_acquire_held worker o s Hc Hl) as [E Ev].
    destruct (try_acquire pair_id worker s) as [s1 r1]. cbn [fst snd] in *. subst r1.
    specialize (IH (env attempt s1) (S attempt)).
    assert (lock_cell (view (env attempt s1))) as Hc1 by (apply Henv; by rewrite Ev).
    specialize (IH Hc1). destruct (acquire_attempts _ _ _ _ _ _) as [s' [g | e]]; [done |].
    split; [done | exact IH].
  - destruct (try_acquire_some worker s Hc Hl) as (s1 & g & -> & Hg & Hs). done.
Qed.
End LockProps.

Module LockExamples.
Import RefValkey.

Lemma idle_empty : idle "P" empty_store.
Proof. split; [split; [| split; [| split]]; reflexivity |]. split; reflexivity. Qed.

(** One worker takes the lock, and a second one finds it held. *)
Definition locked : @store ref_valkey := (try_acquire "P" "w1" empty_store).1.
Definition refused : @store ref_valkey := (try_acquire "P" "w2" locked).1.
Definition guard : LockGuard.t := LockGuard.mk "P" "w1" 1 false.

Lemma two_workers : steps (step "P") 2 (mk_sys empty_store []) (mk_sys refused [guard]).
Proof.
  apply (steps_trans _ _ _ (mk_sys locked [guard])); [by apply (step_acquire "P" "w1") |].
  apply (steps_trans _ _ _ (mk_sys refused [guard])); [by apply (step_busy "P" "w2") | apply steps_refl].
Qed.

Lemma lock_exclusive_witness : (length (held (mk_sys refused [guard])) <= 1)%nat.
Proof.
  apply (lock_exclusive "P" 2 empty_store (mk_sys refused [guard]) idle_empty); [| exact two_workers].
  unfold i64_max. lia.
Defined.

Lemma fence_tokens_decrease_witness :
  StronglySorted (fun a b => b < a) (LockGuard.fence_token <$> held (mk_sys locked [guard])).
Proof.
  apply (fence_tokens_decrease "P" 1 empty_store (mk_sys locked [guard]) idle_empty); [unfold i64_max; lia |].
  apply (steps_trans _ _ _ (mk_sys locked [guard])); [| apply steps_refl].
  left. by apply (step_acquire "P" "w1").
Defined.

Lemma acquire_lock_spec_witness :
  strs (view (acquire_lock (fun _ s => s) "P" "w1" empty_store).1) !! lock_key "P" = Some "w1".
Proof.
  pose proof (acquire_lock_spec "P" (fun _ s => s) "w1" empty_store (fun _ _ H => H) (proj1 idle_empty)) as H.
  destruct (acquire_lock (fun _ s => s) "P" "w1" empty_store) as [s' r] eqn:E.
  assert (is_ok r = true) as Hr by (injection E as _ <-; vm_compute; reflexivity).
  destruct r; [apply H | discriminate].
Defined.

(** A release after expiry by the same worker deletes the lock the worker has
    taken since: the fence is ignored. *)
Lemma stale_release_deletes :
  let '(s1, g1) := try_acquire "P" "w" empty_store in
  let '(s2, g2) := try_acquire "P" "w" (v_del (lock_key "P") s1) in
  LockGuard.fence_token <$> g1 = Some 1 /\ LockGuard.fence_token <$> g2 = Some 2 /\
  is_locked "P" s2 = true /\
  is_locked "P" (release_lock "P" "w" 1 s2).1 = false.
Proof. vm_compute. done. Qed.
End LockExamples.
