(* ===== verification/Streams.v ===== *)
(** * Stream messages ([crates/shared/src/streams.rs])

    The replies of XREADGROUP are values of the redis crate; this file holds the
    parser that turns a reply into messages, the lossy UTF-8 decoding it applies
    to identifiers, and the publisher and consumer around the stream commands. *)

From S2P Require Import Prelude Numbers.

Open Scope Z_scope.

(** The values of the redis crate that the parser tells apart; [OtherValue]
    stands for every other variant.  Bytes are the characters of a [string]. *)
Inductive Value : Type :=
| Nil
| BulkString (b : string)
| SimpleString (s : string)
| Array (vs : list Value)
| OtherValue.

Module StreamMessage.
Record t : Type := mk { id : string; data : string }.
End StreamMessage.

(** ** [String::from_utf8_lossy] *)

Definition byte_in (lo hi : N) (a : ascii) : bool := (lo <=? N_of_ascii a)%N && (N_of_ascii a <=? hi)%N.

Definition continuation : ascii -> bool := byte_in 128 191.

(** What may follow a first byte; [None] when the byte starts no sequence. *)
Definition followers (a : ascii) : option (list (ascii -> bool)) :=
  if byte_in 0 127 a then Some []
  else if byte_in 194 223 a then Some [continuation]
  else if byte_in 224 224 a then Some [byte_in 160 191; continuation]
  else if byte_in 237 237 a then Some [byte_in 128 159; continuation]
  else if byte_in 225 239 a then Some [continuation; continuation]
  else if byte_in 240 240 a then Some [byte_in 144 191; continuation; continuation]
  else if byte_in 241 243 a then Some [continuation; continuation; continuation]
  else if byte_in 244 244 a then Some [byte_in 128 143; continuation; continuation]
  else None.

(** The longest prefix that passes the tests, the rest, and whether all passed. *)
Fixpoint take_followers (tests : list (ascii -> bool)) (s : string) : string * string * bool :=
  match tests, s with
  | [], _ => (EmptyString, s, true)
  | p :: ps, String a r =>
      if p a then let '(t, rest, ok) := take_followers ps r in (String a t, rest, ok)
      else (EmptyString, s, false)
  | _ :: _, EmptyString => (EmptyString, EmptyString, false)
  end.

(** U+FFFD *)
Definition replacement : string :=
  String (ascii_of_N 239) (String (ascii_of_N 191) (String (ascii_of_N 189) EmptyString)).

Fixpoint utf8_lossy (fuel : nat) (s : string) : string :=
  match fuel, s with
  | S fuel, String a r =>
      match followers a with
      | None => replacement +:+ utf8_lossy fuel r
      | Some tests =>
          let '(t, rest, ok) := take_followers tests r in
          (if ok then String a t else replacement) +:+ utf8_lossy fuel rest
      end
  | _, _ => EmptyString
  end.

Definition from_utf8_lossy (b : string) : string := utf8_lossy (String.length b) b.

Arguments from_utf8_lossy : simpl never.

(** ** The reply parser *)

Definition extract_string (v : Value) : result string :=
  match v with
  | BulkString b => Ok (from_utf8_lossy b)
  | SimpleString s => Ok s
  | _ => Err "expected string"
  end.

(** The value of the first field named [d]; a trailing unpaired field is ignored. *)
Fixpoint field_d (pairs : list Value) : result string :=
  match pairs with
  | f :: v :: rest =>
      if decide (match extract_string f with Ok s => s | Err _ => EmptyString end = "d")
      then match v with
           | BulkString b => Ok b
           | _ => Err "expected bulk string for field 'd'"
           end
      else field_d rest
  | _ => Err "field 'd' not found in stream message"
  end.

Definition extract_field_data (v : Value) : result string :=
  match v with
  | Array pairs => field_d pairs
  | _ => Err "expected array of field-value pairs"
  end.

(** The messages of one stream: an entry that is no array of two is skipped, a
    malformed one fails the whole reply. *)
Fixpoint parse_messages (messages : list Value) : result (list StreamMessage.t) :=
  match messages with
  | [] => Ok []
  | Array (i :: fields :: _) :: rest =>
      id ← extract_string i;
      data ← extract_field_data fields;
      ms ← parse_messages rest;
      Ok (StreamMessage.mk id data :: ms)
  | _ :: rest => parse_messages rest
  end.

Fixpoint parse_streams (streams : list Value) : result (list StreamMessage.t) :=
  match streams with
  | [] => Ok []
  | Array (_ :: Array messages :: _) :: rest =>
      ms ← parse_messages messages;
      ms' ← parse_streams rest;
      Ok (ms ++ ms')
  | _ :: rest => parse_streams rest
  end.

Definition parse_stream_reply (reply : Value) : result (list StreamMessage.t) :=
  match reply with
  | Nil => Ok []
  | Array streams => parse_streams streams
  | _ => Err "unexpected XREADGROUP reply type"
  end.

(** ** Publisher and consumer *)

(** The stream commands of the server; a reply is a value or an error text. *)
Class StreamServer : Type := {
  streams : Type;
  xgroup_create : string -> string -> streams -> streams * result unit;
  xadd : string -> list (string * string) -> streams -> streams * result string;
  xreadgroup : string -> string -> string -> nat -> streams -> streams * result Value;
  xack : string -> string -> string -> streams -> streams * result Z;
}.

(** [rmp_serde] on the values of a type. *)
Class MsgPack (T : Type) : Type := {
  to_vec_named : T -> result string;
  from_slice : string -> result T;
}.

Section Streams.
Context `{StreamServer}.

(** A group that exists already is no error. *)
Definition create_consumer_group (stream group : string) (s : streams) : streams * result unit :=
  match xgroup_create stream group s with
  | (s, Ok _) => (s, Ok tt)
  | (s, Err e) => (s, if str_contains "BUSYGROUP" e then Ok tt else Err "XGROUP CREATE")
  end.

Definition publish_bytes (stream data : string) (s : streams) : streams * result string :=
  xadd stream [("d", data)] s.

Definition publish {T} `{MsgPack T} (stream : string) (value : T) (s : streams) : streams * result string :=
  match to_vec_named value with
  | Ok bytes => publish_bytes stream bytes s
  | Err e => (s, Err "msgpack encode")
  end.

Definition consume (stream group consumer : string) (count : nat) (s : streams)
    : streams * result (list StreamMessage.t) :=
  match xreadgroup stream group consumer count s with
  | (s, Ok reply) => (s, parse_stream_reply reply)
  | (s, Err e) => (s, Err "XREADGROUP")
  end.

Definition deserialize {T} `{MsgPack T} (msg : StreamMessage.t) : result T :=
  match from_slice (StreamMessage.data msg) with
  | Ok v => Ok v
  | Err _ => Err "msgpack decode"
  end.

Definition ack (stream group id : string) (s : streams) : streams * result unit :=
  match xack stream group id s with
  | (s, Ok _) => (s, Ok tt)
  | (s, Err _) => (s, Err "XACK")
  end.
End Streams.

(** ** Properties *)

Fixpoint ascii_only (s : string) : Prop :=
  match s with
  | EmptyString => True
  | String a r => (N_of_ascii a < 128)%N /\ ascii_only r
  end.

Lemma from_utf8_lossy_ascii (s : string) : ascii_only s -> from_utf8_lossy s = s.
Proof.
  unfold from_utf8_lossy. induction s as [| a r IH]; [done |]. intros [Ha Hr].
  cbn [String.length utf8_lossy]. unfold followers, byte_in at 1.
  rewrite (proj2 (N.leb_le 0 _)), (proj2 (N.leb_le _ 127)) by lia. cbn. by rewrite str_app_cons, str_app_nil, IH.
Qed.

(** The decoding loop always finishes within its fuel: more changes nothing. *)
Lemma take_followers_length (tests : list (ascii -> bool)) (s : string) :
  (String.length (take_followers tests s).1.2 <= String.length s)%nat.
Proof.
  revert s. induction tests as [| p ps IH]; intros [| a r]; cbn; try lia.
  case_cond; cbn; [| lia]. specialize (IH r). destruct (take_followers ps r) as [[t rest] ok]. cbn in *. lia.
Qed.

Lemma utf8_lossy_fuel (fuel : nat) (s : string) :
  (String.length s <= fuel)%nat -> utf8_lossy fuel s = from_utf8_lossy s.
Proof.
  unfold from_utf8_lossy.
  assert (forall n m s, (String.length s <= n)%nat -> (String.length s <= m)%nat ->
            utf8_lossy n s = utf8_lossy m s) as H; [| intros; apply H; lia].
  clear. induction n as [| n IH]; intros [| m] [| a r] Hn Hm; cbn in Hn, Hm; try done; try lia.
  cbn. destruct (followers a) as [tests |]; [| by rewrite (IH m) by lia].
  pose proof (take_followers_length tests r) as Hl.
  destruct (take_followers tests r) as [[t rest] ok]; cbn in Hl. by rewrite (IH m) by lia.
Qed.

(** The fields of an entry as the server sends them. *)
Definition fields_value (fields : list (string * string)) : Value :=
  Array (flat_map (fun fv => [BulkString fv.1; BulkString fv.2]) fields).

Definition entry_value (e : string * list (string * string)) : Value :=
  Array [BulkString e.1; fields_value e.2].

(** The reply to XREADGROUP on one stream. *)
Definition stream_reply (stream : string) (entries : list (string * list (string * string))) : Value :=
  Array [Array [BulkString stream; Array (entry_value <$> entries)]].

(** The data a publisher stored: its first field [d]. *)
Fixpoint data_of (fields : list (string * string)) : option string :=
  match fields with
  | [] => None
  | (f, v) :: rest => if decide (f = "d") then Some v else data_of rest
  end.

Lemma field_d_spec (fields : list (string * string)) :
  Forall (fun fv => ascii_only fv.1) fields ->
  field_d (flat_map (fun fv => [BulkString fv.1; BulkString fv.2]) fields) =
  ok_or (data_of fields) "field 'd' not found in stream message".
Proof.
  induction 1 as [| [f v] rest Hf _ IH]; [done |]. cbn in *.
  rewrite from_utf8_lossy_ascii by done. by case_decide.
Qed.

Lemma parse_entries (entries : list (string * list (string * string))) (data : list string) :
  Forall2 (fun e d => ascii_only e.1 /\ Forall (fun fv => ascii_only fv.1) e.2 /\ data_of e.2 = Some d)
    entries data ->
  parse_messages (entry_value <$> entries) =
  Ok (zip_with (fun e d => StreamMessage.mk e.1 d) entries data).
Proof.
  induction 1 as [| [i fields] d es ds (Hi & Hf & Hd) _ IH]; [done |]. cbn in *.
  rewrite from_utf8_lossy_ascii by done. cbn [mbind result_bind].
  rewrite field_d_spec, Hd by done. cbn [mbind result_bind ok_or]. rewrite IH. done.
Qed.

(** Parsing the reply of XREADGROUP gives back the identifier and the [d]
    field of every entry, in order, whatever other fields the entries have. *)
Theorem parse_stream_reply_entries (stream : string) (entries : list (string * list (string * string)))
    (data : list string) :
  Forall2 (fun e d => ascii_only e.1 /\ Forall (fun fv => ascii_only fv.1) e.2 /\ data_of e.2 = Some d)
    entries data ->
  parse_stream_reply (stream_reply stream entries) =
  Ok (zip_with (fun e d => StreamMessage.mk e.1 d) entries data).
Proof.
  intros H. cbn. rewrite (parse_entries _ _ H). cbn. by rewrite app_nil_r.
Qed.

Module StreamExamples.
(** A byte that is no UTF-8 becomes U+FFFD and decoding resumes after it. *)
Example lossy_resumes :
  from_utf8_lossy (String "a" (String (ascii_of_N 225) (String (ascii_of_N 128) (String "b" EmptyString)))) =
  "a" +:+ replacement +:+ "b".
Proof. reflexivity. Qed.

Lemma parse_stream_reply_entries_witness :
  parse_stream_reply (stream_reply "orders" [("1-0", [("v", "1"); ("d", "payload")])]) =
  Ok [StreamMessage.mk "1-0" "payload"].
Proof.
  apply (parse_stream_reply_entries "orders" [("1-0", [("v", "1"); ("d", "payload")])] ["payload"]).
  repeat constructor.
Defined.
End StreamExamples.
