(* ===== verification/Metrics.v ===== *)
(** * Metrics ([crates/shared/src/metrics.rs], [MetricsBatch] of
    [crates/api/src/worker.rs])

    Sample lists and counters in Valkey, the percentiles computed from them,
    and the in-memory batch the worker accumulates and flushes. *)

From S2P Require Import Prelude Numbers Valkey.

Open Scope Z_scope.

Definition SAMPLE_CAP : nat := 1000.

Definition metric_key (pair_id metric_type : string) : string :=
  "metrics:" +:+ pair_id +:+ ":" +:+ metric_type.

Section Helpers.
Context `{V : Valkey}.

Definition push_sample (pair_id metric_type : string) (ms : Z) (s : store) : store :=
  let key := metric_key pair_id metric_type in
  v_ltrim key SAMPLE_CAP (v_lpush key (Z_to_string ms) s).

Definition record_match_latency (pair_id : string) (ms : Z) (s : store) : store :=
  push_sample pair_id "latency" ms s.

Definition record_lock_wait (pair_id : string) (ms : Z) (s : store) : store :=
  push_sample pair_id "lock_wait" ms s.

(** [count] is a [u64]: the server refuses an increment beyond [i64]. *)
Definition incrby_u64 (key : string) (count : Z) (s : store) : store * result Z :=
  if in_i64 count then v_incrby key count s else (s, Err not_an_integer).

Definition increment_order_count_by (pair_id : string) (count : Z) (s : store) : store * result Z :=
  if count =? 0 then (s, Ok 0) else incrby_u64 (metric_key pair_id "orders") count s.

Definition increment_order_count (pair_id : string) (s : store) : store * result Z :=
  increment_order_count_by pair_id 1 s.

Definition increment_trade_count (pair_id : string) (count : Z) (s : store) : store * result Z :=
  if count =? 0 then (s, Ok 0) else incrby_u64 (metric_key pair_id "trades") count s.

Definition get_count (key : string) (s : store) : result Z :=
  match v_get key s with
  | None => Ok 0
  | Some t => ok_or (parse_i64 t) "GET"
  end.

Definition get_order_count (pair_id : string) (s : store) : result Z := get_count (metric_key pair_id "orders") s.
Definition get_trade_count (pair_id : string) (s : store) : result Z := get_count (metric_key pair_id "trades") s.

(** The callers ask for a positive number of samples. *)
Definition get_samples (pair_id metric_type : string) (count : positive) (s : store) : list Z :=
  omap parse_u64 (v_lrange (metric_key pair_id metric_type) (Pos.to_nat count) s).

Definition get_latency_samples (pair_id : string) (count : positive) (s : store) : list Z :=
  get_samples pair_id "latency" count s.

Definition get_lock_wait_samples (pair_id : string) (count : positive) (s : store) : list Z :=
  get_samples pair_id "lock_wait" count s.
End Helpers.

(** ** Percentiles *)

(** [((pct / 100.0) * (n as f64 - 1.0)).round() as usize], in f64. *)
Definition percentile_index (pct : Z) (n : nat) : nat :=
  let frac := f64_of_Q (pct # 100) in
  Z.to_nat (f64_round (f64_of_Q (frac * inject_Z (f64_of_Z (Z.of_nat n) - 1)))).

Definition compute_percentiles (samples : list Z) : Z * Z * Z :=
  match samples with
  | [] => (0, 0, 0)
  | _ =>
      let samples := merge_sort Z.le samples in
      let n := length samples in
      let percentile pct := f64_of_Z (nth (percentile_index pct n `min` (n - 1))%nat samples 0) in
      (percentile 50, percentile 95, percentile 99)
  end.

(** ** The batch of the worker *)

Definition PAIRS : list string := ["BTC-USDT"; "ETH-USDT"; "SOL-USDT"].

Module MetricsBatch.
(** Three lists of one entry per pair; the counters are [AtomicU64]. *)
Record t : Type := mk {
  order_counts : list Z;
  trade_counts : list Z;
  latency_samples : list (list Z);
}.

Definition new : t := mk [0; 0; 0] [0; 0; 0] [[]; []; []].

Definition pair_index (pair_id : string) : nat :=
  if decide (pair_id = "BTC-USDT") then 0
  else if decide (pair_id = "ETH-USDT") then 1
  else if decide (pair_id = "SOL-USDT") then 2
  else 0.

(** The oldest 500 samples go when there are more than 1000. *)
Definition push_latency (lua_ms : Z) (samples : list Z) : list Z :=
  let samples := samples ++ [lua_ms] in
  if decide (1000 < length samples)%nat then drop 500 samples else samples.

Definition record_order (pair_id : string) (trade_count : Z) (lua_ms : Z) (b : t) : t :=
  let idx := pair_index pair_id in
  mk (alter (fun c => wrap_u64 (c + 1)) idx (order_counts b))
     (if 0 <? trade_count then alter (fun c => wrap_u64 (c + trade_count)) idx (trade_counts b)
      else trade_counts b)
     (alter (push_latency lua_ms) idx (latency_samples b)).

Section Flush.
Context `{V : Valkey}.

(** One pair of [flush]: what was counted goes to the server. *)
Definition flush_pair (pair_id : string) (orders trades : Z) (samples : list Z) (s : store) : store :=
  let s := if 0 <? orders then (increment_order_count_by pair_id orders s).1 else s in
  let s := if 0 <? trades then (increment_trade_count pair_id trades s).1 else s in
  fold_left (fun s ms => record_match_latency pair_id ms s) samples s.

Fixpoint flush_pairs (i : nat) (pairs : list string) (b : t) (s : store) : t * store :=
  match pairs with
  | [] => (b, s)
  | pair_id :: pairs =>
      let orders := nth i (order_counts b) 0 in
      let trades := nth i (trade_counts b) 0 in
      let samples := nth i (latency_samples b) [] in
      let b := mk (<[i := 0]> (order_counts b)) (<[i := 0]> (trade_counts b))
                  (<[i := []]> (latency_samples b)) in
      flush_pairs (S i) pairs b (flush_pair pair_id orders trades samples s)
  end.

Definition flush (b : t) (s : store) : t * store := flush_pairs 0 PAIRS b s.
End Flush.
End MetricsBatch.

(** ** Percentiles: properties *)

(** Up to the 3000 samples the callers collect (1000 of each of three pairs) the
    f64 computation of the index is the exact rounding of [pct * (n - 1) / 100]. *)
Definition exact_index (pct : Z) (n : nat) : nat := Z.to_nat ((pct * (Z.of_nat n - 1) + 50) / 100).

Lemma percentile_index_exact (pct : Z) (n : nat) :
  pct ∈ [50; 95; 99] -> (1 <= n <= 3000)%nat -> percentile_index pct n = exact_index pct n.
Proof.
  intros Hp Hn.
  assert (forallb (fun pct => forallb (fun n => Nat.eqb (percentile_index pct n) (exact_index pct n)) (seq 1 3000))
            [50; 95; 99] = true) as H by (vm_compute; reflexivity).
  rewrite forallb_forall in H. specialize (H pct). rewrite <- list_elem_of_In in H.
  specialize (H Hp). rewrite forallb_forall in H. apply Nat.eqb_eq, H, in_seq. lia.
Qed.

Lemma exact_index_bound (pct : Z) (n : nat) : (1 <= n)%nat -> 0 <= pct <= 100 -> (exact_index pct n <= n - 1)%nat.
Proof.
  intros Hn Hp. unfold exact_index.
  assert ((pct * (Z.of_nat n - 1) + 50) / 100 <= Z.of_nat n - 1); [| lia].
  apply Z.lt_succ_r, Z.div_lt_upper_bound; nia.
Qed.

Lemma exact_index_mono (p q : Z) (n : nat) : (1 <= n)%nat -> p <= q -> (exact_index p n <= exact_index q n)%nat.
Proof.
  intros Hn Hpq. unfold exact_index.
  assert ((p * (Z.of_nat n - 1) + 50) / 100 <= (q * (Z.of_nat n - 1) + 50) / 100); [| lia].
  apply Z.div_le_mono; nia.
Qed.

(** Each percentile is the sample at the rounded rank of the sorted samples,
    computed in f64 without rounding error, and the three are ordered. *)
Theorem compute_percentiles_spec (samples : list Z) :
  (1 <= length samples <= 3000)%nat ->
  exists l a b c,
    Sorted Z.le l /\ l ≡ₚ samples /\
    l !! exact_index 50 (length samples) = Some a /\
    l !! exact_index 95 (length samples) = Some b /\
    l !! exact_index 99 (length samples) = Some c /\
    a <= b <= c /\ compute_percentiles samples = (f64_of_Z a, f64_of_Z b, f64_of_Z c).
Proof.
  intros Hn. set (l := merge_sort Z.le samples).
  assert (l ≡ₚ samples) as Hl by apply merge_sort_Permutation.
  assert (Sorted Z.le l) as Hs by (apply Sorted_merge_sort; exact _).
  assert (length l = length samples) as Hlen by (by rewrite Hl).
  set (n := length samples) in *.
  assert (forall pct, 0 <= pct <= 100 -> exists x, l !! exact_index pct n = Some x) as Hx.
  { intros pct Hp. apply lookup_lt_is_Some. pose proof (exact_index_bound pct n ltac:(lia) Hp). lia. }
  destruct (Hx 50 ltac:(lia)) as [a Ha]. destruct (Hx 95 ltac:(lia)) as [b Hb].
  destruct (Hx 99 ltac:(lia)) as [c Hc]. exists l, a, b, c.
  assert (forall pct x, pct ∈ [50; 95; 99] -> l !! exact_index pct n = Some x ->
            nth (percentile_index pct (length l) `min` (length l - 1))%nat l 0 = x) as Hnth.
  { intros pct x Hp E. rewrite Hlen, (percentile_index_exact pct n Hp Hn).
    assert (0 <= pct <= 100) as Hr by (set_unfold; lia).
    pose proof (exact_index_bound pct n ltac:(lia) Hr). rewrite Nat.min_l by lia.
    by apply nth_lookup_Some. }
  split_and!; try done.
  - apply (sorted_nth_le l (exact_index 50 n) (exact_index 95 n)); [done | apply exact_index_mono; lia | done..].
  - apply (sorted_nth_le l (exact_index 95 n) (exact_index 99 n)); [done | apply exact_index_mono; lia | done..].
  - unfold compute_percentiles. destruct samples; [cbn in *; lia |]. fold l.
    rewrite (Hnth 50 a), (Hnth 95 b), (Hnth 99 c); [done | by repeat constructor ..].
Qed.

(** ** The batch: properties *)

(** A counter key holds [z]; a missing key counts as zero. *)
Definition count_is (s : kv) (key : string) (z : Z) : Prop :=
  match strs s !! key with
  | None => z = 0
  | Some t => t = Z_to_string z
  end.

Section FlushProps.
Context `{V : Valkey, VL : !ValkeyLaws V}.

Lemma push_sample_strs (pair_id metric : string) (ms : Z) (s : store) :
  strs (view (push_sample pair_id metric ms s)) = strs (view s).
Proof.
  unfold push_sample. autorewrite with valkey. unfold kv_ltrim.
  by destruct (drop_ttl_frame (metric_key pair_id metric)
    (set_lists (put (metric_key pair_id metric)
       (take SAMPLE_CAP (lst (kv_lpush (metric_key pair_id metric) (Z_to_string ms) (view s))
          (metric_key pair_id metric)))) (kv_lpush (metric_key pair_id metric) (Z_to_string ms) (view s))))
    as [-> _].
Qed.

Lemma record_latencies_strs (pair_id : string) (samples : list Z) (s : store) :
  strs (view (fold_left (fun s ms => record_match_latency pair_id ms s) samples s)) = strs (view s).
Proof.
  revert s. induction samples as [| ms samples IH]; intros s; cbn; [done |].
  rewrite IH. apply push_sample_strs.
Qed.

(** Adding a pending count to its key. *)
Definition bump (key : string) (n : Z) (s : store) : store :=
  if 0 <? n then (if n =? 0 then (s, Ok 0) else incrby_u64 key n s).1 else s.

Lemma bump_count (key : string) (z n : Z) (s : store) :
  count_is (view s) key z -> in_i64 z = true -> 0 <= n -> in_i64 (z + n) = true -> in_i64 n = true ->
  count_is (view (bump key n s)) key (z + n) /\
  (forall k, k <> key -> strs (view (bump key n s)) !! k = strs (view s) !! k).
Proof.
  intros Hc Hz Hn Hzn Hni. unfold bump. destruct (Z.ltb_spec 0 n) as [Hpos |].
  - rewrite (proj2 (Z.eqb_neq n 0)) by lia. unfold incrby_u64. rewrite Hni. autorewrite with valkey.
    unfold kv_incrby. unfold count_is in Hc.
    assert (incr_cell (strs (view s) !! key) n = Ok (z + n)) as ->.
    { destruct (strs (view s) !! key); subst; [by apply incr_cell_ok |]. cbn. by rewrite Hzn. }
    cbn. split; [unfold count_is; cbn; by rewrite lookup_insert_eq |].
    intros k Hk. by rewrite lookup_insert_ne.
  - replace n with 0 by lia. rewrite Z.add_0_r. done.
Qed.

Lemma flush_pair_bump (pair_id : string) (orders trades : Z) (samples : list Z) (s : store) :
  strs (view (MetricsBatch.flush_pair pair_id orders trades samples s)) =
  strs (view (bump (metric_key pair_id "trades") trades (bump (metric_key pair_id "orders") orders s))).
Proof. unfold MetricsBatch.flush_pair. apply record_latencies_strs. Qed.

(** What the flush of one pair does to the counters. *)
Lemma flush_pair_counts (pair_id : string) (orders trades zo zt : Z) (samples : list Z) (s : store) :
  count_is (view s) (metric_key pair_id "orders") zo -> count_is (view s) (metric_key pair_id "trades") zt ->
  in_i64 zo = true -> in_i64 zt = true -> 0 <= orders -> 0 <= trades ->
  in_i64 orders = true -> in_i64 trades = true ->
  in_i64 (zo + orders) = true -> in_i64 (zt + trades) = true ->
  let s' := MetricsBatch.flush_pair pair_id orders trades samples s in
  count_is (view s') (metric_key pair_id "orders") (zo + orders) /\
  count_is (view s') (metric_key pair_id "trades") (zt + trades) /\
  (forall k, k <> metric_key pair_id "orders" -> k <> metric_key pair_id "trades" ->
     strs (view s') !! k = strs (view s) !! k).
Proof.
  intros Ho Ht Hzo Hzt Hno Hnt Hio Hit Hso Hst. cbn zeta. unfold count_is. rewrite flush_pair_bump.
  assert (metric_key pair_id "trades" <> metric_key pair_id "orders") as Hne.
  { unfold metric_key. by intros H%str_app_inj%str_app_inj. }
  destruct (bump_count _ _ _ s Ho Hzo Hno Hso Hio) as [H1 H2].
  destruct (bump_count (metric_key pair_id "trades") zt trades
              (bump (metric_key pair_id "orders") orders s)) as [H3 H4]; try done.
  { unfold count_is. by rewrite H2. }
  split_and!; [| done |].
  - rewrite H4 by done. exact H1.
  - intros k Hk1 Hk2. by rewrite H4, H2.
Qed.

(** The counters stored and pending are in range, and each pending count can be
    added to its stored one. *)
Record flushable (i : nat) (pair_id : string) (zo zt : Z) (b : MetricsBatch.t) (s : store) : Prop := {
  fl_orders : count_is (view s) (metric_key pair_id "orders") zo;
  fl_trades : count_is (view s) (metric_key pair_id "trades") zt;
  fl_zo : in_i64 zo = true;
  fl_zt : in_i64 zt = true;
  fl_po : 0 <= nth i (MetricsBatch.order_counts b) 0 /\ in_i64 (nth i (MetricsBatch.order_counts b) 0) = true;
  fl_pt : 0 <= nth i (MetricsBatch.trade_counts b) 0 /\ in_i64 (nth i (MetricsBatch.trade_counts b) 0) = true;
  fl_so : in_i64 (zo + nth i (MetricsBatch.order_counts b) 0) = true;
  fl_st : in_i64 (zt + nth i (MetricsBatch.trade_counts b) 0) = true;
}.

(** A flush moves every pending order and trade count into the Valkey
    counter of its pair, exactly once, and leaves the batch empty. *)
Theorem flush_transfers (b : MetricsBatch.t) (s : store) (zo zt : nat -> Z) :
  length (MetricsBatch.order_counts b) = 3%nat -> length (MetricsBatch.trade_counts b) = 3%nat ->
  length (MetricsBatch.latency_samples b) = 3%nat ->
  (forall i pair_id, PAIRS !! i = Some pair_id -> flushable i pair_id (zo i) (zt i) b s) ->
  let '(b', s') := MetricsBatch.flush b s in
  b' = MetricsBatch.new /\
  forall i pair_id, PAIRS !! i = Some pair_id ->
    count_is (view s') (metric_key pair_id "orders") (zo i + nth i (MetricsBatch.order_counts b) 0) /\
    count_is (view s') (metric_key pair_id "trades") (zt i + nth i (MetricsBatch.trade_counts b) 0).
Proof.
  destruct b as [os ts ls]; cbn [MetricsBatch.order_counts MetricsBatch.trade_counts MetricsBatch.latency_samples].
  intros Ho Ht Hl H.
  destruct os as [| o0 [| o1 [| o2 [|]]]]; try discriminate. destruct ts as [| t0 [| t1 [| t2 [|]]]]; try discriminate.
  destruct ls as [| l0 [| l1 [| l2 [|]]]]; try discriminate.
  unfold MetricsBatch.flush, PAIRS. cbn -[MetricsBatch.flush_pair].
  set (s0 := MetricsBatch.flush_pair "BTC-USDT" o0 t0 l0 s).
  set (s1 := MetricsBatch.flush_pair "ETH-USDT" o1 t1 l1 s0).
  destruct (H 0%nat "BTC-USDT" eq_refl) as [? ? ? ? [? ?] [? ?] ? ?].
  destruct (H 1%nat "ETH-USDT" eq_refl) as [? ? ? ? [? ?] [? ?] ? ?].
  destruct (H 2%nat "SOL-USDT" eq_refl) as [? ? ? ? [? ?] [? ?] ? ?]. cbn in *.
  destruct (flush_pair_counts "BTC-USDT" o0 t0 (zo 0%nat) (zt 0%nat) l0 s) as (A1 & A2 & A3); try done.
  fold s0 in A1, A2, A3.
  destruct (flush_pair_counts "ETH-USDT" o1 t1 (zo 1%nat) (zt 1%nat) l1 s0) as (B1 & B2 & B3); try done;
    [unfold count_is; rewrite A3; done .. |]. fold s1 in B1, B2, B3.
  destruct (flush_pair_counts "SOL-USDT" o2 t2 (zo 2%nat) (zt 2%nat) l2 s1) as (C1 & C2 & C3); try done;
    [unfold count_is; rewrite B3, A3; done .. |].
  split; [done |]. intros i p Hp.
  destruct i as [| [| [| i]]]; cbn in Hp; [| | | done]; injection Hp as <-; cbn;
    [unfold count_is; rewrite !C3, !B3 by done; done | unfold count_is; rewrite !C3 by done; done | done].
Qed.
End FlushProps.

(** Between two flushes the batch holds at most 1000 samples per pair. *)
Definition batch_ok (b : MetricsBatch.t) : Prop :=
  length (MetricsBatch.order_counts b) = 3%nat /\ length (MetricsBatch.trade_counts b) = 3%nat /\
  length (MetricsBatch.latency_samples b) = 3%nat /\
  Forall (fun l => length l <= 1000)%nat (MetricsBatch.latency_samples b).

Lemma record_order_ok (pair_id : string) (trades ms : Z) (b : MetricsBatch.t) :
  batch_ok b -> batch_ok (MetricsBatch.record_order pair_id trades ms b).
Proof.
  intros (Ho & Ht & Hl & Hs). unfold MetricsBatch.record_order, batch_ok. cbn.
  rewrite !length_alter. split_and!; try done.
  - case_cond; [by rewrite length_alter | done].
  - apply Forall_alter; [done |]. intros l Hx Hlen. unfold MetricsBatch.push_latency.
    case_decide as Hd; rewrite ?length_drop, length_app in *; cbn in *; lia.
Qed.

Module MetricsExamples.
Import RefValkey.

Lemma compute_percentiles_spec_witness :
  exists a b c, a <= b <= c /\ compute_percentiles [30; 10; 20] = (f64_of_Z a, f64_of_Z b, f64_of_Z c).
Proof.
  destruct (compute_percentiles_spec [30; 10; 20]) as (l & a & b & c & _ & _ & _ & _ & _ & Hle & E); [cbn; lia |].
  exists a, b, c. exact (conj Hle E).
Defined.

Definition sample_batch : MetricsBatch.t :=
  MetricsBatch.record_order "ETH-USDT" 2 7 (MetricsBatch.record_order "BTC-USDT" 0 5 MetricsBatch.new).

Lemma flush_transfers_witness :
  let '(b, s) := MetricsBatch.flush sample_batch empty_store in
  b = MetricsBatch.new /\ count_is (view s) (metric_key "BTC-USDT" "orders") 1 /\
  count_is (view s) (metric_key "ETH-USDT" "trades") 2.
Proof.
  pose proof (flush_transfers sample_batch empty_store (fun _ => 0) (fun _ => 0) eq_refl eq_refl eq_refl) as H.
  destruct (MetricsBatch.flush sample_batch empty_store) as [b s].
  destruct H as [Hb Hc].
  { intros [| [| [| i]]] p Hp; cbn in Hp; try done; injection Hp as <-; by constructor. }
  exact (conj Hb (conj (proj1 (Hc 0%nat "BTC-USDT" eq_refl)) (proj2 (Hc 1%nat "ETH-USDT" eq_refl)))).
Defined.
End MetricsExamples.
