(* ===== verification/Json.v ===== *)
(** * JSON values ([serde_json])

    The messages and cached views of the program are JSON values: the type of
    values, the accessors the code uses, the objects [json!] builds (keys kept
    in order, a repeated key replaced), and the class [SerdeJson] of the
    printer and parser, which belong to the [serde_json] crate. *)

From S2P Require Import Prelude Numbers Externals Types.

Open Scope Z_scope.

Inductive Json : Type :=
| JNull
| JBool (b : bool)
| JInt (z : Z)
| JFloat (q : Q)
| JStr (s : string)
| JArr (l : list Json)
| JObj (fields : list (string * Json)).

(** ** Accessors *)

Definition field_of {A} (k : string) (fields : list (string * A)) : option A :=
  snd <$> head (filter (fun f => f.1 = k) fields).

(** [Value::get] with a string: only objects have fields. *)
Definition get (k : string) (j : Json) : option Json :=
  match j with
  | JObj fields => field_of k fields
  | _ => None
  end.

Definition as_str (j : Json) : option string :=
  match j with
  | JStr s => Some s
  | _ => None
  end.

Definition as_array (j : Json) : option (list Json) :=
  match j with
  | JArr l => Some l
  | _ => None
  end.

(** [.get(k).and_then(|v| v.as_str())] *)
Definition get_str (k : string) (j : Json) : option string := get k j ≫= as_str.

(** ** Objects *)

(** Insertion in the order of the keys, as the map of the crate keeps them. *)
Fixpoint obj_insert (k : string) (v : Json) (fields : list (string * Json)) : list (string * Json) :=
  match fields with
  | [] => [(k, v)]
  | (k', v') :: rest =>
      match String.compare k k' with
      | Lt => (k, v) :: fields
      | Eq => (k, v) :: rest
      | Gt => (k', v') :: obj_insert k v rest
      end
  end.

(** [json!({ ... })] *)
Definition object (fields : list (string * Json)) : Json :=
  JObj (fold_left (fun acc f => obj_insert f.1 f.2 acc) fields []).

Definition opt_str (o : option string) : Json :=
  match o with
  | Some s => JStr s
  | None => JNull
  end.

Fixpoint keys_ordered (ks : list string) : bool :=
  match ks with
  | a :: (b :: _) as rest => String.ltb a b && keys_ordered rest
  | _ => true
  end.

(** A value without floats, which may be read back an ulp off, and whose objects
    have ordered, distinct keys, as those of every [Value]. *)
Fixpoint canonical (j : Json) : bool :=
  match j with
  | JArr l => forallb canonical l
  | JObj fields =>
      keys_ordered (fst <$> fields) && forallb (fun f => canonical f.2) fields
  | JFloat _ => false
  | _ => true
  end.

(** ** The crate *)

Class SerdeJson : Type := {
  json_to_string : Json -> string;
  json_from_str : string -> option Json;
}.

Class SerdeJsonLaws (J : SerdeJson) : Prop := {
  json_from_to j : canonical j = true -> json_from_str (json_to_string j) = Some j;
}.

(** ** Derived deserializers *)

(** A struct: an object, or an array of all its fields in order. *)
Definition struct_of (names : list string) (j : Json) : result Json :=
  match j with
  | JObj _ => Ok j
  | JArr l => if decide (length l = length names) then Ok (JObj (zip names l)) else Err "invalid length"
  | _ => Err "invalid type"
  end.

(** A field of a body: [Option] takes an absent field and null as [None]. *)
Definition body_field {A} (parse : Json -> option A) (k : string) (j : Json) : result A :=
  v ← ok_or (get k j) ("missing field `" +:+ k +:+ "`"); ok_or (parse v) ("invalid " +:+ k).

Definition body_option {A} (parse : Json -> option A) (k : string) (j : Json) : result (option A) :=
  match get k j with
  | None | Some JNull => Ok None
  | Some v => x ← ok_or (parse v) ("invalid " +:+ k); mret (Some x)
  end.

(** ** Orders and trades as JSON ([crates/api/src/routes.rs]) *)

Section Render.
Context `{C : Crates}.

Definition dec_json (d : decimal) : Json := JStr (dec_to_string d).

Definition order_to_json (o : Order.t) : Json :=
  object ([("id", JStr (uuid_to_string (Order.id o))); ("user_id", JStr (Order.user_id o));
           ("pair_id", JStr (Order.pair_id o)); ("side", JStr (side_str (Order.side o)));
           ("order_type", JStr (order_type_str (Order.order_type o))); ("tif", JStr (tif_str (Order.tif o)));
           ("price", opt_str (dec_to_string <$> Order.price o)); ("quantity", dec_json (Order.quantity o));
           ("remaining", dec_json (Order.remaining o)); ("status", JStr (status_str (Order.status o)));
           ("stp_mode", JStr (stp_str (Order.stp_mode o))); ("version", JInt (Order.version o));
           ("created_at", JStr (to_rfc3339 (Order.created_at o)));
           ("updated_at", JStr (to_rfc3339 (Order.updated_at o)))]
          ++ match Order.client_order_id o with
             | Some coid => [("client_order_id", JStr coid)]
             | None => []
             end).

Definition trade_to_json (t : Trade.t) : Json :=
  object [("id", JStr (uuid_to_string (Trade.id t))); ("pair_id", JStr (Trade.pair_id t));
          ("buy_order_id", JStr (uuid_to_string (Trade.buy_order_id t)));
          ("sell_order_id", JStr (uuid_to_string (Trade.sell_order_id t)));
          ("buyer_id", JStr (Trade.buyer_id t)); ("seller_id", JStr (Trade.seller_id t));
          ("price", dec_json (Trade.price t)); ("quantity", dec_json (Trade.quantity t));
          ("created_at", JStr (to_rfc3339 (Trade.created_at t)))].
End Render.

(** ** Properties of objects *)

Lemma string_compare_refl (s : string) : String.compare s s = Eq.
Proof. pose proof (String.compare_antisym s s) as H. by destruct (String.compare s s). Qed.

Lemma field_of_cons {A} (k k' : string) (v : A) (fields : list (string * A)) :
  field_of k ((k', v) :: fields) = if decide (k' = k) then Some v else field_of k fields.
Proof. unfold field_of. rewrite filter_cons. cbn. by case_decide. Qed.

Lemma field_of_obj_insert (k k' : string) (v : Json) (fields : list (string * Json)) :
  field_of k (obj_insert k' v fields) = if decide (k' = k) then Some v else field_of k fields.
Proof.
  induction fields as [| [a w] rest IH]; cbn; rewrite ?field_of_cons; [done |].
  destruct (String.compare k' a) eqn:E; rewrite !field_of_cons.
  - apply String.compare_eq_iff in E as ->. by case_decide.
  - done.
  - rewrite IH. case_decide as H1; case_decide as H2; try done. subst.
    by rewrite string_compare_refl in E.
Qed.

(** An object answers with the last value given for a key. *)
Lemma get_object (k : string) (fields : list (string * Json)) :
  get k (object fields) = field_of k (reverse fields).
Proof.
  unfold object, get. rewrite <- (app_nil_r (reverse fields)).
  assert (forall acc, field_of k (fold_left (fun acc f => obj_insert f.1 f.2 acc) fields acc) =
                      field_of k (reverse fields ++ acc)) as H; [| apply H].
  induction fields as [| [a v] rest IH]; intros acc; [done |].
  cbn [fold_left]. rewrite IH, reverse_cons, <- app_assoc. cbn [app].
  generalize (reverse rest). intros l. induction l as [| [b w] l IHl]; cbn.
  - by rewrite field_of_obj_insert, field_of_cons.
  - rewrite !field_of_cons. by case_decide.
Qed.

(** ** A reference instance *)

Module RefJson.
(** Values as trees, trees as numbers, numbers in decimal. *)
Definition leaf : Type := string + Z.

Fixpoint to_tree (j : Json) : gen_tree leaf :=
  match j with
  | JNull => GenNode 0 []
  | JBool b => GenNode 1 [GenLeaf (inr (if b then 1 else 0))]
  | JInt z => GenNode 2 [GenLeaf (inr z)]
  | JFloat q => GenNode 3 [GenLeaf (inr (Qnum q)); GenLeaf (inr (Zpos (Qden q)))]
  | JStr s => GenNode 4 [GenLeaf (inl s)]
  | JArr l => GenNode 5 (to_tree <$> l)
  | JObj fields => GenNode 6 ((fun f => GenNode 7 [GenLeaf (inl f.1); to_tree f.2]) <$> fields)
  end.

Fixpoint of_tree (t : gen_tree leaf) : option Json :=
  match t with
  | GenNode 0 [] => Some JNull
  | GenNode 1 [GenLeaf (inr z)] => Some (JBool (z =? 1))
  | GenNode 2 [GenLeaf (inr z)] => Some (JInt z)
  | GenNode 3 [GenLeaf (inr n); GenLeaf (inr (Zpos d))] => Some (JFloat (n # d)%Q)
  | GenNode 4 [GenLeaf (inl s)] => Some (JStr s)
  | GenNode 5 l => Some (JArr (omap of_tree l))
  | GenNode 6 l =>
      Some (JObj (omap (fun t => match t with
                                 | GenNode 7 [GenLeaf (inl k); v] => (fun v => (k, v)) <$> of_tree v
                                 | _ => None
                                 end) l))
  | _ => None
  end.

Fixpoint size (j : Json) : nat :=
  match j with
  | JArr l => S (fold_right (fun x n => size x + n)%nat 0%nat l)
  | JObj fields => S (fold_right (fun f n => size f.2 + n)%nat 0%nat fields)
  | _ => 1%nat
  end.

Lemma of_to_tree (j : Json) : of_tree (to_tree j) = Some j.
Proof.
  assert (forall n j, (size j <= n)%nat -> of_tree (to_tree j) = Some j) as H; [| by eapply H].
  clear j. induction n as [| n IH]; intros j Hn; [destruct j; cbn in Hn; lia |].
  destruct j as [| b | z | q | s | l | fields]; cbn in *; try done.
  - by destruct b.
  - by destruct q.
  - do 2 f_equal. assert (fold_right (fun x m => size x + m)%nat 0%nat l <= n)%nat as Hl by lia. clear Hn.
    induction l as [| x l IHl]; cbn in *; [done |]. rewrite (IH x) by lia. f_equal. apply IHl. lia.
  - do 2 f_equal. assert (fold_right (fun f m => size f.2 + m)%nat 0%nat fields <= n)%nat as Hl by lia. clear Hn.
    induction fields as [| [k x] l IHl]; cbn in *; [done |]. rewrite (IH x) by lia. cbn. f_equal. apply IHl. lia.
Qed.

#[export] Instance ref_json : SerdeJson := {
  json_to_string j := Z_to_string (Zpos (encode (to_tree j)));
  json_from_str s :=
    n ← parse_unsigned s;
    match n with
    | Zpos p => decode p ≫= of_tree
    | _ => None
    end;
}.

#[export] Instance ref_json_laws : SerdeJsonLaws ref_json.
Proof.
  constructor. intros j _. cbn -[parse_unsigned Z_to_string].
  rewrite parse_unsigned_Z_to_string by lia. cbn. rewrite decode_encode. cbn. apply of_to_tree.
Qed.
End RefJson.
