(* ===== verification/Db.v ===== *)
(** * The database tables and the SQL statements on them

    The tables of [migrations/] as finite maps on their primary keys and, for
    each statement the program executes, its effect on them.  NUMERIC columns
    hold exact numbers; [Sqlx] is the conversion between them and decimals.
    A statement binds the arguments of its definition in their order; [now] is
    the value the program binds and [pg_now] the server's NOW().  Sequences
    start at one and are consumed by rejected inserts too.  Column widths and
    lost connections are outside the model. *)

From S2P Require Import Prelude Numbers Externals Fixed Types.

Open Scope Z_scope.

Class Sqlx (C : Crates) : Type := {
  to_numeric : decimal -> Q;
  of_numeric : Q -> decimal;
  (** The order of TIMESTAMPTZ values, and [t - INTERVAL 'n hours']. *)
  time_leb : datetime -> datetime -> bool;
  minus_hours : Z -> datetime -> datetime;
}.

Class SqlxLaws (C : Crates) (L : CratesLaws C) (X : Sqlx C) : Prop := {
  to_numeric_val d : (to_numeric d == dval d)%Q;
  of_numeric_val q : representable q -> (dval (of_numeric q) == q)%Q;
}.

(** GREATEST of two numbers. *)
Definition greatest (a b : Q) : Q := if Qle_bool b a then a else b.

Module OrderRow.
Section Row.
Context `{C : Crates}.

Record t : Type := mk {
  user_id : string;
  pair_id : string;
  side : string;
  order_type : string;
  tif : string;
  price : option Q;
  quantity : Q;
  remaining : Q;
  status : string;
  stp_mode : string;
  version : Z;
  sequence : Z;
  created_at : datetime;
  updated_at : datetime;
  client_order_id : option string;
  received_at : option datetime;
  matched_at : option datetime;
  persisted_at : option datetime;
}.

(** UPDATE ... SET remaining, status, version, updated_at *)
Definition set (rem : Q) (st : string) (v : Z) (u : datetime) (r : t) : t :=
  mk (user_id r) (pair_id r) (side r) (order_type r) (tif r) (price r) (quantity r) rem st
     (stp_mode r) v (sequence r) (created_at r) u (client_order_id r) (received_at r)
     (matched_at r) (persisted_at r).
End Row.
End OrderRow.

Module TradeRow.
Section Row.
Context `{C : Crates}.

Record t : Type := mk {
  pair_id : string;
  buy_order_id : uuid;
  sell_order_id : uuid;
  buyer_id : string;
  seller_id : string;
  price : Q;
  quantity : Q;
  sequence : Z;
  created_at : datetime;
}.
End Row.
End TradeRow.

(** [(available, locked)] *)
Abbreviation BalanceRow := (Q * Q)%type.

Record db `{C : Crates} : Type := mk_db {
  orders : gmap uuid OrderRow.t;
  trades : gmap uuid TradeRow.t;
  balances : gmap (string * string) BalanceRow;
  order_seq : Z;
  trade_seq : Z;
}.

Section Db.
Context `{C : Crates, X : !Sqlx C}.

Definition set_orders (m : gmap uuid OrderRow.t) (d : db) : db :=
  mk_db C m (trades d) (balances d) (order_seq d) (trade_seq d).

Definition set_balances (m : gmap (string * string) BalanceRow) (d : db) : db :=
  mk_db C (orders d) (trades d) m (order_seq d) (trade_seq d).

(** ** Orders *)

(** The partial unique index on (user_id, client_order_id). *)
Definition same_client_order (o : Order.t) (r : OrderRow.t) : Prop :=
  OrderRow.user_id r = Order.user_id o /\ is_Some (OrderRow.client_order_id r) /\
  OrderRow.client_order_id r = Order.client_order_id o.

#[export] Instance same_client_order_dec (o : Order.t) (r : OrderRow.t) : Decision (same_client_order o r).
Proof. unfold same_client_order. apply _. Defined.

Definition order_conflict (o : Order.t) (d : db) : Prop :=
  is_Some (orders d !! Order.id o) \/ map_Exists (fun _ r => same_client_order o r) (orders d).

#[export] Instance order_conflict_dec (o : Order.t) (d : db) : Decision (order_conflict o d).
Proof. unfold order_conflict. apply _. Defined.

Definition row_of_order (o : Order.t) (updated_at pg_now : datetime) (seq : Z) : OrderRow.t :=
  OrderRow.mk (Order.user_id o) (Order.pair_id o) (side_str (Order.side o))
    (order_type_str (Order.order_type o)) (tif_str (Order.tif o)) (to_numeric <$> Order.price o)
    (to_numeric (Order.quantity o)) (to_numeric (Order.remaining o)) (status_str (Order.status o))
    (stp_str (Order.stp_mode o)) (Order.version o) seq (Order.created_at o) updated_at
    (Order.client_order_id o) (Order.received_at o) (Order.matched_at o) (Some pg_now).

(** INSERT INTO orders ... ON CONFLICT DO NOTHING *)
Definition insert_order (o : Order.t) (updated_at pg_now : datetime) (d : db) : db :=
  let rows := if decide (order_conflict o d) then orders d
              else <[Order.id o := row_of_order o updated_at pg_now (order_seq d)]> (orders d) in
  mk_db C rows (trades d) (balances d) (order_seq d + 1) (trade_seq d).

(** UPDATE orders SET remaining, status, version = version + 1, updated_at WHERE id *)
Definition update_order (remaining : decimal) (status : string) (now : datetime) (id : uuid) (d : db) : db :=
  set_orders (alter (fun r => OrderRow.set (to_numeric remaining) status (OrderRow.version r + 1) now r) id
                (orders d)) d.

Definition open_status (st : string) : Prop := st = "New" \/ st = "PartiallyFilled".

#[export] Instance open_status_dec (st : string) : Decision (open_status st).
Proof. unfold open_status. apply _. Defined.

(** The resting-order UPDATE on one row: the fill is subtracted, not below zero. *)
Definition fill_row (qty : decimal) (now : datetime) (r : OrderRow.t) : OrderRow.t :=
  if decide (open_status (OrderRow.status r)) then
    let left := greatest (OrderRow.remaining r - to_numeric qty) 0 in
    OrderRow.set left (if Qeq_bool left 0 then "Filled" else "PartiallyFilled") (OrderRow.version r + 1) now r
  else r.

Definition fill_resting (qty : decimal) (now : datetime) (id : uuid) (d : db) : db :=
  set_orders (alter (fill_row qty now) id (orders d)) d.

(** ** Trades *)

Definition row_of_trade (t : Trade.t) (seq : Z) : TradeRow.t :=
  TradeRow.mk (Trade.pair_id t) (Trade.buy_order_id t) (Trade.sell_order_id t) (Trade.buyer_id t)
    (Trade.seller_id t) (to_numeric (Trade.price t)) (to_numeric (Trade.quantity t)) seq (Trade.created_at t).

(** INSERT INTO trades ... ON CONFLICT DO NOTHING *)
Definition insert_trade (t : Trade.t) (d : db) : db :=
  let rows := match trades d !! Trade.id t with
              | Some _ => trades d
              | None => <[Trade.id t := row_of_trade t (trade_seq d)]> (trades d)
              end in
  mk_db C (orders d) rows (balances d) (order_seq d) (trade_seq d + 1).

(** ** Balances *)

(** SET locked = GREATEST(locked - $1, 0), available = available + $2 *)
Definition settle_row (locked_decrease available_increase : decimal) (r : BalanceRow) : BalanceRow :=
  (r.1 + to_numeric available_increase, greatest (r.2 - to_numeric locked_decrease) 0)%Q.

(** INSERT INTO balances VALUES (user, asset, $2, 0) ON CONFLICT DO UPDATE ... *)
Definition settle_upsert (ld ai : decimal) (k : string * string) (d : db) : db :=
  set_balances (partial_alter (fun r => Some match r with
                                             | Some r => settle_row ld ai r
                                             | None => (to_numeric ai, 0%Q)
                                             end) k (balances d)) d.

(** UPDATE balances ... WHERE user_id = ... AND asset = ...: no row, no effect. *)
Definition settle_update (ld ai : decimal) (k : string * string) (d : db) : db :=
  set_balances (alter (settle_row ld ai) k (balances d)) d.

(** SET locked = GREATEST(locked - $1, 0) *)
Definition decrease_locked (amount : decimal) (k : string * string) (d : db) : db :=
  set_balances (alter (fun r => (r.1, greatest (r.2 - to_numeric amount) 0)) k (balances d)) d.

(** INSERT INTO balances VALUES (user, asset, $3, 0)
    ON CONFLICT DO UPDATE SET available = balances.available + $3 *)
Definition credit (amount : decimal) (k : string * string) (d : db) : db :=
  set_balances (partial_alter (fun r => Some match r with
                                             | Some r => (r.1 + to_numeric amount, r.2)%Q
                                             | None => (to_numeric amount, 0%Q)
                                             end) k (balances d)) d.

(** SET available = available + $1, locked = GREATEST(locked - $1, 0) *)
Definition release_balance (amount : decimal) (k : string * string) (d : db) : db :=
  settle_update amount amount k d.

(** SET locked = locked - $1, available = available + $1: no floor at zero. *)
Definition release_unfloored (amount : decimal) (k : string * string) (d : db) : db :=
  set_balances (alter (fun r => (r.1 + to_numeric amount, r.2 - to_numeric amount)%Q) k (balances d)) d.

(** SET available = available - $1, locked = locked + $1 WHERE ... AND available >= $1;
    with the number of rows affected. *)
Definition lock_available (amount : decimal) (k : string * string) (d : db) : db * nat :=
  match balances d !! k with
  | Some (available, locked) =>
      if Qle_bool (to_numeric amount) available
      then (set_balances (<[k := (available - to_numeric amount, locked + to_numeric amount)%Q]> (balances d)) d, 1%nat)
      else (d, 0%nat)
  | None => (d, 0%nat)
  end.

(** What a user has of an asset; a missing row counts as nothing. *)
Definition balance (d : db) (k : string * string) : BalanceRow := default (0, 0)%Q (balances d !! k).
End Db.

(** ** Properties of the statements *)

Lemma greatest_zero (q : Q) : (0 <= q)%Q -> (greatest q 0 == q)%Q.
Proof. intros H. unfold greatest. by rewrite (proj2 (Qle_bool_iff _ _) H). Qed.

Lemma greatest_nonpos (q : Q) : (q <= 0)%Q -> (greatest q 0 == 0)%Q.
Proof.
  intros H. unfold greatest. destruct (Qle_bool 0 q) eqn:E; [| reflexivity].
  apply Qle_bool_iff in E. lra.
Qed.

Lemma greatest_nonneg (q : Q) : (0 <= greatest q 0)%Q.
Proof.
  unfold greatest. destruct (Qle_bool 0 q) eqn:E; [by apply Qle_bool_iff | apply Qle_refl].
Qed.

#[export] Instance greatest_proper : Proper (Qeq ==> Qeq ==> Qeq) greatest.
Proof.
  intros a a' Ha b b' Hb. unfold greatest.
  assert (Qle_bool b a = Qle_bool b' a') as ->; [| by case_cond].
  apply Bool.eq_iff_eq_true. by rewrite !Qle_bool_iff, Ha, Hb.
Qed.

(** Balances up to the value of their numbers. *)
Definition row_eq (a b : BalanceRow) : Prop := (a.1 == b.1)%Q /\ (a.2 == b.2)%Q.

#[export] Instance row_eq_equivalence : Equivalence row_eq.
Proof.
  split.
  - by intros [].
  - intros ? ? [? ?]. split; by symmetry.
  - intros ? ? ? [? ?] [? ?]. split; etransitivity; eauto.
Qed.

Section DbLemmas.
Context `{C : Crates, X : !Sqlx C}.

Lemma settle_upsert_eq (ld ai : decimal) (k : string * string) (d : db) :
  (0 <= to_numeric ld)%Q ->
  row_eq (balance (settle_upsert ld ai k d) k) (settle_row ld ai (balance d k)).
Proof.
  intros Hld. unfold balance, settle_upsert. cbn [balances set_balances]. rewrite lookup_partial_alter_eq.
  destruct (balances d !! k) as [r |]; cbn; [reflexivity |].
  unfold settle_row, row_eq; cbn. split; [ring |].
  by rewrite greatest_nonpos by lra.
Qed.

Lemma settle_upsert_ne (ld ai : decimal) (k k' : string * string) (d : db) :
  k <> k' -> balance (settle_upsert ld ai k d) k' = balance d k'.
Proof. intros H. unfold balance, settle_upsert. cbn. by rewrite lookup_partial_alter_ne. Qed.

Lemma decrease_locked_eq (x : decimal) (k : string * string) (d : db) :
  (0 <= to_numeric x)%Q ->
  row_eq (balance (decrease_locked x k d) k)
    ((balance d k).1, greatest ((balance d k).2 - to_numeric x) 0).
Proof.
  intros Hx. unfold balance, decrease_locked. cbn [balances set_balances]. rewrite lookup_alter_eq.
  destruct (balances d !! k) as [r |]; cbn; [reflexivity |]. split; cbn; [reflexivity |].
  by rewrite greatest_nonpos by lra.
Qed.

Lemma decrease_locked_ne (x : decimal) (k k' : string * string) (d : db) :
  k <> k' -> balance (decrease_locked x k d) k' = balance d k'.
Proof. intros H. unfold balance, decrease_locked. cbn. by rewrite lookup_alter_ne. Qed.

Lemma credit_eq (x : decimal) (k : string * string) (d : db) :
  row_eq (balance (credit x k d) k) ((balance d k).1 + to_numeric x, (balance d k).2)%Q.
Proof.
  unfold balance, credit. cbn [balances set_balances]. rewrite lookup_partial_alter_eq.
  destruct (balances d !! k) as [r |]; cbn; [reflexivity |]. split; cbn; ring.
Qed.

Lemma credit_ne (x : decimal) (k k' : string * string) (d : db) :
  k <> k' -> balance (credit x k d) k' = balance d k'.
Proof. intros H. unfold balance, credit. cbn. by rewrite lookup_partial_alter_ne. Qed.

Lemma settle_update_lookup (ld ai : decimal) (k k' : string * string) (d : db) :
  balances (settle_update ld ai k d) !! k' =
  if decide (k = k') then settle_row ld ai <$> balances d !! k' else balances d !! k'.
Proof.
  unfold settle_update. cbn. case_decide; subst; [apply lookup_alter_eq | by apply lookup_alter_ne].
Qed.
End DbLemmas.

Module RefDb.
Import RefCrates.

#[export] Instance ref_sqlx : Sqlx ref_crates :=
  @Build_Sqlx ref_crates (fun q : Q => q) (fun q : Q => q) Z.leb (fun n t => t - n * 3600 * 10 ^ 9).

#[export] Instance ref_sqlx_laws : SqlxLaws ref_crates ref_laws ref_sqlx.
Proof. constructor; cbn; reflexivity. Qed.

Definition empty_db : @db ref_crates := mk_db ref_crates ∅ ∅ ∅ 1 1.
End RefDb.
