(* ===== verification/Persist.v ===== *)
(** * Persistence of matched orders ([crates/gateway/src/worker.rs],
    [crates/api/src/routes.rs])

    What the two workers write to the database once an order is matched: the
    order and its trades, the balance deltas of the trades aggregated per user
    and asset, the resting orders the match filled, and the release of what an
    order no longer needs.  A function on the database returns the new database
    with its result; a transaction that fails leaves the database as it was. *)

From S2P Require Import Prelude Numbers Externals Fixed Types Codec Valkey MatchLua Json Db.

Open Scope Z_scope.

(** ** Balance deltas *)

(** [(locked decrease, available increase)] per user and asset. *)
Abbreviation deltas := (gmap (string * string) (decimal * decimal)).

(** The order of the sorted deltas: by user, then by asset. *)
Definition by_user_asset {A} (a b : (string * string) * A) : Prop :=
  String.compare a.1.1 b.1.1 = Lt \/ (a.1.1 = b.1.1 /\ String.leb a.1.2 b.1.2 = true).

#[export] Instance by_user_asset_dec {A} : RelDecision (@by_user_asset A).
Proof. intros a b. unfold by_user_asset. apply _. Defined.

Section Deltas.
Context `{C : Crates}.

(** [entry(k).or_insert((ZERO, ZERO)).0 += x] *)
Definition add_locked (k : string * string) (x : decimal) (m : deltas) : deltas :=
  let e := default (dec_zero, dec_zero) (m !! k) in <[k := (dec_add e.1 x, e.2)]> m.

(** [entry(k).or_insert((ZERO, ZERO)).1 += x] *)
Definition add_available (k : string * string) (x : decimal) (m : deltas) : deltas :=
  let e := default (dec_zero, dec_zero) (m !! k) in <[k := (e.1, dec_add e.2 x)]> m.

(** The buyer pays the cost from what is locked and receives the base asset;
    the seller delivers the base asset and receives the cost. *)
Definition trade_deltas (t : Trade.t) (m : deltas) : result deltas :=
  p ← parse_pair_id (Trade.pair_id t);
  let '(base, quote) := p in
  let cost := dec_mul (Trade.price t) (Trade.quantity t) in
  let m := add_locked (Trade.buyer_id t, quote) cost m in
  let m := add_available (Trade.buyer_id t, base) (Trade.quantity t) m in
  let m := add_locked (Trade.seller_id t, base) (Trade.quantity t) m in
  mret (add_available (Trade.seller_id t, quote) cost m).

Fixpoint balance_deltas (ts : list Trade.t) (m : deltas) : result deltas :=
  match ts with
  | [] => mret m
  | t :: ts => m ← trade_deltas t m; balance_deltas ts m
  end.

Definition sorted_deltas (m : deltas) : list ((string * string) * (decimal * decimal)) :=
  merge_sort by_user_asset (map_to_list m).
End Deltas.

(** ** What an order locks, and what is left to release *)

Section Amounts.
Context `{C : Crates}.

(** [get_lock_asset_amount], and the same match in [process_order]: a market
    buy has no price and locks nothing. *)
Definition get_lock_asset_amount (o : Order.t) : result (string * decimal) :=
  p ← parse_pair_id (Order.pair_id o);
  let '(base, quote) := p in
  mret match Order.side o with
       | Buy => (quote, dec_mul (default dec_zero (Order.price o)) (Order.quantity o))
       | Sell => (base, Order.quantity o)
       end.

Definition remaining_locked (o : Order.t) : result (string * decimal) :=
  p ← parse_pair_id (Order.pair_id o);
  let '(base, quote) := p in
  mret match Order.side o with
       | Buy => (quote, dec_mul (default dec_zero (Order.price o)) (Order.remaining o))
       | Sell => (base, Order.remaining o)
       end.

Definition fully_resolved (o : Order.t) : bool :=
  match Order.status o with
  | Cancelled | Filled => true
  | _ => false
  end.

Definition order_rests (o : Order.t) : bool :=
  match Order.status o with
  | New | PartiallyFilled => true
  | _ => false
  end.
End Amounts.

(** ** The gateway: one transaction per order *)

(** A transaction: all of it or nothing. *)
Definition transaction `{C : Crates} (f : db -> result db) (d : db) : db * result unit :=
  match f d with
  | Ok d' => (d', Ok tt)
  | Err e => (d, Err e)
  end.

Section Gateway.
Context `{C : Crates, X : !Sqlx C}.

(** The UPDATE joins the orders with the fills on the order's id; a match fills
    a resting order once, so the first fill of an id is its only one. *)
Definition fill_of (id : uuid) (fills : list LuaTrade.t) : option decimal :=
  LuaTrade.quantity <$> head (filter (fun f => LuaTrade.resting_order_id f = id) fills).

Definition fill_resting_batch (fills : list LuaTrade.t) (now : datetime) (d : db) : db :=
  set_orders (map_imap (fun id r => Some match fill_of id fills with
                                         | Some qty => fill_row qty now r
                                         | None => r
                                         end) (orders d)) d.

(** UPDATE balances FROM UNNEST: the rows that exist. *)
Definition settle_batch (ds : list ((string * string) * (decimal * decimal))) (d : db) : db :=
  fold_left (fun d e => settle_update e.2.1 e.2.2 e.1 d) ds d.

Definition release_leftover (o : Order.t) (d : db) : result db :=
  if fully_resolved o && negb (dec_eqb (Order.remaining o) dec_zero) then
    l ← remaining_locked o;
    mret (release_balance l.2 (Order.user_id o, l.1) d)
  else mret d.

Definition persist_order_tx (now pg_now : datetime) (o : Order.t) (ts : list Trade.t)
    (fills : list LuaTrade.t) (d : db) : result db :=
  let d := insert_order o now pg_now d in
  let d := fold_left (fun d t => insert_trade t d) ts d in
  m ← balance_deltas ts ∅;
  let d := settle_batch (sorted_deltas m) d in
  let d := fill_resting_batch fills now d in
  let d := if order_rests o then d
           else update_order (Order.remaining o) (status_str (Order.status o)) now (Order.id o) d in
  release_leftover o d.

Definition persist_order (now pg_now : datetime) (o : Order.t) (ts : list Trade.t)
    (fills : list LuaTrade.t) (d : db) : db * result unit :=
  transaction (persist_order_tx now pg_now o ts fills) d.
End Gateway.

(** ** The channels between the tasks of a process *)

(** [let _ = tx.try_send(x)] on a bounded channel of tokio that holds the messages [q]:
    documented to refuse the message when the channel is full, and the code drops it. *)
Definition try_send {A} (capacity : Z) (x : A) (q : list A) : list A :=
  if Z.of_nat (length q) <? capacity then q ++ [x] else q.

(** The channel of the users whose portfolio changed. *)
Definition DIRTY_USERS : Z := 10000.

(** ** The worker: jobs, one by one or in batches *)

Module PersistJob.
Section PersistJob.
Context `{C : Crates}.
Record t : Type := mk { order : Order.t; trades : list Trade.t; lua_trades : list LuaTrade.t }.
End PersistJob.
End PersistJob.

Section Worker.
Context `{C : Crates, X : !Sqlx C}.

(** INSERT INTO audit_log (pair_id, event_type, payload): the column [sequence]
    is NOT NULL and has no default, so the statement is always refused. *)
Definition insert_audit_event (pair_id : option string) (event_type : string) (payload : Json) (d : db)
    : db * result unit :=
  (d, Err "null value in column sequence of relation audit_log").

Definition order_created (o : Order.t) : Json :=
  object [("order_id", JStr (uuid_to_string (Order.id o))); ("user_id", JStr (Order.user_id o));
          ("side", JStr (side_str (Order.side o))); ("order_type", JStr (order_type_str (Order.order_type o)));
          ("price", opt_str (dec_to_string <$> Order.price o)); ("quantity", dec_json (Order.quantity o))].

Definition trade_executed (t : Trade.t) : Json :=
  object [("trade_id", JStr (uuid_to_string (Trade.id t)));
          ("buy_order_id", JStr (uuid_to_string (Trade.buy_order_id t)));
          ("sell_order_id", JStr (uuid_to_string (Trade.sell_order_id t)));
          ("price", dec_json (Trade.price t)); ("quantity", dec_json (Trade.quantity t))].

(** [.ok()]: the refusal is swallowed. *)
Definition audit_trades (ts : list Trade.t) (d : db) : db :=
  fold_left (fun d t => (insert_audit_event (Some (Trade.pair_id t)) "TRADE_EXECUTED" (trade_executed t) d).1) ts d.

Definition insert_order_db (o : Order.t) (pg_now : datetime) (d : db) : db :=
  insert_order o (Order.updated_at o) pg_now d.

Definition update_order_db (now : datetime) (o : Order.t) (d : db) : db :=
  update_order (Order.remaining o) (status_str (Order.status o)) now (Order.id o) d.

Definition settle_upserts (ds : list ((string * string) * (decimal * decimal))) (d : db) : db :=
  fold_left (fun d e => settle_upsert e.2.1 e.2.2 e.1 d) ds d.

Definition persist_trades (ts : list Trade.t) (d : db) : db * result (list Json) :=
  match ts with
  | [] => (d, Ok [])
  | _ =>
      let '(d, r) := transaction (fun d =>
                       let d := fold_left (fun d t => insert_trade t d) ts d in
                       m ← balance_deltas ts ∅;
                       mret (settle_upserts (sorted_deltas m) d)) d in
      match r with
      | Ok _ => (audit_trades ts d, Ok (trade_to_json <$> ts))
      | Err e => (d, Err e)
      end
  end.

Definition update_resting_orders_after_lua (now : datetime) (fills : list LuaTrade.t) (d : db) : db :=
  fold_left (fun d f => fill_resting (LuaTrade.quantity f) now (LuaTrade.resting_order_id f) d) fills d.

Definition release_remaining_locked (o : Order.t) (d : db) : db * result unit :=
  if dec_eqb (Order.remaining o) dec_zero then (d, Ok tt)
  else match remaining_locked o with
       | Ok l => (release_balance l.2 (Order.user_id o, l.1) d, Ok tt)
       | Err e => (d, Err e)
       end.

(** Statement by statement: an error keeps what was done before it. *)
Definition process_persist_job (now pg_now : datetime) (job : PersistJob.t) (d : db) : db * result unit :=
  let o := PersistJob.order job in
  let d := insert_order_db o pg_now d in
  let d := (insert_audit_event (Some (Order.pair_id o)) "ORDER_CREATED" (order_created o) d).1 in
  match persist_trades (PersistJob.trades job) d with
  | (d, Err e) => (d, Err e)
  | (d, Ok _) =>
      let d := update_resting_orders_after_lua now (PersistJob.lua_trades job) d in
      let d := update_order_db now o d in
      if fully_resolved o then release_remaining_locked o d else (d, Ok tt)
  end.

(** The trades of all the jobs, each inserted before its deltas are added. *)
Fixpoint batch_trades (ts : list Trade.t) (m : deltas) (d : db) : result (deltas * db) :=
  match ts with
  | [] => mret (m, d)
  | t :: ts => let d := insert_trade t d in m ← trade_deltas t m; batch_trades ts m d
  end.

Fixpoint release_batch (batch : list PersistJob.t) (d : db) : result db :=
  match batch with
  | [] => mret d
  | job :: batch => d ← release_leftover (PersistJob.order job) d; release_batch batch d
  end.

Definition persist_batch_tx (now pg_now : datetime) (batch : list PersistJob.t) (d : db) : result db :=
  let d := fold_left (fun d job => insert_order_db (PersistJob.order job) pg_now d) batch d in
  md ← batch_trades (mbind PersistJob.trades batch) ∅ d;
  let '(m, d) := md in
  let d := settle_upserts (sorted_deltas m) d in
  let d := fold_left (fun d job => update_resting_orders_after_lua now (PersistJob.lua_trades job) d) batch d in
  let d := fold_left (fun d job => update_order_db now (PersistJob.order job) d) batch d in
  release_batch batch d.

Definition process_persist_batch (now pg_now : datetime) (batch : list PersistJob.t) (d : db)
    : db * result unit :=
  match transaction (persist_batch_tx now pg_now batch) d with
  | (d, Err e) => (d, Err e)
  | (d, Ok _) =>
      (fold_left (fun d job =>
         let o := PersistJob.order job in
         let d := (insert_audit_event (Some (Order.pair_id o)) "ORDER_CREATED" (order_created o) d).1 in
         audit_trades (PersistJob.trades job) d) batch d, Ok tt)
  end.

(** The persist worker: batches of up to 50 jobs from the channel. *)
Definition next_batch (channel : list PersistJob.t) : list PersistJob.t * list PersistJob.t :=
  (take 50 channel, drop 50 channel).

(** ** Helpers kept beside the jobs *)

Definition settle_trade_balances (t : Trade.t) (d : db) : db * result unit :=
  transaction (fun d =>
    p ← parse_pair_id (Trade.pair_id t);
    let '(base, quote) := p in
    let cost := dec_mul (Trade.price t) (Trade.quantity t) in
    let d := decrease_locked cost (Trade.buyer_id t, quote) d in
    let d := credit (Trade.quantity t) (Trade.buyer_id t, base) d in
    let d := decrease_locked (Trade.quantity t) (Trade.seller_id t, base) d in
    mret (credit cost (Trade.seller_id t, quote) d)) d.

Definition lock_balance (o : Order.t) (d : db) : db * result unit :=
  match get_lock_asset_amount o with
  | Err e => (d, Err e)
  | Ok (asset, amount) =>
      let '(d, rows) := lock_available amount (Order.user_id o, asset) d in
      if Nat.eqb rows 0 then (d, Err ("insufficient " +:+ asset +:+ " balance for user " +:+ Order.user_id o))
      else (d, Ok tt)
  end.

Definition release_locked_balance (o : Order.t) (d : db) : db * result unit :=
  match get_lock_asset_amount o with
  | Err e => (d, Err e)
  | Ok (asset, amount) => (release_balance amount (Order.user_id o, asset) d, Ok tt)
  end.

Definition batch_update_orders_db (now : datetime) (os : list Order.t) (d : db) : db :=
  fold_left (fun d o => update_order_db now o d) os d.

(** ** Rows back to values *)

Definition row_side (s : string) : Side := if decide (s = "Buy") then Buy else Sell.

Definition row_order_type (s : string) : OrderType := if decide (s = "Market") then Market else Limit.

Definition row_tif (s : string) : TimeInForce :=
  if decide (s = "IOC") then IOC else if decide (s = "FOK") then FOK else GTC.

Definition row_status (s : string) : OrderStatus :=
  if decide (s = "PartiallyFilled") then PartiallyFilled
  else if decide (s = "Filled") then Filled
  else if decide (s = "Cancelled") then Cancelled
  else if decide (s = "Rejected") then Rejected else New.

Definition row_stp (s : string) : Stp.t :=
  if decide (s = "CancelTaker") then Stp.CancelTaker
  else if decide (s = "CancelMaker") then Stp.CancelMaker
  else if decide (s = "CancelBoth") then Stp.CancelBoth else Stp.None.

(** The query of [_load_order_db] does not select the lifecycle timestamps. *)
Definition row_to_order (id : uuid) (r : OrderRow.t) : Order.t :=
  Order.mk id (OrderRow.user_id r) (OrderRow.pair_id r) (row_side (OrderRow.side r))
    (row_order_type (OrderRow.order_type r)) (row_tif (OrderRow.tif r)) (of_numeric <$> OrderRow.price r)
    (of_numeric (OrderRow.quantity r)) (of_numeric (OrderRow.remaining r)) (row_status (OrderRow.status r))
    (row_stp (OrderRow.stp_mode r)) (OrderRow.version r) (OrderRow.sequence r) (OrderRow.created_at r)
    (OrderRow.updated_at r) (OrderRow.client_order_id r) None None None.

Definition load_order_db (id : uuid) (d : db) : option Order.t := row_to_order id <$> orders d !! id.

Definition row_to_order_json (id : uuid) (r : OrderRow.t) : Json := order_to_json (row_to_order id r).

Definition row_to_trade (id : uuid) (r : TradeRow.t) : Trade.t :=
  Trade.mk id (TradeRow.pair_id r) (TradeRow.buy_order_id r) (TradeRow.sell_order_id r) (TradeRow.buyer_id r)
    (TradeRow.seller_id r) (of_numeric (TradeRow.price r)) (of_numeric (TradeRow.quantity r))
    (TradeRow.sequence r) (TradeRow.created_at r).

Definition row_to_trade_json (id : uuid) (r : TradeRow.t) : Json := trade_to_json (row_to_trade id r).

(** Cancelling in the database only changes the status. *)
Definition cancel_order_in_db (pg_now : datetime) (id : uuid) (d : db) : db :=
  set_orders (alter (fun r => OrderRow.set (OrderRow.remaining r) "Cancelled" (OrderRow.version r) pg_now r) id
                (orders d)) d.
End Worker.
