(* ===== verification/PersistProps.v ===== *)
(** * Settlement and persistence: properties

    The aggregated balance deltas are the exact sums of the movements of the
    trades, so one UPDATE per user and asset settles like one settlement per
    trade and conserves every asset; the orders written by a persisted match. *)

From S2P Require Import Prelude Numbers Externals Fixed Types Codec Valkey MatchLua Json Db Persist.

Open Scope Z_scope.

(** ** Amounts with at most sixteen decimals *)

(** Prices and quantities have at most eight decimals, so their products have at
    most sixteen; such amounts add exactly as long as they stay below 2^96 units. *)
Definition fineQ (z : Z) : Q := z # 10000000000000000.

Lemma fineQ_add (a b : Z) : (fineQ a + fineQ b == fineQ (a + b))%Q.
Proof. unfold fineQ, Qeq, Qplus; cbn [Qnum Qden]. rewrite Pos2Z.inj_mul. lia. Qed.

Lemma fineQ_sub (a b : Z) : (fineQ a - fineQ b == fineQ (a - b))%Q.
Proof. unfold Qminus, Qopp, fineQ; cbn [Qnum Qden]. apply fineQ_add. Qed.

Lemma fineQ_le (a b : Z) : (fineQ a <= fineQ b)%Q <-> a <= b.
Proof. unfold fineQ, Qle; cbn. lia. Qed.

Lemma fineQ_nonneg (a : Z) : 0 <= a -> (0 <= fineQ a)%Q.
Proof. unfold fineQ, Qle; cbn. lia. Qed.

Lemma fineQ_representable (z : Z) : Z.abs z < 2 ^ 96 -> representable (fineQ z).
Proof. intros H. exists z, 16%nat. split; [done |]. split; [lia | reflexivity]. Qed.

Section Fine.
Context `{C : Crates, L : !CratesLaws C}.

(** The units of 10^-16 in a decimal, and decimals that are a whole, non-negative
    number of them. *)
Definition micro (d : decimal) : Z := Qfloor (dval d * inject_Z 10000000000000000).

Definition fine (d : decimal) : Prop := (dval d == fineQ (micro d))%Q /\ 0 <= micro d.

#[local] Arguments micro _ : simpl never.
#[local] Arguments fine _ : simpl never.

Lemma fine_intro (z : Z) (d : decimal) : (dval d == fineQ z)%Q -> 0 <= z -> fine d /\ micro d = z.
Proof.
  intros H Hz. assert (micro d = z) as E.
  { unfold micro. rewrite (Qfloor_comp _ (inject_Z z)); [apply Qfloor_Z |]. rewrite H.
    unfold fineQ, Qeq, Qmult, inject_Z; cbn [Qnum Qden]. rewrite Pos.mul_1_r. lia. }
  unfold fine. by rewrite E.
Qed.

Lemma fine_zero : fine dec_zero /\ micro dec_zero = 0.
Proof. apply fine_intro; [| lia]. rewrite dec_zero_val. reflexivity. Qed.

Lemma fine_add (x y : decimal) :
  fine x -> fine y -> micro x + micro y < 2 ^ 96 ->
  fine (dec_add x y) /\ micro (dec_add x y) = micro x + micro y.
Proof.
  intros [Hx Hx0] [Hy Hy0] Hb. apply fine_intro; [| lia].
  assert (dval x + dval y == fineQ (micro x + micro y))%Q as E by (by rewrite Hx, Hy, fineQ_add).
  rewrite dec_add_val; [exact E |]. eapply representable_proper; [symmetry; exact E |].
  apply fineQ_representable. lia.
Qed.

(** ** The movements of a trade *)

Definition cost (t : Trade.t) : decimal := dec_mul (Trade.price t) (Trade.quantity t).

(** Key, locked decrease, available increase. *)
Definition legs (t : Trade.t) : list ((string * string) * (Z * Z)) :=
  match parse_pair_id (Trade.pair_id t) with
  | Ok (base, quote) =>
      [((Trade.buyer_id t, quote), (micro (cost t), 0));
       ((Trade.buyer_id t, base), (0, micro (Trade.quantity t)));
       ((Trade.seller_id t, base), (micro (Trade.quantity t), 0));
       ((Trade.seller_id t, quote), (0, micro (cost t)))]
  | Err _ => []
  end.

Definition leg_at (key : string * string) (l : (string * string) * (Z * Z)) : Z * Z :=
  if decide (l.1 = key) then l.2 else (0, 0).

Definition taken (key : string * string) (t : Trade.t) : Z := sumZ ((fun l => (leg_at key l).1) <$> legs t).
Definition given (key : string * string) (t : Trade.t) : Z := sumZ ((fun l => (leg_at key l).2) <$> legs t).

(** What a list of trades takes from what a user has locked of an asset, and
    gives to what is available. *)
Definition total_taken (key : string * string) (ts : list Trade.t) : Z := sumZ (taken key <$> ts).
Definition total_given (key : string * string) (ts : list Trade.t) : Z := sumZ (given key <$> ts).

Definition weight (t : Trade.t) : Z := 2 * (micro (cost t) + micro (Trade.quantity t)).

(** Trades of well-formed pairs whose amounts add exactly. *)
Record settleable (ts : list Trade.t) : Prop := {
  se_pair : Forall (fun t => is_ok (parse_pair_id (Trade.pair_id t)) = true) ts;
  se_fine : Forall (fun t => fine (cost t) /\ fine (Trade.quantity t)) ts;
  se_sum : sumZ (weight <$> ts) < 2 ^ 96;
}.

(** ** Aggregation is exact *)

Definition entry (m : deltas) (key : string * string) : decimal * decimal := default (dec_zero, dec_zero) (m !! key).

(** Every entry is a fine amount of at most [B] units. *)
Definition bounded_deltas (B : Z) (m : deltas) : Prop :=
  forall key, fine (entry m key).1 /\ fine (entry m key).2 /\
              micro (entry m key).1 <= B /\ micro (entry m key).2 <= B.

Lemma entry_insert (key key' : string * string) (e : decimal * decimal) (m : deltas) :
  entry (<[key := e]> m) key' = if decide (key = key') then e else entry m key'.
Proof.
  unfold entry. case_decide; subst; [by rewrite lookup_insert_eq | by rewrite lookup_insert_ne].
Qed.

Lemma add_locked_spec (key : string * string) (x : decimal) (m : deltas) (B : Z) :
  bounded_deltas B m -> fine x -> B + micro x < 2 ^ 96 ->
  bounded_deltas (B + micro x) (add_locked key x m) /\
  forall key', micro (entry (add_locked key x m) key').1 =
                 micro (entry m key').1 + (leg_at key' (key, (micro x, 0))).1 /\
               micro (entry (add_locked key x m) key').2 = micro (entry m key').2.
Proof.
  intros Hm Hx Hb. unfold add_locked. fold (entry m key). destruct Hx as [Hxv Hx0].
  destruct (Hm key) as (H1 & H2 & H3 & H4).
  destruct (fine_add (entry m key).1 x) as [Ha Hs]; [done | done | lia |].
  split; intros key'; rewrite entry_insert; unfold leg_at; cbn [fst snd].
  - destruct (Hm key') as (? & ? & ? & ?). case_decide; cbn; split_and!; try done; lia.
  - case_decide; subst; cbn; lia.
Qed.

Lemma add_available_spec (key : string * string) (x : decimal) (m : deltas) (B : Z) :
  bounded_deltas B m -> fine x -> B + micro x < 2 ^ 96 ->
  bounded_deltas (B + micro x) (add_available key x m) /\
  forall key', micro (entry (add_available key x m) key').1 = micro (entry m key').1 /\
               micro (entry (add_available key x m) key').2 =
                 micro (entry m key').2 + (leg_at key' (key, (0, micro x))).2.
Proof.
  intros Hm Hx Hb. unfold add_available. fold (entry m key). destruct Hx as [Hxv Hx0].
  destruct (Hm key) as (H1 & H2 & H3 & H4).
  destruct (fine_add (entry m key).2 x) as [Ha Hs]; [done | done | lia |].
  split; intros key'; rewrite entry_insert; unfold leg_at; cbn [fst snd].
  - destruct (Hm key') as (? & ? & ? & ?). case_decide; cbn; split_and!; try done; lia.
  - case_decide; subst; cbn; lia.
Qed.

Lemma trade_deltas_spec (t : Trade.t) (m : deltas) (B : Z) :
  bounded_deltas B m -> fine (cost t) -> fine (Trade.quantity t) -> B + weight t < 2 ^ 96 ->
  is_ok (parse_pair_id (Trade.pair_id t)) = true ->
  exists m', trade_deltas t m = Ok m' /\ bounded_deltas (B + weight t) m' /\
    forall key, micro (entry m' key).1 = micro (entry m key).1 + taken key t /\
                micro (entry m' key).2 = micro (entry m key).2 + given key t.
Proof.
  intros Hm Hc Hq Hb Hp. unfold trade_deltas, taken, given, legs, weight in *.
  destruct (parse_pair_id (Trade.pair_id t)) as [[base quote] |]; [| done]. cbn [mbind result_bind].
  fold (cost t). pose proof (proj2 Hc). pose proof (proj2 Hq).
  destruct (add_locked_spec (Trade.buyer_id t, quote) (cost t) m B) as [B1 E1]; [done | done | lia |].
  destruct (add_available_spec (Trade.buyer_id t, base) (Trade.quantity t) _ _ B1) as [B2 E2]; [done | lia |].
  destruct (add_locked_spec (Trade.seller_id t, base) (Trade.quantity t) _ _ B2) as [B3 E3]; [done | lia |].
  destruct (add_available_spec (Trade.seller_id t, quote) (cost t) _ _ B3) as [B4 E4]; [done | lia |].
  eexists. split; [reflexivity |]. split.
  - replace (B + 2 * (micro (cost t) + micro (Trade.quantity t)))
      with (B + micro (cost t) + micro (Trade.quantity t) + micro (Trade.quantity t) + micro (cost t)) by lia.
    exact B4.
  - intros key. destruct (E1 key), (E2 key), (E3 key), (E4 key). cbn [fmap list_fmap].
    unfold leg_at in *; cbn [fst snd sumZ foldr] in *. unfold sumZ; cbn [foldr].
    repeat case_decide; cbn in *; lia.
Qed.

Lemma balance_deltas_spec (ts : list Trade.t) (m : deltas) (B : Z) :
  bounded_deltas B m -> 0 <= B ->
  Forall (fun t => is_ok (parse_pair_id (Trade.pair_id t)) = true) ts ->
  Forall (fun t => fine (cost t) /\ fine (Trade.quantity t)) ts -> B + sumZ (weight <$> ts) < 2 ^ 96 ->
  exists m', balance_deltas ts m = Ok m' /\ bounded_deltas (B + sumZ (weight <$> ts)) m' /\
    forall key, micro (entry m' key).1 = micro (entry m key).1 + total_taken key ts /\
                micro (entry m' key).2 = micro (entry m key).2 + total_given key ts.
Proof.
  intros Hm HB Hp Hf. revert m B Hm HB. induction Hf as [| t ts [Hc Hq] Hf IH]; intros m B Hm HB Hs.
  - exists m. split; [done |]. unfold total_taken, total_given. cbn. rewrite Z.add_0_r. split; [done |]. lia.
  - apply Forall_cons in Hp as [Hpt Hp]. cbn [fmap list_fmap sumZ foldr] in Hs.
    fold (weight <$> ts) in Hs. fold (sumZ (weight <$> ts)) in Hs.
    assert (0 <= sumZ (weight <$> ts)) as Hws.
    { apply sumZ_nonneg, Forall_fmap. eapply Forall_impl; [exact Hf |]. cbn. unfold weight.
      intros x [[_ ?] [_ ?]]. lia. }
    assert (0 <= weight t) as Hw by (unfold weight; pose proof (proj2 Hc); pose proof (proj2 Hq); lia).
    destruct (trade_deltas_spec t m B Hm Hc Hq) as (m1 & E1 & B1 & S1); [lia | done |].
    destruct (IH Hp m1 (B + weight t) B1) as (m2 & E2 & B2 & S2); [lia | lia |].
    exists m2. cbn [balance_deltas]. rewrite E1. split; [exact E2 |].
    unfold total_taken, total_given. cbn [fmap list_fmap sumZ foldr].
    fold (weight <$> ts) (sumZ (weight <$> ts)). rewrite Z.add_assoc. split; [done |].
    intros key. destruct (S1 key), (S2 key). unfold total_taken, total_given, sumZ in *.
    cbn [fmap list_fmap] in *. lia.
Qed.

Lemma deltas_of_trades (ts : list Trade.t) :
  settleable ts ->
  exists m, balance_deltas ts ∅ = Ok m /\
    forall key, (fine (entry m key).1 /\ micro (entry m key).1 = total_taken key ts) /\
                (fine (entry m key).2 /\ micro (entry m key).2 = total_given key ts).
Proof.
  intros [Hp Hf Hs]. destruct fine_zero as [Hz Ez].
  assert (forall key, entry ∅ key = (dec_zero, dec_zero)) as He.
  { intros key. unfold entry. by rewrite lookup_empty. }
  destruct (balance_deltas_spec ts ∅ 0) as (m & E & Bm & Sm); try done.
  { intros key. rewrite He. cbn. split_and!; try done; lia. }
  exists m. split; [done |]. intros key. destruct (Bm key) as (? & ? & _), (Sm key) as [S1 S2].
  rewrite He in S1, S2. cbn in S1, S2. split; split; try done; lia.
Qed.

Lemma taken_nonneg (key : string * string) (t : Trade.t) :
  fine (cost t) -> fine (Trade.quantity t) -> 0 <= taken key t /\ 0 <= given key t.
Proof.
  intros [_ Hc] [_ Hq]. unfold taken, given, legs.
  destruct (parse_pair_id _) as [[b q] |]; cbn [fmap list_fmap sumZ foldr]; [| cbn; lia].
  unfold leg_at; cbn [fst snd]. repeat case_decide; cbn; lia.
Qed.

(** The sorted list holds the entries of the map, each key once. *)
Lemma sorted_deltas_entries (m : deltas) : sorted_deltas m ≡ₚ map_to_list m.
Proof. apply merge_sort_Permutation. Qed.

Lemma sorted_deltas_keys (m : deltas) : NoDup (fst <$> sorted_deltas m).
Proof. rewrite sorted_deltas_entries. apply NoDup_fst_map_to_list. Qed.

Lemma sorted_deltas_map (m : deltas) : list_to_map (sorted_deltas m) = m.
Proof.
  rewrite (list_to_map_proper _ (map_to_list m)); [apply list_to_map_to_list | apply sorted_deltas_keys |].
  apply sorted_deltas_entries.
Qed.

(** ** Settlement *)

Context `{X : !Sqlx C, XL : !SqlxLaws C L X}.

(** A row moved by whole units: what is taken leaves [locked], what is given
    joins [available]. *)
Definition moved (tk gv : Z) (r : BalanceRow) : BalanceRow := (r.1 + fineQ gv, r.2 - fineQ tk)%Q.

(** Every user has locked what the trades take. *)
Definition covered (ts : list Trade.t) (d : db) : Prop :=
  forall key, (fineQ (total_taken key ts) <= (balance d key).2)%Q.

Lemma to_numeric_fine (d : decimal) : fine d -> (to_numeric d == fineQ (micro d))%Q.
Proof. intros [H _]. by rewrite to_numeric_val. Qed.

Lemma settle_row_moved (ld ai : decimal) (r : BalanceRow) :
  fine ld -> fine ai -> (fineQ (micro ld) <= r.2)%Q ->
  row_eq (settle_row ld ai r) (moved (micro ld) (micro ai) r).
Proof.
  intros Hl Ha Hc. unfold settle_row, moved, row_eq; cbn [fst snd].
  rewrite (to_numeric_fine ai Ha), (to_numeric_fine ld Hl). split; [reflexivity |].
  apply greatest_zero. lra.
Qed.

Lemma settle_upserts_balance (ds : list ((string * string) * (decimal * decimal))) (d : db) (key : string * string) :
  NoDup (fst <$> ds) -> Forall (fun e => (0 <= to_numeric e.2.1)%Q) ds ->
  row_eq (balance (settle_upserts ds d) key)
    match (list_to_map ds : deltas) !! key with
    | Some e => settle_row e.1 e.2 (balance d key)
    | None => balance d key
    end.
Proof.
  unfold settle_upserts. revert d. induction ds as [| [k e] ds IH]; intros d Hnd Hpos; [reflexivity |].
  cbn [fmap list_fmap] in Hnd. apply NoDup_cons in Hnd as [Hk Hnd]. apply Forall_cons in Hpos as [He Hpos].
  cbn [fold_left fst snd]. rewrite IH by done. cbn [list_to_map foldr fst snd].
  change (foldr _ ∅ ds) with (list_to_map ds : deltas).
  destruct (decide (k = key)) as [<- | Hne].
  - rewrite (not_elem_of_list_to_map_1 (M := gmap (string * string)) ds k Hk).
    rewrite (lookup_insert_eq (M := gmap (string * string))). by apply settle_upsert_eq.
  - rewrite (lookup_insert_ne (M := gmap (string * string))) by done.
    destruct (_ !! key); by rewrite settle_upsert_ne.
Qed.

Lemma moved_zero (r : BalanceRow) : row_eq (moved 0 0 r) r.
Proof. unfold moved, row_eq, fineQ; cbn [fst snd]. split; ring. Qed.

Lemma moved_proper (tk gv : Z) (r r' : BalanceRow) : row_eq r r' -> row_eq (moved tk gv r) (moved tk gv r').
Proof. intros [H1 H2]. unfold moved, row_eq; cbn [fst snd]. by rewrite H1, H2. Qed.

(** One UPDATE per user and asset moves what the trades move in total. *)
Lemma settle_aggregate (ts : list Trade.t) (m : deltas) (d : db) (key : string * string) :
  settleable ts -> covered ts d -> balance_deltas ts ∅ = Ok m ->
  row_eq (balance (settle_upserts (sorted_deltas m) d) key)
    (moved (total_taken key ts) (total_given key ts) (balance d key)).
Proof.
  intros Hse Hcov Hm. destruct (deltas_of_trades ts Hse) as (m' & E & Hs).
  rewrite Hm in E. injection E as <-.
  etransitivity; [apply settle_upserts_balance; [apply sorted_deltas_keys |] |].
  - rewrite sorted_deltas_entries. apply Forall_forall. intros [k e] Hin%elem_of_map_to_list.
    destruct (Hs k) as [[[Hv Hp] _] _]. unfold entry in Hv, Hp. rewrite Hin in Hv, Hp. cbn in Hv, Hp |- *.
    rewrite to_numeric_val, Hv. by apply fineQ_nonneg.
  - rewrite sorted_deltas_map. destruct (Hs key) as [[Hf1 <-] [Hf2 <-]].
    specialize (Hcov key). rewrite <- (proj2 (proj1 (Hs key))) in Hcov.
    unfold entry in *. destruct (m !! key) as [e |]; cbn [from_option id] in *.
    + by apply settle_row_moved.
    + unfold id; cbn [fst snd]. rewrite (proj2 fine_zero). by rewrite moved_zero.
Qed.

(** ** One settlement per trade *)

(** What has moved since [d0], per user and asset. *)
Definition moved_since (d0 d : db) (f : string * string -> Z * Z) : Prop :=
  forall key, row_eq (balance d key) (moved (f key).1 (f key).2 (balance d0 key)).

Definition plus_leg (f : string * string -> Z * Z) (l : (string * string) * (Z * Z)) (key : string * string) : Z * Z :=
  ((f key).1 + (leg_at key l).1, (f key).2 + (leg_at key l).2).

Lemma moved_decrease (d0 d : db) (f : string * string -> Z * Z) (x : decimal) (k : string * string) :
  moved_since d0 d f -> fine x -> (fineQ ((f k).1 + micro x) <= (balance d0 k).2)%Q ->
  moved_since d0 (decrease_locked x k d) (plus_leg f (k, (micro x, 0))).
Proof.
  intros Hd Hx Hc key. unfold plus_leg, leg_at; cbn [fst snd].
  assert (0 <= to_numeric x)%Q as Hx0.
  { rewrite (to_numeric_fine x Hx). apply fineQ_nonneg, (proj2 Hx). }
  destruct (decide (k = key)) as [<- | Hne].
  - rewrite (decrease_locked_eq x k d Hx0). destruct (Hd k) as [H1 H2].
    unfold moved, row_eq in *; cbn [fst snd] in *. rewrite Z.add_0_r. split; [done |].
    rewrite H2, (to_numeric_fine x Hx), <- !fineQ_add. rewrite greatest_zero; [ring |].
    rewrite <- fineQ_add in Hc. lra.
  - rewrite decrease_locked_ne by done. cbn [fst snd]. rewrite !Z.add_0_r. apply Hd.
Qed.

Lemma moved_credit (d0 d : db) (f : string * string -> Z * Z) (x : decimal) (k : string * string) :
  moved_since d0 d f -> fine x -> moved_since d0 (credit x k d) (plus_leg f (k, (0, micro x))).
Proof.
  intros Hd Hx key. unfold plus_leg, leg_at; cbn [fst snd].
  destruct (decide (k = key)) as [<- | Hne].
  - rewrite (credit_eq x k d). destruct (Hd k) as [H1 H2].
    unfold moved, row_eq in *; cbn [fst snd] in *. rewrite Z.add_0_r. split; [| done].
    rewrite H1, (to_numeric_fine x Hx), <- fineQ_add. ring.
  - rewrite credit_ne by done. cbn [fst snd]. rewrite !Z.add_0_r. apply Hd.
Qed.

Definition plus_trade (f : string * string -> Z * Z) (t : Trade.t) (key : string * string) : Z * Z :=
  ((f key).1 + taken key t, (f key).2 + given key t).

Lemma moved_trade (d0 d : db) (f : string * string -> Z * Z) (t : Trade.t) :
  moved_since d0 d f -> is_ok (parse_pair_id (Trade.pair_id t)) = true ->
  fine (cost t) -> fine (Trade.quantity t) ->
  (forall key, (fineQ ((f key).1 + taken key t) <= (balance d0 key).2)%Q) ->
  moved_since d0 (settle_trade_balances t d).1 (plus_trade f t).
Proof.
  intros Hd Hp Hc Hq Hcov. unfold settle_trade_balances, transaction.
  unfold plus_trade, taken, given, legs in *.
  destruct (parse_pair_id (Trade.pair_id t)) as [[base quote] |]; [| done].
  cbn [mbind result_bind mret result_ret fst]. fold (cost t).
  pose proof (proj2 Hc). pose proof (proj2 Hq).
  assert (forall key a b, a <= b -> (fineQ b <= (balance d0 key).2)%Q -> (fineQ a <= (balance d0 key).2)%Q) as Hle.
  { intros key a b Hab Hb. eapply Qle_trans; [by apply fineQ_le | exact Hb]. }
  pose proof (moved_decrease d0 d f (cost t) (Trade.buyer_id t, quote) Hd Hc) as M1.
  specialize (M1 ltac:(eapply Hle; [| apply (Hcov (Trade.buyer_id t, quote))]; cbn [fmap list_fmap sumZ foldr];
    unfold leg_at; cbn [fst snd]; unfold sumZ; cbn [foldr]; repeat case_decide; cbn; try done; lia)).
  pose proof (moved_credit _ _ _ _ (Trade.buyer_id t, base) M1 Hq) as M2.
  pose proof (moved_decrease _ _ _ (Trade.quantity t) (Trade.seller_id t, base) M2 Hq) as M3.
  specialize (M3 ltac:(eapply Hle; [| apply (Hcov (Trade.seller_id t, base))]; unfold plus_leg;
    cbn [fmap list_fmap sumZ foldr];
    unfold leg_at; cbn [fst snd]; unfold sumZ; cbn [foldr]; repeat case_decide; cbn; try done; lia)).
  pose proof (moved_credit _ _ _ _ (Trade.seller_id t, quote) M3 Hc) as M4.
  intros key. specialize (M4 key). unfold plus_leg in M4. cbn [fst snd fmap list_fmap] in *.
  unfold sumZ; cbn [foldr]. rewrite !Z.add_0_r, !Z.add_assoc. exact M4.
Qed.

Definition settle_each (ts : list Trade.t) (d : db) : db :=
  fold_left (fun d t => (settle_trade_balances t d).1) ts d.

Lemma moved_trades (d0 d : db) (f : string * string -> Z * Z) (ts : list Trade.t) :
  moved_since d0 d f ->
  Forall (fun t => is_ok (parse_pair_id (Trade.pair_id t)) = true) ts ->
  Forall (fun t => fine (cost t) /\ fine (Trade.quantity t)) ts ->
  (forall key, (fineQ ((f key).1 + total_taken key ts) <= (balance d0 key).2)%Q) ->
  moved_since d0 (settle_each ts d) (fun key => ((f key).1 + total_taken key ts, (f key).2 + total_given key ts)).
Proof.
  unfold settle_each. revert d f. induction ts as [| t ts IH]; intros d f Hd Hp Hf Hcov.
  - intros key. cbn. rewrite !Z.add_0_r. apply Hd.
  - apply Forall_cons in Hp as [Hpt Hp]. apply Forall_cons in Hf as [[Hc Hq] Hf].
    assert (forall key, 0 <= total_taken key ts) as Hnn.
    { intros key. apply sumZ_nonneg, Forall_fmap. eapply Forall_impl; [exact Hf |]. cbn.
      intros x [? ?]. by apply taken_nonneg. }
    unfold total_taken, total_given in *. cbn [fmap list_fmap sumZ foldr] in *.
    pose proof (moved_trade d0 d f t Hd Hpt Hc Hq) as M.
    specialize (M ltac:(intros key; eapply Qle_trans; [| apply (Hcov key)]; apply fineQ_le;
      specialize (Hnn key); unfold sumZ in *; lia)).
    cbn [fold_left]. specialize (IH _ _ M Hp Hf). unfold plus_trade in IH; cbn [fst snd] in IH.
    specialize (IH ltac:(intros key; specialize (Hcov key); unfold sumZ in *; by rewrite <- Z.add_assoc)).
    intros key. specialize (IH key). cbn [fst snd] in *. unfold sumZ in *. by rewrite !Z.add_assoc.
Qed.


(** ** Conservation *)

(** What a group of users holds of an asset, available or locked. *)
Definition holdings (users : list string) (asset : string) (d : db) : Q :=
  sumQ ((fun u => ((balance d (u, asset)).1 + (balance d (u, asset)).2)%Q) <$> users).

Lemma sum_at (users : list string) (u asset asset' : string) (x : Z) :
  NoDup users -> u ∈ users ->
  sumZ ((fun v => if decide ((u, asset) = (v, asset')) then x else 0) <$> users) =
  if decide (asset = asset') then x else 0.
Proof.
  intros Hnd Hu. induction Hnd as [| v users Hv Hnd IH]; [by apply elem_of_nil in Hu |].
  cbn [fmap list_fmap sumZ foldr]. fold (sumZ ((fun v => if decide ((u, asset) = (v, asset')) then x else 0) <$> users)).
  destruct (decide (u = v)) as [<- | Hne].
  - assert (sumZ ((fun v => if decide ((u, asset) = (v, asset')) then x else 0) <$> users) = 0) as ->.
    { clear IH Hu. induction users as [| w users IHu]; cbn; [done |].
      apply not_elem_of_cons in Hv as [Hw Hv]. apply NoDup_cons in Hnd as [_ Hnd].
      rewrite decide_False by congruence. unfold sumZ in IHu. rewrite IHu by done. lia. }
    repeat case_decide; try congruence; lia.
  - rewrite decide_False by congruence. apply elem_of_cons in Hu as [? | Hu]; [done |]. rewrite IH by done. lia.
Qed.

Lemma trade_balanced (users : list string) (asset : string) (t : Trade.t) :
  NoDup users -> Trade.buyer_id t ∈ users -> Trade.seller_id t ∈ users ->
  sumZ ((fun u => given (u, asset) t - taken (u, asset) t) <$> users) = 0.
Proof.
  intros Hnd Hb Hs. unfold given, taken, legs.
  destruct (parse_pair_id (Trade.pair_id t)) as [[base quote] |].
  2: { induction users; cbn; [done |]. unfold sumZ; cbn. clear. induction users; cbn; lia. }
  set (c := micro (cost t)). set (q := micro (Trade.quantity t)).
  transitivity
    (sumZ ((fun u => if decide ((Trade.buyer_id t, quote) = (u, asset)) then - c else 0) <$> users) +
     sumZ ((fun u => if decide ((Trade.buyer_id t, base) = (u, asset)) then q else 0) <$> users) +
     sumZ ((fun u => if decide ((Trade.seller_id t, base) = (u, asset)) then - q else 0) <$> users) +
     sumZ ((fun u => if decide ((Trade.seller_id t, quote) = (u, asset)) then c else 0) <$> users)).
  - clear. unfold sumZ. induction users as [| u users IH]; [done |].
    cbn [fmap list_fmap foldr] in *. rewrite IH. unfold leg_at; cbn [fst snd].
    repeat case_decide; cbn [fst snd]; lia.
  - rewrite !sum_at by done. repeat case_decide; lia.
Qed.

Lemma holdings_moved (users : list string) (asset : string) (d d' : db) (tk gv : string * string -> Z) :
  (forall key, row_eq (balance d' key) (moved (tk key) (gv key) (balance d key))) ->
  (holdings users asset d' ==
   holdings users asset d + fineQ (sumZ ((fun u => (gv (u, asset) - tk (u, asset))%Z) <$> users)))%Q.
Proof.
  intros H. unfold holdings, sumQ, sumZ. induction users as [| u users IH]; cbn [fmap list_fmap foldr].
  - unfold fineQ. ring.
  - rewrite IH. destruct (H (u, asset)) as [H1 H2]. rewrite H1, H2. unfold moved; cbn [fst snd].
    rewrite <- fineQ_add, <- fineQ_sub. ring.
Qed.

Lemma totals_balanced (users : list string) (asset : string) (ts : list Trade.t) :
  NoDup users -> Forall (fun t => Trade.buyer_id t ∈ users /\ Trade.seller_id t ∈ users) ts ->
  sumZ ((fun u => total_given (u, asset) ts - total_taken (u, asset) ts) <$> users) = 0.
Proof.
  intros Hnd. induction 1 as [| t ts [Hb Hs] _ IH].
  - clear. unfold sumZ. induction users as [| u users IH]; cbn in *; lia.
  - pose proof (trade_balanced users asset t Hnd Hb Hs) as Ht.
    transitivity (sumZ ((fun u => given (u, asset) t - taken (u, asset) t) <$> users) +
                  sumZ ((fun u => total_given (u, asset) ts - total_taken (u, asset) ts) <$> users)); [| lia].
    clear. unfold total_given, total_taken, sumZ. induction users as [| u users IHu]; [done |].
    cbn [fmap list_fmap foldr] in *. rewrite IHu. lia.
Qed.

(** C16: settling well-formed trades of a match conserves every asset when every
    user has locked at least what the trades take: what all the users
    concerned hold together, available and locked, does not change.  (A market
    buy locks nothing, so it is outside: see [market_buy_uncharged].) *)
Theorem settlement_conserves (ts : list Trade.t) (d : db) (m : deltas) (users : list string) (asset : string) :
  settleable ts -> covered ts d -> balance_deltas ts ∅ = Ok m ->
  NoDup users -> Forall (fun t => Trade.buyer_id t ∈ users /\ Trade.seller_id t ∈ users) ts ->
  (holdings users asset (settle_upserts (sorted_deltas m) d) == holdings users asset d)%Q.
Proof.
  intros Hse Hcov Hm Hnd Hu.
  rewrite (holdings_moved users asset d _ (fun key => total_taken key ts) (fun key => total_given key ts)).
  - rewrite totals_balanced by done. unfold fineQ. ring.
  - intros key. by apply settle_aggregate.
Qed.

(** ** One order of the gateway *)

Lemma orders_insert_trades (ts : list Trade.t) (d : db) :
  orders (fold_left (fun d t => insert_trade t d) ts d) = orders d /\
  balances (fold_left (fun d t => insert_trade t d) ts d) = balances d.
Proof. revert d. induction ts as [| t ts IH]; intros d; [done |]. cbn [fold_left]. by destruct (IH (insert_trade t d)) as [-> ->]. Qed.

Lemma orders_settle_batch (ds : list ((string * string) * (decimal * decimal))) (d : db) :
  orders (settle_batch ds d) = orders d.
Proof. unfold settle_batch. revert d. induction ds as [| e ds IH]; intros d; [done |]. cbn [fold_left]. by rewrite IH. Qed.

Lemma release_leftover_orders (o : Order.t) (d d' : db) : release_leftover o d = Ok d' -> orders d' = orders d.
Proof.
  unfold release_leftover. intros H. case_cond; [| by injection H as <-].
  destruct (remaining_locked o); cbn in H; [by injection H as <- | done].
Qed.

(** *** What fills leave of the row of a resting order *)

(** The columns no fill writes. *)
Definition row_fixed (r : OrderRow.t) :=
  (OrderRow.user_id r, OrderRow.pair_id r, OrderRow.side r, OrderRow.order_type r, OrderRow.tif r, OrderRow.price r,
   OrderRow.quantity r, OrderRow.stp_mode r, OrderRow.sequence r, OrderRow.created_at r, OrderRow.client_order_id r,
   OrderRow.received_at r, OrderRow.matched_at r, OrderRow.persisted_at r).

(** A row before and after fills of the quantities [qs]: a row that is closed, or
    that no fill names, stays; an open one loses the quantities, is "Filled" when
    they reach what remained and "PartiallyFilled" otherwise. *)
Record row_filled (qs : list Q) (r r' : OrderRow.t) : Prop := {
  rf_fixed : row_fixed r' = row_fixed r;
  rf_closed : OrderRow.status r <> "New" -> OrderRow.status r <> "PartiallyFilled" -> r' = r;
  rf_idle : qs = [] -> r' = r;
  rf_partial : OrderRow.status r = "New" \/ OrderRow.status r = "PartiallyFilled" -> qs <> [] ->
    (sumQ qs < OrderRow.remaining r)%Q ->
    (OrderRow.remaining r' == OrderRow.remaining r - sumQ qs)%Q /\ OrderRow.status r' = "PartiallyFilled";
  rf_full : OrderRow.status r = "New" \/ OrderRow.status r = "PartiallyFilled" -> qs <> [] ->
    (OrderRow.remaining r <= sumQ qs)%Q -> (OrderRow.remaining r' == 0)%Q /\ OrderRow.status r' = "Filled";
}.

Lemma row_filled_nil (r : OrderRow.t) : row_filled [] r r.
Proof. by split. Qed.

Lemma fill_row_filled (qty : decimal) (now : datetime) (r : OrderRow.t) :
  row_filled [to_numeric qty] r (fill_row qty now r).
Proof.
  unfold fill_row. destruct (decide (open_status (OrderRow.status r))) as [Ho | Ho].
  2: { unfold open_status in Ho. split; try done; tauto. }
  cbn zeta. set (left := greatest _ 0). assert (sumQ [to_numeric qty] == to_numeric qty)%Q as Es by (cbn; ring).
  split; [done | intros; destruct Ho; congruence | done | |]; cbn [OrderRow.remaining OrderRow.status OrderRow.set];
    intros _ _ Hq; rewrite Es in Hq.
  - assert (left == OrderRow.remaining r - to_numeric qty)%Q as El by (apply greatest_zero; lra).
    rewrite Es. split; [exact El |]. destruct (Qeq_bool left 0) eqn:E; [| done].
    apply Qeq_bool_iff in E. rewrite El in E. lra.
  - assert (left == 0)%Q as El by (apply greatest_nonpos; lra).
    split; [exact El |]. by rewrite (proj2 (Qeq_bool_iff left 0) El).
Qed.

(** One more fill after others, all of them of quantities that are not negative. *)
Lemma row_filled_snoc (qs : list Q) (q : Q) (r r1 r2 : OrderRow.t) :
  (0 <= q)%Q -> row_filled qs r r1 -> row_filled [q] r1 r2 -> row_filled (qs ++ [q]) r r2.
Proof.
  intros Hq [F1 C1 I1 P1 A1] [F2 C2 I2 P2 A2].
  assert (sumQ (qs ++ [q]) == sumQ qs + q)%Q as Es by (rewrite sumQ_app; cbn; ring).
  assert (sumQ [q] == q)%Q as Eq by (cbn; ring).
  destruct (decide (qs = [])) as [-> | Hne].
  { rewrite (I1 eq_refl) in *. by split. }
  split; [congruence | | by destruct qs | |]; [| intros Ho _ Hs; rewrite Es in Hs ..].
  - intros H1 H2. rewrite (C1 H1 H2) in *. by apply C2.
  - destruct (P1 Ho Hne) as [R1 S1]; [lra |]. rewrite R1 in *.
    destruct (P2 (or_intror S1)) as [R2 S2]; [done | rewrite Eq; lra |]. split; [| done]. rewrite R2, Es, Eq. ring.
  - destruct (Qlt_le_dec (sumQ qs) (OrderRow.remaining r)) as [Hlt | Hle].
    + destruct (P1 Ho Hne Hlt) as [R1 S1]. apply (A2 (or_intror S1)); [done |]. rewrite Eq, R1. lra.
    + destruct (A1 Ho Hne Hle) as [R1 S1]. rewrite (C2 ltac:(by rewrite S1) ltac:(by rewrite S1)). done.
Qed.

(** The row an order ends up with: rested orders keep the inserted row, the
    others are updated once more. *)
Definition final_row (now pg_now : datetime) (o : Order.t) (seq : Z) : OrderRow.t :=
  let r := row_of_order o now pg_now seq in
  if order_rests o then r
  else OrderRow.set (to_numeric (Order.remaining o)) (status_str (Order.status o)) (Order.version o + 1) now r.

(** The rows of a committed order. *)
Lemma persisted_rows (now pg_now : datetime) (o : Order.t) (ts : list Trade.t)
    (fills : list LuaTrade.t) (d d' : db) :
  persist_order now pg_now o ts fills d = (d', Ok tt) ->
  ~ order_conflict o d -> fill_of (Order.id o) fills = None ->
  orders d' !! Order.id o = Some (final_row now pg_now o (order_seq d)) /\
  forall id, id <> Order.id o ->
    orders d' !! id = (fun r => match fill_of id fills with
                                | Some qty => fill_row qty now r
                                | None => r
                                end) <$> orders d !! id.
Proof.
  unfold persist_order, transaction. intros H Hnc Hnf.
  destruct (persist_order_tx now pg_now o ts fills d) as [d1 |] eqn:E; [| done]. injection H as <-.
  unfold persist_order_tx in E. inv_ok.
  match goal with H : release_leftover _ _ = Ok _ |- _ => apply release_leftover_orders in H as Ho end.
  rewrite Ho. clear Ho.
  assert (forall (b : bool) (x y : db), orders (if b then x else y) = if b then orders x else orders y) as Hif
    by (by intros []).
  rewrite Hif. unfold update_order, fill_resting_batch. cbn [orders set_orders].
  rewrite orders_settle_batch, (proj1 (orders_insert_trades ts _)). unfold insert_order. cbn [orders].
  rewrite decide_False by done. unfold final_row. split.
  - destruct (order_rests o); rewrite ?lookup_alter_eq, map_lookup_imap, lookup_insert_eq; cbn; by rewrite Hnf.
  - intros id Hid.
    destruct (order_rests o); rewrite ?lookup_alter_ne by done; rewrite map_lookup_imap, lookup_insert_ne by done;
      by destruct (orders d !! id).
Qed.

(** Persisting a new order stores its row with the remaining quantity and the
    status of the match, and updates each other row by its fill, and only it. *)
Theorem persist_order_rows (now pg_now : datetime) (o : Order.t) (ts : list Trade.t)
    (fills : list LuaTrade.t) (d d' : db) :
  persist_order now pg_now o ts fills d = (d', Ok tt) ->
  ~ order_conflict o d -> fill_of (Order.id o) fills = None ->
  orders d' !! Order.id o = Some (final_row now pg_now o (order_seq d)) /\
  forall id, id <> Order.id o ->
    orders d' !! id = (fun r => match fill_of id fills with
                                | Some qty => fill_row qty now r
                                | None => r
                                end) <$> orders d !! id.
Proof. apply persisted_rows. Qed.

(** What the release of a resolved order does to a balance. *)
Definition released (o : Order.t) (key : string * string) (r : BalanceRow) : BalanceRow :=
  if fully_resolved o && negb (dec_eqb (Order.remaining o) dec_zero) then
    match remaining_locked o with
    | Ok (asset, amount) => if decide ((Order.user_id o, asset) = key) then settle_row amount amount r else r
    | Err _ => r
    end
  else r.

Lemma settle_batch_lookup (ds : list ((string * string) * (decimal * decimal))) (d : db) (key : string * string) :
  NoDup (fst <$> ds) ->
  balances (settle_batch ds d) !! key =
  (match (list_to_map ds : deltas) !! key with
   | Some e => settle_row e.1 e.2
   | None => id
   end) <$> balances d !! key.
Proof.
  unfold settle_batch. revert d. induction ds as [| [k e] ds IH]; intros d Hnd.
  - cbn. by destruct (balances d !! key).
  - cbn [fmap list_fmap] in Hnd. apply NoDup_cons in Hnd as [Hk Hnd].
    cbn [fold_left fst snd]. rewrite IH, settle_update_lookup by done. cbn [list_to_map foldr fst snd].
    change (foldr _ ∅ ds) with (list_to_map ds : deltas).
    destruct (decide (k = key)) as [<- | Hne].
    + rewrite (not_elem_of_list_to_map_1 (M := gmap (string * string)) ds k Hk).
      rewrite (lookup_insert_eq (M := gmap (string * string))). by destruct (balances d !! k).
    + by rewrite (lookup_insert_ne (M := gmap (string * string))).
Qed.

Lemma release_leftover_balance (o : Order.t) (d d' : db) (key : string * string) :
  release_leftover o d = Ok d' -> balances d' !! key = released o key <$> balances d !! key.
Proof.
  unfold release_leftover, released. intros H.
  destruct (fully_resolved o && negb (dec_eqb (Order.remaining o) dec_zero)).
  - destruct (remaining_locked o) as [[asset amount] |]; [| done]. cbn in H. injection H as <-.
    unfold release_balance. rewrite settle_update_lookup. cbn [fst snd].
    case_decide; by destruct (balances d !! key).
  - injection H as <-. by destruct (balances d !! key).
Qed.

Lemma persist_order_lookup (now pg_now : datetime) (o : Order.t) (ts : list Trade.t)
    (fills : list LuaTrade.t) (d d' : db) (m : deltas) (key : string * string) :
  persist_order_tx now pg_now o ts fills d = Ok d' -> balance_deltas ts ∅ = Ok m ->
  balances d' !! key =
  (fun r => released o key match m !! key with
                           | Some e => settle_row e.1 e.2 r
                           | None => r
                           end) <$> balances d !! key.
Proof.
  intros E Hm. unfold persist_order_tx in E. rewrite Hm in E. cbn [mbind result_bind] in E.
  rewrite (release_leftover_balance _ _ _ _ E).
  assert (forall (b : bool) (x y : db), balances (if b then x else y) = if b then balances x else balances y) as Hif
    by (by intros []).
  rewrite Hif. unfold update_order, fill_resting_batch. cbn [balances set_orders].
  replace (if order_rests o then _ else _) with
    (balances (settle_batch (sorted_deltas m)
       (fold_left (fun d t => insert_trade t d) ts (insert_order o now pg_now d)))) by (by destruct (order_rests o)).
  rewrite settle_batch_lookup by apply sorted_deltas_keys. rewrite sorted_deltas_map.
  rewrite (proj2 (orders_insert_trades ts _)). cbn [balances insert_order].
  destruct (balances d !! key); cbn; [| done]. by destruct (m !! key).
Qed.

Lemma remaining_locked_ok (o : Order.t) :
  is_ok (parse_pair_id (Order.pair_id o)) = true -> exists l, remaining_locked o = Ok l.
Proof. unfold remaining_locked. destruct (parse_pair_id _) as [[b q] |]; cbn; [eauto | done]. Qed.

(** Well-formed trades always commit. *)
Lemma persist_order_commits (now pg_now : datetime) (o : Order.t) (ts : list Trade.t)
    (fills : list LuaTrade.t) (d : db) :
  settleable ts -> is_ok (parse_pair_id (Order.pair_id o)) = true ->
  exists d', persist_order_tx now pg_now o ts fills d = Ok d' /\
             persist_order now pg_now o ts fills d = (d', Ok tt).
Proof.
  intros Hse Hp. destruct (deltas_of_trades ts Hse) as (m & Hm & _).
  unfold persist_order, transaction.
  assert (exists d', persist_order_tx now pg_now o ts fills d = Ok d') as [d' E].
  { unfold persist_order_tx. rewrite Hm. cbn [mbind result_bind]. unfold release_leftover.
    case_cond; [| eexists; reflexivity].
    destruct (remaining_locked_ok o Hp) as [l ->]. cbn. eauto. }
  exists d'. by rewrite E.
Qed.

(** What a filled or cancelled order has still reserved of an asset: for a buy, in the
    quote asset of its pair, its price times what remains; for a sale, in the
    base asset, what remains. *)
Definition leftover (o : Order.t) (asset : string) : Q :=
  match Order.status o, parse_pair_id (Order.pair_id o), Order.side o with
  | (Filled | Cancelled), Ok (_, quote), Buy =>
      if decide (asset = quote) then (dval (default dec_zero (Order.price o)) * dval (Order.remaining o))%Q else 0%Q
  | (Filled | Cancelled), Ok (base, _), Sell => if decide (asset = base) then dval (Order.remaining o) else 0%Q
  | _, _, _ => 0%Q
  end.

Lemma released_leftover (o : Order.t) (u asset : string) (r : BalanceRow) :
  representable (dval (default dec_zero (Order.price o)) * dval (Order.remaining o)) -> (0 <= r.2)%Q ->
  let x := if decide (u = Order.user_id o) then leftover o asset else 0%Q in
  row_eq (released o (u, asset) r) (r.1 + x, greatest (r.2 - x) 0)%Q.
Proof.
  intros Hrep Hl. cbv zeta.
  assert (forall y, (y == 0)%Q -> row_eq r (r.1 + y, greatest (r.2 - y) 0)%Q) as H0.
  { intros y Ey. split; cbn [fst snd]; rewrite Ey; [ring |]. rewrite greatest_zero; [ring | lra]. }
  assert (dec_eqb (Order.remaining o) dec_zero = true -> (dval (Order.remaining o) == 0)%Q) as Hz.
  { rewrite dec_eqb_val, dec_zero_val. done. }
  pose proof (to_numeric_val (dec_mul (default dec_zero (Order.price o)) (Order.remaining o))) as Em.
  rewrite dec_mul_val in Em by exact Hrep. pose proof (to_numeric_val (Order.remaining o)) as Er.
  unfold released, leftover, fully_resolved, remaining_locked.
  destruct (Order.status o); cbn [andb]; try (apply H0; by case_decide);
    (destruct (parse_pair_id (Order.pair_id o)) as [[base quote] |]; cbn [mbind result_bind mret result_ret];
      [| destruct (negb _); apply H0; by case_decide]);
    destruct (Order.side o); (destruct (dec_eqb (Order.remaining o) dec_zero); cbn [negb];
      [specialize (Hz eq_refl); apply H0; repeat case_decide; rewrite ?Hz; ring |]);
    repeat case_decide; simplify_eq; try (apply H0; reflexivity);
    unfold settle_row; (split; cbn [fst snd]; by rewrite ?Em, ?Er).
Qed.

(** C14: persisting an order succeeds on well-formed trades whose users have locked
    what the trades take: every balance row that exists gives and gets exactly
    what the trades take and give, after which a filled or cancelled order gets back what
    it has still reserved, its price times the remainder in the quote asset for a
    buy, the remainder in the base asset for a sale. *)
Theorem persist_order_balances (now pg_now : datetime) (o : Order.t) (ts : list Trade.t)
    (fills : list LuaTrade.t) (d : db) :
  settleable ts -> covered ts d -> is_ok (parse_pair_id (Order.pair_id o)) = true ->
  exists d', persist_order now pg_now o ts fills d = (d', Ok tt) /\
    forall u asset r, balances d !! (u, asset) = Some r ->
      (exists r1, row_eq r1 (moved (total_taken (u, asset) ts) (total_given (u, asset) ts) r) /\
                  balances d' !! (u, asset) = Some (released o (u, asset) r1)) /\
      (representable (dval (default dec_zero (Order.price o)) * dval (Order.remaining o)) ->
       let x := if decide (u = Order.user_id o) then leftover o asset else 0%Q in
       exists r', balances d' !! (u, asset) = Some r' /\
         (r'.1 == r.1 + fineQ (total_given (u, asset) ts) + x)%Q /\
         (r'.2 == greatest (r.2 - fineQ (total_taken (u, asset) ts) - x) 0)%Q).
Proof.
  intros Hse Hcov Hp. destruct (deltas_of_trades ts Hse) as (m & Hm & Hs).
  destruct (persist_order_commits now pg_now o ts fills d Hse Hp) as (d' & E & Ec).
  exists d'. split; [exact Ec |]. intros u asset r Hr. set (key := (u, asset)) in *.
  assert (exists r1, row_eq r1 (moved (total_taken key ts) (total_given key ts) r) /\
                     balances d' !! key = Some (released o key r1)) as Hmove.
  { rewrite (persist_order_lookup _ _ _ _ _ _ _ m key E Hm), Hr. cbn.
    eexists. split; [| reflexivity]. destruct (Hs key) as [[Hf1 <-] [Hf2 <-]].
    pose proof (Hcov key) as Hc. rewrite <- (proj2 (proj1 (Hs key))) in Hc. unfold balance in Hc. rewrite Hr in Hc.
    unfold entry in *. destruct (m !! key) as [e |]; cbn [from_option id] in *; unfold id in *.
    - by apply settle_row_moved.
    - cbn [fst snd]. rewrite (proj2 fine_zero). by rewrite moved_zero. }
  split; [exact Hmove |]. intros Hrep. cbv zeta. destruct Hmove as (r1 & [E1 E2] & Hd').
  specialize (Hcov key). unfold balance in Hcov. rewrite Hr in Hcov. cbn in Hcov.
  unfold moved in E1, E2. cbn [fst snd] in E1, E2.
  eexists. split; [exact Hd' |].
  destruct (released_leftover o u asset r1 Hrep) as [F1 F2]; [rewrite E2; lra |].
  fold key in F1, F2. cbn [fst snd] in F1, F2.
  split; [rewrite F1, E1 | rewrite F2, E2]; reflexivity.
Qed.

(** A malformed pair makes the whole transaction roll back. *)
Lemma persist_order_atomic (now pg_now : datetime) (o : Order.t) (ts : list Trade.t)
    (fills : list LuaTrade.t) (d d' : db) (e : string) :
  persist_order now pg_now o ts fills d = (d', Err e) -> d' = d.
Proof. unfold persist_order, transaction. destruct (persist_order_tx _ _ _ _ _ _); congruence. Qed.

(** ** The database spelling of an order reads back *)

Lemma load_order_row (o : Order.t) (updated_at pg_now : datetime) (seq : Z) :
  row_to_order (Order.id o) (row_of_order o updated_at pg_now seq) =
  Order.mk (Order.id o) (Order.user_id o) (Order.pair_id o) (Order.side o) (Order.order_type o) (Order.tif o)
    ((fun p => of_numeric (to_numeric p)) <$> Order.price o) (of_numeric (to_numeric (Order.quantity o)))
    (of_numeric (to_numeric (Order.remaining o))) (Order.status o) (Order.stp_mode o) (Order.version o) seq
    (Order.created_at o) updated_at (Order.client_order_id o) None None None.
Proof.
  destruct o as [? ? ? [] [] [] [p |] ? ? [] [] ? ? ? ? ? ? ? ?]; reflexivity.
Qed.
End Fine.

Module PersistExamples.
Import RefCrates RefDb.

Definition at0 : @datetime ref_crates := 0%Z.

Definition sale : @Trade.t ref_crates :=
  Trade.mk (7%positive : @uuid ref_crates) "BTC-USDT" (1%positive : @uuid ref_crates) (2%positive : @uuid ref_crates)
    "a" "b" (100 : @decimal ref_crates)%Q (2 : @decimal ref_crates)%Q 0 at0.

Definition fills : list (@LuaTrade.t ref_crates) :=
  [LuaTrade.mk (2%positive : @uuid ref_crates) (100 : @decimal ref_crates)%Q (2 : @decimal ref_crates)%Q "a" "b"].

(** A buyer who locked [locked] for a purchase of two. *)
Definition buyer (ot : OrderType) (price : option (@decimal ref_crates)) : @Order.t ref_crates :=
  Order.mk (1%positive : @uuid ref_crates) "a" "BTC-USDT" Buy ot GTC price (2 : @decimal ref_crates)%Q
    (0 : @decimal ref_crates)%Q Filled Stp.None 1 0 at0 at0 None None None None.

Definition accounts (locked : Q) : @db ref_crates :=
  set_balances (list_to_map [(("a", "USDT"), (1000, locked)%Q); (("b", "BTC"), (0, 2)%Q); (("b", "USDT"), (0, 0)%Q)])
    empty_db.

Lemma sale_settleable : settleable [sale].
Proof.
  constructor.
  - by repeat constructor.
  - constructor; [| constructor].
    assert (micro (cost sale) = 2000000000000000000) as E1 by (vm_compute; reflexivity).
    assert (micro (Trade.quantity sale) = 20000000000000000) as E2 by (vm_compute; reflexivity).
    unfold fine. rewrite E1, E2. split; (split; [reflexivity | lia]).
  - vm_compute. reflexivity.
Qed.

Lemma sale_taken (key : string * string) :
  total_taken key [sale] =
  (if decide (("a", "USDT") = key) then 2000000000000000000 else 0) +
  (if decide (("b", "BTC") = key) then 20000000000000000 else 0).
Proof.
  assert (legs sale = [(("a", "USDT"), (2000000000000000000, 0)); (("a", "BTC"), (0, 20000000000000000));
                       (("b", "BTC"), (20000000000000000, 0)); (("b", "USDT"), (0, 2000000000000000000))]) as E
    by (vm_compute; reflexivity).
  unfold total_taken, taken. cbn [fmap list_fmap]. rewrite E. cbn [fmap list_fmap]. unfold sumZ; cbn [foldr].
  unfold leg_at; cbn [fst snd]. repeat case_decide; cbn; lia.
Qed.

Lemma sale_covered : covered [sale] (accounts 200%Q).
Proof.
  intros key. rewrite sale_taken. case_decide as H1; [| case_decide as H2].
  - subst. vm_compute. discriminate.
  - subst. vm_compute. discriminate.
  - apply (Qle_trans _ 0%Q); [vm_compute; discriminate |].
    unfold balance, accounts. cbn [balances set_balances list_to_map foldr fst snd].
    rewrite !lookup_insert. repeat case_decide; cbn; try (vm_compute; discriminate).
Qed.


Lemma settlement_conserves_witness :
  exists m, balance_deltas [sale] ∅ = Ok m /\
    (holdings ["a"; "b"] "USDT" (settle_upserts (sorted_deltas m) (accounts 200%Q)) ==
     holdings ["a"; "b"] "USDT" (accounts 200%Q))%Q.
Proof.
  destruct (deltas_of_trades [sale] sale_settleable) as (m & Hm & _). exists m. split; [exact Hm |].
  apply (settlement_conserves [sale] (accounts 200%Q) m ["a"; "b"] "USDT" sale_settleable sale_covered Hm).
  - apply (bool_decide_unpack _). reflexivity.
  - repeat constructor.
Defined.

Lemma persist_order_balances_witness :
  exists d', persist_order at0 at0 (buyer Limit (Some 110%Q)) [sale] fills (accounts 200%Q) = (d', Ok tt) /\
    is_Some (balances d' !! ("a", "USDT")).
Proof.
  destruct (persist_order_balances at0 at0 (buyer Limit (Some 110%Q)) [sale] fills (accounts 200%Q)
              sale_settleable sale_covered eq_refl) as (d' & E & H).
  exists d'. split; [exact E |].
  destruct (H "a" "USDT" (1000, 200)%Q eq_refl) as [(r1 & _ & Hr) _]. rewrite Hr. eauto.
Defined.

Lemma persist_order_rows_witness :
  exists d', persist_order at0 at0 (buyer Limit (Some 110%Q)) [sale] fills (accounts 200%Q) = (d', Ok tt) /\
    OrderRow.status <$> orders d' !! (1%positive : @uuid ref_crates) = Some "Filled".
Proof.
  destruct (persist_order_commits at0 at0 (buyer Limit (Some 110%Q)) [sale] fills (accounts 200%Q)
              sale_settleable eq_refl) as (d' & _ & E).
  exists d'. split; [exact E |].
  destruct (persist_order_rows at0 at0 (buyer Limit (Some 110%Q)) [sale] fills (accounts 200%Q) d' E) as [H _].
  - intros [[r Hr] | (i & r & Hr & _)]; discriminate.
  - reflexivity.
  - change (Order.id (buyer Limit (Some 110%Q))) with (1%positive : @uuid ref_crates) in H. rewrite H. reflexivity.
Defined.

(** *** What the settlement leaves behind *)

(** The gateway updates existing rows only: a first-time buyer pays and gets nothing. *)
Example missing_row_loses_purchase :
  let d := (persist_order at0 at0 (buyer Limit (Some 100%Q)) [sale] fills (accounts 200%Q)).1 in
  Qeq_bool (balance d ("a", "USDT")).2 0 = true /\ bool_decide (balances d !! ("a", "BTC") = None) = true.
Proof. split; vm_compute; reflexivity. Qed.

(** A buyer matched below the limit price keeps the difference locked for good. *)
Example improvement_stays_locked :
  Qeq_bool (balance (persist_order at0 at0 (buyer Limit (Some 110%Q)) [sale] fills (accounts 220%Q)).1
              ("a", "USDT")).2 20 = true.
Proof. vm_compute. reflexivity. Qed.

(** A market buy locks nothing, so the seller is paid and the buyer is not charged. *)
Example market_buy_uncharged :
  let d := (persist_order at0 at0 (buyer Market None) [sale] fills (accounts 0%Q)).1 in
  Qeq_bool (balance d ("a", "USDT")).1 1000 = true /\ Qeq_bool (balance d ("b", "USDT")).1 200 = true.
Proof. split; vm_compute; reflexivity. Qed.
End PersistExamples.
