(* ===== verification/Views.v ===== *)
(** * Cached views ([crates/gateway/src/worker.rs], [crates/api/src/worker.rs],
    [crates/api/src/main.rs], [seed_ticker_from_pg] of [cache.rs])

    The JSON documents the gateway serves: order book, recent trades, ticker,
    portfolio and pairs, built from Valkey and from the tables, and the cache
    keys they are written to and published on. *)

From S2P Require Import Prelude Numbers Externals Fixed Types Codec Valkey Book Snapshot Json Db.
From S2P Require Import Metrics.

Open Scope Z_scope.

Module PairRow.
Section Row.
Context `{C : Crates}.

(** A row of the table [pairs]. *)
Record t : Type := mk {
  id : string;
  base : string;
  quote : string;
  tick_size : decimal;
  lot_size : decimal;
  min_order_size : decimal;
  max_order_size : decimal;
  price_precision : Z;
  qty_precision : Z;
  price_band_pct : decimal;
  active : bool;
}.
End Row.
End PairRow.

(** ** Queries *)

Section Queries.
Context `{C : Crates, X : !Sqlx C}.

(** ORDER BY created_at DESC *)
Definition newest_first (a b : uuid * TradeRow.t) : Prop :=
  time_leb (TradeRow.created_at b.2) (TradeRow.created_at a.2) = true.

#[export] Instance newest_first_dec : RelDecision newest_first.
Proof. intros a b. unfold newest_first. apply _. Defined.

Definition trades_of_pair (pair_id : string) (d : db) : list (uuid * TradeRow.t) :=
  merge_sort newest_first (filter (fun e => TradeRow.pair_id e.2 = pair_id) (map_to_list (trades d))).

(** WHERE pair_id = $1 ORDER BY created_at DESC LIMIT 50 *)
Definition recent_trades (pair_id : string) (d : db) : list (uuid * TradeRow.t) :=
  take 50 (trades_of_pair pair_id d).

Definition last_price (pair_id : string) (d : db) : option Q :=
  (fun e => TradeRow.price e.2) <$> head (trades_of_pair pair_id d).

(** FILTER (WHERE created_at >= NOW() - INTERVAL '24 hours') *)
Definition in_window (pg_now : datetime) (r : TradeRow.t) : bool :=
  time_leb (minus_hours 24 pg_now) (TradeRow.created_at r).

Definition window (pair_id : string) (pg_now : datetime) (d : db) : list TradeRow.t :=
  filter (fun r => in_window pg_now r = true) (snd <$> trades_of_pair pair_id d).

(** An aggregate of no rows is NULL. *)
Definition aggregate (f : Q -> Q -> Q) (l : list Q) : option Q :=
  match l with
  | [] => None
  | x :: r => Some (fold_left f r x)
  end.

Definition least (a b : Q) : Q := if Qle_bool a b then a else b.

Definition high_24h (pair_id : string) (pg_now : datetime) (d : db) : option Q :=
  aggregate greatest (TradeRow.price <$> window pair_id pg_now d).
Definition low_24h (pair_id : string) (pg_now : datetime) (d : db) : option Q :=
  aggregate least (TradeRow.price <$> window pair_id pg_now d).
Definition volume_24h (pair_id : string) (pg_now : datetime) (d : db) : option Q :=
  aggregate Qplus (TradeRow.quantity <$> window pair_id pg_now d).

(** SELECT ... FROM balances WHERE user_id = $1 ORDER BY asset *)
Definition by_asset (a b : (string * string) * BalanceRow) : Prop := String.leb a.1.2 b.1.2 = true.

#[export] Instance by_asset_dec : RelDecision by_asset.
Proof. intros a b. unfold by_asset. apply _. Defined.

Definition balances_of (user_id : string) (d : db) : list ((string * string) * BalanceRow) :=
  merge_sort by_asset (filter (fun e => e.1.1 = user_id) (map_to_list (balances d))).
End Queries.

(** ** Documents *)

Section Documents.
Context `{C : Crates, X : !Sqlx C}.

Definition numeric_json (q : Q) : Json := dec_json (of_numeric q).

Definition level_json (l : string * string) : Json := JArr [JStr l.1; JStr l.2].

Definition orderbook_json (pair_id : string) (bids asks : list Json) : Json :=
  object [("pair", JStr pair_id); ("bids", JArr bids); ("asks", JArr asks)].

Definition trade_row_json (e : uuid * TradeRow.t) : Json :=
  object [("id", JStr (uuid_to_string e.1)); ("pair_id", JStr (TradeRow.pair_id e.2));
          ("buy_order_id", JStr (uuid_to_string (TradeRow.buy_order_id e.2)));
          ("sell_order_id", JStr (uuid_to_string (TradeRow.sell_order_id e.2)));
          ("buyer_id", JStr (TradeRow.buyer_id e.2)); ("seller_id", JStr (TradeRow.seller_id e.2));
          ("price", numeric_json (TradeRow.price e.2)); ("quantity", numeric_json (TradeRow.quantity e.2));
          ("created_at", JStr (to_rfc3339 (TradeRow.created_at e.2)))].

Definition build_trades_json (pair_id : string) (d : db) : Json :=
  object [("pair", JStr pair_id); ("trades", JArr (trade_row_json <$> recent_trades pair_id d))].

Definition opt_numeric (q : option Q) : Json := opt_str ((fun q => dec_to_string (of_numeric q)) <$> q).

Definition build_ticker_json (pair_id : string) (pg_now : datetime) (d : db) : Json :=
  object [("pair", JStr pair_id); ("last", opt_numeric (last_price pair_id d));
          ("high_24h", opt_numeric (high_24h pair_id pg_now d));
          ("low_24h", opt_numeric (low_24h pair_id pg_now d));
          ("volume_24h", opt_numeric (volume_24h pair_id pg_now d))].

Definition build_portfolio_json (user_id : string) (d : db) : Json :=
  object [("balances", JArr ((fun e => object [("user_id", JStr e.1.1); ("asset", JStr e.1.2);
                                               ("available", numeric_json e.2.1); ("locked", numeric_json e.2.2)])
                             <$> balances_of user_id d))].

Definition pair_json (r : PairRow.t) : Json :=
  object [("id", JStr (PairRow.id r)); ("base", JStr (PairRow.base r)); ("quote", JStr (PairRow.quote r));
          ("tick_size", dec_json (PairRow.tick_size r)); ("lot_size", dec_json (PairRow.lot_size r));
          ("min_order_size", dec_json (PairRow.min_order_size r));
          ("max_order_size", dec_json (PairRow.max_order_size r));
          ("price_precision", JInt (PairRow.price_precision r)); ("qty_precision", JInt (PairRow.qty_precision r));
          ("price_band_pct", dec_json (PairRow.price_band_pct r)); ("active", JBool (PairRow.active r))].

(** The levels of the older snapshot: quantities by the text of the price, in
    the order of the texts. *)
Fixpoint add_quantity (p : string) (q : decimal) (levels : list (string * decimal)) : list (string * decimal) :=
  match levels with
  | [] => [(p, dec_add dec_zero q)]
  | (p', q') :: rest =>
      match String.compare p p' with
      | Lt => (p, dec_add dec_zero q) :: levels
      | Eq => (p', dec_add q' q) :: rest
      | Gt => (p', q') :: add_quantity p q rest
      end
  end.

Definition aggregate_levels (os : list Order.t) : list Json :=
  (fun l => object [("price", JStr l.1); ("quantity", dec_json l.2)]) <$>
  fold_left (fun levels o => match Order.price o with
                             | Some p => add_quantity (dec_to_string p) (Order.remaining o) levels
                             | None => levels
                             end) os [].
End Documents.

(** ** Writing the views *)

Section Writers.
Context `{C : Crates, X : !Sqlx C, V : Valkey, J : SerdeJson}.

Definition orderbook_key (pair_id : string) : string := "cache:orderbook:" +:+ pair_id.
Definition trades_key (pair_id : string) : string := "cache:trades:" +:+ pair_id.
Definition ticker_key (pair_id : string) : string := "cache:ticker:" +:+ pair_id.
Definition portfolio_key (user_id : string) : string := "cache:portfolio:" +:+ user_id.

Definition snapshot_json (pair_id : string) (s : store) : Json :=
  let '(bids, asks) := orderbook_snapshot_lua pair_id 50 s in
  orderbook_json pair_id (level_json <$> bids) (level_json <$> asks).

(** The users whose portfolio an order touches; the order of the set is the
    hasher's, and the keys are distinct. *)
Definition dirty_users (o : Order.t) (ts : list Trade.t) : gset string :=
  {[ Order.user_id o ]} ∪ list_to_set (mbind (fun t => [Trade.buyer_id t; Trade.seller_id t]) ts).

Definition rested (o : Order.t) : bool :=
  match Order.status o with
  | New | PartiallyFilled => true
  | _ => false
  end.

Definition cache_entries (pg_now : datetime) (o : Order.t) (ts : list Trade.t) (s : store) (d : db)
    : list (string * string) :=
  [(orderbook_key (Order.pair_id o), json_to_string (snapshot_json (Order.pair_id o) s));
   (trades_key (Order.pair_id o), json_to_string (build_trades_json (Order.pair_id o) d));
   (ticker_key (Order.pair_id o), json_to_string (build_ticker_json (Order.pair_id o) pg_now d))]
  ++ ((fun u => (portfolio_key u, json_to_string (build_portfolio_json u d))) <$> elements (dirty_users o ts)).

(** [update_cache_after_processing] of the gateway: nothing when the book did
    not change. *)
Definition update_cache_after_processing (pg_now : datetime) (o : Order.t) (ts : list Trade.t) (d : db)
    (s : store) : store :=
  let had_trades := negb (bool_decide (ts = [])) in
  if negb had_trades && negb (rested o) then s
  else set_and_publish_batch (cache_entries pg_now o ts s d) s.

(** The worker's rebuild of one pair. *)
Definition rebuild_orderbook_cache (pair_id : string) (s : store) : store :=
  set_and_publish (orderbook_key pair_id) (json_to_string (snapshot_json pair_id s)) s.

(** [update_order_cache_after_processing] of the worker: a plain SET. *)
Definition update_order_cache_after_processing (now : datetime) (o : Order.t) (trade_jsons : list Json)
    (s : store) : store :=
  let had_trades := negb (bool_decide (length trade_jsons = 0%nat)) in
  if negb had_trades && negb (rested o) then s
  else
    let bids := load_order_book_batched now (Order.pair_id o) Buy 0 50 s in
    let asks := load_order_book_batched now (Order.pair_id o) Sell 0 50 s in
    v_set (orderbook_key (Order.pair_id o))
      (json_to_string (orderbook_json (Order.pair_id o) (aggregate_levels bids) (aggregate_levels asks))) s.

Definition update_ticker_caches (pg_now : datetime) (d : db) (s : store) : store :=
  fold_left (fun s p => set_and_publish (ticker_key p) (json_to_string (build_ticker_json p pg_now d)) s) PAIRS s.

Definition update_trades_caches (d : db) (s : store) : store :=
  fold_left (fun s p => set_and_publish (trades_key p) (json_to_string (build_trades_json p d)) s) PAIRS s.

(** Portfolios are polled per user and not published. *)
Definition update_portfolio_caches_for_users (users : gset string) (d : db) (s : store) : store :=
  fold_left (fun s u => v_set (portfolio_key u) (json_to_string (build_portfolio_json u d)) s) (elements users) s.

(** One round of the refresh worker; [dirty] is what its channel held. *)
Definition cache_refresh (pg_now : datetime) (dirty : list string) (d : db) (s : store) : store :=
  let s := update_trades_caches d (update_ticker_caches pg_now d s) in
  let users : gset string := list_to_set dirty in
  if decide (users = ∅) then s else update_portfolio_caches_for_users users d s.

(** ** Cold start *)

Definition seed_ticker_from_pg (pair_ids : list string) (pg_now : datetime) (d : db) (s : store) : store :=
  fold_left (fun s p => set_and_publish (ticker_key p) (json_to_string (build_ticker_json p pg_now d)) s) pair_ids s.

Definition pairs_json (pairs : list PairRow.t) : Json :=
  object [("pairs", JArr (pair_json <$> filter (fun r => PairRow.active r = true) pairs))].

Definition seed_pairs_cache (pairs : list PairRow.t) (s : store) : store :=
  set_and_publish "cache:pairs" (json_to_string (pairs_json pairs)) s.

Definition empty_views (pair_id : string) : list (string * string) :=
  [(orderbook_key pair_id, json_to_string (orderbook_json pair_id [] []));
   (ticker_key pair_id, json_to_string (object [("pair", JStr pair_id); ("last", JNull); ("high_24h", JNull);
                                                ("low_24h", JNull); ("volume_24h", JNull)]));
   (trades_key pair_id, json_to_string (object [("pair", JStr pair_id); ("trades", JArr [])]))].

(** The pairs and an empty view of each pair and metric; [pairs_cache] lists the
    keys of the in-memory pairs. *)
Definition initialize_cache_keys (pairs : list PairRow.t) (pairs_cache : list string) (s : store) : store :=
  let q := String "034" EmptyString in
  let s := seed_pairs_cache pairs s in
  let s := fold_left (fun s p => set_and_publish_batch (empty_views p) s) pairs_cache s in
  set_and_publish_batch
    [("cache:metrics", "{}"); ("cache:lock_metrics", "{}");
     ("cache:throughput", "{" +:+ q +:+ "series" +:+ q +:+ ":[]}"); ("cache:latency_metrics", "{}");
     ("cache:audit", "{" +:+ q +:+ "audit" +:+ q +:+ ":[]," +:+ q +:+ "events" +:+ q +:+ ":[]}")] s.

Definition load_pairs_cache (pairs : list PairRow.t) : gmap string PairConfig.t :=
  fold_left (fun m r => <[PairRow.id r := PairConfig.mk (PairRow.tick_size r) (PairRow.lot_size r)
                            (PairRow.min_order_size r) (PairRow.max_order_size r) (PairRow.active r)]> m) pairs ∅.
End Writers.
