(* ===== verification/Ws.v ===== *)
(** * WebSocket subscriptions ([crates/ws-handler/src/main.rs],
    [push_ws_updates] of [crates/gateway/src/worker.rs])

    Connections and subscriptions live in Valkey sets, in both directions: the
    subscribers of a channel and the channels of a connection.  The management
    API of the gateway service answers a post with [PostResult]; the posts made
    are part of each result. *)

From S2P Require Import Prelude Numbers Valkey Json.

Open Scope Z_scope.

Module WsResponse.
Record t : Type := mk { status_code : Z; body : option string }.

Definition to_json (r : t) : Json := object [("statusCode", JInt (status_code r)); ("body", opt_str (body r))].
End WsResponse.

Module RequestContext.
Record t : Type := mk { route_key : string; connection_id : string; domain_name : option string; stage : option string }.

Definition from_value (j : Json) : result t :=
  j ← struct_of ["routeKey"; "connectionId"; "domainName"; "stage"] j;
  route_key ← body_field as_str "routeKey" j;
  connection_id ← body_field as_str "connectionId" j;
  domain_name ← body_option as_str "domainName" j;
  stage ← body_option as_str "stage" j;
  mret (mk route_key connection_id domain_name stage).
End RequestContext.

Module WsEvent.
Record t : Type := mk { request_context : RequestContext.t; body : option string }.

Definition from_value (j : Json) : result t :=
  j ← struct_of ["requestContext"; "body"] j;
  ctx ← ok_or (get "requestContext" j) "missing field `requestContext`";
  ctx ← RequestContext.from_value ctx;
  body ← body_option as_str "body" j;
  mret (mk ctx body).
End WsEvent.

(** What the code distinguishes in the answer to [post_to_connection]. *)
Inductive PostResult := Sent | Gone | Failed.

#[export] Instance PostResult_eq_dec : EqDecision PostResult.
Proof. solve_decision. Defined.

(** A post: the connection and the message. *)
Abbreviation post := (string * string)%type.

Definition ws_connections : string := "ws:connections".
Definition ws_subs (ch : string) : string := "ws:subs:" +:+ ch.
Definition ws_conn (conn_id : string) : string := "ws:conn:" +:+ conn_id.

Definition quoted (s : string) : string := String "034" (s +:+ String "034" EmptyString).

(** [{"ch":"<channel>","data":<value>}] *)
Definition update_msg (ch value : string) : string :=
  "{" +:+ quoted "ch" +:+ ":" +:+ quoted ch +:+ "," +:+ quoted "data" +:+ ":" +:+ value +:+ "}".

(** ** Channel names *)

(** The code points of a string, which is always well-formed UTF-8. *)
Fixpoint chars (s : string) : list N :=
  let low (a : ascii) := N.modulo (N_of_ascii a) 64 in
  match s with
  | EmptyString => []
  | String a r =>
      let n := N_of_ascii a in
      if (n <? 128)%N then n :: chars r
      else match r with
           | EmptyString => []
           | String b r =>
               if (n <? 224)%N then (N.modulo n 32 * 64 + low b)%N :: chars r
               else match r with
                    | EmptyString => []
                    | String c r =>
                        if (n <? 240)%N then (N.modulo n 16 * 4096 + low b * 64 + low c)%N :: chars r
                        else match r with
                             | EmptyString => []
                             | String d r =>
                                 (N.modulo n 8 * 262144 + low b * 4096 + low c * 64 + low d)%N :: chars r
                             end
                    end
           end
  end.

(** [char::is_alphanumeric]: spelled out for ASCII, [wide] beyond it. *)
Definition is_alphanumeric (wide : N -> bool) (c : N) : bool :=
  if (c <? 128)%N then
    ((48 <=? c) && (c <=? 57) || (65 <=? c) && (c <=? 90) || (97 <=? c) && (c <=? 122))%N
  else wide c.

Definition is_valid_channel (wide : N -> bool) (ch : string) : bool :=
  if (64 <? String.length ch)%nat then false
  else forallb (fun c => is_alphanumeric wide c || N.eqb c 58 || N.eqb c 45 || N.eqb c 95) (chars ch).

(** ** Handlers *)

Section Handlers.
Context `{V : Valkey, J : SerdeJson}.
Context (wide : N -> bool).
(** What the management API answers to a post. *)
Context (answer : post -> PostResult).

Definition handle_connect (conn_id : string) (s : store) : store * WsResponse.t :=
  let s := v_sadd ws_connections conn_id s in
  (v_expire ws_connections 86400 s, WsResponse.mk 200 None).

Definition unsubscribe_all (conn_id : string) (channels : list string) (s : store) : store :=
  fold_left (fun s ch => v_srem (ws_subs ch) conn_id s) channels s.

Definition handle_disconnect (conn_id : string) (s : store) : store * WsResponse.t :=
  let s := v_srem ws_connections conn_id s in
  let channels := v_smembers (ws_conn conn_id) s in
  let s := unsubscribe_all conn_id channels s in
  (v_del (ws_conn conn_id) s, WsResponse.mk 200 None).

(** One channel: both sets, their expiries, and the cached value at once. *)
Definition subscribe_one (conn_id ch : string) (s : store) : store * list post :=
  let s := v_sadd (ws_subs ch) conn_id s in
  let s := v_sadd (ws_conn conn_id) ch s in
  let s := v_expire (ws_conn conn_id) 3600 s in
  let s := v_expire (ws_subs ch) 3600 s in
  match v_get ("cache:" +:+ ch) s with
  | Some val =>
      if decide (val = EmptyString) then (s, []) else (s, [(conn_id, update_msg ch val)])
  | None => (s, [])
  end.

Fixpoint handle_subscribe (conn_id : string) (channels : list Json) (s : store) : store * list post :=
  match channels with
  | [] => (s, [])
  | ch :: channels =>
      match as_str ch with
      | Some ch_name =>
          if is_valid_channel wide ch_name then
            let '(s, ps) := subscribe_one conn_id ch_name s in
            let '(s, ps') := handle_subscribe conn_id channels s in
            (s, ps ++ ps')
          else handle_subscribe conn_id channels s
      | None => handle_subscribe conn_id channels s
      end
  end.

Fixpoint handle_unsubscribe (conn_id : string) (channels : list Json) (s : store) : store :=
  match channels with
  | [] => s
  | ch :: channels =>
      match as_str ch with
      | Some ch_name =>
          handle_unsubscribe conn_id channels (v_srem (ws_conn conn_id) ch_name (v_srem (ws_subs ch_name) conn_id s))
      | None => handle_unsubscribe conn_id channels s
      end
  end.

Definition handle_default (conn_id : string) (body : option string) (s : store)
    : store * list post * WsResponse.t :=
  match body with
  | None => (s, [], WsResponse.mk 200 None)
  | Some b =>
      if decide (b = EmptyString) then (s, [], WsResponse.mk 200 None)
      else match json_from_str b with
           | None => (s, [], WsResponse.mk 400 (Some "invalid JSON"))
           | Some cmd =>
               let '(s, ps) := match get "subscribe" cmd ≫= as_array with
                               | Some channels => handle_subscribe conn_id channels s
                               | None => (s, [])
                               end in
               let s := match get "unsubscribe" cmd ≫= as_array with
                        | Some channels => handle_unsubscribe conn_id channels s
                        | None => s
                        end in
               (s, ps, WsResponse.mk 200 None)
           end
  end.

Definition handle_ws_event (route conn_id : string) (body : option string) (s : store)
    : store * list post * WsResponse.t :=
  if decide (route = "$connect") then let '(s, r) := handle_connect conn_id s in (s, [], r)
  else if decide (route = "$disconnect") then let '(s, r) := handle_disconnect conn_id s in (s, [], r)
  else handle_default conn_id body s.

(** One invocation: an event that cannot be read is an error of the invocation. *)
Definition handler (event : Json) (s : store) : store * list post * result Json :=
  match WsEvent.from_value event with
  | Err m => (s, [], Err m)
  | Ok ev =>
      let ctx := WsEvent.request_context ev in
      let '(s, ps, r) := handle_ws_event (RequestContext.route_key ctx) (RequestContext.connection_id ctx) (WsEvent.body ev) s in
      (s, ps, Ok (WsResponse.to_json r))
  end.

(** ** Pushing updates *)

Definition remove_stale (ch_name stale_id : string) (s : store) : store :=
  let s := v_srem ws_connections stale_id s in
  let s := v_srem (ws_subs ch_name) stale_id s in
  let s := unsubscribe_all stale_id (v_smembers (ws_conn stale_id) s) s in
  v_del (ws_conn stale_id) s.

(** One channel: its subscribers get the cached value; those gone are removed. *)
Definition push_channel (ch_name : string) (s : store) : store * list post :=
  match v_smembers (ws_subs ch_name) s with
  | [] => (s, [])
  | subscribers =>
      match v_get ("cache:" +:+ ch_name) s with
      | None => (s, [])
      | Some val =>
          if decide (val = EmptyString) then (s, [])
          else
            let posts := (fun c => (c, update_msg ch_name val)) <$> subscribers in
            let stale := filter (fun c => answer (c, update_msg ch_name val) = Gone) subscribers in
            (fold_left (fun s c => remove_stale ch_name c s) stale s, posts)
      end
  end.

Definition push_ws_updates (pair_id : string) (s : store) : store * list post :=
  fold_left (fun acc ch => let '(s, ps) := push_channel ch acc.1 in (s, acc.2 ++ ps))
    ["orderbook:" +:+ pair_id; "trades:" +:+ pair_id; "ticker:" +:+ pair_id] (s, []).
End Handlers.

(** ** Set commands *)

Lemma members_sadd (k m k' : string) (s : kv) :
  members (kv_sadd k m s) k' = if decide (k = k') then {[ m ]} ∪ members s k' else members s k'.
Proof.
  unfold members, kv_sadd; cbn [sets set_sets]. case_decide; subst; [apply at_put_eq | by apply at_put_ne].
Qed.

Lemma members_srem (k m k' : string) (s : kv) :
  members (kv_srem k m s) k' = if decide (k = k') then members s k' ∖ {[ m ]} else members s k'.
Proof.
  unfold members, kv_srem. rewrite (proj1 (proj2 (proj2 (proj2 (drop_ttl_frame k _))))). cbn [sets set_sets].
  case_decide; subst; [apply at_put_eq | by apply at_put_ne].
Qed.

Lemma members_del (k k' : string) (s : kv) :
  members (kv_del k s) k' = if decide (k = k') then ∅ else members s k'.
Proof.
  unfold members, kv_del; cbn [sets]. case_decide; subst; [apply at_delete_eq | by apply at_delete_ne].
Qed.

Lemma members_expire (k : string) (t : Z) (k' : string) (s : kv) : members (kv_expire k t s) k' = members s k'.
Proof. unfold kv_expire. by case_cond. Qed.

Create Rewrite HintDb ws.
#[export] Hint Rewrite members_sadd members_srem members_del members_expire : ws.

(** ** The two directions agree *)

Definition synced (s : kv) : Prop :=
  forall ch c, c ∈ members s (ws_subs ch) <-> ch ∈ members s (ws_conn c).

Lemma ws_subs_inj (a b : string) : ws_subs a = ws_subs b <-> a = b.
Proof. split; [apply str_app_inj | by intros ->]. Qed.

Lemma ws_conn_inj (a b : string) : ws_conn a = ws_conn b <-> a = b.
Proof. split; [apply str_app_inj | by intros ->]. Qed.

(** Keys of different families differ, keys of one family by their suffix. *)
Ltac ws_keys :=
  repeat case_decide;
  repeat match goal with
  | H : ws_subs _ = ws_conn _ |- _ => discriminate H
  | H : ws_conn _ = ws_subs _ |- _ => discriminate H
  | H : ws_connections = ws_subs _ |- _ => discriminate H
  | H : ws_connections = ws_conn _ |- _ => discriminate H
  | H : ws_subs _ = ws_subs _ |- _ => apply (proj1 (ws_subs_inj _ _)) in H
  | H : ws_conn _ = ws_conn _ |- _ => apply (proj1 (ws_conn_inj _ _)) in H
  | H : ws_subs _ <> ws_subs _ |- _ => rewrite ws_subs_inj in H
  | H : ws_conn _ <> ws_conn _ |- _ => rewrite ws_conn_inj in H
  end; subst.

(** Membership goals once the keys are told apart. *)
Ltac ws_sets :=
  ws_keys; rewrite ?elem_of_union, ?elem_of_difference, ?elem_of_singleton, ?elem_of_empty, ?elem_of_cons in *;
  intuition congruence.

Section WsSets.
Context `{V : Valkey, VL : !ValkeyLaws V}.

Lemma subscribe_synced (conn_id ch : string) (s : store) :
  synced (view s) -> synced (view (subscribe_one conn_id ch s).1).
Proof.
  intros H. unfold subscribe_one.
  assert (synced (view (v_expire (ws_subs ch) 3600 (v_expire (ws_conn conn_id) 3600
            (v_sadd (ws_conn conn_id) ch (v_sadd (ws_subs ch) conn_id s)))))) as Hs.
  { autorewrite with valkey. intros ch' c'. autorewrite with ws. specialize (H ch' c').
    ws_sets. }
  destruct (v_get _ _); [case_decide |]; exact Hs.
Qed.

Lemma handle_unsubscribe_synced (conn_id : string) (channels : list Json) (s : store) :
  synced (view s) -> synced (view (handle_unsubscribe conn_id channels s)).
Proof.
  revert s. induction channels as [| ch channels IH]; intros s H; cbn [handle_unsubscribe]; [done |].
  destruct (as_str ch) as [name |]; [| by apply IH]. apply IH. autorewrite with valkey.
  intros ch' c'. autorewrite with ws. specialize (H ch' c'). ws_sets.
Qed.

(** Removing a connection from the channels listed, and nothing else. *)
Lemma unsubscribe_all_members (conn_id : string) (channels : list string) (s : store) :
  (forall ch c, c ∈ members (view (unsubscribe_all conn_id channels s)) (ws_subs ch) <->
                c ∈ members (view s) (ws_subs ch) /\ ~ (c = conn_id /\ ch ∈ channels)) /\
  (forall c, members (view (unsubscribe_all conn_id channels s)) (ws_conn c) = members (view s) (ws_conn c)).
Proof.
  unfold unsubscribe_all. revert s. induction channels as [| a channels IH]; intros s; cbn [fold_left].
  - split; [set_solver | done].
  - destruct (IH (v_srem (ws_subs a) conn_id s)) as [H1 H2]. split.
    + intros ch c. rewrite H1. autorewrite with valkey ws. ws_sets.
    + intros c. rewrite H2. autorewrite with valkey ws. by ws_keys.
Qed.

(** Forgetting a connection, from any of the places that do it. *)
Definition forget (conn_id : string) (s : store) : store :=
  v_del (ws_conn conn_id) (unsubscribe_all conn_id (v_smembers (ws_conn conn_id) s) s).

Lemma forget_synced (conn_id : string) (s : store) :
  (forall ch c, c <> conn_id -> c ∈ members (view s) (ws_subs ch) <-> ch ∈ members (view s) (ws_conn c)) ->
  (forall ch, conn_id ∈ members (view s) (ws_subs ch) -> ch ∈ members (view s) (ws_conn conn_id)) ->
  synced (view (forget conn_id s)) /\
  (forall ch, conn_id ∉ members (view (forget conn_id s)) (ws_subs ch)) /\
  (forall ch c, c <> conn_id -> c ∈ members (view (forget conn_id s)) (ws_subs ch) <-> c ∈ members (view s) (ws_subs ch)).
Proof.
  intros Hs Hc. unfold forget.
  destruct (unsubscribe_all_members conn_id (v_smembers (ws_conn conn_id) s) s) as [H1 H2].
  assert (forall ch, ch ∈ v_smembers (ws_conn conn_id) s <-> ch ∈ members (view s) (ws_conn conn_id)) as Hm.
  { intros ch. by rewrite <- smembers_view, elem_of_list_to_set. }
  split_and!.
  - intros ch c. autorewrite with valkey ws. ws_keys; rewrite ?H2, ?H1, ?Hm; [set_solver |].
    specialize (Hs ch c). naive_solver.
  - intros ch. autorewrite with valkey ws. ws_keys. rewrite H1, Hm. naive_solver.
  - intros ch c Hne. autorewrite with valkey ws. ws_keys. rewrite H1. naive_solver.
Qed.

Lemma remove_stale_synced (ch_name stale_id : string) (s : store) :
  synced (view s) -> synced (view (remove_stale ch_name stale_id s)).
Proof.
  intros H. unfold remove_stale. apply forget_synced; autorewrite with valkey.
  - intros ch c Hne. autorewrite with ws. specialize (H ch c). ws_sets.
  - intros ch. autorewrite with ws. specialize (H ch stale_id). ws_sets.
Qed.

(** After a disconnect the connection is in no set any more, and the other
    connections keep their subscriptions. *)
Theorem disconnect_forgets (conn_id : string) (s : store) :
  synced (view s) ->
  let s' := (handle_disconnect conn_id s).1 in
  conn_id ∉ members (view s') ws_connections /\
  (forall ch, conn_id ∉ members (view s') (ws_subs ch)) /\
  members (view s') (ws_conn conn_id) = ∅ /\
  (forall ch c, c <> conn_id -> c ∈ members (view s') (ws_subs ch) <-> c ∈ members (view s) (ws_subs ch)).
Proof.
  intros H. cbn zeta. set (s1 := v_srem ws_connections conn_id s).
  change (handle_disconnect conn_id s).1 with (forget conn_id s1).
  destruct (forget_synced conn_id s1) as (_ & H2 & H3).
  { intros ch c Hne. subst s1. autorewrite with valkey ws. specialize (H ch c). ws_sets. }
  { intros ch. subst s1. autorewrite with valkey ws. specialize (H ch conn_id). ws_sets. }
  split_and!; [| done | |].
  - unfold forget. autorewrite with valkey ws.
    rewrite decide_False by discriminate.
    assert (forall chs t, conn_id ∉ members (view t) ws_connections ->
              conn_id ∉ members (view (unsubscribe_all conn_id chs t)) ws_connections) as Hk.
    { induction chs as [| a chs IH]; intros t Ht; cbn; [done |]. apply IH. autorewrite with valkey ws.
      by rewrite decide_False by discriminate. }
    apply Hk. subst s1. autorewrite with valkey ws. rewrite decide_True by done. set_solver.
  - unfold forget. autorewrite with valkey ws. by rewrite decide_True.
  - intros ch c Hne. rewrite H3 by done. subst s1. autorewrite with valkey ws. by rewrite decide_False by discriminate.
Qed.

End WsSets.

Section WsProps.
Context `{V : Valkey, VL : !ValkeyLaws V, J : SerdeJson}.
Context (wide : N -> bool) (answer : post -> PostResult).

Lemma handle_subscribe_synced (conn_id : string) (channels : list Json) (s : store) :
  synced (view s) -> synced (view (handle_subscribe wide conn_id channels s).1).
Proof.
  revert s. induction channels as [| ch channels IH]; intros s H; cbn [handle_subscribe]; [done |].
  destruct (as_str ch) as [name |]; [| by apply IH]. case_cond; [| by apply IH].
  pose proof (subscribe_synced conn_id name s H) as H1. destruct (subscribe_one conn_id name s) as [s1 ps].
  specialize (IH s1 H1). by destruct (handle_subscribe wide conn_id channels s1).
Qed.

Lemma push_channel_synced (ch_name : string) (s : store) :
  synced (view s) -> synced (view (push_channel answer ch_name s).1).
Proof.
  intros H. unfold push_channel. destruct (v_smembers (ws_subs ch_name) s) as [| c cs]; [done |].
  destruct (v_get _ s) as [val |]; [| done]. case_decide; [done |]. cbn [fst].
  generalize (filter (fun c => answer (c, update_msg ch_name val) = Gone) (c :: cs)). intros stale.
  revert s H. induction stale as [| x stale IH]; intros s H; cbn [fold_left]; [done |].
  apply IH. by apply remove_stale_synced.
Qed.

Lemma event_synced (route conn_id : string) (body : option string) (s : store) :
  synced (view s) -> synced (view (handle_ws_event wide route conn_id body s).1.1).
Proof.
  intros H. unfold handle_ws_event. case_decide; [| case_decide]; cbn.
  - autorewrite with valkey. intros ch c. autorewrite with ws. specialize (H ch c). ws_sets.
  - apply (forget_synced conn_id (v_srem ws_connections conn_id s)); autorewrite with valkey.
    + intros ch c Hne. autorewrite with ws. specialize (H ch c). ws_sets.
    + intros ch. autorewrite with ws. specialize (H ch conn_id). ws_sets.
  - unfold handle_default. destruct body as [b |]; [| done]. case_decide; [done |].
    destruct (json_from_str b) as [cmd |]; [| done].
    destruct (get "subscribe" cmd ≫= as_array) as [channels |].
    + pose proof (handle_subscribe_synced conn_id channels s H) as Hsub.
      destruct (handle_subscribe wide conn_id channels s) as [s1 ps]. cbn in *.
      destruct (get "unsubscribe" cmd ≫= as_array); [by apply handle_unsubscribe_synced | done].
    + cbn. destruct (get "unsubscribe" cmd ≫= as_array); [by apply handle_unsubscribe_synced | done].
Qed.

(** C36: every event of the WebSocket API, read from the invocation of the handler,
    and every push, keeps the subscribers of the channels and the channels of the
    connections in agreement. *)
Theorem ws_events_synced (event : Json) (pair_id : string) (s : store) :
  synced (view s) ->
  synced (view (handler wide event s).1.1) /\ synced (view (push_ws_updates answer pair_id s).1).
Proof.
  intros H. split.
  - unfold handler. destruct (WsEvent.from_value event) as [ev |]; [| done].
    pose proof (event_synced (RequestContext.route_key (WsEvent.request_context ev))
                  (RequestContext.connection_id (WsEvent.request_context ev)) (WsEvent.body ev) s H) as Hev.
    cbn zeta. destruct (handle_ws_event wide _ _ _ s) as [[s1 ps] r]. exact Hev.
  - unfold push_ws_updates. generalize (@nil post) as ps.
    generalize ["orderbook:" +:+ pair_id; "trades:" +:+ pair_id; "ticker:" +:+ pair_id] as chs.
    intros chs. revert s H. induction chs as [| ch chs IH]; intros s H ps; cbn [fold_left]; [done |].
    cbn [fst snd]. pose proof (push_channel_synced ch s H) as H1. destruct (push_channel answer ch s). by apply IH.
Qed.

(** A subscription is recorded in both directions and answered with the
    cached value of the channel; an invalid name changes nothing. *)
Theorem subscribe_spec (conn_id ch : string) (s : store) :
  let '(s', posts) := handle_subscribe wide conn_id [JStr ch] s in
  if is_valid_channel wide ch then
    conn_id ∈ members (view s') (ws_subs ch) /\ ch ∈ members (view s') (ws_conn conn_id) /\
    (forall val, strs (view s) !! ("cache:" +:+ ch) = Some val -> val <> EmptyString ->
       posts = [(conn_id, update_msg ch val)])
  else s' = s /\ posts = [].
Proof.
  clear answer.
  cbn [handle_subscribe as_str]. destruct (is_valid_channel wide ch); [| done].
  unfold subscribe_one.
  set (s4 := v_expire (ws_subs ch) 3600 (v_expire (ws_conn conn_id) 3600
               (v_sadd (ws_conn conn_id) ch (v_sadd (ws_subs ch) conn_id s)))).
  assert (strs (view s4) = strs (view s)) as Es.
  { subst s4. autorewrite with valkey. unfold kv_expire. by repeat case_cond. }
  assert (conn_id ∈ members (view s4) (ws_subs ch) /\ ch ∈ members (view s4) (ws_conn conn_id)) as [M1 M2].
  { subst s4. autorewrite with valkey ws. ws_sets. }
  autorewrite with valkey. rewrite Es.
  destruct (strs (view s) !! ("cache:" +:+ ch)) as [val |]; [case_decide |]; cbn; split_and!; try done;
    intros v [= <-] ?; done.
Qed.
End WsProps.

Module WsExamples.
Import RefValkey RefJson.

Definition no_wide (c : N) : bool := false.

Definition connect_event : Json :=
  object [("requestContext", object [("routeKey", JStr "$connect"); ("connectionId", JStr "c1"); ("stage", JStr "ws")]); ("body", JNull)].

Lemma ws_events_synced_witness :
  (handler no_wide connect_event empty_store).2 = Ok (object [("statusCode", JInt 200); ("body", JNull)]) /\
  synced (view (handler no_wide connect_event empty_store).1.1) /\
  synced (view (push_ws_updates (fun _ => Gone) "BTC-USDT" empty_store).1).
Proof.
  split; [by vm_compute |].
  apply (ws_events_synced no_wide (fun _ => Gone) connect_event "BTC-USDT" empty_store).
  intros ch c. split; intros Hin; destruct (not_elem_of_empty _ Hin).
Defined.

Lemma disconnect_forgets_witness :
  "c1" ∉ members (view (handle_disconnect "c1" (subscribe_one "c1" "trades:BTC-USDT" empty_store).1).1)
           (ws_subs "trades:BTC-USDT").
Proof.
  assert (synced (view (subscribe_one "c1" "trades:BTC-USDT" empty_store).1)) as H.
  { apply (subscribe_synced "c1" "trades:BTC-USDT" empty_store). intros ch c. split; intros Hin; destruct (not_elem_of_empty _ Hin). }
  exact (proj1 (proj2 (disconnect_forgets "c1" _ H)) "trades:BTC-USDT").
Defined.

Example channel_names :
  is_valid_channel no_wide "orderbook:BTC-USDT" = true /\ is_valid_channel no_wide "../etc/passwd" = false.
Proof. done. Qed.
End WsExamples.
