(* ===== verification/OrderFlow.v ===== *)
(** * From a message to a persisted order ([process_order] of
    [crates/gateway/src/worker.rs], [process_queued_order] of
    [crates/api/src/worker.rs])

    Both workers read an order message, validate it against the cached pairs,
    lock and match in one script call, and hand the outcome on: the gateway
    persists and refreshes the views before it answers, the worker queues a
    persistence job and marks users and book dirty.  [env] holds what a run
    takes from outside: the clock, fresh identifiers, the server's NOW(). *)

From S2P Require Import Prelude Numbers Externals Fixed Types Codec Valkey Book MatchLua Json Db.
From S2P Require Import Persist Views Metrics Ws.

Open Scope Z_scope.

(** ** Messages *)

(** Fields as the derived deserializer reads them: a required string, a string
    with a default when absent, an option that absence and null leave empty. *)
Definition req_field (k : string) (j : Json) : result string :=
  match get k j with
  | Some (JStr s) => Ok s
  | _ => Err ("missing field " +:+ k)
  end.

Definition default_field (k d : string) (j : Json) : result string :=
  match get k j with
  | None => Ok d
  | Some (JStr s) => Ok s
  | Some _ => Err ("invalid type for " +:+ k)
  end.

Definition opt_field (k : string) (j : Json) : result (option string) :=
  match get k j with
  | None | Some JNull => Ok None
  | Some (JStr s) => Ok (Some s)
  | Some _ => Err ("invalid type for " +:+ k)
  end.

Module QueuedOrderMsg.
Record t : Type := mk {
  id : option string;
  user_id : string;
  pair_id : string;
  side : string;
  order_type : string;
  tif : string;
  price : option string;
  quantity : string;
  stp_mode : option string;
  client_order_id : option string;
  created_at : option string;
  received_at : option string;
  time_in_force : option string;
}.

(** The gateway's message. *)
Definition from_value (j : Json) : result t :=
  id ← opt_field "id" j;
  user_id ← default_field "user_id" "user-1" j;
  pair_id ← req_field "pair_id" j;
  side ← req_field "side" j;
  order_type ← req_field "order_type" j;
  tif ← default_field "tif" "GTC" j;
  price ← opt_field "price" j;
  quantity ← req_field "quantity" j;
  stp_mode ← opt_field "stp_mode" j;
  client_order_id ← opt_field "client_order_id" j;
  created_at ← opt_field "created_at" j;
  received_at ← opt_field "received_at" j;
  time_in_force ← opt_field "time_in_force" j;
  mret (mk id user_id pair_id side order_type tif price quantity stp_mode client_order_id created_at
          received_at time_in_force).

(** The worker's message: the id is required and [time_in_force] unknown. *)
Definition from_queue (j : Json) : result t :=
  id ← req_field "id" j;
  user_id ← default_field "user_id" "user-1" j;
  pair_id ← req_field "pair_id" j;
  side ← req_field "side" j;
  order_type ← req_field "order_type" j;
  tif ← default_field "tif" "GTC" j;
  price ← opt_field "price" j;
  quantity ← req_field "quantity" j;
  stp_mode ← opt_field "stp_mode" j;
  client_order_id ← opt_field "client_order_id" j;
  created_at ← opt_field "created_at" j;
  received_at ← opt_field "received_at" j;
  mret (mk (Some id) user_id pair_id side order_type tif price quantity stp_mode client_order_id created_at
          received_at None).
End QueuedOrderMsg.

Definition msg_side (s : string) : result Side :=
  if decide (s = "Buy") then Ok Buy else if decide (s = "Sell") then Ok Sell
  else Err ("invalid side: " +:+ s).

Definition msg_order_type (s : string) : result OrderType :=
  if decide (s = "Limit") then Ok Limit else if decide (s = "Market") then Ok Market
  else Err ("invalid order_type: " +:+ s).

(** An unknown time in force is good till cancelled. *)
Definition msg_tif (s : string) : TimeInForce :=
  if decide (s = "GTC") then GTC else if decide (s = "IOC") then IOC
  else if decide (s = "FOK") then FOK else GTC.

Definition msg_stp (s : option string) : Stp.t :=
  let s := default "None" s in
  if decide (s = "CancelMaker") then Stp.CancelMaker
  else if decide (s = "CancelTaker") then Stp.CancelTaker
  else if decide (s = "CancelBoth") then Stp.CancelBoth
  else Stp.None.

(** What a run takes from outside; [clock k] is the k-th reading. *)
Module Env.
Section Env.
Context `{C : Crates}.
Record t : Type := mk {
  clock : nat -> datetime;
  fresh_order : uuid;
  fresh_trade : nat -> uuid;
  pg_now : datetime;
}.
End Env.
End Env.

Section Reading.
Context `{C : Crates}.

Definition msg_time (o : option string) : option datetime := o ≫= parse_rfc3339.

(** The order a message asks for, once its enums and numbers are read. *)
Definition new_order (e : Env.t) (id : uuid) (msg : QueuedOrderMsg.t) (side : Side) (order_type : OrderType)
    (tif : TimeInForce) (price : option decimal) (quantity : decimal) : Order.t :=
  let created_at := default (Env.clock e 0%nat) (msg_time (QueuedOrderMsg.created_at msg)) in
  let received_at := default created_at (msg_time (QueuedOrderMsg.received_at msg)) in
  Order.mk id (QueuedOrderMsg.user_id msg) (QueuedOrderMsg.pair_id msg) side order_type tif price quantity
    quantity New (msg_stp (QueuedOrderMsg.stp_mode msg)) 1 0 created_at (Env.clock e 1%nat)
    (QueuedOrderMsg.client_order_id msg) (Some received_at) None None.

(** The gateway: a missing id is made up, and the basic checks are made here. *)
Definition read_order (e : Env.t) (payload : Json) : result Order.t :=
  msg ← QueuedOrderMsg.from_value payload;
  id ← match QueuedOrderMsg.id msg with
       | Some s => if decide (s = EmptyString) then Ok (Env.fresh_order e)
                   else ok_or (uuid_parse s) "invalid order id"
       | None => Ok (Env.fresh_order e)
       end;
  side ← msg_side (QueuedOrderMsg.side msg);
  order_type ← msg_order_type (QueuedOrderMsg.order_type msg);
  let tif := msg_tif (default (QueuedOrderMsg.tif msg) (QueuedOrderMsg.time_in_force msg)) in
  let price := QueuedOrderMsg.price msg ≫= dec_from_str in
  quantity ← ok_or (dec_from_str (QueuedOrderMsg.quantity msg))
               ("invalid quantity: " +:+ QueuedOrderMsg.quantity msg);
  _ ← bail_if (dec_leb quantity dec_zero) "quantity must be positive";
  _ ← bail_if (bool_decide (order_type = Limit) && bool_decide (price = None)) "limit orders require price";
  _ ← bail_if (bool_decide (order_type = Market) && negb (bool_decide (price = None)))
        "market orders cannot have price";
  mret (new_order e id msg side order_type tif price quantity).

(** The worker: the id is required, and the checks are left to the gateway. *)
Definition read_queued_order (e : Env.t) (payload : Json) : result Order.t :=
  msg ← QueuedOrderMsg.from_queue payload;
  id ← ok_or (uuid_parse (default EmptyString (QueuedOrderMsg.id msg))) "invalid uuid";
  side ← msg_side (QueuedOrderMsg.side msg);
  order_type ← msg_order_type (QueuedOrderMsg.order_type msg);
  let tif := msg_tif (QueuedOrderMsg.tif msg) in
  let price := QueuedOrderMsg.price msg ≫= dec_from_str in
  quantity ← ok_or (dec_from_str (QueuedOrderMsg.quantity msg))
               ("invalid quantity: " +:+ QueuedOrderMsg.quantity msg);
  mret (new_order e id msg side order_type tif price quantity).

(** ** Validation *)

(** [validate_order] of the gateway, [validate_order_request] of the worker. *)
Definition validate_order (pairs_cache : gmap string PairConfig.t) (o : Order.t) : result unit :=
  cfg ← ok_or (pairs_cache !! Order.pair_id o) ("unknown pair " +:+ Order.pair_id o);
  _ ← bail_if (negb (PairConfig.active cfg)) ("pair " +:+ Order.pair_id o +:+ " is not active");
  _ ← bail_if (negb (dec_eqb (dec_rem (Order.quantity o) (PairConfig.lot_size cfg)) dec_zero))
        "quantity not aligned to lot_size";
  _ ← bail_if (dec_ltb (Order.quantity o) (PairConfig.min_order_size cfg)
               || dec_ltb (PairConfig.max_order_size cfg) (Order.quantity o))
        ("quantity out of range [" +:+ dec_to_string (PairConfig.min_order_size cfg) +:+ ", "
         +:+ dec_to_string (PairConfig.max_order_size cfg) +:+ "]");
  match Order.price o with
  | Some price =>
      bail_if (dec_ltb dec_zero (PairConfig.tick_size cfg)
               && negb (dec_eqb (dec_rem price (PairConfig.tick_size cfg)) dec_zero))
        "price not aligned to tick_size"
  | None => Ok tt
  end.

(** The asset to lock and its amount, scaled. *)
Definition lock_params (o : Order.t) : result (string * Z) :=
  l ← get_lock_asset_amount o; mret (l.1, decimal_to_i64 l.2).

(** ** Trades *)

Definition trade_of_fill (o : Order.t) (id : uuid) (now : datetime) (lt : LuaTrade.t) : Trade.t :=
  let '(buy_order_id, sell_order_id) :=
    match Order.side o with
    | Buy => (Order.id o, LuaTrade.resting_order_id lt)
    | Sell => (LuaTrade.resting_order_id lt, Order.id o)
    end in
  Trade.mk id (Order.pair_id o) buy_order_id sell_order_id (LuaTrade.buyer_id lt) (LuaTrade.seller_id lt)
    (LuaTrade.price lt) (LuaTrade.quantity lt) 0 now.

Definition build_trades (e : Env.t) (now : datetime) (o : Order.t) (fills : list LuaTrade.t) : list Trade.t :=
  imap (fun k lt => trade_of_fill o (Env.fresh_trade e k) now lt) fills.

(** The order after the match. *)
Definition matched (o : Order.t) (matched_at : datetime) (r : LuaMatchResult.t) : Order.t :=
  Order.set_status (LuaMatchResult.status r)
    (Order.set_remaining (LuaMatchResult.remaining r) (Order.set_matched_at (Some matched_at) o)).

Definition is_warmup (o : Order.t) : bool :=
  match Order.client_order_id o with
  | Some id => String.prefix "warmup:" id || String.prefix "warmup-" id
  | None => false
  end.
End Reading.

(** ** The gateway's inline processing *)

Module WorkerState.
Section WorkerState.
Context `{C : Crates}.
Record t : Type := mk {
  pairs_cache : gmap string PairConfig.t;
  pair_keys : gmap string PairKeys.t;
  reset_version : Z;
}.
End WorkerState.
End WorkerState.

(** [PairKeys::new] for every cached pair. *)
Definition keys_of_pairs `{C : Crates} (pairs : gmap string PairConfig.t) : gmap string PairKeys.t :=
  map_imap (fun p _ => Some (PairKeys.new p)) pairs.

Section Process.
Context `{C : Crates, X : !Sqlx C, V : Valkey, J : SerdeJson}.
(** Whether a WebSocket endpoint is configured, and what it answers. *)
Context (ws_endpoint : bool) (answer : post -> PostResult).

(** Matching and what follows it, for a validated order. *)
Definition match_and_persist (e : Env.t) (o : Order.t) (keys : PairKeys.t) (asset : string) (amount : Z)
    (w : store * db) : (store * db) * result unit :=
  match match_order_lua o keys asset amount w.1 with
  | (s, Err m) => ((s, w.2), Err ("Lua EVAL failed: " +:+ m))
  | (s, Ok r) =>
      let o := matched o (Env.clock e 2%nat) r in
      let ts := build_trades e (Env.clock e 3%nat) o (LuaMatchResult.trades r) in
      let '(d, pr) := if is_warmup o then (w.2, Ok tt)
                      else persist_order (Env.clock e 4%nat) (Env.pg_now e) o ts (LuaMatchResult.trades r) w.2 in
      match pr with
      | Err m => ((s, d), Err m)
      | Ok _ =>
          let s := update_cache_after_processing (Env.pg_now e) o ts d s in
          let s := if ws_endpoint then (push_ws_updates answer (Order.pair_id o) s).1 else s in
          ((s, d), Ok tt)
      end
  end.

Definition process_order (st : WorkerState.t) (e : Env.t) (payload : Json) (w : store * db)
    : (store * db) * result unit :=
  match (o ← read_order e payload; _ ← validate_order (WorkerState.pairs_cache st) o; mret o) with
  | Err m => (w, Err m)
  | Ok o =>
      match Order.tif o with
      | FOK =>
          let o := Order.set_status Cancelled o in
          ((update_cache_after_processing (Env.pg_now e) o [] w.2 w.1, w.2), Ok tt)
      | _ =>
          match (l ← lock_params o;
                 keys ← ok_or (WorkerState.pair_keys st !! Order.pair_id o) ("unknown pair_id: " +:+ Order.pair_id o);
                 mret (l, keys)) with
          | Err m => (w, Err m)
          | Ok (l, keys) => match_and_persist e o keys l.1 l.2 w
          end
      end
  end.

(** ** The worker's queue *)

(** The channels and counters of the worker's [AppState]. *)
Record worker : Type := mk_worker {
  wk_metrics : MetricsBatch.t;
  wk_dirty_users : list string;
  wk_persist : list PersistJob.t;
  wk_dirty_books : list nat;
  wk_events : list Json;
}.

(** The job of an order, its users, dropped one by one when their channel is full, and
    its book. *)
Definition hand_on (subscribers : nat) (e : Env.t) (o : Order.t) (r : LuaMatchResult.t) (lua_ms : Z)
    (wk : worker) : worker :=
  let fills := LuaMatchResult.trades r in
  let ts := build_trades e (Env.clock e 3%nat) o fills in
  let had_trades := negb (bool_decide (length fills = 0%nat)) in
  let users := Order.user_id o ::
               mbind (fun lt => (if decide (LuaTrade.buyer_id lt = Order.user_id o) then [] else [LuaTrade.buyer_id lt])
                                ++ (if decide (LuaTrade.seller_id lt = Order.user_id o) then [] else [LuaTrade.seller_id lt]))
                 fills in
  let event := object [("type", JStr "order_created"); ("user_id", JStr (Order.user_id o));
                       ("order", order_to_json o); ("trades", JArr (trade_to_json <$> ts))] in
  mk_worker (MetricsBatch.record_order (Order.pair_id o) (Z.of_nat (length fills)) lua_ms (wk_metrics wk))
    (fold_left (fun q u => try_send DIRTY_USERS u q) users (wk_dirty_users wk))
    (wk_persist wk ++ [PersistJob.mk o ts fills])
    (if had_trades || rested o then wk_dirty_books wk ++ [MetricsBatch.pair_index (Order.pair_id o)]
     else wk_dirty_books wk)
    (if had_trades && (0 <? subscribers)%nat then wk_events wk ++ [event] else wk_events wk).

(** A full persistence channel runs the job at once, to the same effect later;
    a full channel of dirty users drops the user. *)
Definition process_queued_order (st : WorkerState.t) (subscribers : nat) (lua_ms : Z) (e : Env.t)
    (order_str : string) (s : store) (wk : worker) : store * worker * result unit :=
  match (j ← ok_or (json_from_str order_str) "invalid JSON";
         o ← read_queued_order e j;
         _ ← match validate_order (WorkerState.pairs_cache st) o with
              | Err m => Err ("validation failed: " +:+ m)
              | Ok _ => Ok tt
              end;
         l ← lock_params o;
         mret (o, l)) with
  | Err m => (s, wk, Err m)
  | Ok (o, l) =>
      match Order.tif o with
      | FOK =>
          (update_order_cache_after_processing (Env.clock e 2%nat) (Order.set_status Cancelled o) [] s, wk, Ok tt)
      | _ =>
          match WorkerState.pair_keys st !! Order.pair_id o with
          | None => (s, wk, Err ("unknown pair_id: " +:+ Order.pair_id o))
          | Some keys =>
              match match_order_lua o keys l.1 l.2 s with
              | (s, Err m) => (s, wk, Err m)
              | (s, Ok r) =>
                  (s, hand_on subscribers e (matched o (Env.clock e 2%nat) r) r lua_ms wk, Ok tt)
              end
          end
      end
  end.
End Process.
