(* ===== verification/OrderFlowProps.v ===== *)
(** * Order processing: properties

    What a rejected, a fill-or-kill and a matched order leave behind in Valkey
    and in the database, and what a validated order satisfies. *)

From S2P Require Import Prelude Numbers Externals Fixed Types Codec Valkey Book MatchLua Json Db.
From S2P Require Import Persist PersistProps Views Metrics Ws OrderFlow.

Open Scope Z_scope.

Section Validation.
Context `{C : Crates, L : !CratesLaws C}.

(** The orders that pass validation are exactly those of an active pair whose
    quantity is in range and a multiple of the lot size, and whose price, if
    any, is a multiple of the tick size when there is one. *)
Theorem validate_order_spec (pairs : gmap string PairConfig.t) (o : Order.t) :
  validate_order pairs o = Ok tt <->
  exists cfg, pairs !! Order.pair_id o = Some cfg /\ PairConfig.active cfg = true /\
    (dval (dec_rem (Order.quantity o) (PairConfig.lot_size cfg)) == 0)%Q /\
    (dval (PairConfig.min_order_size cfg) <= dval (Order.quantity o) <= dval (PairConfig.max_order_size cfg))%Q /\
    (forall p, Order.price o = Some p -> (0 < dval (PairConfig.tick_size cfg))%Q ->
       (dval (dec_rem p (PairConfig.tick_size cfg)) == 0)%Q).
Proof.
  unfold validate_order. destruct (pairs !! Order.pair_id o) as [cfg |]; cbn [ok_or mbind result_bind];
    [| split; [done | by intros (? & ? & _)]].
  assert (forall d, dec_eqb d dec_zero = true <-> (dval d == 0)%Q) as Hz.
  { intros d. by rewrite dec_eqb_val, dec_zero_val. }
  assert (forall a b, dec_ltb a b = false <-> (dval b <= dval a)%Q) as Hlt.
  { intros a b. rewrite <- not_true_iff_false, dec_ltb_val. split; [apply Qnot_lt_le | apply Qle_not_lt]. }
  split.
  - intros H. inv_ok. split_bools. exists cfg. split_and!; try done; try (by apply Hz); try (by apply Hlt).
    intros p Hp Ht. rewrite Hp in H.
    apply bail_if_ok in H. apply Hz. destruct (dec_eqb (dec_rem p _) dec_zero); [done |].
    assert (dec_ltb dec_zero (PairConfig.tick_size cfg) = true) as E by (by rewrite dec_ltb_val, dec_zero_val).
    by rewrite E in H.
  - intros (cfg' & [= <-] & Ha & Hl & [Hmin Hmax] & Hp).
    rewrite Ha, (proj2 (Hz _) Hl), (proj2 (Hlt _ _) Hmin), (proj2 (Hlt _ _) Hmax). cbn.
    destruct (Order.price o) as [p |]; [| done].
    destruct (dec_ltb dec_zero (PairConfig.tick_size cfg)) eqn:E; [| done].
    rewrite dec_ltb_val, dec_zero_val in E. by rewrite (proj2 (Hz _) (Hp p eq_refl E)).
Qed.
End Validation.

Section Processing.
Context `{C : Crates, L : !CratesLaws C, X : !Sqlx C, XL : !SqlxLaws C L X, V : Valkey, J : SerdeJson}.
Context (ws_endpoint : bool) (answer : post -> PostResult).

(** A fill-or-kill order is accepted and dropped: it is neither matched nor
    stored, and nothing changes. *)
Theorem process_order_fok (st : WorkerState.t) (e : Env.t) (payload : Json) (w : store * db) (o : Order.t) :
  read_order e payload = Ok o -> validate_order (WorkerState.pairs_cache st) o = Ok tt -> Order.tif o = FOK ->
  process_order ws_endpoint answer st e payload w = (w, Ok tt).
Proof.
  intros Hr Hv Hf. unfold process_order. rewrite Hr. cbn [mbind result_bind]. rewrite Hv.
  cbn [mbind result_bind mret result_ret]. rewrite Hf. by destruct w.
Qed.

(** C18: an order that fails leaves the database as it was, and Valkey too unless
    the failure came after the match, whose effect then stays. *)
Theorem process_order_failure (st : WorkerState.t) (e : Env.t) (payload : Json) (w w' : store * db) (m : string) :
  process_order ws_endpoint answer st e payload w = (w', Err m) ->
  w'.2 = w.2 /\
  (w'.1 = w.1 \/
   exists o keys l, read_order e payload = Ok o /\ lock_params o = Ok l /\
     WorkerState.pair_keys st !! Order.pair_id o = Some keys /\
     w'.1 = (match_order_lua o keys l.1 l.2 w.1).1).
Proof.
  unfold process_order. intros H.
  destruct (read_order e payload) as [o |] eqn:Hr; cbn [mbind result_bind] in H; [| injection H as <- _; auto].
  destruct (validate_order (WorkerState.pairs_cache st) o); cbn [mbind result_bind mret result_ret] in H;
    [| injection H as <- _; auto].
  assert (forall T, match Order.tif o with FOK => T | _ =>
            match (l ← lock_params o;
                   keys ← ok_or (WorkerState.pair_keys st !! Order.pair_id o) ("unknown pair_id: " +:+ Order.pair_id o);
                   mret (l, keys)) with
            | Err m => (w, Err m)
            | Ok (l, keys) => match_and_persist ws_endpoint answer e o keys l.1 l.2 w
            end end = (w', Err m) -> T <> (w', Err m) ->
          exists l keys, lock_params o = Ok l /\ WorkerState.pair_keys st !! Order.pair_id o = Some keys /\
                         match_and_persist ws_endpoint answer e o keys l.1 l.2 w = (w', Err m) \/ w' = w) as Hc.
  { intros T HT HnT. destruct (lock_params o) as [l |] eqn:El; cbn [mbind result_bind] in HT;
      [| exists ("", 0), (PairKeys.new ""); right; destruct (Order.tif o); congruence].
    destruct (WorkerState.pair_keys st !! Order.pair_id o) as [keys |]; cbn [ok_or mbind result_bind mret result_ret] in HT;
      [| exists l, (PairKeys.new ""); right; destruct (Order.tif o); congruence].
    exists l, keys. left. split_and!; [done | done | destruct (Order.tif o); congruence]. }
  apply Hc in H as (l & keys & [(El & Ek & H) | ->]); [| auto | discriminate].
  unfold match_and_persist in H.
  destruct (match_order_lua o keys l.1 l.2 w.1) as [s [r | e']] eqn:Em.
  2: { injection H as <- _. split; [done |]. right. exists o, keys, l. by rewrite Em. }
  destruct (is_warmup (matched o (Env.clock e 2%nat) r)); [done |].
  destruct (persist_order _ _ _ _ _ w.2) as [d [u | e'']] eqn:Ep; [done |].
  apply persist_order_atomic in Ep as ->. injection H as <- _.
  split; [done |]. right. exists o, keys, l. by rewrite Em.
Qed.

(** The trades of a match carry the orders and amounts of its fills. *)
Lemma build_trades_fills (e : Env.t) (now : datetime) (o : Order.t) (fills : list LuaTrade.t) :
  Forall2 (fun t lt =>
    Trade.pair_id t = Order.pair_id o /\ Trade.price t = LuaTrade.price lt /\
    Trade.quantity t = LuaTrade.quantity lt /\ Trade.buyer_id t = LuaTrade.buyer_id lt /\
    Trade.seller_id t = LuaTrade.seller_id lt /\
    match Order.side o with
    | Buy => Trade.buy_order_id t = Order.id o /\ Trade.sell_order_id t = LuaTrade.resting_order_id lt
    | Sell => Trade.sell_order_id t = Order.id o /\ Trade.buy_order_id t = LuaTrade.resting_order_id lt
    end) (build_trades e now o fills) fills.
Proof.
  unfold build_trades. generalize (Env.fresh_trade e). induction fills as [| lt fills IH]; intros f; [constructor |].
  rewrite imap_cons. constructor; [| apply (IH (f ∘ S))]. unfold trade_of_fill. by destruct (Order.side o).
Qed.

(** The final row holds what the match left of the order, its status and its terms. *)
Lemma final_row_shows (now pg_now : datetime) (o : Order.t) (seq : Z) :
  let row := final_row now pg_now o seq in
  OrderRow.remaining row = to_numeric (Order.remaining o) /\ OrderRow.status row = status_str (Order.status o) /\
  OrderRow.user_id row = Order.user_id o /\ OrderRow.pair_id row = Order.pair_id o /\
  OrderRow.side row = side_str (Order.side o) /\ OrderRow.quantity row = to_numeric (Order.quantity o).
Proof. unfold final_row. cbv zeta. by destruct (order_rests o). Qed.

(** C10: an order that is no warm-up order, that passes validation and whose match
    answers is stored, when neither its id nor its client order id is in the
    database, the trades of the match are well-formed and the match does not name
    the order itself: the call succeeds, the row holds what the match left of the
    order and its status, and each resting order filled loses what the match took
    of it and is "Filled" or "PartiallyFilled".  (Warm-up orders are matched and
    not stored; an order whose client order id is taken is matched and its row
    dropped by ON CONFLICT DO NOTHING.) *)
Theorem process_order_commits (st : WorkerState.t) (e : Env.t) (payload : Json) (s s1 : store) (d : db)
    (o : Order.t) (l : string * Z) (keys : PairKeys.t) (r : LuaMatchResult.t) :
  read_order e payload = Ok o -> validate_order (WorkerState.pairs_cache st) o = Ok tt -> Order.tif o <> FOK ->
  is_warmup o = false -> lock_params o = Ok l -> WorkerState.pair_keys st !! Order.pair_id o = Some keys ->
  match_order_lua o keys l.1 l.2 s = (s1, Ok r) ->
  let o' := matched o (Env.clock e 2%nat) r in
  let ts := build_trades e (Env.clock e 3%nat) o' (LuaMatchResult.trades r) in
  settleable ts -> ~ order_conflict o' d -> fill_of (Order.id o) (LuaMatchResult.trades r) = None ->
  exists s2 d2, process_order ws_endpoint answer st e payload (s, d) = ((s2, d2), Ok tt) /\
    orders d2 !! Order.id o = Some (final_row (Env.clock e 4%nat) (Env.pg_now e) o' (order_seq d)) /\
    (exists row, orders d2 !! Order.id o = Some row /\
       OrderRow.remaining row = to_numeric (LuaMatchResult.remaining r) /\
       OrderRow.status row = status_str (LuaMatchResult.status r) /\
       OrderRow.user_id row = Order.user_id o /\ OrderRow.pair_id row = Order.pair_id o /\
       OrderRow.side row = side_str (Order.side o) /\ OrderRow.quantity row = to_numeric (Order.quantity o)) /\
    (forall id qty row, fill_of id (LuaMatchResult.trades r) = Some qty -> orders d !! id = Some row ->
       id <> Order.id o -> orders d2 !! id = Some (fill_row qty (Env.clock e 4%nat) row)) /\
    (forall id qty row, fill_of id (LuaMatchResult.trades r) = Some qty -> orders d !! id = Some row ->
       id <> Order.id o ->
       exists row', orders d2 !! id = Some row' /\ row_filled [to_numeric qty] row row').
Proof.
  intros Hr Hv Hf Hw Hl Hk Hm o' ts Hse Hnc Hnf.
  assert (is_ok (parse_pair_id (Order.pair_id o')) = true) as Hp.
  { unfold lock_params, get_lock_asset_amount in Hl.
    change (Order.pair_id o') with (Order.pair_id o). by destruct (parse_pair_id (Order.pair_id o)). }
  destruct (persist_order_commits (Env.clock e 4%nat) (Env.pg_now e) o' ts (LuaMatchResult.trades r) d Hse Hp)
    as (d2 & _ & Ep).
  destruct (persisted_rows _ _ _ _ _ _ _ Ep Hnc Hnf) as [H1 H2].
  unfold process_order. rewrite Hr. cbn [mbind result_bind]. rewrite Hv. cbn [mbind result_bind mret result_ret].
  rewrite Hl. cbn [mbind result_bind]. rewrite Hk. cbn [ok_or mbind result_bind mret result_ret].
  assert (match_and_persist ws_endpoint answer e o keys l.1 l.2 (s, d) =
    (let s := update_cache_after_processing (Env.pg_now e) o' ts d2 s1 in
     let s := if ws_endpoint then (push_ws_updates answer (Order.pair_id o') s).1 else s in (s, d2), Ok tt)) as ->.
  { unfold match_and_persist. cbn [fst snd]. rewrite Hm. fold o'. fold ts.
    change (is_warmup o') with (is_warmup o). by rewrite Hw, Ep. }
  exists (let s := update_cache_after_processing (Env.pg_now e) o' ts d2 s1 in
          if ws_endpoint then (push_ws_updates answer (Order.pair_id o') s).1 else s), d2.
  split; [by destruct (Order.tif o) |]. split; [exact H1 |].
  split; [eexists; split; [exact H1 | exact (final_row_shows _ _ o' _)] |].
  assert (forall id qty row, fill_of id (LuaMatchResult.trades r) = Some qty -> orders d !! id = Some row ->
            id <> Order.id o -> orders d2 !! id = Some (fill_row qty (Env.clock e 4%nat) row)) as H3.
  { intros id qty row Hfill Hrow Hid. rewrite H2 by exact Hid. by rewrite Hrow, Hfill. }
  split; [exact H3 |]. intros id qty row Hfill Hrow Hid.
  eexists. split; [exact (H3 id qty row Hfill Hrow Hid) | apply fill_row_filled].
Qed.
End Processing.
