(* ===== verification/OrderFlowExamples.v ===== *)
(** * Concrete runs of order processing

    Messages on the market of [MatchLuaExamples], for the hypotheses of the
    theorems on order processing. *)

From S2P Require Import Prelude Numbers Externals Fixed Types Codec Valkey Book BookProps MatchLua.
From S2P Require Import MatchLuaProps MatchLuaReply MatchLuaExamples Json Db Persist PersistProps.
From S2P Require Import Views Metrics Ws OrderFlow OrderFlowProps.

Open Scope Z_scope.

Module OrderFlowExamples.
Import RefCrates RefValkey RefJson RefDb MatchLuaExamples.

Definition env : @Env.t ref_crates :=
  Env.mk (fun k => Z.of_nat k : @datetime ref_crates) (5%positive : @uuid ref_crates)
    (fun k => Pos.of_succ_nat (100 + k) : @uuid ref_crates) (9 : @datetime ref_crates).

(** A decimal as the reference crates print it. *)
Definition d_str (q : Q) : Json := JStr (q_to_string q).

Definition message (side tif : string) (price qty : Q) : Json :=
  object [("id", JStr "1"); ("user_id", JStr "taker"); ("pair_id", JStr "BTC-USDT"); ("side", JStr side);
          ("order_type", JStr "Limit"); ("tif", JStr tif); ("price", d_str price); ("quantity", d_str qty)].

Definition btc_usdt : @PairConfig.t ref_crates :=
  PairConfig.mk (1 # 100 : @decimal ref_crates)%Q (1 # 100000 : @decimal ref_crates)%Q
    (1 # 100000 : @decimal ref_crates)%Q (100 : @decimal ref_crates)%Q true.

Definition state : @WorkerState.t ref_crates :=
  let pairs := {[ "BTC-USDT" := btc_usdt ]} in WorkerState.mk pairs (keys_of_pairs pairs) 0.

Definition the_order (tif : TimeInForce) : @Order.t ref_crates :=
  Order.mk (1%positive : @uuid ref_crates) "taker" "BTC-USDT" Buy Limit tif (Some (101 : @decimal ref_crates)%Q)
    (2 : @decimal ref_crates)%Q (2 : @decimal ref_crates)%Q New Stp.None 1 0 (0 : @datetime ref_crates)
    (1 : @datetime ref_crates) None (Some (0 : @datetime ref_crates)) None None.

Lemma read_buy : read_order env (message "Buy" "GTC" 101 2) = Ok (the_order GTC).
Proof. reflexivity. Qed.

Lemma read_fok : read_order env (message "Buy" "FOK" 101 2) = Ok (the_order FOK).
Proof. reflexivity. Qed.

Lemma validated (tif : TimeInForce) : validate_order (WorkerState.pairs_cache state) (the_order tif) = Ok tt.
Proof. destruct tif; vm_compute; reflexivity. Qed.

Lemma process_order_fok_witness :
  process_order false (fun _ => Sent) state env (message "Buy" "FOK" 101 2) (market, empty_db) =
  ((market, empty_db), Ok tt).
Proof.
  exact (process_order_fok false (fun _ => Sent) state env (message "Buy" "FOK" 101 2) (market, empty_db)
           (the_order FOK) read_fok (validated FOK) eq_refl).
Defined.

Lemma process_order_failure_witness :
  exists w m, process_order false (fun _ => Sent) state env (message "Hold" "GTC" 101 2) (market, empty_db) = (w, Err m) /\
    w.2 = empty_db.
Proof.
  exists (market, empty_db), "invalid side: Hold".
  assert (process_order false (fun _ => Sent) state env (message "Hold" "GTC" 101 2) (market, empty_db) =
          ((market, empty_db), Err "invalid side: Hold")) as E by reflexivity.
  exact (conj E (proj1 (process_order_failure false (fun _ => Sent) state env (message "Hold" "GTC" 101 2)
                          (market, empty_db) _ _ E))).
Defined.

Definition fill (i : positive) (price_i : Z) : @LuaTrade.t ref_crates :=
  LuaTrade.mk (i : @uuid ref_crates) (i64_to_decimal price_i) (i64_to_decimal 100000000) "taker" "maker".

(** What the script answers on the market: both asks are taken. *)
Definition outcome : @LuaMatchResult.t ref_crates :=
  LuaMatchResult.mk (i64_to_decimal 0) Filled [fill 11 10000000000; fill 12 10100000000].

Definition keys : PairKeys.t := PairKeys.new "BTC-USDT".

Lemma the_match :
  match_order_lua (the_order GTC) keys "USDT" 20200000000 market =
  ((match_order_lua (the_order GTC) keys "USDT" 20200000000 market).1, Ok outcome).
Proof.
  assert ((match_order_lua (the_order GTC) keys "USDT" 20200000000 market).2 = Ok outcome) as E; [| by rewrite <- E; destruct (match_order_lua _ _ _ _ _)].
  unfold match_order_lua.
  assert ((match_order_script (lua_keys (the_order GTC) keys) (lua_argv (the_order GTC) "USDT" 20200000000) market).2 =
          Ok (reply 0 "F" [LTrade.mk "11" 10000000000 100000000 "taker" "maker";
                           LTrade.mk "12" 10100000000 100000000 "taker" "maker"])) as R by (vm_compute; reflexivity).
  destruct (match_order_script _ _ market) as [s1 r1]. cbn [snd] in *. rewrite R.
  apply parse_lua_reply_ok; [by split | done | cbn; lia |].
  assert (forall i p, printable p -> readable_trade (LTrade.mk (Z_to_string (Zpos i)) p 100000000 "taker" "maker")
                                   (fill i p)) as Hf.
  { intros i p Hp. split; [done |]. split; [by split |]. exists (i : @uuid ref_crates).
    split; [apply (uuid_parse_to_string (i : @uuid ref_crates)) | done]. }
  constructor; [apply (Hf 11%positive); by split |]. constructor; [apply (Hf 12%positive); by split | constructor].
Qed.

Definition the_trades : list (@Trade.t ref_crates) :=
  build_trades env (Env.clock env 3%nat) (matched (the_order GTC) (Env.clock env 2%nat) outcome)
    (LuaMatchResult.trades outcome).

Lemma trades_settleable : settleable the_trades.
Proof.
  constructor.
  - by repeat constructor.
  - assert (forall (t : @Trade.t ref_crates) a b, micro (cost t) = a -> micro (Trade.quantity t) = b ->
              Qeq_bool (dval (cost t)) (fineQ a) = true -> Qeq_bool (dval (Trade.quantity t)) (fineQ b) = true ->
              0 <= a -> 0 <= b -> fine (cost t) /\ fine (Trade.quantity t)) as Hf.
    { intros t a b <- <- Ha%Qeq_bool_iff Hb%Qeq_bool_iff ? ?. by split; split. }
    constructor; [| constructor; [| constructor]];
      (eapply Hf; [vm_compute; reflexivity | vm_compute; reflexivity | vm_compute; reflexivity
                  | vm_compute; reflexivity | lia | lia]).
  - vm_compute. reflexivity.
Qed.

Lemma process_order_commits_witness :
  exists s2 d2, process_order false (fun _ => Sent) state env (message "Buy" "GTC" 101 2) (market, empty_db) =
      ((s2, d2), Ok tt) /\
    OrderRow.status <$> orders d2 !! (1%positive : @uuid ref_crates) = Some "Filled".
Proof.
  destruct (process_order_commits false (fun _ => Sent) state env (message "Buy" "GTC" 101 2) market
              (match_order_lua (the_order GTC) keys "USDT" 20200000000 market).1 empty_db (the_order GTC)
              ("USDT", 20200000000) keys outcome read_buy (validated GTC) ltac:(discriminate) eq_refl eq_refl
              eq_refl the_match trades_settleable) as (s2 & d2 & E & H & _).
  - intros [[r Hr] | (i & r & Hr & _)]; discriminate.
  - reflexivity.
  - exists s2, d2. split; [exact E |].
    change (Order.id (the_order GTC)) with (1%positive : @uuid ref_crates) in H. rewrite H. reflexivity.
Defined.
End OrderFlowExamples.
