(* ===== verification/Cancel.v ===== *)
(** * Cancellations ([process_cancellation] of [crates/api/src/worker.rs])

    The worker's cancellation queue: cancelling one order, replacing it, and
    cancelling all the open orders of a user.  The state is Valkey, the
    database and the channel of users whose portfolio changed. *)

From S2P Require Import Prelude Numbers Externals Fixed Types Codec Valkey Book BookProps Json Db.
From S2P Require Import Persist.

Open Scope Z_scope.

Record cstate `{C : Crates, V : Valkey} : Type := mk_cstate {
  cs_kv : store;
  cs_db : db;
  cs_dirty : list string;
}.

Section Cancel.
Context `{C : Crates, X : !Sqlx C, V : Valkey, J : SerdeJson}.
Context (now pg_now : datetime).

(** SELECT pair_id, side, price, remaining, status FROM orders WHERE id AND user_id *)
Definition order_of_user (id : uuid) (user_id : string) (d : db) : option OrderRow.t :=
  r ← orders d !! id; if decide (OrderRow.user_id r = user_id) then Some r else None.

(** UPDATE orders SET status = 'Cancelled', remaining = 0, updated_at = NOW() *)
Definition cancel_row (id : uuid) (d : db) : db :=
  set_orders (alter (fun r => OrderRow.set 0%Q "Cancelled" (OrderRow.version r) pg_now r) id (orders d)) d.

(** [pair_id.split('-').next()] *)
Definition base_of (pair_id : string) : string := default "BTC" (head (split_on "-" pair_id)).

(** What a cancelled order gives back: the quote asset is always USDT. *)
Definition cancel_release (r : OrderRow.t) : string * decimal :=
  let remaining := of_numeric (OrderRow.remaining r) in
  if decide (OrderRow.side r = "Buy")
  then ("USDT", dec_mul remaining (default dec_zero (of_numeric <$> OrderRow.price r)))
  else (base_of (OrderRow.pair_id r), remaining).

(** The order rebuilt from the row, to be taken off the book. *)
Definition cancel_order_of (id : uuid) (user_id : string) (r : OrderRow.t) : Order.t :=
  let remaining := of_numeric (OrderRow.remaining r) in
  Order.mk id user_id (OrderRow.pair_id r) (if decide (OrderRow.side r = "Buy") then Buy else Sell) Limit GTC
    (of_numeric <$> OrderRow.price r) remaining remaining Cancelled Stp.None 1 0 now now None None None None.

Definition cancel_one (id : uuid) (user_id : string) (c : cstate) : cstate :=
  match order_of_user id user_id (cs_db c) with
  | None => c
  | Some r =>
      if decide (open_status (OrderRow.status r)) then
        let s := remove_order_from_book (cancel_order_of id user_id r) (cs_kv c) in
        let d := cancel_row id (cs_db c) in
        let '(asset, amount) := cancel_release r in
        let d := release_unfloored amount (user_id, asset) d in
        mk_cstate C V s d (try_send DIRTY_USERS user_id (cs_dirty c))
      else c
  end.

(** The branch of a message of type [cancel]. *)
Definition cancel_branch (j : Json) (c : cstate) : cstate * result unit :=
  match (id ← ok_or (get_str "order_id" j) "missing order_id"; ok_or (uuid_parse id) "invalid uuid") with
  | Err e => (c, Err e)
  | Ok id => (cancel_one id (default EmptyString (get_str "user_id" j)) c, Ok tt)
  end.

Definition cancel_msg (order_id user_id : string) : Json :=
  object [("type", JStr "cancel"); ("order_id", JStr order_id); ("user_id", JStr user_id)].

(** The message built by the other two branches, as the recursive call reads it:
    its type is [cancel]. *)
Definition cancel_again (order_id user_id : string) (c : cstate) : cstate * result unit :=
  match json_from_str (json_to_string (cancel_msg order_id user_id)) with
  | Some j => cancel_branch j c
  | None => (c, Err "invalid JSON")
  end.

Definition modify_branch (j : Json) (c : cstate) : cstate * result unit :=
  match get_str "order_id" j with
  | None => (c, Err "missing order_id")
  | Some order_id =>
      match cancel_again order_id (default EmptyString (get_str "user_id" j)) c with
      | (c, Err e) => (c, Err e)
      | (c, Ok _) =>
          match get "new_order" j with
          | None => (c, Ok tt)
          | Some new_order =>
              let queue := match get_str "pair_id" new_order with
                           | Some p => "queue:orders:" +:+ p
                           | None => "queue:orders"
                           end in
              (mk_cstate C V (v_lpush queue (json_to_string new_order) (cs_kv c)) (cs_db c) (cs_dirty c), Ok tt)
          end
      end
  end.

Definition on_pair (pair_id : option string) (p : string) : bool :=
  match pair_id with
  | Some q => bool_decide (p = q)
  | None => true
  end.

(** The open orders of a user, on one pair or on all; in no particular order. *)
Definition open_orders (user_id : string) (pair_id : option string) (d : db) : list uuid :=
  fst <$> filter (fun e => OrderRow.user_id e.2 = user_id /\ open_status (OrderRow.status e.2) /\
                           on_pair pair_id (OrderRow.pair_id e.2) = true)
            (map_to_list (orders d)).

Definition cancel_all_branch (j : Json) (c : cstate) : cstate * result unit :=
  let user_id := default "user-1" (get_str "user_id" j) in
  let ids := open_orders user_id (get_str "pair_id" j) (cs_db c) in
  (fold_left (fun c id => (cancel_again (uuid_to_string id) user_id c).1) ids c, Ok tt).

Definition process_cancellation (cancel_str : string) (c : cstate) : cstate * result unit :=
  match json_from_str cancel_str with
  | None => (c, Err "invalid JSON")
  | Some j =>
      let cancel_type := default "cancel" (get_str "type" j) in
      if decide (cancel_type = "cancel") then cancel_branch j c
      else if decide (cancel_type = "modify") then modify_branch j c
      else if decide (cancel_type = "cancel_all") then cancel_all_branch j c
      else (c, Ok tt)
  end.
End Cancel.

(** ** Properties *)

Section CancelProps.
Context `{C : Crates, L : !CratesLaws C, X : !Sqlx C, XL : !SqlxLaws C L X}.
Context `{V : Valkey, VL : !ValkeyLaws V, J : SerdeJson, JL : !SerdeJsonLaws J}.
Context (now pg_now : datetime).

Lemma order_of_user_some (id : uuid) (user_id : string) (d : db) (r : OrderRow.t) :
  order_of_user id user_id d = Some r <-> orders d !! id = Some r /\ OrderRow.user_id r = user_id.
Proof.
  unfold order_of_user. destruct (orders d !! id) as [r' |]; cbn; [| naive_solver].
  case_decide; naive_solver.
Qed.

Lemma cancel_one_closed (id : uuid) (user_id : string) (c : cstate) :
  (forall r, orders (cs_db c) !! id = Some r -> OrderRow.user_id r = user_id -> ~ open_status (OrderRow.status r)) ->
  cancel_one now pg_now id user_id c = c.
Proof.
  intros H. unfold cancel_one. destruct (order_of_user id user_id (cs_db c)) as [r |] eqn:E; [| done].
  apply order_of_user_some in E as [Hr Hu]. rewrite decide_False by eauto. done.
Qed.

Lemma cancel_one_orders (id id' : uuid) (user_id : string) (c : cstate) :
  orders (cs_db (cancel_one now pg_now id user_id c)) !! id' =
  if decide (id = id') then
    (fun r => if decide (OrderRow.user_id r = user_id /\ open_status (OrderRow.status r))
              then OrderRow.set 0%Q "Cancelled" (OrderRow.version r) pg_now r else r) <$> orders (cs_db c) !! id'
  else orders (cs_db c) !! id'.
Proof.
  unfold cancel_one. destruct (order_of_user id user_id (cs_db c)) as [r |] eqn:E.
  - apply order_of_user_some in E as [Hr Hu]. destruct (decide (open_status (OrderRow.status r))) as [Ho | Ho].
    + destruct (cancel_release r) as [asset amount]. cbn [cs_db]. unfold release_unfloored, cancel_row.
      cbn [orders set_orders set_balances]. case_decide as Hid; subst.
      * rewrite lookup_alter_eq, Hr. cbn. by rewrite decide_True.
      * by rewrite lookup_alter_ne.
    + case_decide as Hid; [subst | done]. rewrite Hr. cbn. rewrite decide_False; [done | tauto].
  - case_decide as Hid; [subst | done].
    destruct (orders (cs_db c) !! id') as [r |] eqn:Hr; [| done]. cbn. rewrite decide_False; [done |].
    intros [Hu _]. assert (order_of_user id' user_id (cs_db c) = Some r) as E' by (by apply order_of_user_some).
    congruence.
Qed.

(** What an open order has reserved of an asset: a bid on a pair quoted in USDT, its
    remaining quantity times its price, in USDT; an ask, its remaining quantity,
    in the asset before the dash of its pair. *)
Inductive reserved (r : OrderRow.t) : string -> Q -> Prop :=
| reserved_bid base price :
    OrderRow.side r = "Buy" -> OrderRow.pair_id r = base +:+ "-USDT" -> OrderRow.price r = Some price ->
    representable price -> reserved r "USDT" (OrderRow.remaining r * price)%Q
| reserved_ask base quote :
    OrderRow.side r = "Sell" -> OrderRow.pair_id r = base +:+ "-" +:+ quote -> char_free "-" base ->
    reserved r base (OrderRow.remaining r).

Lemma cancel_release_reserved (r : OrderRow.t) (asset : string) (x : Q) :
  reserved r asset x -> representable (OrderRow.remaining r) -> representable x ->
  (cancel_release r).1 = asset /\ (to_numeric (cancel_release r).2 == x)%Q.
Proof.
  intros [base p Hs _ Hp Hrp | base quote Hs Hpair Hfree] Hr Hx; unfold cancel_release; rewrite Hs.
  - rewrite decide_True by done. split; [done |]. cbn [snd]. rewrite Hp. cbn [fmap option_fmap option_map default].
    rewrite to_numeric_val.
    assert (dval (of_numeric (OrderRow.remaining r)) * dval (of_numeric p) == OrderRow.remaining r * p)%Q as E
      by by rewrite !of_numeric_val.
    rewrite dec_mul_val; [exact E |]. eapply representable_proper; [symmetry; exact E | exact Hx].
  - rewrite decide_False by done. cbn [fst snd]. split.
    + rewrite Hpair. unfold base_of. change (base +:+ "-" +:+ quote) with (base +:+ String "-" quote).
      by rewrite split_on_app.
    + by rewrite to_numeric_val, of_numeric_val.
Qed.

(** C26: cancelling an open order of the user, a bid on a pair quoted in USDT or an ask, marks its
    row cancelled with nothing remaining, moves what it reserved (remaining times
    price in USDT for a bid, remaining in the base asset for an ask) from locked to
    available, takes it off the book and out of the cache, and marks the user's
    portfolio unless the channel of marked users is full; no other order row and no
    other balance changes.  (A bid quoted in another asset stays locked: see
    [other_quote_stays_locked].) *)
Theorem cancel_open_order (id : uuid) (user_id : string) (c : cstate) (r : OrderRow.t)
    (asset : string) (x av lk : Q) :
  orders (cs_db c) !! id = Some r -> OrderRow.user_id r = user_id ->
  OrderRow.status r = "New" \/ OrderRow.status r = "PartiallyFilled" ->
  reserved r asset x -> representable (OrderRow.remaining r) -> representable x ->
  balances (cs_db c) !! (user_id, asset) = Some (av, lk) ->
  let c' := cancel_one now pg_now id user_id c in
  orders (cs_db c') !! id = Some (OrderRow.set 0%Q "Cancelled" (OrderRow.version r) pg_now r) /\
  (forall id', id' <> id -> orders (cs_db c') !! id' = orders (cs_db c) !! id') /\
  (exists av' lk', balances (cs_db c') !! (user_id, asset) = Some (av', lk') /\
     (av' == av + x)%Q /\ (lk' == lk - x)%Q) /\
  (forall key, key <> (user_id, asset) -> balances (cs_db c') !! key = balances (cs_db c) !! key) /\
  hash (view (cs_kv c')) (order_key id) = ∅ /\
  zset (view (cs_kv c')) (book_key (OrderRow.pair_id r) (if decide (OrderRow.side r = "Buy") then Buy else Sell))
    !! uuid_to_string id = None /\
  cs_dirty c' = (if bool_decide (Z.of_nat (length (cs_dirty c)) < 10000) then cs_dirty c ++ [user_id] else cs_dirty c).
Proof.
  intros Hr Hu Ho Hres Hrr Hrx Hb. cbn zeta.
  destruct (cancel_release_reserved r asset x Hres Hrr Hrx) as [Ea Ex].
  destruct (cancel_release r) as [asset' amount] eqn:Er. cbn [fst snd] in Ea, Ex. subst asset'.
  split; [rewrite cancel_one_orders, decide_True, Hr by done; cbn; by rewrite decide_True |].
  split; [intros id' Hid; rewrite cancel_one_orders, decide_False; congruence |].
  unfold cancel_one. rewrite (proj2 (order_of_user_some id user_id (cs_db c) r) (conj Hr Hu)), decide_True by done.
  rewrite Er. cbn [cs_db cs_kv cs_dirty]. unfold release_unfloored, cancel_row. cbn [balances set_orders set_balances].
  split; [rewrite lookup_alter_eq, Hb; cbn; eexists _, _; split; [done |]; by rewrite Ex |].
  split; [intros key Hk; by rewrite lookup_alter_ne |].
  unfold remove_order_from_book, cancel_order_of. cbn [Order.pair_id Order.side Order.id].
  autorewrite with valkey. split; [unfold order_key; by rewrite hash_del_eq |]. split.
  - unfold order_key. rewrite zset_del_ne by (apply order_key_book).
    rewrite zset_zrem_eq. apply lookup_delete_eq.
  - unfold try_send, DIRTY_USERS. case_bool_decide; case_cond; lia || done.
Qed.

(** Cancelling twice does what cancelling once does: the second time the
    order is no longer open and nothing changes. *)
Theorem cancel_idempotent (id : uuid) (user_id : string) (c : cstate) :
  cancel_one now pg_now id user_id (cancel_one now pg_now id user_id c) = cancel_one now pg_now id user_id c.
Proof.
  apply cancel_one_closed. intros r Hr Hu. rewrite cancel_one_orders, decide_True in Hr by done.
  destruct (orders (cs_db c) !! id) as [r0 |]; [| done]. cbn in Hr. injection Hr as <-.
  case_decide as Hc; [by intros [] |]. intros Hopen. apply Hc. split; [| done]. exact Hu.
Qed.

Lemma cancel_again_ok (id : uuid) (user_id : string) (c : cstate) :
  cancel_again now pg_now (uuid_to_string id) user_id c = (cancel_one now pg_now id user_id c, Ok tt).
Proof.
  unfold cancel_again. rewrite json_from_to by done. unfold cancel_branch.
  change (get_str "order_id" (cancel_msg (uuid_to_string id) user_id)) with (Some (uuid_to_string id)).
  change (get_str "user_id" (cancel_msg (uuid_to_string id) user_id)) with (Some user_id).
  cbn [ok_or mbind result_bind]. by rewrite uuid_parse_to_string.
Qed.

(** [cancel_all] closes every open order of the user, on the pair given or on
    all pairs, and touches no other order. *)
Theorem cancel_all_spec (j : Json) (c : cstate) (id : uuid) (r : OrderRow.t) :
  let user_id := default "user-1" (get_str "user_id" j) in
  orders (cs_db c) !! id = Some r ->
  orders (cs_db (cancel_all_branch now pg_now j c).1) !! id =
  Some (if decide (OrderRow.user_id r = user_id /\ open_status (OrderRow.status r) /\
                   on_pair (get_str "pair_id" j) (OrderRow.pair_id r) = true)
        then OrderRow.set 0%Q "Cancelled" (OrderRow.version r) pg_now r else r).
Proof.
  cbn zeta. intros Hr. unfold cancel_all_branch.
  set (u := default "user-1" (get_str "user_id" j)). set (p := get_str "pair_id" j).
  assert (forall ids c, orders (cs_db (fold_left (fun c id => (cancel_again now pg_now (uuid_to_string id) u c).1) ids c)) !! id =
            if decide (id ∈ ids) then
              (fun r => if decide (OrderRow.user_id r = u /\ open_status (OrderRow.status r))
                        then OrderRow.set 0%Q "Cancelled" (OrderRow.version r) pg_now r else r) <$> orders (cs_db c) !! id
            else orders (cs_db c) !! id) as H.
  { clear c Hr. induction ids as [| i ids IH]; intros c; cbn [fold_left].
    - rewrite decide_False; [done |]. apply not_elem_of_nil.
    - rewrite IH, cancel_again_ok. cbn [fst]. rewrite cancel_one_orders.
      destruct (decide (i = id)) as [-> | Hne].
      + rewrite (decide_True (P := id ∈ id :: ids)) by apply list_elem_of_here.
        destruct (decide (id ∈ ids)); [| done]. destruct (orders (cs_db c) !! id) as [r' |]; [| done]. cbn. f_equal.
        case_decide as H1; case_decide as H2; done.
      + destruct (decide (id ∈ ids)) as [Hin | Hin].
        * by rewrite (decide_True (P := id ∈ i :: ids)) by (by apply list_elem_of_further).
        * rewrite decide_False; [done |]. rewrite elem_of_cons. naive_solver. }
  cbn [fst]. rewrite H, Hr. clear H.
  assert (id ∈ open_orders u p (cs_db c) <->
          OrderRow.user_id r = u /\ open_status (OrderRow.status r) /\ on_pair p (OrderRow.pair_id r) = true) as Hin.
  { unfold open_orders. rewrite list_elem_of_fmap. split.
    - intros ([i r'] & -> & [Hp Hm]%list_elem_of_filter). apply elem_of_map_to_list in Hm. cbn in *.
      rewrite Hr in Hm. by injection Hm as <-.
    - intros Hp. exists (id, r). split; [done |]. apply list_elem_of_filter. split; [done |].
      by apply elem_of_map_to_list. }
  destruct (decide (id ∈ open_orders u p (cs_db c))) as [Hi | Hi]; rewrite Hin in Hi; cbn.
  - destruct Hi as (H1 & H2 & H3). by rewrite !decide_True.
  - by rewrite (decide_False (P := _ /\ _ /\ _)).
Qed.
End CancelProps.

Module CancelExamples.
Import RefCrates RefValkey RefJson RefDb.

Definition at0 : @datetime ref_crates := 0.

(** A bid of alice for one unit at 20, on the pair given. *)
Definition bid (pair_id : string) : @OrderRow.t ref_crates :=
  OrderRow.mk "alice" pair_id "Buy" "Limit" "GTC" (Some 20%Q) 1%Q 1%Q "New" "None" 1 1 at0 at0 None None None None.

(** Her account: 20 of the quote asset are locked. *)
Definition books (pair_id quote : string) : @cstate ref_crates ref_valkey :=
  mk_cstate ref_crates ref_valkey (v_hset "balance:alice:USDT" [("available", "0"); ("locked", "2000000000")] empty_store)
    (mk_db ref_crates {[ (7%positive : @uuid ref_crates) := bid pair_id ]} ∅
       {[ ("alice", quote) := (0%Q, 20%Q) ]} 2 1) [].

Definition usdt_bid := books "BTC-USDT" "USDT".

Lemma cancel_open_order_witness :
  let c' := cancel_one at0 at0 (7%positive : @uuid ref_crates) "alice" usdt_bid in
  OrderRow.status <$> orders (cs_db c') !! (7%positive : @uuid ref_crates) = Some "Cancelled" /\
  (exists av' lk', balances (cs_db c') !! ("alice", "USDT") = Some (av', lk') /\ (av' == 20)%Q /\ (lk' == 0)%Q) /\
  cs_dirty c' = ["alice"].
Proof.
  assert (representable 1) as R1 by (apply (representable_int 1); vm_compute; reflexivity).
  assert (representable 20) as R20 by (apply (representable_int 20); vm_compute; reflexivity).
  destruct (cancel_open_order at0 at0 (7%positive : @uuid ref_crates) "alice" usdt_bid (bid "BTC-USDT") "USDT"
              (1 * 20)%Q 0%Q 20%Q eq_refl eq_refl (or_introl eq_refl)
              (reserved_bid (bid "BTC-USDT") "BTC" 20%Q eq_refl eq_refl eq_refl R20) R1 R20 eq_refl)
    as (H & _ & (av' & lk' & Hb & Ha & Hl) & _ & _ & _ & Hd).
  split; [by rewrite H |]. split; [| exact Hd].
  exists av', lk'. split; [exact Hb |]. rewrite Ha, Hl. split; reflexivity.
Defined.

Definition all_of_alice : Json := object [("type", JStr "cancel_all"); ("user_id", JStr "alice")].

Lemma cancel_all_spec_witness :
  OrderRow.status <$> orders (cs_db (cancel_all_branch at0 at0 all_of_alice usdt_bid).1) !! (7%positive : @uuid ref_crates) =
  Some "Cancelled".
Proof.
  rewrite (cancel_all_spec at0 at0 all_of_alice usdt_bid (7%positive : @uuid ref_crates) (bid "BTC-USDT") eq_refl).
  reflexivity.
Defined.

(** On a pair quoted in another asset the 20 stay locked: the release goes to
    USDT, which has no row. *)
Example other_quote_stays_locked :
  let c' := cancel_one at0 at0 (7%positive : @uuid ref_crates) "alice" (books "ETH-BTC" "BTC") in
  Qeq_bool (balance (cs_db c') ("alice", "BTC")).2 20 = true /\ Qeq_bool (balance (cs_db c') ("alice", "BTC")).1 0 = true.
Proof. split; vm_compute; reflexivity. Qed.

(** The balance cached in Valkey keeps the amount locked. *)
Example cached_lock_survives :
  let c' := cancel_one at0 at0 (7%positive : @uuid ref_crates) "alice" usdt_bid in
  v_hget "balance:alice:USDT" "available" (cs_kv c') = Some "0" /\
  v_hget "balance:alice:USDT" "locked" (cs_kv c') = Some "2000000000".
Proof. split; vm_compute; reflexivity. Qed.
End CancelExamples.
