(* ===== verification/Consumers.v ===== *)
(** * The worker's queue consumers and background tasks
    ([crates/api/src/worker.rs], [crates/api/src/routes.rs])

    Eight consumers take messages off the Valkey queues: four of orders and four
    of cancellations, one per pair and one without a pair.  A consumer is a
    transition function: [step] performs one event (the blocking pop, one more
    pop of the drain, the spawning of a task, the end of a task, or whatever the
    rest of the system does meanwhile) and is undefined when the event cannot
    happen.  A run is a list of events, so every interleaving of the tasks in
    flight is a run.  The persistence worker and the order book debouncer follow.

    A task is one event, at the instant it ends; the connections never fail here
    ([Crashes] has them fail). *)

From S2P Require Import Prelude Numbers Externals Fixed Types Codec Valkey Book MatchLua Json Db Persist.
From S2P Require Import Views Metrics Ws OrderFlow Cancel.

Open Scope Z_scope.

(** ** The process *)

(** Valkey, the database, and the worker's channels and counters. *)
Record process `{C : Crates, V : Valkey} : Type := mk_process {
  p_kv : store;
  p_db : db;
  p_worker : worker;
}.

(** What one task takes from outside: the subscribers of the order events, the
    time its script took, and its clock and identifiers. *)
Record input `{C : Crates} : Type := mk_input {
  in_subscribers : nat;
  in_lua_ms : Z;
  in_env : Env.t;
}.

Inductive kind := Orders | Cancellations.

(** [pair_order_consumer], [pair_cancellation_consumer], and without a pair the
    fallback consumers. *)
Definition queue_key (k : kind) (pair : option string) : string :=
  match k with
  | Orders => "queue:orders"
  | Cancellations => "queue:cancellations"
  end +:+ match pair with
          | Some p => ":" +:+ p
          | None => EmptyString
          end.

(** The non-blocking pops after the first message. *)
Definition extra (k : kind) : nat :=
  match k with
  | Orders => 9
  | Cancellations => 0
  end.

(** The permits of the semaphore. *)
Definition permits (k : kind) : nat :=
  match k with
  | Orders => 3
  | Cancellations => 5
  end.

Inductive phase :=
| Waiting
| Draining (batch : list string) (more : nat)
| Spawning (batch : list string).

(** One consumer in its process.  [arrived], [started] and [finished] record
    what was pushed to its queue, the tasks spawned, and how each task ended. *)
Module Consumer.
Section Consumer.
Context `{C : Crates, V : Valkey}.
Record t : Type := mk {
  phase : Consumers.phase;
  in_flight : list string;
  world : process;
  arrived : list string;
  started : list string;
  finished : list (string * result unit);
}.
End Consumer.
End Consumer.

Section Consumers.
Context `{C : Crates, X : !Sqlx C, V : Valkey, J : SerdeJson}.
Context (st : WorkerState.t).

(** The task of one message. *)
Definition handle (k : kind) (x : input) (m : string) (w : process) : process * result unit :=
  match k with
  | Orders =>
      let '(s, wk, r) := process_queued_order st (in_subscribers x) (in_lua_ms x) (in_env x) m (p_kv w) (p_worker w) in
      (mk_process C V s (p_db w) wk, r)
  | Cancellations =>
      let wk := p_worker w in
      let '(c, r) := process_cancellation (Env.clock (in_env x) 0%nat) (Env.pg_now (in_env x)) m
                       (mk_cstate C V (p_kv w) (p_db w) (wk_dirty_users wk)) in
      (mk_process C V (cs_kv c) (cs_db c)
         (mk_worker (wk_metrics wk) (cs_dirty c) (wk_persist wk) (wk_dirty_books wk) (wk_events wk)), r)
  end.

Inductive event :=
| Brpop
| Drain
| Spawn
| Finish (i : nat) (x : input)
| Others (arrivals : list string) (w : process).

Section One.
Context (k : kind) (pair : option string).

Definition set_kv (s : store) (w : process) : process := mk_process C V s (p_db w) (p_worker w).

(** What waits in the queue, the oldest first. *)
Definition waiting (w : process) : list string := reverse (lst (view (p_kv w)) (queue_key k pair)).

(** BRPOP answers once a message is there; a timeout only repeats it. *)
Definition brpop (c : Consumer.t) : option Consumer.t :=
  match v_rpop (queue_key k pair) (p_kv (Consumer.world c)) with
  | (s, Some m) =>
      Some (Consumer.mk (Draining [m] (extra k)) (Consumer.in_flight c) (set_kv s (Consumer.world c))
              (Consumer.arrived c) (Consumer.started c) (Consumer.finished c))
  | (_, None) => None
  end.

(** One turn of the drain, which ends on an empty queue or a full batch. *)
Definition drain (batch : list string) (more : nat) (c : Consumer.t) : Consumer.t :=
  let set p w := Consumer.mk p (Consumer.in_flight c) w
                   (Consumer.arrived c) (Consumer.started c) (Consumer.finished c) in
  match more with
  | O => set (Spawning batch) (Consumer.world c)
  | S more =>
      match v_rpop (queue_key k pair) (p_kv (Consumer.world c)) with
      | (s, Some m) => set (Draining (batch ++ [m]) more) (set_kv s (Consumer.world c))
      | (s, None) => set (Spawning batch) (set_kv s (Consumer.world c))
      end
  end.

(** The next task of the batch, once a permit is free; then back to the queue. *)
Definition spawn (batch : list string) (c : Consumer.t) : option Consumer.t :=
  match batch with
  | [] => Some (Consumer.mk Waiting (Consumer.in_flight c) (Consumer.world c)
                  (Consumer.arrived c) (Consumer.started c) (Consumer.finished c))
  | m :: rest =>
      if (length (Consumer.in_flight c) <? permits k)%nat
      then Some (Consumer.mk (Spawning rest) (Consumer.in_flight c ++ [m]) (Consumer.world c)
                   (Consumer.arrived c) (Consumer.started c ++ [m]) (Consumer.finished c))
      else None
  end.

(** A task ends, whatever its result, and frees its permit. *)
Definition finish_task (i : nat) (x : input) (c : Consumer.t) : option Consumer.t :=
  match Consumer.in_flight c !! i with
  | None => None
  | Some m =>
      let '(w, r) := handle k x m (Consumer.world c) in
      Some (Consumer.mk (Consumer.phase c) (delete i (Consumer.in_flight c)) w
              (Consumer.arrived c) (Consumer.started c) (Consumer.finished c ++ [(m, r)]))
  end.

(** The rest of the system may do anything but take messages off this queue.  (The
    administration's [reset_all] and [truncate_orders] delete the order queues: a run
    of events is one without them, and a queue they emptied starts a new run.) *)
Definition others (arrivals : list string) (w : process) (c : Consumer.t) : option Consumer.t :=
  if decide (waiting w = waiting (Consumer.world c) ++ arrivals)
  then Some (Consumer.mk (Consumer.phase c) (Consumer.in_flight c) w
               (Consumer.arrived c ++ arrivals) (Consumer.started c) (Consumer.finished c))
  else None.

Definition step (ev : event) (c : Consumer.t) : option Consumer.t :=
  match ev, Consumer.phase c with
  | Brpop, Waiting => brpop c
  | Drain, Draining batch more => Some (drain batch more c)
  | Spawn, Spawning batch => spawn batch c
  | Finish i x, _ => finish_task i x c
  | Others arrivals w, _ => others arrivals w c
  | _, _ => None
  end.

Fixpoint run (evs : list event) (c : Consumer.t) : option Consumer.t :=
  match evs with
  | [] => Some c
  | ev :: evs => c ← step ev c; run evs c
  end.

(** The start of the consumer. *)
Definition consumer (w : process) : Consumer.t := Consumer.mk Waiting [] w [] [] [].
End One.

(** ** The consumers of the process *)

Definition pair_order_consumer (pair_id : string) := run Orders (Some pair_id).
Definition pair_cancellation_consumer (pair_id : string) := run Cancellations (Some pair_id).
Definition fallback_order_consumer := run Orders None.
Definition fallback_cancellation_consumer := run Cancellations None.

(** ** The persistence worker *)

(** One turn of the loop: an error of the batch is logged and its jobs are gone. *)
Definition persist_round (now pg_now : datetime) (w : process) : option process :=
  let wk := p_worker w in
  match wk_persist wk with
  | [] => None
  | _ =>
      let '(batch, rest) := next_batch (wk_persist wk) in
      let '(d, _) := process_persist_batch now pg_now batch (p_db w) in
      Some (mk_process C V (p_kv w) d
              (mk_worker (wk_metrics wk) (wk_dirty_users wk) rest (wk_dirty_books wk) (wk_events wk)))
  end.

(** Turns until the channel is empty; turn [i] runs at instant [at_ i]. *)
Fixpoint persist_rounds (fuel i : nat) (at_ : nat -> datetime * datetime) (w : process) : process :=
  match fuel with
  | O => w
  | S fuel =>
      match persist_round (at_ i).1 (at_ i).2 w with
      | Some w => persist_rounds fuel (S i) at_ w
      | None => w
      end
  end.

End Consumers.

(** The eight consumers [order_queue_consumer] runs. *)
Definition order_queue_consumer : list (kind * option string) :=
  ((fun p => (Orders, Some p)) <$> PAIRS) ++ ((fun p => (Cancellations, Some p)) <$> PAIRS)
  ++ [(Cancellations, None); (Orders, None)].
