(* ===== verification/ConsumersProps.v ===== *)
(** * Properties of the queue consumers

    Every message is taken once, in the order it was queued, and processed once;
    the consumer never holds more than its batch and its permits; left alone it
    processes everything that waits, in a bounded number of steps, however its
    tasks interleave.  The persistence worker hands every job to one batch. *)

From S2P Require Import Prelude Numbers Externals Fixed Types Codec Valkey Book MatchLua Json Db Persist.
From S2P Require Import Views Metrics Ws OrderFlow Cancel Consumers MatchLuaExamples OrderFlowExamples PersistProps.

Open Scope Z_scope.

(** ** What the tasks leave in the queues *)

Section Kept.
Context `{C : Crates, X : !Sqlx C, V : Valkey, VL : !ValkeyLaws V, J : SerdeJson}.
Context (key : string).

Definition list_kept (s s' : store) : Prop := lst (view s') key = lst (view s) key.

#[local] Instance list_kept_preorder : PreOrder list_kept.
Proof. unfold list_kept. split; [by intros ? | intros ???; congruence]. Qed.

Lemma kept_trans (s s1 s' : store) : list_kept s s1 -> list_kept s1 s' -> list_kept s s'.
Proof. apply transitivity. Qed.

Lemma lst_drop_ttl (k k' : string) (s : kv) : lst (drop_ttl k s) k' = lst s k'.
Proof. unfold drop_ttl. by destruct (kv_exists s k). Qed.

Lemma set_kept (k v : string) (s : store) : list_kept s (v_set k v s).
Proof. unfold list_kept. by autorewrite with valkey. Qed.

Lemma publish_kept (c m : string) (s : store) : list_kept s (v_publish c m s).
Proof. unfold list_kept. by autorewrite with valkey. Qed.

Lemma hset_kept (k : string) (fvs : list (string * string)) (s : store) : list_kept s (v_hset k fvs s).
Proof. unfold list_kept. by autorewrite with valkey. Qed.

Lemma hincrby_kept (k f : string) (n : Z) (s : store) : list_kept s (v_hincrby k f n s).1.
Proof. unfold list_kept. autorewrite with valkey. unfold kv_hincrby. by destruct (incr_cell _ _). Qed.

Lemma incrby_kept (k : string) (n : Z) (s : store) : list_kept s (v_incrby k n s).1.
Proof. unfold list_kept. autorewrite with valkey. unfold kv_incrby. by destruct (incr_cell _ _). Qed.

Lemma zadd_kept (k m : string) (n : Z) (s : store) : list_kept s (v_zadd k n m s).
Proof. unfold list_kept. by autorewrite with valkey. Qed.

Lemma zrem_kept (k m : string) (s : store) : list_kept s (v_zrem k m s).
Proof. unfold list_kept. autorewrite with valkey. unfold kv_zrem. by rewrite lst_drop_ttl. Qed.

Lemma expire_kept (k : string) (n : Z) (s : store) : list_kept s (v_expire k n s).
Proof. unfold list_kept. autorewrite with valkey. unfold kv_expire. by destruct (kv_exists _ _). Qed.

Lemma del_kept (k : string) (s : store) : k <> key -> list_kept s (v_del k s).
Proof. intros H. unfold list_kept. autorewrite with valkey. by apply at_delete_ne. Qed.

Lemma lpush_kept (k v : string) (s : store) : k <> key -> list_kept s (v_lpush k v s).
Proof. intros H. unfold list_kept. autorewrite with valkey. by apply at_put_ne. Qed.

#[local] Hint Resolve set_kept publish_kept hset_kept hincrby_kept incrby_kept zadd_kept zrem_kept expire_kept
  del_kept : core.
(** ** The match script and the cancellations *)

Context (not_order : forall x, order_key_str x <> key).

Lemma drop_resting_kept (book rid : string) (s : store) : list_kept s (drop_resting book rid s).
Proof. unfold drop_resting. eapply kept_trans; [apply zrem_kept | apply del_kept, not_order]. Qed.

Lemma lua_hincrby_kept (k f : string) (n : Z) (s : store) : list_kept s (lua_hincrby k f n s).1.
Proof. unfold lua_hincrby. destruct (lua_int_arg n); cbn; [auto | done]. Qed.

Lemma lock_balance_kept (a : Argv.t) (s : store) : list_kept s (MatchLua.lock_balance a s).1.
Proof.
  unfold MatchLua.lock_balance. destruct (lua_tonumber (Argv.lock_amount a)) as [amt |]; [| done].
  destruct (_ || _); [done |]. destruct (lua_tonumber _) as [avail |]; [| done].
  destruct (avail <? amt); [done |].
  pose proof (lua_hincrby_kept (balance_key (Argv.user_id a) (Argv.lock_asset a)) "available" (- amt) s) as H1.
  destruct (lua_hincrby _ _ (- amt) s) as [s1 [z | e]]; [| done].
  pose proof (lua_hincrby_kept (balance_key (Argv.user_id a) (Argv.lock_asset a)) "locked" amt s1) as H2.
  destruct (lua_hincrby _ _ amt s1) as [s2 [z' | e]]; by eapply kept_trans.
Qed.

Lemma fill_resting_kept (a : Argv.t) (price_i : Z) (book rid : string) (r : Resting.t) (L : LState.t) :
  list_kept (LState.st L) (LState.st (MatchLua.fill_resting a price_i book rid r L)).
Proof. unfold MatchLua.fill_resting. cbn. destruct (_ <=? 0); [apply drop_resting_kept | apply hset_kept]. Qed.

Lemma match_one_kept (a : Argv.t) (price_i : Z) (book rid : string) (L : LState.t) :
  list_kept (LState.st L) (LState.st (match_one a price_i book rid L)).
Proof.
  pose proof (drop_resting_kept book rid (LState.st L)) as Hd.
  unfold match_one. cbn zeta. destruct (ghost _); [done |]. destruct (negb _); [done |].
  repeat (destruct (decide _)); first [done | exact Hd | apply fill_resting_kept].
Qed.

Lemma match_loop_kept (a : Argv.t) (price_i : Z) (book : string) (ids : list string) (L : LState.t) :
  list_kept (LState.st L) (LState.st (match_loop a price_i book ids L)).
Proof.
  revert L. induction ids as [| rid ids IH]; intros L; cbn; [done |].
  destruct (_ || _); [done |]. eapply kept_trans; [apply match_one_kept | apply IH].
Qed.

Lemma match_order_lua_kept (o : Order.t) (k : PairKeys.t) (asset : string) (amount : Z) (s : store) :
  list_kept s (match_order_lua o k asset amount s).1.
Proof.
  unfold match_order_lua, match_order_script. cbn zeta. set (a := lua_argv o asset amount).
  pose proof (lock_balance_kept a s) as Hl.
  destruct (MatchLua.lock_balance a s) as [s1 [[] | e]]; cbn [fst] in Hl |- *; [| exact Hl | exact Hl].
  destruct (lua_tonumber (Argv.qty_i a)) as [q |]; [| exact Hl].
  set (p := default 0 _). set (K := lua_keys o k). unfold finish.
  set (L := run_loop K a p q s1).
  assert (list_kept s (LState.st L)) as HL.
  { eapply kept_trans; [exact Hl |]. apply (match_loop_kept a p (opp_key K a) _ (LState.mk s1 q "N" [] false)). }
  set (fs := final_status _ _ _ _).
  match goal with |- context [v_incrby ?k ?n ?s2] =>
    assert (list_kept s s2) as H2; [| pose proof (incrby_kept k n s2) as H3; destruct (v_incrby k n s2) as [s3 [z | e]]] end.
  - destruct (rests _ _ _); [| done]. unfold rest_order. cbn zeta.
    eapply kept_trans; [| apply expire_kept]. eapply kept_trans; [| apply hset_kept].
    eapply kept_trans; [exact HL | apply zadd_kept].
  - by eapply kept_trans.
  - by eapply kept_trans.
Qed.

Lemma process_queued_order_kept (st : WorkerState.t) (n : nat) (ms : Z) (e : Env.t) (m : string) (s : store)
    (wk : worker) : list_kept s (process_queued_order st n ms e m s wk).1.1.
Proof.
  unfold process_queued_order. destruct (mbind _ _) as [[o l] | msg]; [| done].
  assert (list_kept s (update_order_cache_after_processing (Env.clock e 2%nat) (Order.set_status Cancelled o) [] s))
    as Hu.
  { unfold update_order_cache_after_processing. cbn zeta. destruct (_ && _); [done | apply set_kept]. }
  assert (list_kept s match WorkerState.pair_keys st !! Order.pair_id o with
                      | Some keys => (match_order_lua o keys l.1 l.2 s).1
                      | None => s
                      end) as Hm.
  { destruct (WorkerState.pair_keys st !! Order.pair_id o); [apply match_order_lua_kept | done]. }
  destruct (Order.tif o); try exact Hu;
    (destruct (WorkerState.pair_keys st !! Order.pair_id o) as [keys |]; [| done];
     by destruct (match_order_lua o keys l.1 l.2 s) as [s1 [r | e1]]).
Qed.

Lemma cancel_one_kept (now pg_now : datetime) (id : uuid) (user : string) (c : cstate) :
  list_kept (cs_kv c) (cs_kv (cancel_one now pg_now id user c)).
Proof.
  unfold cancel_one. destruct (order_of_user id user (cs_db c)) as [r |]; [| done].
  destruct (decide _); [| done]. cbn zeta. destruct (cancel_release r). cbn.
  unfold remove_order_from_book. cbn zeta. eapply kept_trans; [apply zrem_kept |].
  apply del_kept. apply not_order.
Qed.

Lemma cancel_branch_kept (now pg_now : datetime) (j : Json) (c : cstate) :
  list_kept (cs_kv c) (cs_kv (cancel_branch now pg_now j c).1).
Proof. unfold cancel_branch. destruct (mbind _ _); [| done]. apply cancel_one_kept. Qed.

Lemma cancel_again_kept (now pg_now : datetime) (id user : string) (c : cstate) :
  list_kept (cs_kv c) (cs_kv (cancel_again now pg_now id user c).1).
Proof. unfold cancel_again. destruct (json_from_str _); [| done]. apply cancel_branch_kept. Qed.

Context (not_orders : forall x, "queue:orders" +:+ x <> key).

Lemma process_cancellation_kept (now pg_now : datetime) (m : string) (c : cstate) :
  list_kept (cs_kv c) (cs_kv (process_cancellation now pg_now m c).1).
Proof.
  unfold process_cancellation. destruct (json_from_str m) as [j |]; [| done]. cbn zeta.
  destruct (decide _); [apply cancel_branch_kept |]. destruct (decide _).
  { unfold modify_branch. destruct (get_str "order_id" j) as [id |]; [| done].
    pose proof (cancel_again_kept now pg_now id (default EmptyString (get_str "user_id" j)) c) as H.
    destruct (cancel_again _ _ _ _ c) as [c1 [[] | msg]]; [| done].
    destruct (get "new_order" j) as [o |]; [| done]. eapply kept_trans; [exact H |]. cbn. apply lpush_kept.
    destruct (get_str "pair_id" o) as [p |]; [apply (not_orders (":" +:+ p)) | apply (not_orders "")]. }
  destruct (decide _); [| done]. unfold cancel_all_branch. cbn.
  generalize (open_orders (default "user-1" (get_str "user_id" j)) (get_str "pair_id" j) (cs_db c)).
  intros ids. revert c. induction ids as [| id ids IH]; intros c; cbn; [done |].
  eapply kept_trans; [apply cancel_again_kept | apply IH].
Qed.
End Kept.

(** ** One consumer *)

Definition batch_of (p : phase) : list string :=
  match p with
  | Waiting => []
  | Draining batch _ | Spawning batch => batch
  end.

Definition batch_room (k : kind) (p : phase) : Prop :=
  match p with
  | Waiting => True
  | Draining batch more => (length batch + more = S (extra k))%nat
  | Spawning batch => (length batch <= S (extra k))%nat
  end.

(** What an event of the consumer takes at most; its own steps cost one. *)
Definition phase_work (p : phase) : nat :=
  match p with
  | Waiting => 0
  | Draining batch _ => 2 * length batch + 2
  | Spawning batch => 2 * length batch + 1
  end.

Definition own `{C : Crates, V : Valkey} (ev : event) : bool :=
  match ev with
  | Others _ _ => false
  | _ => true
  end.

Section Consumer.
Context `{C : Crates, X : !Sqlx C, V : Valkey, VL : !ValkeyLaws V, J : SerdeJson}.
Context (st : WorkerState.t) (k : kind) (pair : option string).

Lemma queue_not_order (x : string) : order_key_str x <> queue_key k pair.
Proof. by destruct k. Qed.

Lemma handle_waiting (x : input) (m : string) (w : process) :
  waiting k pair (handle st k x m w).1 = waiting k pair w.
Proof.
  unfold waiting. f_equal. pose proof queue_not_order as Hq. destruct k; cbn [handle].
  - pose proof (process_queued_order_kept (queue_key Orders pair) Hq st (in_subscribers x) (in_lua_ms x) (in_env x) m
                  (p_kv w) (p_worker w)) as H.
    by destruct (process_queued_order _ _ _ _ _ _ _) as [[s wk] r].
  - pose proof (process_cancellation_kept (queue_key Cancellations pair) Hq ltac:(by intros y)
                  (Env.clock (in_env x) 0%nat) (Env.pg_now (in_env x)) m
                  (mk_cstate C V (p_kv w) (p_db w) (wk_dirty_users (p_worker w)))) as H.
    by destruct (process_cancellation _ _ _ _) as [c r].
Qed.

(** A pop answers nothing on an empty queue and takes the oldest message off
    any other. *)
Lemma rpop_waiting (w : process) :
  match v_rpop (queue_key k pair) (p_kv w) with
  | (s, Some m) => waiting k pair w = m :: waiting k pair (set_kv s w)
  | (s, None) => waiting k pair w = [] /\ waiting k pair (set_kv s w) = []
  end.
Proof.
  pose proof (rpop_view (queue_key k pair) (p_kv w)) as Hv.
  pose proof (rpop_reply (queue_key k pair) (p_kv w)) as Hr.
  destruct (v_rpop _ _) as [s o]. unfold waiting. cbn [fst snd p_kv set_kv] in *. unfold kv_rpop in Hv, Hr.
  destruct (reverse (lst (view (p_kv w)) (queue_key k pair))) as [| m rest] eqn:E; cbn [fst snd] in *; subst o.
  - by rewrite Hv.
  - rewrite Hv, lst_drop_ttl. unfold lst at 1, set_lists. cbn [lists]. by rewrite at_put_eq, reverse_involutive.
Qed.

(** What every step keeps: nothing is lost, doubled or reordered. *)
Record accounted (q0 : list string) (c : Consumer.t) : Prop := {
  ac_order : Consumer.started c ++ batch_of (Consumer.phase c) ++ waiting k pair (Consumer.world c)
             = q0 ++ Consumer.arrived c;
  ac_tasks : (Consumer.finished c).*1 ++ Consumer.in_flight c ≡ₚ Consumer.started c;
  ac_permits : (length (Consumer.in_flight c) <= permits k)%nat;
  ac_batch : batch_room k (Consumer.phase c);
}.

(** [accounted] and the work left after one step. *)
Definition work (c : Consumer.t) : nat :=
  5 * length (waiting k pair (Consumer.world c)) + phase_work (Consumer.phase c) + length (Consumer.in_flight c).

#[local] Arguments work : simpl never.

Lemma brpop_step (q0 : list string) (c c' : Consumer.t) :
  Consumer.phase c = Waiting -> brpop k pair c = Some c' -> accounted q0 c ->
  accounted q0 c' /\ (work c' < work c)%nat.
Proof.
  intros Hp. unfold brpop. pose proof (rpop_waiting (Consumer.world c)) as Hw.
  destruct (v_rpop _ _) as [s [m |]]; [| done]. intros [= <-] [Ho Ht Hn Hb]. rewrite Hp in Ho. cbn in Ho. split.
  - constructor; cbn; try done. by rewrite <- Ho, Hw.
  - unfold work. rewrite Hw, Hp. cbn. lia.
Qed.

Lemma drain_step (q0 : list string) (batch : list string) (more : nat) (c : Consumer.t) :
  Consumer.phase c = Draining batch more -> accounted q0 c ->
  accounted q0 (drain k pair batch more c) /\ (work (drain k pair batch more c) < work c)%nat.
Proof.
  intros Hp [Ho Ht Hn Hb]. rewrite Hp in Ho, Hb. cbn in Ho, Hb. unfold work. rewrite Hp. unfold drain.
  destruct more as [| more]; cbn zeta.
  - split; [constructor; cbn; try done; lia | cbn; lia].
  - pose proof (rpop_waiting (Consumer.world c)) as Hw. destruct (v_rpop _ _) as [s [m |]].
    + split; [constructor; cbn; try done |].
      * rewrite <- Ho, Hw. by rewrite <- !(assoc_L app).
      * rewrite length_app. cbn. lia.
      * rewrite Hw. cbn. rewrite length_app. cbn. lia.
    + destruct Hw as [Hw Hw']. split; [constructor; cbn; try done |].
      * rewrite <- Ho, Hw. f_equal. f_equal. apply Hw'.
      * lia.
      * cbn [Consumer.world Consumer.phase Consumer.in_flight phase_work]. rewrite Hw, Hw'. cbn. lia.
Qed.

Lemma spawn_step (q0 : list string) (batch : list string) (c c' : Consumer.t) :
  Consumer.phase c = Spawning batch -> spawn k batch c = Some c' -> accounted q0 c ->
  accounted q0 c' /\ (work c' < work c)%nat.
Proof.
  intros Hp E [Ho Ht Hn Hb]. rewrite Hp in Ho, Hb. cbn in Ho, Hb. unfold work. rewrite Hp. unfold spawn in E.
  destruct batch as [| m rest].
  - injection E as <-. split; [by constructor | cbn; lia].
  - destruct (Nat.ltb_spec (length (Consumer.in_flight c)) (permits k)); [| done]. injection E as <-.
    split; [constructor; cbn in *; rewrite ?length_app; cbn; try lia |].
    + rewrite <- Ho. by rewrite <- (assoc_L app).
    + by rewrite (assoc_L app), Ht.
    + cbn. rewrite length_app. cbn. lia.
Qed.

Lemma finish_step (q0 : list string) (i : nat) (x : input) (c c' : Consumer.t) :
  finish_task st k i x c = Some c' -> accounted q0 c -> accounted q0 c' /\ (work c' < work c)%nat.
Proof.
  unfold finish_task. destruct (Consumer.in_flight c !! i) as [m |] eqn:Em; [| done].
  pose proof (handle_waiting x m (Consumer.world c)) as Hw.
  destruct (handle st k x m (Consumer.world c)) as [w r]. cbn in Hw. intros [= <-] [Ho Ht Hn Hb].
  pose proof (length_delete _ _ (mk_is_Some _ _ Em)) as Hl. pose proof (lookup_lt_Some _ _ _ Em) as Hi. split.
  - constructor; cbn; try done.
    + by rewrite Hw.
    + rewrite fmap_app. cbn. rewrite <- Ht, <- (assoc_L app). apply Permutation_app_head. cbn.
      symmetry. by apply delete_Permutation.
    + lia.
  - unfold work. cbn. rewrite Hw. lia.
Qed.

Lemma step_accounted (q0 : list string) (ev : event) (c c' : Consumer.t) :
  step st k pair ev c = Some c' -> accounted q0 c ->
  accounted q0 c' /\ (own ev = true -> (work c' < work c)%nat).
Proof.
  intros E Ha.
  assert (own ev = true -> accounted q0 c' /\ (work c' < work c)%nat) as Hown.
  { destruct ev as [| | | i x | ms w]; cbn [step] in E; intros Ho; [| | | by eapply finish_step | done].
    - destruct (Consumer.phase c) eqn:Hp; try done. by eapply brpop_step.
    - destruct (Consumer.phase c) eqn:Hp; try done. injection E as <-. by apply drain_step.
    - destruct (Consumer.phase c) eqn:Hp; try done. by eapply spawn_step. }
  destruct (own ev) eqn:Ho; [destruct Hown; done |]. split; [| done].
  destruct ev as [| | | i x | ms w]; try done. cbn [step] in E. unfold others in E. destruct (decide _) as [Hq |]; [| done].
  injection E as <-. destruct Ha as [Hor Ht Hn Hb]. constructor; cbn; try done.
  by rewrite Hq, !(assoc_L app), <- (assoc_L app (Consumer.started c)), Hor.
Qed.

Lemma run_accounted (q0 : list string) (evs : list event) (c c' : Consumer.t) :
  run st k pair evs c = Some c' -> accounted q0 c ->
  accounted q0 c' /\ (forallb own evs = true -> (length evs + work c' <= work c)%nat).
Proof.
  revert c. induction evs as [| ev evs IH]; intros c; cbn [run forallb].
  - intros [= ->] Ha. split; [done | intros _; cbn [length]; lia].
  - destruct (step st k pair ev c) as [c1 |] eqn:E; [| done]. cbn. intros Hr Ha.
    destruct (step_accounted q0 ev c c1 E Ha) as [Ha1 Hw]. destruct (IH c1 Hr Ha1) as [Ha' Hw']. split; [done |].
    intros [H1 H2]%andb_prop. specialize (Hw H1). specialize (Hw' H2). cbn [length]. lia.
Qed.

Lemma start_accounted (w : process) : accounted (waiting k pair w) (consumer w).
Proof. constructor; cbn; try done; [by rewrite app_nil_r | lia]. Qed.

(** However the consumer's tasks and the rest of the system interleave, the tasks
    are started in the order the messages were queued, each message is in exactly
    one place (processed, in flight, in the batch or still queued), and the batch
    and the tasks in flight respect their bounds. *)
Theorem consumer_exactly_once (w : process) (evs : list event) (c : Consumer.t)
    (Hrun : run st k pair evs (consumer w) = Some c) :
  Consumer.started c ++ batch_of (Consumer.phase c) ++ waiting k pair (Consumer.world c)
    = waiting k pair w ++ Consumer.arrived c /\
  (Consumer.finished c).*1 ++ Consumer.in_flight c ≡ₚ Consumer.started c /\
  (length (Consumer.in_flight c) <= permits k)%nat /\
  (length (batch_of (Consumer.phase c)) <= S (extra k))%nat.
Proof.
  destruct (run_accounted _ _ _ _ Hrun (start_accounted w)) as [[Ho Ht Hn Hb] _]. repeat split; try done.
  destruct (Consumer.phase c); cbn in *; lia.
Qed.

Lemma own_arrived (evs : list event) (c c' : Consumer.t) :
  forallb own evs = true -> run st k pair evs c = Some c' -> Consumer.arrived c' = Consumer.arrived c.
Proof.
  revert c. induction evs as [| ev evs IH]; intros c; cbn; [by intros _ [= ->] |].
  intros [H1 H2]%andb_prop. destruct (step st k pair ev c) as [c1 |] eqn:E; [| done]. cbn. intros Hr.
  rewrite (IH c1 H2 Hr). clear IH Hr. destruct ev as [| | | i x | ms w]; cbn in E; try done.
  - destruct (Consumer.phase c); try done. unfold brpop in E. destruct (v_rpop _ _) as [s [m |]]; [| done].
    by injection E as <-.
  - destruct (Consumer.phase c); try done. injection E as <-. unfold drain. destruct more; [done |].
    by destruct (v_rpop _ _) as [s [m |]].
  - destruct (Consumer.phase c); try done. unfold spawn in E. destruct batch; [by injection E as <- |].
    destruct (_ <? _)%nat; [| done]. by injection E as <-.
  - unfold finish_task in E. destruct (_ !! i); [| done]. destruct (handle _ _ _ _ _). by injection E as <-.
Qed.

(** Unless everything is processed, some step of the consumer is possible. *)
Definition idle (c : Consumer.t) : Prop :=
  Consumer.phase c = Waiting /\ Consumer.in_flight c = [] /\ waiting k pair (Consumer.world c) = [].

Lemma idle_or_step (c : Consumer.t) (x : input) :
  idle c \/ exists ev c', own ev = true /\ step st k pair ev c = Some c'.
Proof.
  destruct (Consumer.in_flight c) as [| m rest] eqn:Hf.
  - destruct (Consumer.phase c) as [| batch more | batch] eqn:Hp.
    + destruct (brpop k pair c) as [c' |] eqn:E.
      * right. exists Brpop, c'. cbn. by rewrite Hp.
      * left. split; [done |]. split; [done |]. unfold brpop in E. pose proof (rpop_waiting (Consumer.world c)) as Hw.
        destruct (v_rpop _ _) as [s [m |]]; [done |]. apply Hw.
    + right. exists Drain, (drain k pair batch more c). cbn. by rewrite Hp.
    + right. destruct (spawn k batch c) as [c' |] eqn:E.
      * exists Spawn, c'. cbn. by rewrite Hp.
      * exfalso. unfold spawn in E. rewrite Hf in E. destruct batch; [done |]. by destruct k.
  - right. destruct (handle st k x m (Consumer.world c)) as [w r] eqn:E.
    eexists (Finish 0 x), _. split; [done |]. cbn. unfold finish_task. rewrite Hf. cbn. by rewrite E.
Qed.

Lemma run_cons (ev : event) (evs : list event) (c c1 c' : Consumer.t) :
  step st k pair ev c = Some c1 -> run st k pair evs c1 = Some c' -> run st k pair (ev :: evs) c = Some c'.
Proof. intros E Hr. cbn. by rewrite E. Qed.

Lemma can_finish (q0 : list string) (x : input) (n : nat) (c : Consumer.t) :
  (work c <= n)%nat -> accounted q0 c ->
  exists evs c', forallb own evs = true /\ run st k pair evs c = Some c' /\ idle c'.
Proof.
  revert c. induction n as [n IH] using lt_wf_ind; intros c Hn Ha.
  destruct (idle_or_step c x) as [Hi | (ev & c1 & Ho & E)]; [by exists [], c |].
  destruct (step_accounted q0 ev c c1 E Ha) as [Ha1 Hw]. specialize (Hw Ho).
  destruct (IH (work c1) ltac:(lia) c1 (le_n _) Ha1) as (evs & c' & Hos & Hr & Hi).
  exists (ev :: evs), c'. cbn [forallb]. rewrite Ho, Hos. split; [done |]. split; [by eapply run_cons | done].
Qed.

Lemma idle_finished (q0 : list string) (c : Consumer.t) :
  idle c -> accounted q0 c -> (Consumer.finished c).*1 ≡ₚ q0 ++ Consumer.arrived c.
Proof.
  intros (Hp & Hf & Hq) [Ho Ht _ _]. rewrite Hf, app_nil_r in Ht. rewrite Hp, Hq in Ho. cbn in Ho.
  rewrite app_nil_r in Ho. by rewrite Ht, Ho.
Qed.

(** C22: from any state the consumer reaches, and however its tasks interleave, it
    processes every message queued so far once the rest of the system leaves it
    alone: no schedule of its own steps has more than [work] of them, one that
    cannot go on has processed each message exactly once, and such a schedule
    exists. *)
Theorem consumer_drains (w : process) (past : list event) (c : Consumer.t) (x : input)
    (Hpast : run st k pair past (consumer w) = Some c) :
  (forall evs c', forallb own evs = true -> run st k pair evs c = Some c' ->
     (length evs <= work c)%nat /\
     ((forall ev, own ev = true -> step st k pair ev c' = None) ->
      (Consumer.finished c').*1 ≡ₚ waiting k pair w ++ Consumer.arrived c)) /\
  (exists evs c', forallb own evs = true /\ run st k pair evs c = Some c' /\
     (Consumer.finished c').*1 ≡ₚ waiting k pair w ++ Consumer.arrived c).
Proof.
  destruct (run_accounted _ _ _ _ Hpast (start_accounted w)) as [Ha _]. split.
  - intros evs c' Hos Hr. destruct (run_accounted _ _ _ _ Hr Ha) as [Ha' Hw]. specialize (Hw Hos). split; [lia |].
    intros Hs. rewrite <- (own_arrived _ _ _ Hos Hr). apply idle_finished; [| done].
    destruct (idle_or_step c' x) as [Hi | (ev & c1 & Ho & E)]; [done |]. by rewrite Hs in E.
  - destruct (can_finish _ x _ c (le_n _) Ha) as (evs & c' & Hos & Hr & Hi). exists evs, c'. split; [done |].
    split; [done |]. destruct (run_accounted _ _ _ _ Hr Ha) as [Ha' _].
    rewrite <- (own_arrived _ _ _ Hos Hr). by apply idle_finished.
Qed.
End Consumer.

(** ** The persistence worker *)

Section PersistWorker.
Context `{C : Crates, X : !Sqlx C, V : Valkey, J : SerdeJson}.

(** The database after the batches, the first one run at instant [i]. *)
Definition run_batches (at_ : nat -> datetime * datetime) (i : nat) (batches : list (list PersistJob.t)) (d : db) : db :=
  (fold_left (fun acc b => (S acc.1, (process_persist_batch (at_ acc.1).1 (at_ acc.1).2 b acc.2).1)) batches (i, d)).2.

Lemma persist_round_spec (now pg_now : datetime) (w : process) :
  match persist_round now pg_now w with
  | Some w' =>
      wk_persist (p_worker w) <> [] /\
      wk_persist (p_worker w') = drop 50 (wk_persist (p_worker w)) /\ p_kv w' = p_kv w /\
      p_db w' = (process_persist_batch now pg_now (take 50 (wk_persist (p_worker w))) (p_db w)).1
  | None => wk_persist (p_worker w) = []
  end.
Proof.
  unfold persist_round. cbn zeta. destruct (wk_persist (p_worker w)) as [| job jobs] eqn:E; [done |].
  unfold next_batch. destruct (process_persist_batch _ _ _ _) as [d r] eqn:Ed. done.
Qed.

(** The persistence worker empties its channel in one turn per fifty jobs: every
    job is handed to exactly one batch of at most fifty, in the order of the
    channel, and the database is what these batches make of it; a batch that
    fails leaves the database as it was, and its jobs are gone. *)
Theorem persist_worker_drains (fuel i : nat) (at_ : nat -> datetime * datetime) (w : process)
    (Hfuel : (length (wk_persist (p_worker w)) <= 50 * fuel)%nat) :
  let w' := persist_rounds fuel i at_ w in
  wk_persist (p_worker w') = [] /\ p_kv w' = p_kv w /\
  exists batches, mjoin batches = wk_persist (p_worker w) /\
    Forall (fun b => (1 <= length b <= 50)%nat) batches /\ (length batches <= fuel)%nat /\
    p_db w' = run_batches at_ i batches (p_db w) /\
    (forall b now pg_now d d' e, b ∈ batches -> process_persist_batch now pg_now b d = (d', Err e) -> d' = d).
Proof.
  cbn zeta.
  assert (forall b now pg_now d d' e, process_persist_batch now pg_now b d = (d', Err e) -> d' = d) as Hfail.
  { intros b now pg_now d d' e. unfold process_persist_batch, transaction.
    destruct (persist_batch_tx now pg_now b d); congruence. }
  revert i w Hfuel. induction fuel as [| fuel IH]; intros i w Hfuel; cbn [persist_rounds].
  - split; [by apply nil_length_inv; lia |]. split; [done |]. exists []. split_and!; try done; [| by eauto].
    symmetry. apply nil_length_inv. lia.
  - pose proof (persist_round_spec (at_ i).1 (at_ i).2 w) as Hr. destruct (persist_round _ _ w) as [w1 |].
    + destruct Hr as (Hne & Hj & Hk & Hd). destruct (IH (S i) w1) as (H1 & H2 & bs & Hb & Hl & Hn & Hdb & _).
      { rewrite Hj, length_drop. lia. }
      split; [done |]. split; [congruence |]. exists (take 50 (wk_persist (p_worker w)) :: bs). split_and!.
      * change (take 50 (wk_persist (p_worker w)) ++ mjoin bs = wk_persist (p_worker w)). rewrite Hb, Hj. apply take_drop.
      * constructor; [| done]. rewrite length_take. destruct (wk_persist (p_worker w)); [done | cbn [length]; lia].
      * cbn. lia.
      * rewrite Hdb, Hd. done.
      * eauto.
    + split; [done |]. split; [done |]. exists []. rewrite Hr. split_and!; try done; [cbn; lia | by eauto].
Qed.
End PersistWorker.

Module ConsumersExamples.
Import RefCrates RefValkey RefJson RefDb MatchLuaExamples OrderFlowExamples.

(** A good order and an unreadable message wait for the consumer of BTC-USDT. *)
Definition queue : string := "queue:orders:BTC-USDT".

Definition good : string := json_to_string (message "Buy" "GTC" 101 2).

Definition idle_worker : @worker ref_crates := mk_worker MetricsBatch.new [] [] [] [].

Definition two_queued : @process ref_crates ref_valkey :=
  mk_process ref_crates ref_valkey (v_lpush queue "garbage" (v_lpush queue good market)) empty_db idle_worker.

Definition any_input : @input ref_crates := mk_input ref_crates 0 0 env.

(** Both are taken in one batch; the second task ends first. *)
Definition taken : list (@event ref_crates ref_valkey) := [Brpop; Drain; Drain; Spawn; Spawn].
Definition ended : list (@event ref_crates ref_valkey) := [Spawn; Finish 1 any_input; Finish 0 any_input].

Definition ran (evs : list (@event ref_crates ref_valkey)) : option (@Consumer.t ref_crates ref_valkey) :=
  run state Orders (Some "BTC-USDT") evs (consumer two_queued).

Lemma taken_runs : is_Some (ran taken).
Proof.
  assert (match ran taken with Some _ => true | None => false end = true) as E by (vm_compute; reflexivity).
  destruct (ran taken); [by eexists | done].
Qed.

Lemma consumer_exactly_once_witness :
  exists c, ran (taken ++ ended) = Some c /\ (Consumer.finished c).*1 ++ Consumer.in_flight c ≡ₚ Consumer.started c.
Proof.
  assert (match ran (taken ++ ended) with Some _ => true | None => false end = true) as E by (vm_compute; reflexivity).
  destruct (ran (taken ++ ended)) as [c |] eqn:Er; [| discriminate].
  exists c.
  exact (conj eq_refl (proj1 (proj2 (consumer_exactly_once state Orders (Some "BTC-USDT") two_queued _ c Er)))).
Defined.

(** The results of the tasks, as they ended: an error does not stop the consumer. *)
Example results_in_order :
  (fun c => (fun r => is_ok r.2) <$> Consumer.finished c) <$> ran (taken ++ ended) = Some [false; true].
Proof. vm_compute. reflexivity. Qed.

Lemma consumer_drains_witness :
  exists c, ran taken = Some c /\
    exists evs c', forallb own evs = true /\ run state Orders (Some "BTC-USDT") evs c = Some c' /\
      (Consumer.finished c').*1 ≡ₚ waiting Orders (Some "BTC-USDT") two_queued ++ Consumer.arrived c.
Proof.
  destruct (ran taken) as [c |] eqn:Er; [| exfalso; destruct taken_runs; congruence].
  exists c. exact (conj eq_refl (proj2 (consumer_drains state Orders (Some "BTC-USDT") two_queued taken c any_input Er))).
Defined.

(** Sixty jobs: two turns. *)
Definition a_job : @PersistJob.t ref_crates := PersistJob.mk (the_order GTC) [] [].

Definition sixty_jobs : @process ref_crates ref_valkey :=
  mk_process ref_crates ref_valkey market empty_db
    (mk_worker MetricsBatch.new [] (repeat a_job 60) [] []).

Lemma persist_worker_drains_witness :
  wk_persist (p_worker (persist_rounds 2 0 (fun _ => (0 : @datetime ref_crates, 0 : @datetime ref_crates)) sixty_jobs)) = [].
Proof.
  exact (proj1 (persist_worker_drains 2 0 (fun _ => (0 : @datetime ref_crates, 0 : @datetime ref_crates)) sixty_jobs
                  ltac:(cbn; lia))).
Defined.
End ConsumersExamples.
