(* ===== verification/Gateway.v ===== *)
(** * The gateway's routes and caches ([crates/gateway/src/routes.rs],
    [crates/gateway/src/lib.rs])

    The per-user cache, the broadcasts behind the REST and WebSocket feeds, the
    read routes, the order and cancellation routes and the administration
    commands.  An instant is a number of milliseconds; a response is a status
    and a body. *)

From S2P Require Import Prelude Numbers Externals Fixed Types Codec Valkey Book Balance Json Db.
From S2P Require Import Persist Views Metrics Ws OrderFlow Cancel.

Open Scope Z_scope.

(** ** Per-user cache *)

Definition USER_CACHE_TTL_MS : Z := 2000.

Module UserCache.
(** Key to the instant of the entry and its value. *)
Abbreviation t := (gmap string (Z * string)).

Definition new : t := ∅.

(** [Instant::elapsed], which saturates at zero. *)
Definition elapsed (now ts : Z) : Z := Z.max 0 (now - ts).

Definition get (now : Z) (key : string) (c : t) : option string :=
  e ← c !! key; if elapsed now e.1 <? USER_CACHE_TTL_MS then Some e.2 else None.

Definition set (now : Z) (key val : string) (c : t) : t :=
  let c := <[key := (now, val)]> c in
  if decide (1000 < size c)%nat then filter (fun e => elapsed now e.2.1 < USER_CACHE_TTL_MS * 2) c else c.
End UserCache.

(** ** Cache broadcasts *)

Definition WS_BROADCAST_INTERVAL_MS : Z := 100.

Module CacheEntry.
(** The watched value, what was broadcast so far, and the last broadcast. *)
Record t : Type := mk { watch : option string; broadcast : list string; last_broadcast : Z }.
End CacheEntry.

Module CacheBroadcasts.
Abbreviation t := (gmap string CacheEntry.t).

(** A receiver sees what is broadcast after it subscribed. *)
Definition subscribe (key : string) (c : t) : option nat :=
  (fun e => length (CacheEntry.broadcast e)) <$> c !! key.

Definition received (key : string) (from : nat) (c : t) : list string :=
  match c !! key with
  | Some e => drop from (CacheEntry.broadcast e)
  | None => []
  end.

Definition get_latest (key : string) (c : t) : option string := c !! key ≫= CacheEntry.watch.

(** Readers get the value at once, subscribers at most every 100 ms. *)
Definition update (now : Z) (key val : string) (c : t) : t :=
  alter (fun e =>
    if WS_BROADCAST_INTERVAL_MS <=? UserCache.elapsed now (CacheEntry.last_broadcast e)
    then CacheEntry.mk (Some val) (CacheEntry.broadcast e ++ [val]) now
    else CacheEntry.mk (Some val) (CacheEntry.broadcast e) (CacheEntry.last_broadcast e)) key c.
End CacheBroadcasts.

(** Empty and placeholder values are not cached. *)
Definition worth_caching (val : string) : bool := negb (bool_decide (val = EmptyString) || bool_decide (val = "{}")).

(** One message of the channel: a key, a newline and a value. *)
Definition on_cache_update (now : Z) (payload : string) (c : CacheBroadcasts.t) : CacheBroadcasts.t :=
  match split_at "010" payload with
  | (key, Some value) => if worth_caching value then CacheBroadcasts.update now key value c else c
  | (_, None) => c
  end.

Definition cache_keys : list string :=
  mbind (fun p => [orderbook_key p; trades_key p; ticker_key p]) PAIRS
  ++ ["cache:metrics"; "cache:lock_metrics"; "cache:throughput"; "cache:latency_metrics"; "cache:audit"; "cache:pairs"].

Definition new_broadcasts (now : Z) : CacheBroadcasts.t :=
  list_to_map ((fun k => (k, CacheEntry.mk None [] now)) <$> cache_keys).

Section Polling.
Context `{V : Valkey}.

(** The warm-up at start and each round of the fallback poller. *)
Definition poll (now : Z) (keys : list string) (s : store) (c : CacheBroadcasts.t) : CacheBroadcasts.t :=
  fold_left (fun c key => match v_get key s with
                          | Some val => if worth_caching val then CacheBroadcasts.update now key val c else c
                          | None => c
                          end) keys c.
End Polling.

(** ** Responses *)

Module Response.
Record t : Type := mk { status : Z; body : string }.
End Response.

Definition raw_json (body : string) : Response.t := Response.mk 200 body.

(** A JSON text written with single quotes. *)
Fixpoint json_text (s : string) : string :=
  match s with
  | EmptyString => EmptyString
  | String a r => String (if Ascii.eqb a "'" then "034"%char else a) (json_text r)
  end.

(** ** Read routes *)

Section Read.
Context `{V : Valkey, J : SerdeJson}.

Definition truncate_field (depth : nat) (k : string) (fields : list (string * Json)) : list (string * Json) :=
  (fun f => if decide (f.1 = k) then (f.1, match f.2 with JArr l => JArr (take depth l) | v => v end) else f) <$> fields.

Definition truncate_orderbook_depth (ob_json : option string) (depth : option Z) : string :=
  let raw := default (json_text "{'bids':[],'asks':[]}") ob_json in
  match depth with
  | Some d =>
      if (0 <? d) && (d <? 500) then
        match json_from_str raw with
        | None => raw
        | Some (JObj fields) =>
            json_to_string (JObj (truncate_field (Z.to_nat d) "asks" (truncate_field (Z.to_nat d) "bids" fields)))
        | Some data => json_to_string data
        end
      else raw
  | None => raw
  end.

Definition list_pairs (c : CacheBroadcasts.t) : Response.t :=
  raw_json (default (json_text "{'pairs':[]}") (CacheBroadcasts.get_latest "cache:pairs" c)).

(** Valkey first, then the in-memory cache, then an empty book. *)
Definition get_orderbook (pair_id : string) (depth : option Z) (s : store) (c : CacheBroadcasts.t) : Response.t :=
  let fallback :=
    match CacheBroadcasts.get_latest (orderbook_key pair_id) c with
    | Some cached => match depth with
                     | Some _ => raw_json (truncate_orderbook_depth (Some cached) depth)
                     | None => raw_json cached
                     end
    | None => raw_json (json_text "{'pair':'" +:+ pair_id +:+ json_text "','bids':[],'asks':[]}")
    end in
  match v_get (orderbook_key pair_id) s with
  | Some val => if decide (val = EmptyString) then fallback
                else raw_json (truncate_orderbook_depth (Some val) depth)
  | None => fallback
  end.

Definition get_trades (pair_id : string) (c : CacheBroadcasts.t) : Response.t :=
  raw_json (default (json_text "{'pair':'" +:+ pair_id +:+ json_text "','trades':[]}")
              (CacheBroadcasts.get_latest (trades_key pair_id) c)).

Definition get_ticker (pair_id : string) (c : CacheBroadcasts.t) : Response.t :=
  raw_json (default (json_text "{'pair':'" +:+ pair_id
                     +:+ json_text "','last':null,'high_24h':null,'low_24h':null,'volume_24h':null}")
              (CacheBroadcasts.get_latest (ticker_key pair_id) c)).

(** The dashboard routes: a cached document or its placeholder. *)
Definition get_cached (key placeholder : string) (c : CacheBroadcasts.t) : Response.t :=
  raw_json (default placeholder (CacheBroadcasts.get_latest key c)).

Definition get_metrics : CacheBroadcasts.t -> Response.t := get_cached "cache:metrics" "{}".
Definition get_lock_metrics : CacheBroadcasts.t -> Response.t := get_cached "cache:lock_metrics" "{}".
Definition get_throughput : CacheBroadcasts.t -> Response.t := get_cached "cache:throughput" (json_text "{'series':[]}").
Definition get_latency_percentiles : CacheBroadcasts.t -> Response.t := get_cached "cache:latency_metrics" "{}".
Definition get_audit : CacheBroadcasts.t -> Response.t := get_cached "cache:audit" (json_text "{'audit':[],'events':[]}").

(** All the documents of a pair in one. *)
Definition get_snapshot (pair_id : string) (depth : option Z) (c : CacheBroadcasts.t) : Response.t :=
  let latest k := CacheBroadcasts.get_latest k c in
  raw_json
    (json_text "{'orderbook':" +:+ truncate_orderbook_depth (latest (orderbook_key pair_id)) depth
     +:+ json_text ",'trades':" +:+ default (json_text "{'trades':[]}") (latest (trades_key pair_id))
     +:+ json_text ",'ticker':" +:+ default "null" (latest (ticker_key pair_id))
     +:+ json_text ",'metrics':" +:+ default "{}" (latest "cache:metrics")
     +:+ json_text ",'throughput':" +:+ default (json_text "{'series':[]}") (latest "cache:throughput")
     +:+ json_text ",'latency':" +:+ default "{}" (latest "cache:latency_metrics")
     +:+ json_text ",'pairs':" +:+ default (json_text "{'pairs':[]}") (latest "cache:pairs")
     +:+ "}").

(** A user's document: the user cache, then Valkey, then an empty document. *)
Definition user_document (now : Z) (cache_key empty : string) (s : store) (u : UserCache.t)
    : UserCache.t * Response.t :=
  match UserCache.get now cache_key u with
  | Some cached => (u, raw_json cached)
  | None =>
      let cached := default "{}" (v_get cache_key s) in
      if decide (cached = "{}") then (u, raw_json empty)
      else (UserCache.set now cache_key cached u, raw_json cached)
  end.

Definition list_orders (now : Z) (user_id : option string) (s : store) (u : UserCache.t) : UserCache.t * Response.t :=
  user_document now ("cache:orders:" +:+ default "user-1" user_id)
    (json_text "{'orders':[],'total':0,'limit':50,'offset':0}") s u.

Definition get_portfolio (now : Z) (user_id : option string) (s : store) (u : UserCache.t) : UserCache.t * Response.t :=
  user_document now (portfolio_key (default "user-1" user_id)) (json_text "{'balances':[]}") s u.

(** The filter of the order-event feeds. *)
Definition is_mine (user_id msg : string) : bool :=
  match json_from_str msg ≫= get_str "user_id" with
  | Some u => bool_decide (u = user_id)
  | None => false
  end.
End Read.

(** ** Order routes *)

Module CreateOrderRequest.
Section Request.
Context `{C : Crates}.
Record t : Type := mk {
  user_id : option string;
  pair_id : string;
  side : Side;
  order_type : OrderType;
  tif : option TimeInForce;
  price : option decimal;
  quantity : decimal;
  stp_mode : option Stp.t;
  client_order_id : option string;
}.
End Request.
End CreateOrderRequest.

Inductive DispatchMode := Queue | Inline.

Section Orders.
Context `{C : Crates, X : !Sqlx C, V : Valkey, J : SerdeJson}.
Context (ws_endpoint : bool) (answer : post -> PostResult).

Definition request_user (req : CreateOrderRequest.t) : string :=
  default "user-1" (CreateOrderRequest.user_id req).

(** The message of an accepted request. *)
Definition order_message (order_id : uuid) (now : datetime) (req : CreateOrderRequest.t) : Json :=
  object [("id", JStr (uuid_to_string order_id)); ("user_id", JStr (request_user req));
          ("pair_id", JStr (CreateOrderRequest.pair_id req)); ("side", JStr (side_str (CreateOrderRequest.side req)));
          ("order_type", JStr (order_type_str (CreateOrderRequest.order_type req)));
          ("tif", JStr (tif_str (default GTC (CreateOrderRequest.tif req))));
          ("price", opt_str (dec_to_string <$> CreateOrderRequest.price req));
          ("quantity", dec_json (CreateOrderRequest.quantity req));
          ("stp_mode", JStr (stp_str (default Stp.None (CreateOrderRequest.stp_mode req))));
          ("client_order_id", opt_str (CreateOrderRequest.client_order_id req));
          ("created_at", JStr (to_rfc3339 now)); ("received_at", JStr (to_rfc3339 now))].

Definition check_request (req : CreateOrderRequest.t) : result unit :=
  _ ← bail_if (dec_leb (CreateOrderRequest.quantity req) dec_zero) "quantity must be positive";
  _ ← bail_if (bool_decide (CreateOrderRequest.order_type req = Limit)
               && bool_decide (CreateOrderRequest.price req = None)) "limit orders require price";
  bail_if (bool_decide (CreateOrderRequest.order_type req = Market)
           && negb (bool_decide (CreateOrderRequest.price req = None))) "market orders cannot have price".

(** The body repeats the key [status]; the second value stays. *)
Definition created_body (order_id : uuid) (now : datetime) (req : CreateOrderRequest.t) : Json :=
  object [("order",
    object [("id", JStr (uuid_to_string order_id)); ("status", JStr "Pending"); ("user_id", JStr (request_user req));
            ("pair_id", JStr (CreateOrderRequest.pair_id req)); ("side", JStr (side_str (CreateOrderRequest.side req)));
            ("order_type", JStr (order_type_str (CreateOrderRequest.order_type req)));
            ("tif", JStr (tif_str (default GTC (CreateOrderRequest.tif req))));
            ("price", opt_str (dec_to_string <$> CreateOrderRequest.price req));
            ("quantity", dec_json (CreateOrderRequest.quantity req));
            ("remaining", dec_json (CreateOrderRequest.quantity req)); ("status", JStr "Queued");
            ("stp_mode", JStr (stp_str (default Stp.None (CreateOrderRequest.stp_mode req))));
            ("client_order_id", opt_str (CreateOrderRequest.client_order_id req));
            ("created_at", JStr (to_rfc3339 now))]);
    ("message", JStr "Order queued for processing")].

Definition error_response (status : Z) (e : string) : Response.t :=
  Response.mk status (json_to_string (object [("error", JStr e)])).

Definition order_queue (pair_id : string) : string := "queue:orders:" +:+ pair_id.

(** [order_id] and [now] are the identifier and the instant the handler makes
    up; a failure of the inline processing is logged and not reported. *)
Definition create_order (mode : DispatchMode) (st : WorkerState.t) (order_id : uuid) (now : datetime) (e : Env.t)
    (req : CreateOrderRequest.t) (w : store * db) : (store * db) * Response.t :=
  match check_request req with
  | Err m => (w, error_response 400 m)
  | Ok _ =>
      let msg := order_message order_id now req in
      let w := match mode with
               | Inline => (process_order ws_endpoint answer st e msg w).1
               | Queue => (v_lpush (order_queue (CreateOrderRequest.pair_id req)) (json_to_string msg) w.1, w.2)
               end in
      (w, Response.mk 201 (json_to_string (created_body order_id now req)))
  end.

Definition cancellations : string := "queue:cancellations".

(** The cancellation messages: only [cancel_all] names the user. *)
Definition cancel_message (order_id : uuid) (now : datetime) : Json :=
  object [("type", JStr "cancel"); ("order_id", JStr (uuid_to_string order_id)); ("requested_at", JStr (to_rfc3339 now))].

Definition modify_message (order_id : uuid) (now : datetime) : Json :=
  object [("type", JStr "modify"); ("order_id", JStr (uuid_to_string order_id)); ("requested_at", JStr (to_rfc3339 now))].

Definition cancel_all_message (user_id : string) (pair_id : option string) (now : datetime) : Json :=
  object [("type", JStr "cancel_all"); ("user_id", JStr user_id); ("pair_id", opt_str pair_id);
          ("requested_at", JStr (to_rfc3339 now))].

Definition cancel_order (order_id : uuid) (now : datetime) (s : store) : store * Response.t :=
  (v_lpush cancellations (json_to_string (cancel_message order_id now)) s,
   raw_json (json_to_string (object [("status", JStr "cancel_queued"); ("order_id", JStr (uuid_to_string order_id));
                                     ("message", JStr "Cancellation request queued")]))).

(** The new order of the request is not part of the message. *)
Definition modify_order (order_id : uuid) (now : datetime) (req : CreateOrderRequest.t) (s : store) : store * Response.t :=
  (v_lpush cancellations (json_to_string (modify_message order_id now)) s,
   raw_json (json_to_string
     (object [("status", JStr "modify_queued"); ("cancelled_order_id", JStr (uuid_to_string order_id));
              ("message", JStr "Modification queued. Old order will be cancelled. Submit a new POST /api/orders to replace it.")]))).

Definition cancel_all_orders (user_id pair_id : option string) (now : datetime) (s : store) : store * Response.t :=
  let user_id := default "user-1" user_id in
  (v_lpush cancellations (json_to_string (cancel_all_message user_id pair_id now)) s,
   raw_json (json_to_string (object [("status", JStr "cancel_all_queued"); ("user_id", JStr user_id);
                                     ("message", JStr "Cancel all request queued")]))).
End Orders.

(** ** Administration *)

Section Manage.
Context `{C : Crates, X : !Sqlx C, V : Valkey, J : SerdeJson}.

(** TRUNCATE orders CASCADE: no foreign key refers to [orders] any more, so the
    trades stay. *)
Definition truncate_orders_table (d : db) : db := set_orders ∅ d.

(** INSERT INTO balances ... ON CONFLICT DO UPDATE SET available = a, locked = 0 *)
Definition reset_balance (user asset : string) (a : Q) (d : db) : db :=
  set_balances (<[(user, asset) := (a, 0%Q)]> (balances d)) d.

Definition user_name (i : nat) : string := "user-" +:+ Z_to_string (Z.of_nat i).

(** Users 1 to n get 10 BTC and 1000000 USDT. *)
Definition reset_user_balances (n : nat) (d : db) : db :=
  fold_left (fun d i => reset_balance (user_name i) "USDT" 1000000%Q (reset_balance (user_name i) "BTC" 10%Q d))
    (seq 1 n) d.

(** SELECT user_id, asset, available, locked FROM balances *)
Definition balance_rows (d : db) : list balance_row :=
  (fun e => (e.1.1, e.1.2, of_numeric e.2.1, of_numeric e.2.2)) <$> map_to_list (balances d).

Definition flushed_keys (pair_id : string) : list string :=
  [book_key pair_id Buy; book_key pair_id Sell; version_key pair_id; orderbook_key pair_id; trades_key pair_id;
   ticker_key pair_id; order_queue pair_id].

Definition flush_keys (s : store) : store := fold_left (fun s k => v_del k s) (mbind flushed_keys PAIRS) s.

(** [as i32], and the length of [1..=n]. *)
Definition as_i32 (z : Z) : Z := (z + 2 ^ 31) mod 2 ^ 32 - 2 ^ 31.

Definition users_arg (users num_users : option Z) : nat :=
  Z.to_nat (as_i32 (default 100 (match users with Some u => Some u | None => num_users end))).

Definition reset_balances (n : nat) (w : store * db) : store * db :=
  let d := reset_user_balances n w.2 in
  (init_balances_from_pg (balance_rows d) w.1, d).

Definition reset_all (n : nat) (w : store * db) : store * db :=
  let '(s, d) := reset_balances n (w.1, truncate_orders_table w.2) in
  (flush_keys s, d).

(** Entries of a book whose order hash no longer exists are removed. *)
Definition sweep_book (key : string) (acc : store * Z) : store * Z :=
  fold_left (fun acc order_id =>
               if v_exists (order_key_str order_id) acc.1 then acc
               else (v_zrem key order_id acc.1, acc.2 + 1))
    (v_zrangebyscore key None acc.1) acc.

Definition sweep_stale_orders (s : store) : store * Z :=
  fold_left (fun acc p => sweep_book (book_key p Sell) (sweep_book (book_key p Buy) acc)) PAIRS (s, 0).

Definition RESET_VERSION_KEY : string := "state:reset_version".

(** With the new version, which the containers compare at their start only. *)
Definition truncate_orders (w : store * db) : (store * db) * Z :=
  let d := truncate_orders_table w.2 in
  let '(s, v) := v_incrby RESET_VERSION_KEY 1 (flush_keys w.1) in
  ((s, d), match v with Ok v => v | Err _ => 1 end).
End Manage.

(** ** Cold start of the gateway's worker *)

Section ColdStart.
Context `{C : Crates, X : !Sqlx C, V : Valkey, J : SerdeJson}.

(** [get_state] when no state is set: seed an unpopulated cache, then read the
    reset version.  [seed_rows] is the query of [seed_orderbook_from_pg]. *)
Definition get_state (pairs : list PairRow.t) (seed_rows : list seed_row) (pg_now : datetime) (d : db) (s : store)
    : store * WorkerState.t :=
  let cache := load_pairs_cache pairs in
  let s := if v_exists "cache:pairs" s then s
           else
             let s := init_balances_from_pg (balance_rows d) s in
             let s := seed_orderbook_from_pg seed_rows s in
             let s := seed_pairs_cache pairs s in
             seed_ticker_from_pg (fst <$> map_to_list cache) pg_now d s in
  let reset_version := default 0 (v_get RESET_VERSION_KEY s ≫= parse_u64) in
  (s, WorkerState.mk cache (keys_of_pairs cache) reset_version).
End ColdStart.
