(* ===== verification/GatewayProps.v ===== *)
(** * The gateway: properties

    The message of an accepted request, the cancellation messages, the throttled
    broadcasts, the depth limit and the administration commands. *)

From S2P Require Import Prelude Numbers Externals Fixed Types Codec Valkey Book Balance Json Db.
From S2P Require Import Persist Views Metrics Ws OrderFlow OrderFlowExamples Cancel Gateway.

Open Scope Z_scope.

(** ** Order messages *)

Section Messages.
Context `{C : Crates, L : !CratesLaws C}.

Lemma msg_side_str (s : Side) : msg_side (side_str s) = Ok s.
Proof. by destruct s. Qed.

Lemma msg_order_type_str (t : OrderType) : msg_order_type (order_type_str t) = Ok t.
Proof. by destruct t. Qed.

Lemma msg_tif_str (t : TimeInForce) : msg_tif (tif_str t) = t.
Proof. by destruct t. Qed.

Lemma msg_stp_str (s : Stp.t) : msg_stp (Some (stp_str s)) = s.
Proof. by destruct s. Qed.

(** The order carries what the request asked for. *)
Definition asked (order_id : uuid) (req : CreateOrderRequest.t) (o : Order.t) : Prop :=
  Order.id o = order_id /\ Order.user_id o = request_user req /\
  Order.pair_id o = CreateOrderRequest.pair_id req /\ Order.side o = CreateOrderRequest.side req /\
  Order.order_type o = CreateOrderRequest.order_type req /\
  Order.tif o = default GTC (CreateOrderRequest.tif req) /\
  Order.stp_mode o = default Stp.None (CreateOrderRequest.stp_mode req) /\
  Order.client_order_id o = CreateOrderRequest.client_order_id req /\
  (dval (Order.quantity o) == dval (CreateOrderRequest.quantity req))%Q /\ Order.remaining o = Order.quantity o /\
  match Order.price o, CreateOrderRequest.price req with
  | Some p, Some p' => (dval p == dval p')%Q
  | None, None => True
  | _, _ => False
  end.

(** The fields of a message, as the deserializers of the two workers see them. *)
Definition fields_of (order_id : uuid) (now : datetime) (req : CreateOrderRequest.t) : QueuedOrderMsg.t :=
  QueuedOrderMsg.mk (Some (uuid_to_string order_id)) (request_user req) (CreateOrderRequest.pair_id req)
    (side_str (CreateOrderRequest.side req)) (order_type_str (CreateOrderRequest.order_type req))
    (tif_str (default GTC (CreateOrderRequest.tif req))) (dec_to_string <$> CreateOrderRequest.price req)
    (dec_to_string (CreateOrderRequest.quantity req)) (Some (stp_str (default Stp.None (CreateOrderRequest.stp_mode req))))
    (CreateOrderRequest.client_order_id req) (Some (to_rfc3339 now)) (Some (to_rfc3339 now)) None.

Lemma opt_field_str (k : string) (o : option string) (j : Json) :
  get k j = Some (opt_str o) -> opt_field k j = Ok o.
Proof. intros H. unfold opt_field. rewrite H. by destruct o. Qed.

Lemma message_fields (order_id : uuid) (now : datetime) (req : CreateOrderRequest.t) :
  QueuedOrderMsg.from_value (order_message order_id now req) = Ok (fields_of order_id now req) /\
  QueuedOrderMsg.from_queue (order_message order_id now req) = Ok (fields_of order_id now req).
Proof.
  set (j := order_message order_id now req).
  pose proof (opt_field_str "price" (dec_to_string <$> CreateOrderRequest.price req) j eq_refl) as Hp.
  pose proof (opt_field_str "client_order_id" (CreateOrderRequest.client_order_id req) j eq_refl) as Hc.
  unfold QueuedOrderMsg.from_value, QueuedOrderMsg.from_queue. rewrite Hp, Hc.
  change (opt_field "id" j) with (Ok (Some (uuid_to_string order_id))).
  change (req_field "id" j) with (Ok (uuid_to_string order_id)).
  change (default_field "user_id" "user-1" j) with (Ok (request_user req)).
  change (req_field "pair_id" j) with (Ok (CreateOrderRequest.pair_id req)).
  change (req_field "side" j) with (Ok (side_str (CreateOrderRequest.side req))).
  change (req_field "order_type" j) with (Ok (order_type_str (CreateOrderRequest.order_type req))).
  change (default_field "tif" "GTC" j) with (Ok (tif_str (default GTC (CreateOrderRequest.tif req)))).
  change (req_field "quantity" j) with (Ok (dec_to_string (CreateOrderRequest.quantity req))).
  change (opt_field "stp_mode" j) with (Ok (Some (stp_str (default Stp.None (CreateOrderRequest.stp_mode req))))).
  change (opt_field "created_at" j) with (Ok (Some (to_rfc3339 now))).
  change (opt_field "received_at" j) with (Ok (Some (to_rfc3339 now))).
  change (opt_field "time_in_force" j) with (Ok (@None string)).
  done.
Qed.

Lemma price_read (p : option decimal) :
  exists p', (dec_to_string <$> p) ≫= dec_from_str = p' /\
    match p', p with
    | Some a, Some b => (dval a == dval b)%Q
    | None, None => True
    | _, _ => False
    end.
Proof.
  eexists. split; [reflexivity |]. destruct p as [p |]; [| done]. cbn.
  destruct (dec_from_to_string p) as (p' & -> & H). done.
Qed.

Section Read.
Context (e : Env.t) (order_id : uuid) (now : datetime) (req : CreateOrderRequest.t) (Hc : check_request req = Ok tt).

Lemma read_order_message :
  exists o, read_order e (order_message order_id now req) = Ok o /\ asked order_id req o.
Proof.
  destruct (message_fields order_id now req) as [Hv _].
  destruct (dec_from_to_string (CreateOrderRequest.quantity req)) as (q & Eq & Vq).
  destruct (price_read (CreateOrderRequest.price req)) as (p & Ep & Vp).
  unfold check_request in Hc. inv_ok.
  assert (dec_leb q dec_zero = false) as Hq0.
  { unfold dec_leb in *. rewrite dec_cmp_val in *. by rewrite Vq. }
  assert (bool_decide (p = None) = bool_decide (CreateOrderRequest.price req = None)) as Hpe.
  { destruct p, (CreateOrderRequest.price req); done. }
  unfold read_order. rewrite Hv. cbn [mbind result_bind fields_of QueuedOrderMsg.id QueuedOrderMsg.side
    QueuedOrderMsg.order_type QueuedOrderMsg.quantity QueuedOrderMsg.price QueuedOrderMsg.time_in_force].
  rewrite decide_False by apply uuid_to_string_nonempty. rewrite uuid_parse_to_string, msg_side_str, msg_order_type_str, Eq.
  cbn [ok_or mbind result_bind]. rewrite Ep, Hpe, Hq0.
  repeat match goal with H : andb _ _ = false |- _ => rewrite H end. cbn.
  eexists. split; [reflexivity |]. unfold asked, new_order; cbn. rewrite msg_tif_str, msg_stp_str. by split_and!.
Qed.

Lemma read_queued_message :
  exists o, read_queued_order e (order_message order_id now req) = Ok o /\ asked order_id req o.
Proof.
  destruct (message_fields order_id now req) as [_ Hq].
  destruct (dec_from_to_string (CreateOrderRequest.quantity req)) as (q & Eq & Vq).
  destruct (price_read (CreateOrderRequest.price req)) as (p & Ep & Vp).
  unfold read_queued_order. rewrite Hq. cbn [mbind result_bind fields_of QueuedOrderMsg.id QueuedOrderMsg.side
    QueuedOrderMsg.order_type QueuedOrderMsg.quantity QueuedOrderMsg.price default from_option]. unfold id.
  rewrite uuid_parse_to_string, msg_side_str, msg_order_type_str, Eq. cbn [ok_or mbind result_bind]. rewrite Ep.
  eexists. split; [reflexivity |]. unfold asked, new_order; cbn. rewrite msg_tif_str, msg_stp_str. by split_and!.
Qed.
End Read.

(** C28: the message the gateway makes of an accepted request is read back, by the
    inline processing and by the queue worker, as the order requested. *)
Theorem create_order_round_trip (e : Env.t) (order_id : uuid) (now : datetime) (req : CreateOrderRequest.t) :
  check_request req = Ok tt ->
  (exists o, read_order e (order_message order_id now req) = Ok o /\ asked order_id req o) /\
  (exists o, read_queued_order e (order_message order_id now req) = Ok o /\ asked order_id req o).
Proof. intros Hc. split; [by apply read_order_message | by apply read_queued_message]. Qed.
End Messages.

(** ** Cancellation messages *)

Section Cancellations.
Context `{C : Crates, L : !CratesLaws C, X : !Sqlx C, V : Valkey, J : SerdeJson, JL : !SerdeJsonLaws J}.
Context (now pg_now : datetime).

(** C29: a cancellation or modification queued by the gateway names no user, so
    the worker looks for an order of the user without a name: unless there is
    one, nothing is cancelled, and the call still succeeds. *)
Theorem gateway_cancel_ignored (order_id : uuid) (requested_at : datetime) (c : cstate) :
  (forall r, orders (cs_db c) !! order_id = Some r -> OrderRow.user_id r <> EmptyString) ->
  process_cancellation now pg_now (json_to_string (cancel_message order_id requested_at)) c = (c, Ok tt) /\
  process_cancellation now pg_now (json_to_string (modify_message order_id requested_at)) c = (c, Ok tt).
Proof.
  intros Hu.
  assert (cancel_one now pg_now order_id EmptyString c = c) as Hc.
  { unfold cancel_one, order_of_user. destruct (orders (cs_db c) !! order_id) as [r |] eqn:E; [| done]. cbn.
    by rewrite decide_False by eauto. }
  unfold process_cancellation. split.
  - rewrite json_from_to by done. set (j := cancel_message order_id requested_at).
    change (get_str "type" j) with (Some "cancel"). cbn [default from_option]. unfold id.
    rewrite decide_True by done. unfold cancel_branch.
    change (get_str "order_id" j) with (Some (uuid_to_string order_id)).
    change (get_str "user_id" j) with (@None string).
    cbn [ok_or mbind result_bind default from_option]. rewrite uuid_parse_to_string. cbn [ok_or]. by rewrite Hc.
  - rewrite json_from_to by done. set (j := modify_message order_id requested_at).
    change (get_str "type" j) with (Some "modify"). cbn [default from_option]. unfold id.
    rewrite decide_False, decide_True by done. unfold modify_branch.
    change (get_str "order_id" j) with (Some (uuid_to_string order_id)).
    change (get_str "user_id" j) with (@None string).
    change (get "new_order" j) with (@None Json).
    cbn [default from_option]. unfold cancel_again. rewrite json_from_to by done. unfold cancel_branch.
    change (get_str "order_id" (cancel_msg (uuid_to_string order_id) EmptyString)) with (Some (uuid_to_string order_id)).
    change (get_str "user_id" (cancel_msg (uuid_to_string order_id) EmptyString)) with (Some EmptyString).
    cbn [ok_or mbind result_bind]. rewrite uuid_parse_to_string. cbn [ok_or default from_option]. unfold id. by rewrite Hc.
Qed.
End Cancellations.

(** ** Broadcasts *)

(** A run of updates of one key: instants and values. *)
Definition updates (key : string) (us : list (Z * string)) (c : CacheBroadcasts.t) : CacheBroadcasts.t :=
  fold_left (fun c u => CacheBroadcasts.update u.1 key u.2 c) us c.

(** The latest value of a run, the start's if it is empty. *)
Definition latest (e : CacheEntry.t) (us : list (Z * string)) : option string :=
  match last us with
  | Some u => Some u.2
  | None => CacheEntry.watch e
  end.

(** The instants follow each other from [t] to [t']. *)
Fixpoint in_order (t : Z) (us : list (Z * string)) (t' : Z) : Prop :=
  match us with
  | [] => t <= t'
  | u :: us => t <= u.1 /\ in_order u.1 us t'
  end.

Lemma in_order_bounds (t : Z) (us : list (Z * string)) (t' : Z) : in_order t us t' -> t <= t'.
Proof. revert t. induction us as [| u us IH]; intros t; cbn; [done |]. intros [? ?%IH]. lia. Qed.

(** C37: readers of a key always get the latest value, subscribers receive a
    subsequence of the values, and at most one broadcast per 100 ms. *)
Theorem broadcasts_throttled (key : string) (us : list (Z * string)) (t t' : Z) (e : CacheEntry.t)
    (c : CacheBroadcasts.t) :
  c !! key = Some e -> CacheEntry.last_broadcast e = t -> in_order t us t' ->
  CacheBroadcasts.get_latest key (updates key us c) = latest e us /\
  exists news, CacheBroadcasts.received key (length (CacheEntry.broadcast e)) (updates key us c) = news /\
    news `sublist_of` us.*2 /\ Z.of_nat (length news) * 100 <= t' - t.
Proof.
  intros Hc Ht Hus.
  assert (exists e', updates key us c !! key = Some e' /\ CacheEntry.watch e' = latest e us /\
            exists news, CacheEntry.broadcast e' = CacheEntry.broadcast e ++ news /\ news `sublist_of` us.*2 /\
              Z.of_nat (length news) * 100 <= t' - t) as (e' & He' & Hw & news & Hb & Hs & Hn).
  { assert (t <= CacheEntry.last_broadcast e) as Hlb by lia.
    assert (exists now, t <= now /\ CacheEntry.last_broadcast e <= now /\ in_order now us t') as (now & H1 & H2 & H3).
    { exists t. split; [lia |]. split; [lia | done]. }
    clear Hus H1 Hlb. subst t. unfold updates. revert c e now Hc H2 H3.
    induction us as [| u us IH]; intros c e now Hc H2 H3; cbn [fold_left].
    { exists e. split; [done |]. split; [done |]. exists []. rewrite app_nil_r. split_and!; [done | done |].
      cbn in *. lia. }
    cbn in H3. destruct H3 as [Hu H3].
    set (e1 := if WS_BROADCAST_INTERVAL_MS <=? UserCache.elapsed u.1 (CacheEntry.last_broadcast e)
               then CacheEntry.mk (Some u.2) (CacheEntry.broadcast e ++ [u.2]) u.1
               else CacheEntry.mk (Some u.2) (CacheEntry.broadcast e) (CacheEntry.last_broadcast e)).
    assert (CacheBroadcasts.update u.1 key u.2 c !! key = Some e1) as E1.
    { unfold CacheBroadcasts.update. by rewrite lookup_alter_eq, Hc. }
    destruct (IH _ e1 u.1 E1) as (e' & He' & Hw & news & Hb & Hs & Hn); [| done |].
    { subst e1. case_cond; cbn; lia. }
    exists e'. split; [exact He' |].
    assert (latest e1 us = latest e (u :: us)) as El.
    { unfold latest. rewrite last_cons. destruct (last us); [done |]. subst e1. by case_cond. }
    split; [by rewrite Hw |]. subst e1. unfold UserCache.elapsed, WS_BROADCAST_INTERVAL_MS in *.
    destruct (Z.leb_spec 100 (Z.max 0 (u.1 - CacheEntry.last_broadcast e))) as [Hle | Hlt]; cbn in *.
    - exists (u.2 :: news). rewrite Hb, <- app_assoc. split_and!; [done | by constructor |].
      cbn [length]. lia.
    - exists news. split_and!; [done | by constructor | lia]. }
  unfold CacheBroadcasts.get_latest, CacheBroadcasts.received. rewrite He'. cbn. split; [done |].
  exists news. rewrite Hb, drop_app_length. done.
Qed.

(** ** Depth limit *)

Section Depth.
Context `{J : SerdeJson, JL : !SerdeJsonLaws J}.

Lemma truncate_field_get (depth : nat) (k k' : string) (fields : list (string * Json)) :
  field_of k' (truncate_field depth k fields) =
  (fun v => if decide (k' = k) then match v with JArr l => JArr (take depth l) | v => v end else v) <$> field_of k' fields.
Proof.
  induction fields as [| [a v] fields IH]; [done |].
  assert (truncate_field depth k ((a, v) :: fields) =
          (a, if decide (a = k) then match v with JArr l => JArr (take depth l) | v => v end else v)
          :: truncate_field depth k fields) as ->.
  { unfold truncate_field. rewrite fmap_cons; cbn [fst snd]. destruct (decide (a = k)), v; reflexivity. }
  rewrite !field_of_cons, IH. destruct (decide (a = k')) as [<- | Hne]; [| done]. cbn. destruct (decide (a = k)), v; reflexivity.
Qed.

Lemma truncate_field_canonical (depth : nat) (k : string) (fields : list (string * Json)) :
  canonical (JObj fields) = true -> canonical (JObj (truncate_field depth k fields)) = true.
Proof.
  cbn [canonical]. intros [Hk Hf]%andb_prop. apply andb_true_intro. split.
  - assert (fst <$> truncate_field depth k fields = fst <$> fields) as ->; [| exact Hk].
    unfold truncate_field. rewrite <- list_fmap_compose. apply list_fmap_ext. intros _ [a v] _. cbn. by case_decide.
  - unfold truncate_field. rewrite forallb_forall in *. intros x. rewrite <- list_elem_of_In, list_elem_of_fmap.
    intros ([a v] & -> & Hin%list_elem_of_In). specialize (Hf _ Hin). cbn in *. case_decide; [| done].
    cbn. destruct v; try done. cbn in *. rewrite forallb_forall in *. intros y Hy%list_elem_of_In%elem_of_take.
    destruct Hy as (i & Hy & _). apply Hf, list_elem_of_In. by eapply list_elem_of_lookup_2.
Qed.

(** The depth limit keeps the best levels: the document returned has the first
    [depth] bids and asks of the cached one and its other fields unchanged. *)
Theorem truncate_orderbook_spec (fields : list (string * Json)) (depth : Z) :
  canonical (JObj fields) = true -> 0 < depth < 500 ->
  exists fields', json_from_str (truncate_orderbook_depth (Some (json_to_string (JObj fields))) (Some depth)) = Some (JObj fields') /\
    forall k, field_of k fields' =
      (fun v => if decide (k = "bids" \/ k = "asks")
                then match v with JArr l => JArr (take (Z.to_nat depth) l) | v => v end else v) <$> field_of k fields.
Proof.
  intros Hc Hd. unfold truncate_orderbook_depth. cbn [default from_option]. unfold id.
  rewrite (proj2 (Z.ltb_lt 0 depth)), (proj2 (Z.ltb_lt depth 500)) by lia. cbn [andb].
  rewrite json_from_to by done. eexists. split; [apply json_from_to; by do 2 apply truncate_field_canonical |].
  intros k. rewrite !truncate_field_get, <- option_fmap_compose.
  destruct (field_of k fields) as [v |]; [| done]. cbn. f_equal.
  destruct (decide (k = "bids")) as [-> | H1].
  - rewrite (decide_False (P := "bids" = "asks")) by done. by rewrite decide_True by auto.
  - destruct (decide (k = "asks")) as [-> | H2]; [by rewrite decide_True by auto |].
    by rewrite decide_False by tauto.
Qed.
End Depth.

(** ** Sweep of stale book entries *)

Section Sweep.
Context `{C : Crates, V : Valkey, VL : !ValkeyLaws V}.

(** The order of a book entry still has its hash. *)
Definition live (s : kv) (member : string) : bool := kv_exists s (order_key_str member).

Lemma exists_zrem (k k' m : string) (s : kv) : k <> k' -> kv_exists (kv_zrem k m s) k' = kv_exists s k'.
Proof.
  intros Hk. unfold kv_zrem, kv_exists.
  destruct (drop_ttl_frame k (set_zsets (put k (delete m (zset s k))) s)) as (-> & -> & -> & -> & -> & _).
  cbn. unfold put. case_decide; [by rewrite lookup_delete_ne | by rewrite lookup_insert_ne].
Qed.

(** One pass over the members [ms] of a book. *)
Lemma sweep_members (key : string) (ms : list string) (acc : store * Z) :
  (forall m, order_key_str m <> key) ->
  let acc' := fold_left (fun acc order_id =>
                 if v_exists (order_key_str order_id) acc.1 then acc
                 else (v_zrem key order_id acc.1, acc.2 + 1)) ms acc in
  (forall m, live (view acc'.1) m = live (view acc.1) m) /\
  (forall k, k <> key -> zset (view acc'.1) k = zset (view acc.1) k) /\
  (forall m, zset (view acc'.1) key !! m =
     if decide (m ∈ ms /\ live (view acc.1) m = false) then None else zset (view acc.1) key !! m).
Proof.
  intros Hkey. revert acc. induction ms as [| i ms IH]; intros acc; cbn [fold_left].
  { split_and!; [done | done |]. intros m. rewrite decide_False; [done |]. intros [H _]. by apply not_elem_of_nil in H. }
  set (acc1 := if v_exists (order_key_str i) acc.1 then acc else (v_zrem key i acc.1, acc.2 + 1)).
  assert (forall m, live (view acc1.1) m = live (view acc.1) m) as Hl.
  { intros m. subst acc1. destruct (v_exists _ _); [done |]. cbn. rewrite zrem_view. unfold live.
    apply exists_zrem. intros H. by apply (Hkey m). }
  assert (forall k, k <> key -> zset (view acc1.1) k = zset (view acc.1) k) as Hf.
  { intros k Hk. subst acc1. destruct (v_exists _ _); [done |]. cbn. rewrite zrem_view. by apply zset_zrem_ne. }
  assert (forall m, zset (view acc1.1) key !! m =
            if decide (m = i /\ live (view acc.1) m = false) then None else zset (view acc.1) key !! m) as Hz.
  { intros m. subst acc1. destruct (v_exists (order_key_str i) acc.1) eqn:E; rewrite exists_view in E; cbn.
    - rewrite decide_False; [done |]. intros [-> Hm]. unfold live in Hm. congruence.
    - rewrite zrem_view, zset_zrem_eq, lookup_delete. destruct (decide (i = m)) as [-> | Hne].
      + by rewrite decide_True.
      + rewrite decide_False; [done |]. naive_solver. }
  destruct (IH acc1) as (H1 & H2 & H3). split_and!.
  - intros m. by rewrite H1, Hl.
  - intros k Hk. by rewrite H2, Hf.
  - intros m. rewrite H3, Hz, Hl.
    destruct (decide (m ∈ ms /\ live (view acc.1) m = false)) as [[H4 H5] | H4].
    + rewrite decide_True; [done |]. split; [by apply list_elem_of_further | done].
    + destruct (decide (m = i /\ live (view acc.1) m = false)) as [[-> H5] | H5].
      * rewrite decide_True; [done |]. split; [apply list_elem_of_here | done].
      * rewrite decide_False; [done |]. intros [[-> | H6]%elem_of_cons H7]; tauto.
Qed.

Lemma sweep_book_spec (key : string) (acc : store * Z) :
  (forall m, order_key_str m <> key) ->
  let acc' := sweep_book key acc in
  (forall m, live (view acc'.1) m = live (view acc.1) m) /\
  (forall k, k <> key -> zset (view acc'.1) k = zset (view acc.1) k) /\
  (forall m, zset (view acc'.1) key !! m =
     if live (view acc.1) m then zset (view acc.1) key !! m else None).
Proof.
  intros Hkey. destruct (sweep_members key (v_zrangebyscore key None acc.1) acc Hkey) as (H1 & H2 & H3).
  split_and!; [exact H1 | exact H2 |]. intros m. unfold sweep_book. rewrite H3.
  destruct (live (view acc.1) m); [by rewrite decide_False by naive_solver |].
  case_decide as Hd; [done |]. destruct (zset (view acc.1) key !! m) as [x |] eqn:E; [| done].
  destruct Hd. split; [| done]. rewrite zrangebyscore_view. apply zrangebyscore_spec. by exists x.
Qed.

Lemma sweep_books (keys : list string) (acc : store * Z) :
  (forall k m, k ∈ keys -> order_key_str m <> k) ->
  let acc' := fold_left (fun acc k => sweep_book k acc) keys acc in
  (forall m, live (view acc'.1) m = live (view acc.1) m) /\
  (forall k m, zset (view acc'.1) k !! m =
     if decide (k ∈ keys /\ live (view acc.1) m = false) then None else zset (view acc.1) k !! m).
Proof.
  revert acc. induction keys as [| key keys IH]; intros acc Hk; cbn [fold_left].
  { split; [done |]. intros k m. rewrite decide_False; [done |]. intros [H _]. by apply not_elem_of_nil in H. }
  destruct (sweep_book_spec key acc) as (H1 & H2 & H3); [intros m; apply Hk, list_elem_of_here |].
  destruct (IH (sweep_book key acc)) as (H4 & H5); [intros; by apply Hk, list_elem_of_further |].
  split; [intros m; by rewrite H4, H1 |]. intros k m. rewrite H5, H1.
  destruct (decide (k = key)) as [-> | Hne].
  - rewrite H3. destruct (live (view acc.1) m) eqn:E.
    + by rewrite !decide_False by naive_solver.
    + rewrite (decide_True (P := key ∈ key :: keys /\ _)) by (split; [apply list_elem_of_here | done]). by case_decide.
  - rewrite H2 by done. destruct (decide (k ∈ keys /\ live (view acc.1) m = false)) as [[H6 H7] | H6].
    + by rewrite decide_True by (split; [by apply list_elem_of_further | done]).
    + rewrite decide_False; [done |]. intros [[-> | H7]%elem_of_cons H8]; tauto.
Qed.

Definition book_keys : list string := mbind (fun p => [book_key p Buy; book_key p Sell]) PAIRS.

(** The sweep removes from the books of the six pair sides exactly the
    entries whose order hash is gone; the live entries keep their score, no
    other sorted set changes and no order hash is lost. *)
Theorem sweep_stale_orders_spec (s : store) (k m : string) :
  let s' := (sweep_stale_orders s).1 in
  live (view s') m = live (view s) m /\
  zset (view s') k !! m =
    if decide (k ∈ book_keys /\ live (view s) m = false) then None else zset (view s) k !! m.
Proof.
  cbn zeta. destruct (sweep_books book_keys (s, 0)) as [H1 H2].
  { intros k' m' (p & Hk & _)%list_elem_of_bind. repeat (apply elem_of_cons in Hk as [-> | Hk]; [apply order_key_book |]).
    by apply not_elem_of_nil in Hk. }
  change (sweep_stale_orders s) with (fold_left (fun acc k => sweep_book k acc) book_keys (s, 0)).
  split; [apply H1 | apply H2].
Qed.
End Sweep.

(** ** Reset *)

Section Reset.
Context `{C : Crates, X : !Sqlx C, V : Valkey, VL : !ValkeyLaws V, J : SerdeJson}.

Lemma user_name_inj (i j : nat) : user_name i = user_name j -> i = j.
Proof.
  unfold user_name. intros H%str_app_inj%(f_equal parse_unsigned).
  rewrite !parse_unsigned_Z_to_string in H by lia. injection H as H. lia.
Qed.

(** The balances a reset of users [us] leaves at a key. *)
Lemma reset_fold (us : list nat) (d : db) (i : nat) (asset : string) :
  balances (fold_left (fun d i => reset_balance (user_name i) "USDT" 1000000%Q (reset_balance (user_name i) "BTC" 10%Q d))
              us d) !! (user_name i, asset) =
  if decide (i ∈ us) then
    if decide (asset = "USDT") then Some (1000000%Q, 0%Q) else
    if decide (asset = "BTC") then Some (10%Q, 0%Q) else balances d !! (user_name i, asset)
  else balances d !! (user_name i, asset).
Proof.
  revert d. induction us as [| j us IH]; intros d; cbn [fold_left].
  { rewrite decide_False; [done |]. apply not_elem_of_nil. }
  rewrite IH. unfold reset_balance. cbn [balances set_balances]. rewrite !lookup_insert.
  destruct (decide (j = i)) as [-> | Hne].
  - rewrite (decide_True (P := i ∈ i :: us)) by apply list_elem_of_here.
    repeat case_decide; simplify_eq; done.
  - rewrite !(decide_False (P := (user_name j, _) = _)) by (intros H%(f_equal fst)%user_name_inj; done).
    destruct (decide (i ∈ us)) as [Hi | Hi].
    + by rewrite (decide_True (P := i ∈ j :: us)) by (by apply list_elem_of_further).
    + rewrite (decide_False (P := i ∈ j :: us)); [done |]. rewrite elem_of_cons. naive_solver.
Qed.

Lemma reset_frame (us : list nat) (d : db) :
  let d' := fold_left (fun d i => reset_balance (user_name i) "USDT" 1000000%Q (reset_balance (user_name i) "BTC" 10%Q d))
              us d in
  orders d' = orders d /\ trades d' = trades d /\
  forall user asset, (forall i, i ∈ us -> user <> user_name i \/ (asset <> "BTC" /\ asset <> "USDT")) ->
    balances d' !! (user, asset) = balances d !! (user, asset).
Proof.
  revert d. induction us as [| j us IH]; intros d; cbn [fold_left]; [done |].
  edestruct IH as (Ho & Ht & Hb). split; [by rewrite Ho |]. split; [by rewrite Ht |].
  intros user asset H. rewrite Hb; [| intros i Hi; apply H; by apply list_elem_of_further].
  unfold reset_balance. cbn [balances set_balances].
  destruct (H j (list_elem_of_here _ _)); rewrite !lookup_insert_ne; naive_solver.
Qed.

Lemma exists_del (k k' : string) (s : kv) :
  kv_exists (kv_del k s) k' = if decide (k = k') then false else kv_exists s k'.
Proof.
  unfold kv_exists, kv_del. cbn. case_decide as Hk; [subst; by rewrite !lookup_delete_eq |].
  by rewrite !lookup_delete_ne.
Qed.

Lemma flush_gone (keys : list string) (s : store) (k : string) :
  k ∈ keys -> kv_exists (view (fold_left (fun s k => v_del k s) keys s)) k = false.
Proof.
  revert s. induction keys as [| key keys IH]; intros s Hk; [by apply not_elem_of_nil in Hk |]. cbn [fold_left].
  destruct (decide (k ∈ keys)) as [Hin | Hin]; [by apply IH |].
  apply elem_of_cons in Hk as [-> | Hk]; [| done]. clear IH.
  assert (kv_exists (view (v_del key s)) key = false) as E by (rewrite del_view, exists_del; by case_decide).
  revert E. generalize (v_del key s). clear s. induction keys as [| key' keys IH]; intros s E; [done |].
  cbn [fold_left]. apply IH; [rewrite elem_of_cons in Hin; tauto |].
  rewrite del_view, exists_del. by case_decide.
Qed.

(** A reset empties the orders table and keeps the trades, gives each of the
    first [n] users 10 BTC and 1000000 USDT with nothing locked, leaves every
    other balance row, and leaves no book, version, cached document or queue of
    a pair in Valkey. *)
Theorem reset_all_spec (n : nat) (s : store) (d : db) :
  let '(s', d') := reset_all n (s, d) in
  orders d' = ∅ /\ trades d' = trades d /\
  (forall i, (1 <= i <= n)%nat -> balances d' !! (user_name i, "BTC") = Some (10%Q, 0%Q) /\
                                balances d' !! (user_name i, "USDT") = Some (1000000%Q, 0%Q)) /\
  (forall user asset, (forall i, (1 <= i <= n)%nat -> user <> user_name i) \/ (asset <> "BTC" /\ asset <> "USDT") ->
     balances d' !! (user, asset) = balances d !! (user, asset)) /\
  (forall pair_id k, pair_id ∈ PAIRS -> k ∈ flushed_keys pair_id -> kv_exists (view s') k = false).
Proof.
  unfold reset_all, reset_balances. cbn [fst snd]. set (d0 := truncate_orders_table d).
  destruct (reset_frame (seq 1 n) d0) as (Ho & Ht & Hb). unfold reset_user_balances.
  split; [by rewrite Ho |]. split; [by rewrite Ht |]. split_and!.
  - intros i Hi. assert (i ∈ seq 1 n) as Hin by (apply elem_of_seq; lia).
    by rewrite !reset_fold, !(decide_True (P := i ∈ seq 1 n)) by done.
  - intros user asset Hua. rewrite Hb; [done |]. intros i Hi%elem_of_seq.
    destruct Hua as [Hu | Ha]; [left; apply Hu; lia | right; tauto].
  - intros p k Hp Hk. unfold flush_keys. apply flush_gone, list_elem_of_bind. by exists p.
Qed.
End Reset.

Module GatewayExamples.
Import RefCrates RefValkey RefJson RefDb CancelExamples OrderFlowExamples.

Definition request : @CreateOrderRequest.t ref_crates :=
  CreateOrderRequest.mk (Some "alice") "BTC-USDT" Buy Limit None (Some (101 : @decimal ref_crates)%Q)
    (2 : @decimal ref_crates)%Q None (Some "c-1").

Lemma create_order_round_trip_witness :
  exists o, read_order env (order_message (7%positive : @uuid ref_crates) at0 request) = Ok o /\ Order.user_id o = "alice".
Proof.
  destruct (create_order_round_trip env (7%positive : @uuid ref_crates) at0 request eq_refl) as [(o & E & H) _].
  exists o. exact (conj E (proj1 (proj2 H))).
Defined.

Lemma gateway_cancel_ignored_witness :
  process_cancellation at0 at0 (json_to_string (cancel_message (7%positive : @uuid ref_crates) at0)) usdt_bid =
  (usdt_bid, Ok tt).
Proof.
  refine (proj1 (gateway_cancel_ignored at0 at0 (7%positive : @uuid ref_crates) at0 usdt_bid _)).
  intros r Hr. assert (Some (bid "BTC-USDT") = Some r) as [= <-] by exact Hr. discriminate.
Defined.

Definition three_updates : list (Z * string) := [(50, "a"); (120, "b"); (180, "c")].

Lemma broadcasts_throttled_witness :
  CacheBroadcasts.get_latest "cache:pairs" (updates "cache:pairs" three_updates (new_broadcasts 0)) = Some "c" /\
  CacheBroadcasts.received "cache:pairs" 0 (updates "cache:pairs" three_updates (new_broadcasts 0)) = ["b"].
Proof.
  split; [| reflexivity].
  refine (proj1 (broadcasts_throttled "cache:pairs" three_updates 0 200 (CacheEntry.mk None [] 0) (new_broadcasts 0)
                   eq_refl eq_refl _)).
  cbn. lia.
Defined.

Definition level (p : string) : Json := JArr [JStr p; JStr "1"].

Definition book_document : list (string * Json) :=
  [("asks", JArr [level "101"; level "102"; level "103"]); ("bids", JArr [level "100"]); ("pair", JStr "BTC-USDT")].

Lemma truncate_orderbook_spec_witness :
  exists fields, json_from_str (truncate_orderbook_depth (Some (json_to_string (JObj book_document))) (Some 2)) = Some (JObj fields) /\
    field_of "asks" fields = Some (JArr [level "101"; level "102"]).
Proof.
  destruct (truncate_orderbook_spec book_document 2 eq_refl ltac:(lia)) as (fields & E & H).
  exists fields. split; [exact E |]. rewrite H. reflexivity.
Defined.
(** A book with an entry whose order hash has expired. *)
Definition stale_book : @store ref_valkey := v_zadd "book:BTC-USDT:asks" 5 "gone" usdt_bid.(cs_kv).

Lemma sweep_stale_orders_spec_witness :
  zset (view (sweep_stale_orders stale_book).1) "book:BTC-USDT:asks" !! "gone" = None.
Proof.
  rewrite (proj2 (sweep_stale_orders_spec stale_book "book:BTC-USDT:asks" "gone")). reflexivity.
Defined.

End GatewayExamples.
