(* ===== verification/Sockets.v ===== *)
(** * The streaming endpoints of the gateway ([crates/gateway/src/routes.rs])

    Each connection is a transition function on events: a message of the client, a
    value to forward, or a change of what the gateway holds.  A send may fail,
    which closes the connection.  [Lag n] drops the [n] oldest values a receiver has
    not read, as a full broadcast channel does. *)

From S2P Require Import Prelude Numbers Externals Types Valkey Json Ws Views Metrics Gateway.

Open Scope Z_scope.

Inductive client_msg :=
| Text (t : string)
| Ping (data : string)
| Close
| Gone
| OtherMsg.

Inductive frame :=
| FText (t : string)
| FPong (data : string).

(** ** One feed: [cache_broadcast_ws] and [handle_orders_ws] *)

Module Socket.
Section Socket.
(** What the gateway holds, everything broadcast on the feed so far, and which of
    it is for this client. *)
Context {W : Type} (all : W -> list string) (wanted : string -> bool).

(** [cursor] counts the broadcast values the receiver has behind it, [greeting] is
    the value to send first. *)
Record t : Type := mk {
  world : W;
  cursor : nat;
  greeting : option string;
  sent : list frame;
  is_open : bool;
}.

Inductive event :=
| Greet (ok : bool)
| Recv (ok : bool)
| Client (m : client_msg)
| Lag (n : nat)
| World (w : W).

(** Sending [v], which may fail and close the connection. *)
Definition send (ok : bool) (v : string) (s : t) : t :=
  if ok then mk (world s) (cursor s) (greeting s) (sent s ++ [FText v]) (is_open s)
  else mk (world s) (cursor s) (greeting s) (sent s) false.

Definition on_client (m : client_msg) (s : t) : t :=
  match m with
  | Close | Gone => mk (world s) (cursor s) (greeting s) (sent s) false
  | Ping data => mk (world s) (cursor s) (greeting s) (sent s ++ [FPong data]) (is_open s)
  | Text _ | OtherMsg => s
  end.

(** The next value of the receiver. *)
Definition recv (ok : bool) (s : t) : option t :=
  v ← all (world s) !! cursor s;
  let s := mk (world s) (S (cursor s)) (greeting s) (sent s) (is_open s) in
  Some (if wanted v then send ok v s else s).

Definition step (ev : event) (s : t) : option t :=
  match ev with
  | World w => if decide (all (world s) `prefix_of` all w)
               then Some (mk w (cursor s) (greeting s) (sent s) (is_open s)) else None
  | Lag n => if (cursor s + n <=? length (all (world s)))%nat
             then Some (mk (world s) (cursor s + n) (greeting s) (sent s) (is_open s)) else None
  | _ =>
      if negb (is_open s) then None
      else match ev, greeting s with
           | Greet ok, Some v => Some (send ok v (mk (world s) (cursor s) None (sent s) (is_open s)))
           | Recv ok, None => recv ok s
           | Client m, None => Some (on_client m s)
           | _, _ => None
           end
  end.

Fixpoint run (evs : list event) (s : t) : option t :=
  match evs with
  | [] => Some s
  | ev :: evs => s ← step ev s; run evs s
  end.
End Socket.
End Socket.

Definition broadcasts (key : string) (c : CacheBroadcasts.t) : list string := CacheBroadcasts.received key 0 c.

(** [cache_broadcast_ws] up to its loop: nothing for an unknown key. *)
Definition cache_broadcast_ws (cache_key : string) (c : CacheBroadcasts.t) : option (Socket.t (W := CacheBroadcasts.t)) :=
  rx ← CacheBroadcasts.subscribe cache_key c;
  Some (Socket.mk c rx (CacheBroadcasts.get_latest cache_key c) [] true).

Definition cache_socket_run (cache_key : string) := Socket.run (broadcasts cache_key) (fun _ => true).

Definition ws_orderbook (pair_id : string) := cache_broadcast_ws (orderbook_key pair_id).
Definition ws_trades (pair_id : string) := cache_broadcast_ws (trades_key pair_id).

(** [handle_orders_ws]: the order events from now on, of which the client gets its
    own. *)
Definition handle_orders_ws (order_events : list string) : Socket.t (W := list string) :=
  Socket.mk order_events (length order_events) None [] true.

Definition orders_socket_run `{J : SerdeJson} (user_id : string) := Socket.run (W := list string) id (is_mine user_id).

(** ** Server-sent events: [sse_stream] *)

Definition sse_keys (pair_id : string) : list (string * string) :=
  [(orderbook_key pair_id, "orderbook"); (trades_key pair_id, "trades"); (ticker_key pair_id, "ticker");
   ("cache:metrics", "metrics"); ("cache:throughput", "throughput"); ("cache:latency_metrics", "latency")].

(** An event: its name and its data. *)
Definition sse_event : Type := string * string.

(** The caches change between the reads of one pass: [at_ i] is their state at the
    read of the i-th key or receiver. *)
Definition sse_snapshot (pair_id : string) (at_ : nat -> CacheBroadcasts.t) : list sse_event :=
  omap (fun x => (fun val => (x.2.2, val)) <$> CacheBroadcasts.get_latest x.2.1 (at_ x.1)) (imap pair (sse_keys pair_id)).

(** A receiver: its key, its event name, and its cursor. *)
Record receiver : Type := mk_receiver { rx_key : string; rx_name : string; rx_cursor : nat }.

Definition sse_receivers (pair_id : string) (at_ : nat -> CacheBroadcasts.t) : list receiver :=
  omap (fun x => mk_receiver x.2.1 x.2.2 <$> CacheBroadcasts.subscribe x.2.1 (at_ x.1)) (imap pair (sse_keys pair_id)).

(** What one [try_recv] finds: the caches, and how many of the oldest values that are
    unread the channel has dropped. *)
Record look : Type := mk_look { lk_caches : CacheBroadcasts.t; lk_lost : nat }.

(** A receiver that lost values learns it first, and gets no value. *)
Definition sse_try (l : look) (r : receiver) : receiver * list sse_event :=
  let all := broadcasts (rx_key r) (lk_caches l) in
  let moved n := mk_receiver (rx_key r) (rx_name r) n in
  if (0 <? lk_lost l)%nat then (moved (rx_cursor r + lk_lost l)%nat, [])
  else match all !! rx_cursor r with
       | Some val => (moved (S (rx_cursor r)), [(rx_name r, val)])
       | None => (r, [])
       end.

(** One turn of the fan-in: at most one value of each receiver. *)
Definition sse_round (at_ : nat -> look) (rs : list receiver) : list receiver * list sse_event :=
  let tried := imap (fun i r => sse_try (at_ i) r) rs in (fst <$> tried, mbind snd tried).

Fixpoint sse_rounds (turns : list (nat -> look)) (rs : list receiver) : list receiver * list sse_event :=
  match turns with
  | [] => (rs, [])
  | at_ :: turns => let '(rs, out) := sse_round at_ rs in
                    let '(rs, outs) := sse_rounds turns rs in (rs, out ++ outs)
  end.

(** The stream: the current values, the receivers, and the turns. *)
Definition sse_stream (pair_id : string) (first second : nat -> CacheBroadcasts.t) (turns : list (nat -> look)) : list sse_event :=
  sse_snapshot pair_id first ++ (sse_rounds turns (sse_receivers pair_id second)).2.

(** ** Many feeds on one connection: [handle_multiplexed_ws] *)

Module Multiplexed.

(** The room of the channel the subscription tasks send to. *)
Definition AGG_CAP : nat := 256.

(** What the gateway holds. *)
Record gateway : Type := mk_gateway { gw_cache : CacheBroadcasts.t; gw_events : list string; gw_users : UserCache.t }.

(** The task of one subscription: its cursor, or the last portfolio it sent; a task
    of a cache channel that has not run yet has no receiver. *)
Inductive subscription :=
| Orders (user_id : string) (cursor : nat)
| Portfolio (user_id last_val : string)
| Cache (ch : string) (rx : option nat).

(** [todo] are the channels of the command being handled, [agg] what waits to be
    forwarded. *)
Record t : Type := mk {
  world : gateway;
  subs : list subscription;
  todo : list string;
  agg : list string;
  sent : list frame;
  is_open : bool;
}.

Definition strip_prefix (p s : string) : option string :=
  if String.prefix p s then Some (String.substring (String.length p) (String.length s - String.length p) s) else None.

Definition cache_key (ch : string) : string := "cache:" +:+ ch.

Definition push (msg : string) (s : t) : option t :=
  if (length (agg s) <? AGG_CAP)%nat
  then Some (mk (world s) (subs s) (todo s) (agg s ++ [msg]) (sent s) (is_open s)) else None.

Definition add (sub : subscription) (s : t) : t :=
  mk (world s) (subs s ++ [sub]) (todo s) (agg s) (sent s) (is_open s).

Definition set_sub (i : nat) (sub : subscription) (s : t) : t :=
  mk (world s) (<[i := sub]> (subs s)) (todo s) (agg s) (sent s) (is_open s).

(** The next channel of the command: the current value of a cache channel is sent
    by the connection's own task, which waits for room. *)
Definition subscribe (ch : string) (s : t) : option t :=
  match strip_prefix "orders:" ch, strip_prefix "portfolio:" ch with
  | Some user_id, _ => Some (add (Orders user_id (length (gw_events (world s)))) s)
  | None, Some user_id => Some (add (Portfolio user_id EmptyString) s)
  | None, None =>
      s ← match CacheBroadcasts.get_latest (cache_key ch) (gw_cache (world s)) with
          | Some val => push (update_msg ch val) s
          | None => Some s
          end;
      Some (add (Cache ch None) s)
  end.

Section Commands.
Context `{V : Valkey, J : SerdeJson}.

(** The channels of a command; anything else is ignored. *)
Definition channels (text : string) : list string :=
  match json_from_str text with
  | Some cmd =>
      match get "subscribe" cmd with
      | Some (JArr l) => omap as_str l
      | _ => []
      end
  | None => []
  end.

(** The user cache, then Valkey. *)
Definition portfolio_value (now : Z) (user_id : string) (u : UserCache.t) (kv : store) : string :=
  match UserCache.get now (portfolio_key user_id) u with
  | Some cached => cached
  | None => default EmptyString (v_get (portfolio_key user_id) kv)
  end.

(** One turn of a subscription's task; a message that finds no room waits. *)
Definition turn (now : Z) (kv : store) (i : nat) (sub : subscription) (s : t) : option t :=
  match sub with
  | Orders user_id cursor =>
      msg ← gw_events (world s) !! cursor;
      s ← if is_mine user_id msg then push (update_msg ("orders:" +:+ user_id) msg) s else Some s;
      Some (set_sub i (Orders user_id (S cursor)) s)
  | Portfolio user_id last_val =>
      let val := portfolio_value now user_id (gw_users (world s)) kv in
      if worth_caching val && negb (bool_decide (val = last_val)) then
        s ← push (update_msg ("portfolio:" +:+ user_id) val) s;
        Some (set_sub i (Portfolio user_id val) s)
      else Some s
  | Cache ch None =>
      rx ← CacheBroadcasts.subscribe (cache_key ch) (gw_cache (world s));
      Some (set_sub i (Cache ch (Some rx)) s)
  | Cache ch (Some rx) =>
      val ← broadcasts (cache_key ch) (gw_cache (world s)) !! rx;
      s ← push (update_msg ch val) s;
      Some (set_sub i (Cache ch (Some (S rx))) s)
  end.

(** A receiver that fell behind continues with a later value. *)
Definition lag (i n : nat) (sub : subscription) (s : t) : option t :=
  match sub with
  | Orders user_id cursor =>
      if (cursor + n <=? length (gw_events (world s)))%nat then Some (set_sub i (Orders user_id (cursor + n)) s) else None
  | Cache ch (Some rx) =>
      if (rx + n <=? length (broadcasts (cache_key ch) (gw_cache (world s))))%nat
      then Some (set_sub i (Cache ch (Some (rx + n)%nat)) s) else None
  | _ => None
  end.

Inductive event :=
| Forward (ok : bool)
| Client (m : client_msg)
| Subscribe
| Turn (now : Z) (kv : store) (i : nat)
| Lag (i n : nat)
| Update (now : Z) (key val : string)
| OrderEvent (msg : string)
| Users (u : UserCache.t).

Definition close (s : t) : t := mk (world s) (subs s) (todo s) (agg s) (sent s) false.

Definition on_client (m : client_msg) (s : t) : t :=
  match m with
  | Text text => mk (world s) (subs s) (channels text) (agg s) (sent s) (is_open s)
  | Ping data => mk (world s) (subs s) (todo s) (agg s) (sent s ++ [FPong data]) (is_open s)
  | Close | Gone => close s
  | OtherMsg => s
  end.

Definition set_world (w : gateway) (s : t) : t := mk w (subs s) (todo s) (agg s) (sent s) (is_open s).

(** The connection's task forwards and reads only between commands. *)
Definition step (ev : event) (s : t) : option t :=
  match ev with
  | Update now key val =>
      let w := world s in
      Some (set_world (mk_gateway (CacheBroadcasts.update now key val (gw_cache w)) (gw_events w) (gw_users w)) s)
  | OrderEvent msg =>
      let w := world s in Some (set_world (mk_gateway (gw_cache w) (gw_events w ++ [msg]) (gw_users w)) s)
  | Users u => let w := world s in Some (set_world (mk_gateway (gw_cache w) (gw_events w) u) s)
  | _ =>
      if negb (is_open s) then None
      else match ev, todo s with
           | Turn now kv i, _ => sub ← subs s !! i; turn now kv i sub s
           | Lag i n, _ => sub ← subs s !! i; lag i n sub s
           | Subscribe, ch :: rest => subscribe ch (mk (world s) (subs s) rest (agg s) (sent s) (is_open s))
           | Forward ok, [] =>
               match agg s with
               | msg :: rest =>
                   let s := mk (world s) (subs s) (todo s) rest (sent s) (is_open s) in
                   Some (if ok then mk (world s) (subs s) (todo s) rest (sent s ++ [FText msg]) (is_open s) else close s)
               | [] => None
               end
           | Client m, [] => Some (on_client m s)
           | _, _ => None
           end
  end.

Fixpoint run (evs : list event) (s : t) : option t :=
  match evs with
  | [] => Some s
  | ev :: evs => s ← step ev s; run evs s
  end.

Definition start (w : gateway) : t := mk w [] [] [] [] true.
End Commands.
End Multiplexed.
