(* ===== verification/SocketsProps.v ===== *)
(** * Properties of the streaming endpoints

    A socket on one feed sends its greeting and then what is broadcast for it, in
    order and once, and misses nothing unless its receiver lags; order events
    reach only the user they name; a multiplexed connection sends only what was
    subscribed to, and blocks for ever when one command fills its channel. *)

From S2P Require Import Prelude Numbers Externals Types Valkey Json Ws Views Metrics Gateway GatewayProps Sockets.

Open Scope Z_scope.

Definition texts (fs : list frame) : list string :=
  omap (fun f => match f with FText t => Some t | FPong _ => None end) fs.

Lemma texts_app (fs gs : list frame) : texts (fs ++ gs) = texts fs ++ texts gs.
Proof. apply omap_app. Qed.

Definition opt_list {A} (o : option A) : list A :=
  match o with
  | Some x => [x]
  | None => []
  end.

Lemma drop_take_sub {A} (n m : nat) (l : list A) : drop n (take m l) `sublist_of` drop n l.
Proof. rewrite skipn_firstn_comm. apply sublist_take. Qed.

(** ** One feed *)

Section OneFeed.
Import Socket.
Context {W : Type} (all : W -> list string) (wanted : string -> bool).

Definition no_lag (ev : @event W) : bool :=
  match ev with
  | Lag _ => false
  | _ => true
  end.

(** What was broadcast for the client between [c0] and the cursor. *)
Definition passed (c0 : nat) (s : t) : list string :=
  filter (fun v => wanted v = true) (drop c0 (take (cursor s) (all (world s)))).

(** What a run keeps; [exact] holds as long as the receiver did not lag. *)
Record fed (g : option string) (c0 : nat) (exact : bool) (s : @t W) : Prop := {
  fd_cursor : (c0 <= cursor s <= length (all (world s)))%nat;
  fd_sub : texts (sent s) `sublist_of` opt_list g ++ passed c0 s;
  fd_greeting : is_Some (greeting s) -> greeting s = g /\ texts (sent s) = [];
  fd_start : exact = true -> is_Some (greeting s) -> cursor s = c0;
  fd_exact : exact = true -> is_open s = true -> greeting s = None -> texts (sent s) = opt_list g ++ passed c0 s;
}.

Lemma passed_next (c0 : nat) (s : t) (v : string) (fs : list frame) (b : bool) :
  (c0 <= cursor s)%nat -> all (world s) !! cursor s = Some v ->
  passed c0 (mk (world s) (S (cursor s)) (greeting s) fs b) = passed c0 s ++ (if wanted v then [v] else []).
Proof.
  intros Hc Hv. unfold passed. cbn [cursor world]. rewrite (take_S_r _ _ v) by done.
  pose proof (lookup_lt_Some _ _ _ Hv). rewrite drop_app_le by (rewrite length_take; lia).
  rewrite filter_app. f_equal. rewrite filter_cons. by destruct (wanted v).
Qed.

Lemma passed_grows (c0 n : nat) (w : W) (s : t) (fs : list frame) (b : bool) (g : option string) :
  (cursor s <= n)%nat -> (cursor s <= length (all (world s)))%nat -> all (world s) `prefix_of` all w ->
  passed c0 s `sublist_of` passed c0 (mk w n g fs b).
Proof.
  intros Hn Hl [k Hk]. unfold passed. cbn [cursor world]. rewrite Hk.
  rewrite <- (take_drop (cursor s) (take n (all (world s) ++ k))). rewrite take_take, Nat.min_l by done.
  rewrite take_app_le by done. destruct (le_lt_dec c0 (length (take (cursor s) (all (world s))))) as [Hle | Hlt].
  - rewrite drop_app_le, filter_app by done. apply sublist_inserts_r. done.
  - rewrite (drop_ge (take (cursor s) (all (world s)))) by lia. apply sublist_nil_l.
Qed.

Lemma passed_same (c0 : nat) (w : W) (s : t) (fs : list frame) (b : bool) (g : option string) :
  (cursor s <= length (all (world s)))%nat -> all (world s) `prefix_of` all w ->
  passed c0 (mk w (cursor s) g fs b) = passed c0 s.
Proof. intros Hl [k Hk]. unfold passed. cbn [cursor world]. by rewrite Hk, take_app_le. Qed.

Lemma recv_fed (g : option string) (c0 : nat) (exact ok : bool) (s s' : t) :
  recv all wanted ok s = Some s' -> greeting s = None -> is_open s = true -> fed g c0 exact s -> fed g c0 exact s'.
Proof.
  intros E Hg Ho [Hc Hs _ _ He]. unfold recv in E. destruct (all (world s) !! cursor s) as [v |] eqn:Hv; [| done].
  pose proof (lookup_lt_Some _ _ _ Hv) as Hl.
  assert (forall fs b, passed c0 (mk (world s) (S (cursor s)) (greeting s) fs b)
                       = passed c0 s ++ (if wanted v then [v] else [])) as Hp by (intros; apply passed_next; [lia | done]).
  destruct s as [w c g' fs b]. cbn in *. subst g' b. injection E as <-. specialize (He). unfold send.
  assert (forall fs' b', fed g c0 exact (mk w (S c) None fs' b') <->
    texts fs' `sublist_of` opt_list g ++ passed c0 (mk w c None fs true) ++ (if wanted v then [v] else []) /\
    (exact = true -> b' = true -> texts fs' = opt_list g ++ passed c0 (mk w c None fs true) ++ (if wanted v then [v] else []))) as Hi.
  { intros fs' b'. rewrite <- (Hp fs' b'). split; [intros []; cbn in *; split; auto |]. intros [H1 H2].
    constructor; cbn; [lia | done | by intros [? ?] | by intros _ [? ?] | auto]. }
  destruct (wanted v); [destruct ok |]; apply Hi; rewrite ?texts_app, ?app_nil_r, ?(assoc_L app).
  - split; [by apply sublist_app |]. intros Hex _. cbn. by rewrite He.
  - split; [by apply sublist_inserts_r | done].
  - split; [done |]. intros Hex _. by apply He.
Qed.

Lemma step_fed (g : option string) (c0 : nat) (exact : bool) (ev : event) (s s' : t) :
  step all wanted ev s = Some s' -> fed g c0 exact s -> fed g c0 (exact && no_lag ev) s'.
Proof.
  intros E Hf. pose proof Hf as [Hc Hs Hg Hst He]. destruct ev as [ok | ok | m | n | w]; cbn [step no_lag] in *; rewrite ?andb_true_r, ?andb_false_r.
  - destruct (is_open s) eqn:Ho; [| done]. cbn in E. destruct (greeting s) as [v |] eqn:Eg; [| done]. injection E as <-.
    destruct (Hg ltac:(by eexists)) as [<- Ht].
    destruct ok; (constructor; cbn; [done | | by intros [? ?] | by intros _ [? ?] |]); try done.
    + rewrite texts_app, Ht. cbn. apply sublist_skip, sublist_nil_l.
    + intros Hex _ _. rewrite texts_app, Ht. cbn. f_equal. specialize (Hst Hex ltac:(by eexists)).
      unfold passed. cbn [cursor world]. rewrite Hst, drop_ge; [done |]. rewrite length_take. lia.
  - destruct (is_open s) eqn:Ho; [| done]. cbn in E. destruct (greeting s) eqn:Eg; [done |]. by eapply recv_fed.
  - destruct (is_open s) eqn:Ho; [| done]. cbn in E. destruct (greeting s) eqn:Eg; [done |]. injection E as <-.
    destruct m; cbn [on_client]; try done;
      (constructor; cbn; rewrite ?Eg, ?texts_app, ?app_nil_r; try done; try (intros [? ?]; done); try (intros _ [? ?]; done)).
    intros Hex _ _. by apply He.
  - destruct (_ <=? _)%nat eqn:Hn; [| done]. apply Nat.leb_le in Hn. injection E as <-.
    constructor; cbn; try done; [lia |]. etrans; [exact Hs |]. apply sublist_app; [done |]. apply passed_grows; [lia | lia | done].
  - destruct (decide _) as [Hpre |]; [| done]. injection E as <-. pose proof (prefix_length _ _ Hpre) as Hlen.
    constructor; cbn; try done; [lia | |].
    + etrans; [exact Hs |]. apply sublist_app; [done |]. apply passed_grows; [done | lia | done].
    + intros Hex Ho Hn. rewrite (passed_same c0 w s) by (done || lia). by apply He.
Qed.

Lemma run_fed (g : option string) (c0 : nat) (evs : list event) (exact : bool) (s s' : t) :
  run all wanted evs s = Some s' -> fed g c0 exact s -> fed g c0 (exact && forallb no_lag evs) s'.
Proof.
  revert s exact. induction evs as [| ev evs IH]; intros s exact; cbn; [intros [= <-]; by rewrite andb_true_r |].
  destruct (step all wanted ev s) as [s1 |] eqn:E; [| done]. cbn. intros Hr Hf.
  rewrite andb_assoc. eapply IH; [done |]. by eapply step_fed.
Qed.

Lemma start_fed (w : W) (c0 : nat) (g : option string) :
  (c0 <= length (all w))%nat -> fed g c0 true (mk w c0 g [] true).
Proof.
  intros H. assert (forall fs b g', passed c0 (mk w c0 g' fs b) = []) as Hp.
  { intros. unfold passed. cbn [cursor world]. rewrite drop_ge; [done |]. rewrite length_take. lia. }
  constructor; cbn; [lia | apply sublist_nil_l | done | done |]. intros _ _ ->. by rewrite Hp.
Qed.
End OneFeed.

Section Feeds.
Context `{J : SerdeJson}.

(** C38: a client of the order feed of a user gets only order events that name this
    user, in the order they were broadcast after it connected and each at most
    once; it has them all once its receiver caught up, unless the receiver
    lagged or a send failed. *)
Theorem orders_socket_spec (user_id : string) (order_events : list string) (evs : list Socket.event) (s : Socket.t)
    (Hrun : orders_socket_run user_id evs (handle_orders_ws order_events) = Some s) :
  let later := drop (length order_events) (Socket.world s) in
  Forall (fun m => is_mine user_id m = true) (texts (Socket.sent s)) /\
  texts (Socket.sent s) `sublist_of` later /\
  (forallb no_lag evs = true -> Socket.is_open s = true -> Socket.cursor s = length (Socket.world s) ->
   texts (Socket.sent s) = filter (fun m => is_mine user_id m = true) later).
Proof.
  cbn zeta.
  pose proof (run_fed (W := list string) id (is_mine user_id) None (length order_events) evs true _ _ Hrun
                (start_fed id (is_mine user_id) order_events (length order_events) None (le_n _))) as [Hc Hs Hg _ He].
  cbn [opt_list app] in *. unfold passed, id in *. split_and!.
  - eapply sublist_Forall; [exact Hs |]. apply Forall_forall. by intros m [? _]%list_elem_of_filter.
  - etrans; [exact Hs |]. etrans; [apply sublist_filter | apply drop_take_sub].
  - intros Hl Ho Hcur. destruct (Socket.greeting s) eqn:Eg; [by destruct (Hg ltac:(by eexists)) as [? _] |].
    rewrite (He Hl Ho eq_refl), Hcur. by rewrite firstn_all.
Qed.

(** A client of a cache feed gets the value current when it connected, if any,
    and then the values broadcast since, in order and each at most once; it has
    them all once its receiver caught up, unless the receiver lagged or a send
    failed. *)
Theorem cache_socket_spec (key : string) (c : CacheBroadcasts.t) (s0 s : Socket.t) (evs : list Socket.event)
    (Hopen : cache_broadcast_ws key c = Some s0) (Hrun : cache_socket_run key evs s0 = Some s) :
  let later := drop (length (broadcasts key c)) (broadcasts key (Socket.world s)) in
  texts (Socket.sent s) `sublist_of` opt_list (CacheBroadcasts.get_latest key c) ++ later /\
  (forallb no_lag evs = true -> Socket.is_open s = true -> Socket.greeting s = None ->
   Socket.cursor s = length (broadcasts key (Socket.world s)) ->
   texts (Socket.sent s) = opt_list (CacheBroadcasts.get_latest key c) ++ later).
Proof.
  cbn zeta. unfold cache_broadcast_ws, CacheBroadcasts.subscribe in Hopen.
  assert (broadcasts key c = match c !! key with Some e => CacheEntry.broadcast e | None => [] end) as Hb
    by (unfold broadcasts, CacheBroadcasts.received; by destruct (c !! key)).
  destruct (c !! key) as [e |]; [| done]. injection Hopen as <-. rewrite <- Hb in Hrun.
  pose proof (run_fed (broadcasts key) (fun _ => true) (CacheBroadcasts.get_latest key c) (length (broadcasts key c)) evs
                true _ _ Hrun (start_fed (broadcasts key) (fun _ => true) c _ _ (le_n _))) as [Hc Hs _ _ He].
  unfold passed in *. rewrite filter_all in Hs, He by (by apply Forall_forall). split.
  - etrans; [exact Hs |]. apply sublist_app; [done |]. apply drop_take_sub.
  - intros Hl Ho Hg Hcur. rewrite (He Hl Ho Hg), Hcur. by rewrite firstn_all.
Qed.

(** Updating the caches is something the rest of the gateway may do. *)
Lemma update_grows (key key' val : string) (now : Z) (c : CacheBroadcasts.t) :
  broadcasts key c `prefix_of` broadcasts key (CacheBroadcasts.update now key' val c).
Proof.
  unfold broadcasts, CacheBroadcasts.received, CacheBroadcasts.update. destruct (decide (key' = key)) as [-> | Hne].
  - rewrite lookup_alter_eq. destruct (c !! key) as [e |]; [| done]. cbn. destruct (_ <=? _); [| done]. by eexists.
  - by rewrite lookup_alter_ne.
Qed.
End Feeds.

(** ** Many feeds on one connection *)

Section Multiplex.
Import Multiplexed.
Context `{V : Valkey, J : SerdeJson}.

(** What the connection may send: values of the channels subscribed to, and of the
    order events only those that name the subscribed user. *)
Definition served (s : t) (msg : string) : Prop :=
  (exists u n val, Orders u n ∈ subs s /\ val ∈ gw_events (world s) /\ is_mine u val = true /\
                   msg = update_msg ("orders:" +:+ u) val) \/
  (exists u last val, Portfolio u last ∈ subs s /\ worth_caching val = true /\
                      msg = update_msg ("portfolio:" +:+ u) val) \/
  (exists ch rx val, Cache ch rx ∈ subs s /\ msg = update_msg ch val).

Definition only_served (s : t) : Prop := Forall (served s) (texts (sent s) ++ agg s).

(** The fields of the connection, leaving the messages folded. *)
Ltac fields := cbn [world subs todo agg sent is_open add set_sub close set_world gw_events].

(** The same subscriptions, whatever their progress. *)
Definition sub_name (sub : subscription) : string + string + string :=
  match sub with
  | Orders u _ => inl (inl u)
  | Portfolio u _ => inl (inr u)
  | Cache ch _ => inr ch
  end.

Lemma served_mono (s s' : t) (msg : string) :
  (forall sub, sub ∈ subs s -> exists sub', sub' ∈ subs s' /\ sub_name sub' = sub_name sub) ->
  (forall m, m ∈ gw_events (world s) -> m ∈ gw_events (world s')) -> served s msg -> served s' msg.
Proof.
  intros Hs He [(u & n & val & Hu & Hv & Hm & ->) | [(u & l & val & Hu & Hw & ->) | (ch & rx & val & Hu & ->)]];
    destruct (Hs _ Hu) as ([u' n' | u' l' | ch' rx'] & Hin & Hn); try done; injection Hn as ->.
  - left. exists u, n', val. split_and!; try done. by apply He.
  - right. left. by exists u, l', val.
  - right. right. by exists ch, rx', val.
Qed.

(** A step that keeps the names, adds events only, and adds at most one served
    message. *)
Lemma only_served_step (s s' : t) (new : list string) :
  (forall sub, sub ∈ subs s -> exists sub', sub' ∈ subs s' /\ sub_name sub' = sub_name sub) ->
  (forall m, m ∈ gw_events (world s) -> m ∈ gw_events (world s')) ->
  (forall m, m ∈ texts (sent s') ++ agg s' -> m ∈ texts (sent s) ++ agg s \/ m ∈ new) ->
  Forall (served s') new -> only_served s -> only_served s'.
Proof.
  intros Hs He Hm Hn Ho. apply Forall_forall. intros m Hin. destruct (Hm m Hin) as [Hold | Hnew].
  - eapply served_mono; [done.. |]. by eapply Forall_forall in Ho.
  - by eapply Forall_forall in Hn.
Qed.

Lemma keep_names (s : t) : forall sub, sub ∈ subs s -> exists sub', sub' ∈ subs s /\ sub_name sub' = sub_name sub.
Proof. eauto. Qed.

Lemma set_sub_names (i : nat) (old new : subscription) (l : list subscription) :
  l !! i = Some old -> sub_name new = sub_name old ->
  forall sub, sub ∈ l -> exists sub', sub' ∈ <[i := new]> l /\ sub_name sub' = sub_name sub.
Proof.
  intros Hi Hn sub Hin. apply list_elem_of_lookup in Hin as [j Hj]. destruct (decide (i = j)) as [<- | Hne].
  - exists new. split; [| congruence]. apply list_elem_of_lookup. exists i. apply list_lookup_insert_eq. by eapply lookup_lt_Some.
  - exists sub. split; [| done]. apply list_elem_of_lookup. exists j. by rewrite list_lookup_insert_ne.
Qed.

Lemma push_some (msg : string) (s s' : t) :
  push msg s = Some s' -> s' = mk (world s) (subs s) (todo s) (agg s ++ [msg]) (sent s) (is_open s).
Proof. unfold push. destruct (_ <? _)%nat; [| done]. by intros [= <-]. Qed.

Lemma subscribe_served (ch : string) (s s' : t) : subscribe ch s = Some s' -> only_served s -> only_served s'.
Proof.
  unfold subscribe. intros E Ho.
  assert (forall sub s1, subs s1 = subs s -> world s1 = world s -> texts (sent s1) ++ agg s1 = texts (sent s) ++ agg s ->
            only_served (add sub s1)) as Hadd.
  { intros sub s1 H1 H2 H3. apply (only_served_step s _ []); [| | | constructor | done]; fields.
    - intros sub' Hin. exists sub'. split; [| done]. apply elem_of_app. left. by rewrite H1.
    - by rewrite H2.
    - rewrite H3. auto. }
  destruct (strip_prefix "orders:" ch); [injection E as <-; by apply Hadd |].
  destruct (strip_prefix "portfolio:" ch); [injection E as <-; by apply Hadd |].
  destruct (CacheBroadcasts.get_latest _ _) as [val |]; [| cbn in E; injection E as <-; by apply Hadd].
  destruct (push (update_msg ch val) s) as [s1 |] eqn:Ep; [| done]. cbn in E. injection E as <-.
  apply push_some in Ep as ->.
  apply (only_served_step s _ [update_msg ch val]); fields; [| done | | | done].
  - intros sub Hin. exists sub. split; [| done]. apply elem_of_app. by left.
  - intros m. rewrite (assoc_L app), elem_of_app. tauto.
  - apply Forall_singleton. right. right. exists ch, None, val. split; [apply elem_of_app; right; by left | done].
Qed.

Lemma turn_served (now : Z) (kv : store) (i : nat) (sub : subscription) (s s' : t) :
  subs s !! i = Some sub -> turn now kv i sub s = Some s' -> only_served s -> only_served s'.
Proof.
  intros Hi E Ho. pose proof (lookup_lt_Some _ _ _ Hi) as Hlt.
  assert (forall new s1, sub_name new = sub_name sub -> s1 = s -> only_served (set_sub i new s1)) as Hset.
  { intros new s1 Hn ->. apply (only_served_step s _ []); fields; [by eapply set_sub_names | done | auto | constructor | done]. }
  assert (forall new msg s1, sub_name new = sub_name sub -> push msg s = Some s1 ->
            served (set_sub i new s1) msg -> only_served (set_sub i new s1)) as Hpush.
  { intros new msg s1 Hn Hp Hm. apply push_some in Hp as ->.
    apply (only_served_step s _ [msg]); fields; [by eapply set_sub_names | done | | | done].
    - intros m. rewrite (assoc_L app), elem_of_app. tauto.
    - by apply Forall_singleton. }
  assert (forall new s1, subs s1 = subs s -> new ∈ subs (set_sub i new s1)) as Hin.
  { intros new s1 H1. cbn. rewrite H1. apply list_elem_of_lookup. exists i. by apply list_lookup_insert_eq. }
  destruct sub as [u n | u l | ch [rx |]]; cbn [turn] in E.
  - destruct (gw_events (world s) !! n) as [m |] eqn:Em; [| done]. cbn in E. destruct (is_mine u m) eqn:Hm.
    + destruct (push _ s) as [s1 |] eqn:Ep; [| done]. cbn in E. injection E as <-. eapply Hpush; [done | done |].
      apply push_some in Ep as ->. left. exists u, (S n), m. split_and!; try done; [by apply Hin |].
      by eapply list_elem_of_lookup_2.
    + cbn in E. injection E as <-. by apply Hset.
  - cbn zeta in E. destruct (worth_caching _) eqn:Hw; [| by injection E as <-].
    destruct (negb _); [| by injection E as <-]. cbn [andb] in E.
    destruct (push _ s) as [s1 |] eqn:Ep; [| done]. cbn in E. injection E as <-. eapply Hpush; [done | done |].
    apply push_some in Ep as ->. right. left. eexists u, _, _. split_and!; [by apply Hin | exact Hw | done].
  - destruct (broadcasts _ _ !! rx) as [val |]; [| done]. cbn in E.
    destruct (push _ s) as [s1 |] eqn:Ep; [| done]. cbn in E. injection E as <-. eapply Hpush; [done | done |].
    apply push_some in Ep as ->. right. right. eexists ch, _, val. split; [by apply Hin | done].
  - destruct (CacheBroadcasts.subscribe _ _) as [rx |]; [| done]. cbn in E. injection E as <-. by apply Hset.
Qed.

Lemma lag_served (i n : nat) (sub : subscription) (s s' : t) :
  subs s !! i = Some sub -> lag i n sub s = Some s' -> only_served s -> only_served s'.
Proof.
  intros Hi E Ho.
  assert (forall new, sub_name new = sub_name sub -> only_served (set_sub i new s)) as Hset.
  { intros new Hn. apply (only_served_step s _ []); fields; [by eapply set_sub_names | done | auto | constructor | done]. }
  destruct sub as [u c | u l | ch [rx |]]; cbn [lag] in E; try done;
    (destruct (_ <=? _)%nat; [| done]); injection E as <-; by apply Hset.
Qed.

Lemma step_served (ev : event) (s s' : t) : step ev s = Some s' -> only_served s -> only_served s'.
Proof.
  intros E Ho.
  assert (forall s1, subs s1 = subs s -> (forall m, m ∈ gw_events (world s) -> m ∈ gw_events (world s1)) ->
            (forall m, m ∈ texts (sent s1) ++ agg s1 -> m ∈ texts (sent s) ++ agg s) -> only_served s1) as Hsame.
  { intros s1 H1 H2 H3. apply (only_served_step s _ []); [rewrite H1; apply keep_names | done | auto | constructor | done]. }
  destruct ev as [ok | m | | now kv i | i n | now key val | m | u]; cbn [step] in E.
  4: { destruct (is_open s); [| done]. cbn in E. destruct (subs s !! i) as [sub |] eqn:Hi; [| done]. by eapply turn_served. }
  4: { destruct (is_open s); [| done]. cbn in E. destruct (subs s !! i) as [sub |] eqn:Hi; [| done]. by eapply lag_served. }
  4: { injection E as <-. by apply Hsame. }
  4: { injection E as <-. apply Hsame; [done | | done]. intros m' Hm. cbn. apply elem_of_app. by left. }
  4: { injection E as <-. by apply Hsame. }
  - destruct (is_open s); [| done]. cbn in E. destruct (todo s); [| done]. destruct (agg s) as [| msg rest] eqn:Ha; [done |].
    injection E as <-. destruct ok; apply Hsame; try done; fields; intros m'; rewrite ?Ha, ?texts_app, ?elem_of_app, ?elem_of_cons; cbn;
      rewrite ?elem_of_cons, ?elem_of_nil; tauto.
  - destruct (is_open s); [| done]. cbn in E. destruct (todo s); [| done]. injection E as <-.
    destruct m; cbn [on_client]; try done; apply Hsame; try done. fields. intros m'. by rewrite texts_app, app_nil_r.
  - destruct (is_open s); [| done]. cbn in E. destruct (todo s) as [| ch rest]; [done |].
    eapply subscribe_served; [exact E |]. by apply Hsame.
Qed.

Lemma run_served (evs : list event) (s s' : t) : run evs s = Some s' -> only_served s -> only_served s'.
Proof.
  revert s. induction evs as [| ev evs IH]; intros s; cbn; [by intros [= <-] |].
  destruct (step ev s) as [s1 |] eqn:E; [| done]. cbn. intros Hr Ho. eapply IH; [done |]. by eapply step_served.
Qed.

(** C40: whatever clients, feeds and tasks do, a multiplexed connection sends only
    messages of channels that were subscribed to on it, and of the order events
    only those that name the subscribed user. *)
Theorem multiplexed_scope (w : gateway) (evs : list event) (s : t) (Hrun : run evs (start w) = Some s) :
  Forall (served s) (texts (sent s)).
Proof.
  assert (only_served (start w)) as H0 by constructor.
  pose proof (run_served evs _ _ Hrun H0) as H. unfold only_served in H. by apply Forall_app in H as [H _].
Qed.

(** *** A command that fills the channel *)

(** A cache channel with a current value: its task sends before it goes on. *)
Definition greeted (w : gateway) (ch : string) : Prop :=
  strip_prefix "orders:" ch = None /\ strip_prefix "portfolio:" ch = None /\
  is_Some (CacheBroadcasts.get_latest (cache_key ch) (gw_cache w)).

(** The connection's own task waits for room in the channel that only it empties. *)
Definition blocked (s : t) : Prop :=
  exists ch rest, todo s = ch :: rest /\ greeted (world s) ch /\ length (agg s) = AGG_CAP.

Lemma latest_stays (now : Z) (key key' val : string) (c : CacheBroadcasts.t) :
  is_Some (CacheBroadcasts.get_latest key c) -> is_Some (CacheBroadcasts.get_latest key (CacheBroadcasts.update now key' val c)).
Proof.
  unfold CacheBroadcasts.get_latest, CacheBroadcasts.update. destruct (decide (key' = key)) as [-> | Hne].
  - rewrite lookup_alter_eq. destruct (c !! key) as [e |]; [| done]. intros _. cbn. destruct (_ <=? _); by eexists.
  - by rewrite lookup_alter_ne.
Qed.

Lemma push_full (msg : string) (s : t) : length (agg s) = AGG_CAP -> push msg s = None.
Proof. intros H. unfold push. by rewrite H. Qed.

Lemma subscribe_greeted (ch : string) (s : t) :
  greeted (world s) ch ->
  subscribe ch s = val ← CacheBroadcasts.get_latest (cache_key ch) (gw_cache (world s));
                   s ← push (update_msg ch val) s; Some (add (Cache ch None) s).
Proof. intros (H1 & H2 & [v H3]). unfold subscribe. by rewrite H1, H2, H3. Qed.

Lemma turn_blocked (now : Z) (kv : store) (i : nat) (sub : subscription) (s s' : t) :
  turn now kv i sub s = Some s' -> length (agg s) = AGG_CAP ->
  todo s' = todo s /\ world s' = world s /\ agg s' = agg s /\ sent s' = sent s.
Proof.
  intros E Hf. destruct sub as [u n | u l | ch [rx |]]; cbn [turn] in E.
  - destruct (_ !! n); [| done]. cbn in E. rewrite push_full in E by done. destruct (is_mine _ _); [done |]. by injection E as <-.
  - cbn zeta in E. rewrite push_full in E by done. destruct (_ && _); [done | by injection E as <-].
  - destruct (_ !! rx); [| done]. cbn in E. by rewrite push_full in E.
  - destruct (CacheBroadcasts.subscribe _ _); [| done]. by injection E as <-.
Qed.

Lemma step_blocked (ev : event) (s s' : t) : step ev s = Some s' -> blocked s -> blocked s' /\ sent s' = sent s.
Proof.
  intros E (ch & rest & Ht & Hg & Hf).
  destruct ev as [ok | m | | now kv i | i n | now key val | m | u]; cbn [step] in E.
  6: { injection E as <-. split; [| done]. exists ch, rest. split_and!; [done | | done].
       destruct Hg as (H1 & H2 & H3). split_and!; [done | done | by apply latest_stays]. }
  6: { injection E as <-. split; [| done]. by exists ch, rest. }
  6: { injection E as <-. split; [| done]. by exists ch, rest. }
  all: destruct (is_open s); [| done]; cbn in E; rewrite ?Ht in E; try done.
  - rewrite subscribe_greeted in E by done. destruct (CacheBroadcasts.get_latest _ _); [| done]. cbn in E.
    by rewrite push_full in E.
  - destruct (subs s !! i) as [sub |]; [| done]. destruct (turn_blocked _ _ _ _ _ _ E Hf) as (H1 & H2 & H3 & H4).
    split; [| done]. exists ch, rest. by rewrite H1, H2, H3.
  - destruct (subs s !! i) as [[u c | u l | c [rx |]] |]; try done; cbn in E;
      (destruct (_ <=? _)%nat; [| done]); injection E as <-; (split; [| done]); by exists ch, rest.
Qed.

Lemma run_blocked (evs : list event) (s s' : t) : run evs s = Some s' -> blocked s -> blocked s' /\ sent s' = sent s.
Proof.
  revert s. induction evs as [| ev evs IH]; intros s; cbn; [by intros [= <-] |].
  destruct (step ev s) as [s1 |] eqn:E; [| done]. cbn. intros Hr Hb. destruct (step_blocked ev s s1 E Hb) as [Hb1 Hs1].
  destruct (IH s1 Hr Hb1) as [Hb' Hs']. split; [done | congruence].
Qed.

Lemma fill_channel (n : nat) (s : t) :
  is_open s = true -> (length (agg s) + n = AGG_CAP)%nat -> (n < length (todo s))%nat -> Forall (greeted (world s)) (todo s) ->
  exists s', run (repeat Subscribe n) s = Some s' /\ blocked s' /\ sent s' = sent s.
Proof.
  revert s. induction n as [| n IH]; intros s Ho Hl Ht Hg.
  - exists s. split; [done |]. split; [| done]. destruct (todo s) as [| ch rest] eqn:E; [cbn in Ht; lia |].
    exists ch, rest. split_and!; [done | by apply Forall_cons in Hg as [? _] | lia].
  - destruct (todo s) as [| ch rest] eqn:E; [cbn in Ht; lia |]. apply Forall_cons in Hg as [Hch Hg].
    cbn [repeat run step]. rewrite Ho, E. cbn [negb]. rewrite subscribe_greeted by done. fields.
    destruct Hch as (_ & _ & [v Hv]). rewrite Hv. cbn [mbind option_bind]. unfold push. fields.
    destruct (Nat.ltb_spec (length (agg s)) AGG_CAP); [| lia]. cbn [mbind option_bind].
    destruct (IH (add (Cache ch None) (mk (world s) (subs s) rest (agg s ++ [update_msg ch v]) (sent s) (is_open s))))
      as (s' & Hr & Hb & Hs); fields; try done.
    + rewrite length_app. cbn. lia.
    + cbn in Ht. lia.
    + rewrite Ho in Hr. exists s'. split; [exact Hr |]. split; [exact Hb | exact Hs].
Qed.

(** C39: one command that subscribes to more than 256 cache channels with current
    values blocks its connection for ever: after the first 256 the connection's task
    waits for room in the channel it alone empties, and whatever happens then it
    neither forwards a message nor reads another one. *)
Theorem multiplexed_blocks (w : gateway) (text : string)
    (Hmany : (AGG_CAP < length (channels text))%nat) (Hgreeted : Forall (greeted w) (channels text)) :
  exists s, run (Client (Text text) :: repeat Subscribe AGG_CAP) (start w) = Some s /\
    forall evs s', run evs s = Some s' -> texts (sent s') = [] /\ todo s' <> [] /\ length (agg s') = AGG_CAP.
Proof.
  destruct (fill_channel AGG_CAP (mk w [] (channels text) [] [] true)) as (s & Hr & Hb & Hs); try done.
  exists s. split; [exact Hr |]. intros evs s' Hr'. destruct (run_blocked evs s s' Hr' Hb) as [(ch & rest & Ht & _ & Hl) Hs'].
  rewrite Hs', Hs. split_and!; [done | by rewrite Ht | done].
Qed.
End Multiplex.

(** ** Server-sent events *)

Section ServerSent.

(** The data of the events of a name. *)
Definition data_of (name : string) (evs : list sse_event) : list string :=
  omap (fun e => if decide (e.1 = name) then Some e.2 else None) evs.

Lemma data_of_app (name : string) (evs evs' : list sse_event) :
  data_of name (evs ++ evs') = data_of name evs ++ data_of name evs'.
Proof. apply omap_app. Qed.

(** One receiver on its own. *)
Fixpoint sse_feed (ls : list look) (r : receiver) : list string :=
  match ls with
  | [] => []
  | l :: ls => let '(r, out) := sse_try l r in (snd <$> out) ++ sse_feed ls r
  end.

Lemma try_names (l : look) (r : receiver) :
  rx_name (sse_try l r).1 = rx_name r /\ Forall (fun e => e.1 = rx_name r) (sse_try l r).2.
Proof. unfold sse_try. case_cond; [done |]. destruct (_ !! _); cbn; by repeat constructor. Qed.

Lemma data_of_named (name : string) (evs : list sse_event) :
  Forall (fun e => e.1 = name) evs -> data_of name evs = snd <$> evs.
Proof. induction 1 as [| e evs He _ IH]; [done |]. unfold data_of in *. cbn. by rewrite decide_True, IH by done. Qed.

Lemma data_of_other (name : string) (evs : list sse_event) :
  Forall (fun e => e.1 <> name) evs -> data_of name evs = [].
Proof. induction 1 as [| e evs He _ IH]; [done |]. unfold data_of in *. cbn. by rewrite decide_False, IH by done. Qed.

(** Within a turn the events of a name are those of its receiver. *)
Lemma turn_data (at_ : nat -> look) (rs : list receiver) (i : nat) (r : receiver) :
  NoDup (rx_name <$> rs) -> rs !! i = Some r ->
  data_of (rx_name r) (sse_round at_ rs).2 = snd <$> (sse_try (at_ i) r).2.
Proof.
  unfold sse_round. cbn [snd]. revert at_ i. induction rs as [| x rs IH]; intros at_ i Hnd Hi; [done |].
  apply NoDup_cons in Hnd as [Hx Hnd]. rewrite imap_cons. cbn [mbind list_bind]. rewrite data_of_app.
  destruct i as [| i]; cbn in Hi.
  - injection Hi as ->. rewrite data_of_named by apply try_names.
    rewrite data_of_other, app_nil_r; [done |]. apply Forall_bind, Forall_forall. intros t (j & y & -> & Hy)%elem_of_lookup_imap.
    eapply Forall_impl; [apply try_names |]. intros e -> E. apply Hx. rewrite <- E. by eapply list_elem_of_fmap_2, list_elem_of_lookup_2.
  - rewrite data_of_other; [by apply (IH (at_ ∘ S)) |].
    eapply Forall_impl; [apply try_names |]. intros e -> E. apply Hx. rewrite E. by eapply list_elem_of_fmap_2, list_elem_of_lookup_2.
Qed.

Lemma turn_names (at_ : nat -> look) (rs : list receiver) : rx_name <$> (sse_round at_ rs).1 = rx_name <$> rs.
Proof.
  unfold sse_round. cbn [fst]. apply list_eq. intros i. rewrite !list_lookup_fmap, list_lookup_imap.
  destruct (rs !! i); cbn; [| done]. by rewrite (proj1 (try_names _ _)).
Qed.

Lemma rounds_data (turns : list (nat -> look)) (rs : list receiver) (i : nat) (r : receiver) :
  NoDup (rx_name <$> rs) -> rs !! i = Some r ->
  data_of (rx_name r) (sse_rounds turns rs).2 = sse_feed ((fun at_ => at_ i) <$> turns) r.
Proof.
  revert rs r. induction turns as [| at_ turns IH]; intros rs r Hnd Hi; [done |]. cbn [sse_rounds fmap list_fmap sse_feed].
  pose proof (turn_data at_ rs i r Hnd Hi) as Hd. pose proof (turn_names at_ rs) as Hn.
  assert ((sse_round at_ rs).1 !! i = Some (sse_try (at_ i) r).1) as Hi'
    by (unfold sse_round; cbn; by rewrite list_lookup_fmap, list_lookup_imap, Hi).
  destruct (sse_round at_ rs) as [rs1 out]. cbn [fst snd] in *. specialize (IH rs1 _ ltac:(by rewrite Hn) Hi').
  destruct (sse_rounds turns rs1) as [rs2 outs]. cbn [snd] in *. rewrite (proj1 (try_names _ _)) in IH.
  rewrite data_of_app, Hd, IH. by destruct (sse_try (at_ i) r).
Qed.
(** The caches seen show no more of the feed than [all]. *)
Definition within (key : string) (all : list string) (ls : list look) : Prop :=
  Forall (fun l => broadcasts key (lk_caches l) `prefix_of` all) ls.

(** The looks that show the whole feed. *)
Definition caught_up (key : string) (all : list string) (ls : list look) : nat :=
  length (filter (fun l => broadcasts key (lk_caches l) = all) ls).

Lemma try_keeps_key (l : look) (r : receiver) : rx_key (sse_try l r).1 = rx_key r.
Proof. unfold sse_try. case_cond; [done |]. by destruct (_ !! _). Qed.

Lemma feed_sublist (ls : list look) (r : receiver) (all : list string) :
  within (rx_key r) all ls -> sse_feed ls r `sublist_of` drop (rx_cursor r) all.
Proof.
  intros H. revert r H. induction ls as [| l ls IH]; intros r H; cbn [sse_feed]; [apply sublist_nil_l |].
  apply Forall_cons in H as [Hl H]. specialize (IH (sse_try l r).1). rewrite try_keeps_key in IH. specialize (IH H).
  unfold sse_try in *. case_cond.
  - cbn in *. etransitivity; [exact IH |]. rewrite <- drop_drop. apply sublist_drop.
  - destruct (_ !! rx_cursor r) as [val |] eqn:Ev; cbn in *; [| exact IH].
    rewrite (drop_S all val (rx_cursor r)); [by constructor |]. by eapply prefix_lookup_Some.
Qed.

Lemma caught_up_cons (key : string) (all : list string) (l : look) (ls : list look) :
  caught_up key all (l :: ls)
  = ((if decide (broadcasts key (lk_caches l) = all) then 1 else 0) + caught_up key all ls)%nat.
Proof. unfold caught_up. rewrite filter_cons. by destruct (decide _). Qed.

Lemma feed_exact (ls : list look) (r : receiver) (all : list string) :
  within (rx_key r) all ls -> Forall (fun l => lk_lost l = 0%nat) ls ->
  exists n, sse_feed ls r = take n (drop (rx_cursor r) all) /\
    (caught_up (rx_key r) all ls `min` length (drop (rx_cursor r) all) <= n)%nat.
Proof.
  intros H. revert r H. induction ls as [| l ls IH]; intros r H Hlost; cbn [sse_feed]; [exists 0%nat; by split |].
  apply Forall_cons in H as [Hl H]. apply Forall_cons in Hlost as [H0 Hlost].
  specialize (IH (sse_try l r).1). rewrite try_keeps_key in IH. destruct (IH H Hlost) as (n & E & Hn). clear IH.
  rewrite caught_up_cons. unfold sse_try in *. rewrite H0 in *. cbn [Nat.ltb Nat.leb] in *.
  destruct (_ !! rx_cursor r) as [val |] eqn:Ev; cbn in *.
  - exists (S n). rewrite (drop_S all val (rx_cursor r)) by (by eapply prefix_lookup_Some). rewrite E. split; [done |].
    cbn [length]. destruct (decide _); lia.
  - exists n. split; [done |]. apply lookup_ge_None in Ev. rewrite length_drop in *. destruct (decide _) as [Ha |]; [| lia].
    rewrite Ha in Ev. lia.
Qed.

Lemma receiver_names (pair_id : string) (at_ : nat -> CacheBroadcasts.t) : NoDup (rx_name <$> sse_receivers pair_id at_).
Proof.
  assert (rx_name <$> sse_receivers pair_id at_ `sublist_of` snd <$> sse_keys pair_id) as Hs.
  { unfold sse_receivers, sse_keys. cbn.
    repeat (destruct (CacheBroadcasts.subscribe _ _); cbn; [apply sublist_skip | apply sublist_cons]); constructor. }
  refine (sublist_NoDup _ _ _ Hs). apply (bool_decide_unpack _). vm_compute. exact I.
Qed.

Lemma receiver_cursor (pair_id : string) (at_ : nat -> CacheBroadcasts.t) (k : nat) (key name : string) (cursor : nat) :
  sse_keys pair_id !! k = Some (key, name) -> mk_receiver key name cursor ∈ sse_receivers pair_id at_ ->
  cursor = length (broadcasts key (at_ k)).
Proof.
  intros Hk (x & Hx & E)%list_elem_of_omap. apply elem_of_lookup_imap in Hx as (k' & [key' name'] & -> & Hk'). cbn in E.
  apply fmap_Some in E as (n & Hn & [= -> -> ->]).
  assert (k = k') as <-.
  { assert (NoDup (snd <$> sse_keys pair_id)) as Hnd by (apply (bool_decide_unpack _); vm_compute; exact I).
    apply (NoDup_lookup _ k k' name' Hnd); by rewrite list_lookup_fmap, ?Hk, ?Hk'. }
  unfold CacheBroadcasts.subscribe in Hn. apply fmap_Some in Hn as (e & He & ->).
  unfold broadcasts, CacheBroadcasts.received. by rewrite He.
Qed.

(** Names tell the keys apart. *)
Lemma keys_data (pair_id : string) (k : nat) (key name : string) (f : nat -> string -> option string) :
  sse_keys pair_id !! k = Some (key, name) ->
  data_of name (omap (fun x => (fun val => (x.2.2, val)) <$> f x.1 x.2.1) (imap pair (sse_keys pair_id))) = option_list (f k key).
Proof.
  unfold sse_keys. intros H. cbn.
  do 6 (destruct k as [| k]; [injection H as <- <-; repeat (destruct (f _ _); cbn); done | cbn in H]). done.
Qed.

(** Of each feed a stream of server-sent events shows the current value and then,
    in order and at most once, only what is broadcast after its receiver subscribed;
    nothing of it is missing as long as the receiver is not overrun, and all of it
    arrives once the receiver has looked as often as there are values to send. *)
Theorem sse_stream_spec (pair_id : string) (first second : nat -> CacheBroadcasts.t) (turns : list (nat -> look))
    (k i cursor : nat) (key name : string) (all : list string) :
  let looks := (fun at_ => at_ i) <$> turns in
  sse_keys pair_id !! k = Some (key, name) ->
  sse_receivers pair_id second !! i = Some (mk_receiver key name cursor) ->
  within key all looks ->
  exists live,
    data_of name (sse_stream pair_id first second turns) = option_list (CacheBroadcasts.get_latest key (first k)) ++ live /\
    cursor = length (broadcasts key (second k)) /\
    live `sublist_of` drop cursor all /\
    (Forall (fun l => lk_lost l = 0%nat) looks ->
     exists n, live = take n (drop cursor all) /\ (caught_up key all looks `min` length (drop cursor all) <= n)%nat).
Proof.
  cbn zeta. intros Hk Hi Hall. pose proof (rounds_data turns _ i _ (receiver_names pair_id second) Hi) as Hd. cbn [rx_name] in Hd.
  exists (sse_feed ((fun at_ => at_ i) <$> turns) (mk_receiver key name cursor)). split_and!.
  - unfold sse_stream. rewrite data_of_app, Hd. f_equal.
    by apply (keys_data pair_id k key name (fun i key => CacheBroadcasts.get_latest key (first i))).
  - by apply (receiver_cursor pair_id second k key name cursor Hk), (list_elem_of_lookup_2 _ i).
  - by apply feed_sublist.
  - by apply feed_exact.
Qed.
End ServerSent.

Module SocketsExamples.
Import RefCrates RefValkey RefJson Multiplexed.

Definition order_event (user : string) : string := json_to_string (object [("user_id", JStr user)]).

(** Two users' events, of which the client gets one. *)
Lemma orders_socket_spec_witness :
  exists s, orders_socket_run "alice" [Socket.World [order_event "bob"; order_event "alice"]; Socket.Recv true; Socket.Recv true]
              (handle_orders_ws []) = Some s /\
    texts (Socket.sent s) = filter (fun m => is_mine "alice" m = true) (drop 0 (Socket.world s)).
Proof.
  assert (match orders_socket_run "alice" [Socket.World [order_event "bob"; order_event "alice"]; Socket.Recv true; Socket.Recv true]
                  (handle_orders_ws []) with Some s => Socket.is_open s && (Socket.cursor s =? length (Socket.world s))%nat
          | None => false end = true) as Hok by (vm_compute; reflexivity).
  destruct (orders_socket_run _ _ _) as [s |] eqn:E; [| discriminate]. apply andb_prop in Hok as [Ho Hc].
  apply Nat.eqb_eq in Hc. exists s. split; [reflexivity |].
  exact (proj2 (proj2 (orders_socket_spec "alice" [] _ s E)) eq_refl Ho Hc).
Defined.

Definition ticker_cache : CacheBroadcasts.t :=
  CacheBroadcasts.update 50 (ticker_key "BTC-USDT") "t1" (new_broadcasts 0).

Lemma cache_socket_spec_witness :
  exists s0 s, cache_broadcast_ws (ticker_key "BTC-USDT") ticker_cache = Some s0 /\
    cache_socket_run (ticker_key "BTC-USDT")
      [Socket.Greet true; Socket.World (CacheBroadcasts.update 200 (ticker_key "BTC-USDT") "t2" ticker_cache); Socket.Recv true] s0
      = Some s /\
    texts (Socket.sent s) `sublist_of` ["t1"; "t2"].
Proof.
  eexists _, _. split; [reflexivity |]. split; [reflexivity |].
  exact (proj1 (cache_socket_spec (ticker_key "BTC-USDT") ticker_cache _ _
                  [Socket.Greet true; Socket.World (CacheBroadcasts.update 200 (ticker_key "BTC-USDT") "t2" ticker_cache);
                   Socket.Recv true] eq_refl eq_refl)).
Defined.

Definition holding : gateway := mk_gateway ticker_cache [] ∅.

Definition many : string := json_to_string (object [("subscribe", JArr (repeat (JStr "ticker:BTC-USDT") 257))]).

Lemma many_channels : channels many = repeat "ticker:BTC-USDT" 257.
Proof. unfold channels, many. rewrite json_from_to by (vm_compute; reflexivity). vm_compute. reflexivity. Qed.

Lemma multiplexed_blocks_witness :
  exists s, run (Client (Text many) :: repeat Subscribe AGG_CAP) (start holding) = Some s /\
    texts (sent s) = [].
Proof.
  destruct (multiplexed_blocks (V := ref_valkey) holding many) as (s & Hr & Hs).
  - rewrite many_channels. vm_compute. lia.
  - rewrite many_channels. apply Forall_forall. intros ch Hch%list_elem_of_In. apply repeat_spec in Hch as ->. split; [reflexivity |].
    split; [reflexivity |]. exists "t1". reflexivity.
  - exists s. split; [exact Hr |]. exact (proj1 (Hs [] s eq_refl)).
Defined.

(** A client follows its orders and gets one event. *)
Definition follow : list (@event ref_valkey) :=
  [Client (Text (json_to_string (object [("subscribe", JArr [JStr "orders:alice"])]))); Subscribe;
   OrderEvent (order_event "alice"); Turn 0 empty_store 0; Forward true].

Lemma multiplexed_scope_witness :
  exists s, run follow (start holding) = Some s /\ length (texts (sent s)) = 1%nat /\ Forall (served s) (texts (sent s)).
Proof.
  assert (match run follow (start holding) with Some s => length (texts (sent s)) | None => 0%nat end = 1%nat) as Hl
    by (vm_compute; reflexivity).
  destruct (run follow (start holding)) as [s |] eqn:E; [| discriminate].
  exists s. exact (conj eq_refl (conj Hl (multiplexed_scope (V := ref_valkey) holding follow s E))).
Defined.

(** The caches later: two more tickers are broadcast, 100 ms apart. *)
Definition ticker_second : CacheBroadcasts.t := CacheBroadcasts.update 200 (ticker_key "BTC-USDT") "t2" ticker_cache.
Definition ticker_third : CacheBroadcasts.t := CacheBroadcasts.update 300 (ticker_key "BTC-USDT") "t3" ticker_second.

Definition at_rest (c : CacheBroadcasts.t) : nat -> CacheBroadcasts.t := fun _ => c.
Definition looking (c : CacheBroadcasts.t) : nat -> look := fun _ => mk_look c 0.

Definition ticker_stream : list sse_event :=
  sse_stream "BTC-USDT" (at_rest ticker_cache) (at_rest ticker_cache)
    [looking ticker_second; looking ticker_third; looking ticker_third].

Lemma sse_stream_spec_witness : data_of "ticker" ticker_stream = ["t1"; "t2"; "t3"].
Proof.
  assert (within (ticker_key "BTC-USDT") ["t2"; "t3"] [mk_look ticker_second 0; mk_look ticker_third 0; mk_look ticker_third 0])
    as Hw by (apply (bool_decide_unpack _); vm_compute; exact I).
  destruct (sse_stream_spec "BTC-USDT" (at_rest ticker_cache) (at_rest ticker_cache)
              [looking ticker_second; looking ticker_third; looking ticker_third] 2 2 0 _ "ticker" ["t2"; "t3"]
              eq_refl eq_refl Hw) as (live & E & _ & _ & Hn).
  unfold ticker_stream. rewrite E. destruct (Hn ltac:(by repeat constructor)) as (n & -> & Hle). vm_compute in Hle.
  rewrite take_ge by (cbn; lia). vm_compute. reflexivity.
Defined.

(** A value that comes between the current value and the subscription is not sent,
    and the client keeps the older one until the next. *)
Example sse_gap :
  data_of "ticker" (sse_stream "BTC-USDT" (at_rest ticker_cache) (at_rest ticker_second)
                      (repeat (looking ticker_second) 5)) = ["t1"] /\
  CacheBroadcasts.get_latest (ticker_key "BTC-USDT") ticker_second = Some "t2".
Proof. vm_compute. done. Qed.
End SocketsExamples.
