(* ===== verification/Background.v ===== *)
(** * Background tasks and start of the worker process
    ([crates/api/src/worker.rs], [crates/api/src/routes.rs], [crates/api/src/main.rs])

    The order book debouncer, the metrics documents, the seed of the database and
    the sequence [main] runs before it waits. *)

From S2P Require Import Prelude Numbers Externals Fixed Types Codec Valkey Book Balance Json Db Persist.
From S2P Require Import Views Metrics Ws OrderFlow Gateway.

Open Scope Z_scope.

(** ** The order book debouncer *)

Module Debouncer.
(** One rebuild task: about to wait for its [Notify], waiting on it, woken by it,
    or in the pause before the rebuild. *)
Inductive task := Polling | Parked | Woken | Sleeping.

(** Whether each [Notify] stores its one permit, and its task. *)
Record t : Type := mk { permit : list bool; tasks : list task }.

Definition new : t := mk [false; false; false] [Polling; Polling; Polling].

(** [notify_one], as tokio documents it: the waiting task is woken, or else the one
    permit is stored, which the next [notified().await] consumes at once. *)
Definition notify_one (i : nat) (n : t) : t :=
  match tasks n !! i with
  | Some Parked => mk (permit n) (<[i := Woken]> (tasks n))
  | _ => mk (<[i := true]> (permit n)) (tasks n)
  end.

Definition mark_dirty (pair_id : string) (n : t) : t := notify_one (MetricsBatch.pair_index pair_id) n.

(** [notified().await], then the pause begins; a stored permit is consumed. *)
Definition poll (i : nat) (n : t) : option t :=
  match tasks n !! i, permit n !! i with
  | Some Woken, _ => Some (mk (permit n) (<[i := Sleeping]> (tasks n)))
  | Some Polling, Some true => Some (mk (<[i := false]> (permit n)) (<[i := Sleeping]> (tasks n)))
  | Some Polling, _ => Some (mk (permit n) (<[i := Parked]> (tasks n)))
  | _, _ => None
  end.

Section Rebuild.
Context `{C : Crates, X : !Sqlx C, V : Valkey, J : SerdeJson}.

Inductive event :=
| Mark (pair_id : string)
| Poll (i : nat)
| Rebuild (i : nat)
| Others (s : store).

(** The end of the pause: the view of the pair is rebuilt from the book as it is
    now. *)
Definition rebuild (i : nat) (n : t) (s : store) : option (t * store) :=
  match tasks n !! i, PAIRS !! i with
  | Some Sleeping, Some pair_id => Some (mk (permit n) (<[i := Polling]> (tasks n)), rebuild_orderbook_cache pair_id s)
  | _, _ => None
  end.

Definition step (ev : event) (c : t * store) : option (t * store) :=
  match ev with
  | Mark pair_id => Some (mark_dirty pair_id c.1, c.2)
  | Poll i => (fun n => (n, c.2)) <$> poll i c.1
  | Rebuild i => rebuild i c.1 c.2
  | Others s => Some (c.1, s)
  end.

Fixpoint run (evs : list event) (c : t * store) : option (t * store) :=
  match evs with
  | [] => Some c
  | ev :: evs => c ← step ev c; run evs c
  end.
End Rebuild.
End Debouncer.

(** ** The metrics documents *)

Section MetricsDocuments.
Context `{C : Crates, X : !Sqlx C, V : Valkey, J : SerdeJson}.

(** [unwrap_or(0)] *)
Definition count_or_zero (r : result Z) : Z :=
  match r with
  | Ok z => z
  | Err _ => 0
  end.

Definition total (f : string -> store -> result Z) (s : store) : Z :=
  fold_left (fun n p => wrap_i64 (n + count_or_zero (f p s))) PAIRS 0.

(** The three percentiles are f64 values. *)
Definition percentiles_fields (samples : list Z) : list (string * Json) :=
  let '(p50, p95, p99) := compute_percentiles samples in
  [("p50", JFloat (inject_Z p50)); ("p95", JFloat (inject_Z p95)); ("p99", JFloat (inject_Z p99))].

Definition metrics_doc (s : store) : Json :=
  let total_orders := total get_order_count s in
  let total_trades := total get_trade_count s in
  let all_latency := mbind (fun p => get_latency_samples p 100 s) PAIRS in
  object [("orders_per_sec", JInt total_orders); ("matches_per_sec", JInt total_trades);
          ("trades_per_sec", JInt total_trades); ("active_pairs", JInt 3); ("active_workers", JInt 1);
          ("latency", object (percentiles_fields all_latency)); ("streams", object [])].

(** Average wait and contention rate, in f64. *)
Definition lock_stats (all_waits : list Z) : Q * Q :=
  match all_waits with
  | [] => (0%Q, 0%Q)
  | _ =>
      let n := inject_Z (f64_of_Z (Z.of_nat (length all_waits))) in
      let sum := inject_Z (f64_of_Z (wrap_u64 (sumZ all_waits))) in
      let contended := inject_Z (f64_of_Z (Z.of_nat (length (filter (fun v => 1 < v) all_waits)))) in
      (f64_of_Q (sum / n), f64_of_Q (contended / n))
  end.

Definition locks_doc (s : store) : Json :=
  let all_waits := mbind (fun p => get_lock_wait_samples p 1000 s) PAIRS in
  let '(avg_wait_ms, contention_rate) := lock_stats all_waits in
  object [("contention_rate", JFloat contention_rate); ("avg_wait_ms", JFloat avg_wait_ms);
          ("retry_count", JInt (Z.of_nat (length all_waits))); ("failures", JInt 0)].

Definition latency_doc (s : store) : Json :=
  let per_pair p :=
    let samples := get_latency_samples p 1000 s in
    object ([("pair_id", JStr p); ("sample_count", JInt (Z.of_nat (length samples)))] ++ percentiles_fields samples) in
  let all_samples := mbind (fun p => get_latency_samples p 1000 s) PAIRS in
  object ([("sample_count", JInt (Z.of_nat (length all_samples)))] ++ percentiles_fields all_samples
          ++ [("per_pair", JArr (per_pair <$> PAIRS))]).

(** date_trunc('minute', created_at), as a number of minutes. *)
Definition minute (r : TradeRow.t) : Z := timestamp_millis (TradeRow.created_at r) / 60000.

(** WHERE created_at >= NOW() - INTERVAL '1 hour' *)
Definition last_hour (pg_now : datetime) (d : db) : list TradeRow.t :=
  filter (fun r => time_leb (minus_hours 1 pg_now) (TradeRow.created_at r) = true) (snd <$> map_to_list (trades d)).

(** GROUP BY bucket ORDER BY bucket, with COUNT( * ). *)
Definition throughput_rows (pg_now : datetime) (d : db) : list (Z * Z) :=
  let minutes := minute <$> last_hour pg_now d in
  (fun b => (b, Z.of_nat (length (filter (eq b) minutes)))) <$> merge_sort Z.le (remove_dups minutes).

Definition throughput_doc (pg_now : datetime) (d : db) : Json :=
  let time b := opt_str (to_rfc3339 <$> timestamp_opt (b * 60) 0) in
  object [("series", JArr ((fun r => object [("time", time r.1); ("count", JInt r.2)]) <$> throughput_rows pg_now d))].

(** One round of [metrics_refresh_loop_worker]. *)
Definition metrics_refresh (pg_now : datetime) (d : db) (s : store) : store :=
  let docs := [("cache:metrics", json_to_string (metrics_doc s)); ("cache:lock_metrics", json_to_string (locks_doc s));
               ("cache:latency_metrics", json_to_string (latency_doc s));
               ("cache:throughput", json_to_string (throughput_doc pg_now d))] in
  set_and_publish_batch docs s.
End MetricsDocuments.

(** ** The seed *)

Section Seed.
Context `{C : Crates, X : !Sqlx C}.

(** [Decimal::from_str(text).unwrap()] panics on [None]. *)
Definition seed_pair (row : string * string * string * string * string * string * string * Z * Z)
    (pairs : list PairRow.t) : option (list PairRow.t) :=
  let '(id, base, quote, tick, lot, mn, mx, pp, qp) := row in
  tick ← dec_from_str tick;
  lot ← dec_from_str lot;
  mn ← dec_from_str mn;
  mx ← dec_from_str mx;
  if decide (id ∈ PairRow.id <$> pairs) then Some pairs
  else Some (pairs ++ [PairRow.mk id base quote tick lot mn mx pp qp (of_numeric (1 # 10)) true]).

Definition seed_pairs : list (string * string * string * string * string * string * string * Z * Z) :=
  [("BTC-USDT", "BTC", "USDT", "0.01", "0.00001", "0.00001", "100", 2, 5);
   ("ETH-USDT", "ETH", "USDT", "0.01", "0.0001", "0.0001", "1000", 2, 4);
   ("SOL-USDT", "SOL", "USDT", "0.001", "0.01", "0.01", "10000", 3, 2)].

Definition seed_assets : list (string * string) :=
  [("BTC", "10000"); ("ETH", "100000"); ("SOL", "1000000"); ("USDT", "1000000000")].

(** INSERT ... ON CONFLICT DO UPDATE SET available = GREATEST(balances.available, a) *)
Definition top_up (user asset : string) (a : Q) (d : db) : db :=
  set_balances (partial_alter (fun row => match row with
                                          | Some r => Some (greatest r.1 a, r.2)
                                          | None => Some (a, 0%Q)
                                          end) (user, asset) (balances d)) d.

Definition seed_balance (user : string) (row : string * string) (d : db) : option db :=
  a ← dec_from_str row.2; Some (top_up user row.1 (to_numeric a) d).

(** Every pair, then every asset of users 1 to 10. *)
Definition run_seed (w : list PairRow.t * db) : option (list PairRow.t * db) :=
  pairs ← foldl (fun acc row => acc ≫= seed_pair row) (Some w.1) seed_pairs;
  d ← foldl (fun acc i => foldl (fun acc row => acc ≫= seed_balance (user_name i) row) acc seed_assets)
        (Some w.2) (seq 1 10);
  Some (pairs, d).
End Seed.

(** ** The start of the process *)

Section Start.
Context `{C : Crates, X : !Sqlx C, V : Valkey, J : SerdeJson}.

(** What [main] does to Valkey up to the spawning of the tasks; [seed_rows] is the
    query of [seed_orderbook_from_pg]. *)
Definition before_tasks (pairs : list PairRow.t) (seed_rows : list seed_row) (pg_now : datetime) (d : db) (s : store)
    : store :=
  let ids := fst <$> map_to_list (load_pairs_cache pairs) in
  let s := initialize_cache_keys pairs ids s in
  let s := seed_orderbook_from_pg seed_rows s in
  seed_ticker_from_pg ids pg_now d s.

(** The balances come last, when the tasks already run: [tasks] is what they did. *)
Definition start (seed_rows : list seed_row) (pg_now : datetime) (tasks : store * db -> store * db)
    (w : list PairRow.t * db) (s : store) : option (list PairRow.t * (store * db)) :=
  '(pairs, d) ← run_seed w;
  let '(s, d) := tasks (before_tasks pairs seed_rows pg_now d s, d) in
  Some (pairs, (init_balances_from_pg (balance_rows d) s, d)).
End Start.
