(* ===== verification/BackgroundProps.v ===== *)
(** * Properties of the background tasks and of the start

    The debouncer loses no mark and rebuilds no more often than it is marked; the
    throughput document counts every trade of the last hour once; seeding tops
    balances up, keeps what exists and is idempotent. *)

From S2P Require Import Prelude Numbers Externals Fixed Types Codec Valkey Book Balance Json Db Persist.
From S2P Require Import Views Metrics Ws OrderFlow Gateway GatewayProps Background MatchLua MatchLuaExamples OrderFlowExamples PersistProps.

Open Scope Z_scope.

(** ** The debouncer *)

Section DebouncerProps.
Import Debouncer.
Context `{C : Crates, X : !Sqlx C, V : Valkey, J : SerdeJson}.

Definition marks_pair (i : nat) (ev : event) : bool :=
  match ev with
  | Mark p => (MetricsBatch.pair_index p =? i)%nat
  | _ => false
  end.

Definition rebuilds_pair (i : nat) (ev : event) : bool :=
  match ev with
  | Rebuild j => (j =? i)%nat
  | _ => false
  end.

Definition count (f : event -> bool) (evs : list event) : nat := length (filter (fun ev => f ev = true) evs).

(** The pair was marked after its last rebuild. *)
Fixpoint stale (i : nat) (b : bool) (evs : list event) : bool :=
  match evs with
  | [] => b
  | ev :: evs => stale i (marks_pair i ev || negb (rebuilds_pair i ev) && b) evs
  end.

(** The rebuilds task [i] still owes. *)
Definition owed (i : nat) (n : t) : nat :=
  match tasks n !! i with
  | Some Woken | Some Sleeping => 1
  | _ => 0
  end + match permit n !! i with
        | Some true => 1
        | _ => 0
        end.

(** A task waits only when no permit is stored. *)
Record sound (n : t) : Prop := {
  sd_tasks : length (tasks n) = 3%nat;
  sd_permits : length (permit n) = 3%nat;
  sd_parked i : tasks n !! i = Some Parked -> permit n !! i = Some false;
}.

Lemma pair_index_lt (p : string) : (MetricsBatch.pair_index p < 3)%nat.
Proof. unfold MetricsBatch.pair_index. repeat (destruct (decide _)); lia. Qed.

(** Looking up after an update, at its index and at others. *)
Ltac at_index i j :=
  destruct (decide (i = j)) as [<- | ?];
  [rewrite ?list_lookup_insert_eq in * by lia | rewrite ?list_lookup_insert_ne in * by done].

Lemma notify_sound (i : nat) (n : t) : (i < 3)%nat -> sound n -> sound (notify_one i n).
Proof.
  intros Hi [Ht Hp Hk]. unfold notify_one.
  destruct (lookup_lt_is_Some_2 (tasks n) i ltac:(lia)) as [k Ek]. rewrite Ek.
  destruct k; (split; cbn; rewrite ?length_insert; try done; intros j Hj; at_index i j; first [congruence | by apply Hk]).
Qed.

Lemma notify_owed (i j : nat) (n : t) :
  (i < 3)%nat -> sound n ->
  if decide (i = j) then (0 < owed j (notify_one i n) <= owed j n + 1)%nat
  else owed j (notify_one i n) = owed j n.
Proof.
  intros Hi [Ht Hp Hk]. unfold notify_one, owed.
  destruct (lookup_lt_is_Some_2 (tasks n) i ltac:(lia)) as [k Ek]. rewrite Ek.
  destruct (decide (i = j)) as [<- | Hne].
  - rewrite Ek. destruct k; cbn; rewrite ?Ek, ?list_lookup_insert_eq by lia; try lia.
  - by destruct k; cbn; rewrite ?list_lookup_insert_ne by done.
Qed.

Lemma poll_sound (i j : nat) (n n' : t) :
  poll i n = Some n' -> sound n -> sound n' /\ owed j n' = owed j n.
Proof.
  unfold poll. intros E [Ht Hp Hk].
  destruct (tasks n !! i) as [k |] eqn:Ek; [| done]. pose proof (lookup_lt_Some _ _ _ Ek) as Hi.
  destruct (lookup_lt_is_Some_2 (permit n) i ltac:(lia)) as [b Eb]. rewrite Eb in E.
  destruct k, b; try done; injection E as <-; (split;
    [split; cbn; rewrite ?length_insert; try done; intros l Hl; at_index i l; first [congruence | by apply Hk] |
     unfold owed; cbn; at_index i j; rewrite ?Ek, ?Eb; lia]).
Qed.

Lemma rebuild_sound (i j : nat) (n n' : t) (s s' : store) :
  rebuild i n s = Some (n', s') -> sound n ->
  sound n' /\ owed j n = (owed j n' + if decide (i = j) then 1 else 0)%nat.
Proof.
  unfold rebuild. intros E [Ht Hp Hk].
  destruct (tasks n !! i) as [[] |] eqn:Ek; try done. pose proof (lookup_lt_Some _ _ _ Ek) as Hi.
  destruct (PAIRS !! i); [| done]. injection E as <- <-. split.
  - split; cbn; rewrite ?length_insert; try done. intros l Hl. at_index i l; [done | by apply Hk].
  - unfold owed. cbn. destruct (decide (i = j)) as [<- | ?].
    + rewrite Ek, list_lookup_insert_eq by lia. lia.
    + rewrite list_lookup_insert_ne by done. lia.
Qed.

Definition b2n (b : bool) : nat := if b then 1 else 0.

Lemma step_owed (i : nat) (ev : event) (c c' : t * store) :
  step ev c = Some c' -> sound c.1 -> (i < 3)%nat ->
  sound c'.1 /\
  (b2n (rebuilds_pair i ev) + owed i c'.1 <= b2n (marks_pair i ev) + owed i c.1)%nat /\
  (marks_pair i ev = true -> (0 < owed i c'.1)%nat) /\
  (rebuilds_pair i ev = false -> marks_pair i ev = false -> owed i c'.1 = owed i c.1).
Proof.
  destruct c as [n s], c' as [n' s']. cbn [fst]. intros E Hs Hi. destruct ev as [p | j | j | s1]; cbn in *.
  - injection E as <- <-. pose proof (pair_index_lt p) as Hp. split; [by apply notify_sound |].
    pose proof (notify_owed _ i n Hp Hs) as Ho. fold (mark_dirty p n) in Ho.
    destruct (Nat.eqb_spec (MetricsBatch.pair_index p) i), (decide (MetricsBatch.pair_index p = i)); try done; cbn; lia.
  - destruct (poll j n) as [n1 |] eqn:Ep; [| done]. injection E as <- <-.
    destruct (poll_sound j i n n1 Ep Hs) as [H1 H2]. cbn. rewrite H2. by split_and!.
  - destruct (rebuild_sound j i _ _ _ _ E Hs) as [H1 H2]. split; [done |].
    destruct (Nat.eqb_spec j i), (decide (j = i)); try done; cbn; (split_and!; [lia | done | intros; lia]).
  - injection E as <- <-. by split_and!.
Qed.

#[local] Arguments count : simpl never.
#[local] Arguments owed : simpl never.

Lemma count_cons (f : event -> bool) (ev : event) (evs : list event) :
  count f (ev :: evs) = (b2n (f ev) + count f evs)%nat.
Proof. unfold count. rewrite filter_cons. by destruct (f ev). Qed.

Lemma run_owed (i : nat) (evs : list event) (c c' : t * store) (b : bool) :
  run evs c = Some c' -> sound c.1 -> (i < 3)%nat -> (b = true -> (0 < owed i c.1)%nat) ->
  sound c'.1 /\
  (count (rebuilds_pair i) evs + owed i c'.1 <= count (marks_pair i) evs + owed i c.1)%nat /\
  (stale i b evs = true -> (0 < owed i c'.1)%nat).
Proof.
  revert c b. induction evs as [| ev evs IH]; intros c b.
  - intros [= <-] Hs _ Hb. by split_and!.
  - cbn [run stale]. destruct (step ev c) as [c1 |] eqn:E; [| done]. cbn. intros Hr Hs Hi Hb.
    destruct (step_owed i ev c c1 E Hs Hi) as (Hs1 & Hle & Hm & Heq). rewrite !count_cons.
    destruct (IH c1 (marks_pair i ev || negb (rebuilds_pair i ev) && b) Hr Hs1 Hi) as (Hs' & Hle' & Hst).
    + destruct (marks_pair i ev); [intros _; by apply Hm |]. destruct (rebuilds_pair i ev); [done |]. cbn.
      by rewrite Heq.
    + split; [done |]. split; [lia | done].
Qed.

Lemma new_sound : sound new.
Proof. split; try done. intros [| [| [| i]]]; cbn; done. Qed.

(** C35: the debouncer loses no mark: when a pair was marked after its last rebuild,
    its task owes a rebuild and two steps of the task carry it out, on the book as
    it is then; and marks are coalesced, so the rebuilds of a pair never outnumber
    its marks. *)
Theorem debouncer_spec (i : nat) (evs : list event) (s s' : store) (n : t) (pair_id : string)
    (Hpair : PAIRS !! i = Some pair_id) (Hrun : run evs (new, s) = Some (n, s')) :
  (count (rebuilds_pair i) evs + owed i n <= count (marks_pair i) evs)%nat /\
  (stale i false evs = true ->
   exists own n', (own = [Rebuild i] \/ own = [Poll i; Rebuild i]) /\
     run own (n, s') = Some (n', rebuild_orderbook_cache pair_id s')).
Proof.
  pose proof (lookup_lt_Some _ _ _ Hpair) as Hi. cbn in Hi.
  destruct (run_owed i evs _ _ false Hrun new_sound Hi ltac:(done)) as ([Ht Hp Hk] & Hle & Hst).
  cbn [fst] in *. split.
  { replace (owed i new) with 0%nat in Hle by (by destruct i as [| [| [| i]]]). lia. }
  intros Hs. specialize (Hst Hs). clear Hle Hs.
  assert (forall n1 : t, tasks n1 !! i = Some Sleeping -> exists n', run [Rebuild i] (n1, s')
            = Some (n', rebuild_orderbook_cache pair_id s')) as Hreb.
  { intros n1 E1. eexists. cbn. unfold rebuild. rewrite E1, Hpair. reflexivity. }
  destruct (lookup_lt_is_Some_2 (tasks n) i ltac:(lia)) as [k Ek]. unfold owed in Hst. rewrite Ek in Hst.
  assert (forall n1 : t, poll i n = Some n1 -> tasks n1 !! i = Some Sleeping -> exists own n', 
            (own = [Rebuild i] \/ own = [Poll i; Rebuild i]) /\
            run own (n, s') = Some (n', rebuild_orderbook_cache pair_id s')) as Hpoll.
  { intros n1 Ep E1. destruct (Hreb n1 E1) as [n' Hn']. exists [Poll i; Rebuild i], n'. split; [by right |].
    cbn [run step fst snd]. rewrite Ep. exact Hn'. }
  destruct k.
  - destruct (permit n !! i) as [[] |] eqn:Eb; cbn in Hst; try lia.
    eapply Hpoll; [unfold poll; by rewrite Ek, Eb | cbn; by rewrite list_lookup_insert_eq by lia].
  - rewrite (Hk i Ek) in Hst. cbn in Hst. lia.
  - eapply Hpoll; [unfold poll; by rewrite Ek | cbn; by rewrite list_lookup_insert_eq by lia].
  - destruct (Hreb n Ek) as [n' Hn']. exists [Rebuild i], n'. split; [by left | done].
Qed.
End DebouncerProps.

(** ** The throughput document *)

Lemma count_buckets (bs l : list Z) :
  NoDup bs -> (forall x, x ∈ l -> x ∈ bs) ->
  sumZ ((fun b => Z.of_nat (length (filter (eq b) l))) <$> bs) = Z.of_nat (length l).
Proof.
  intros Hnd. induction l as [| x l IH]; intros Hin.
  { clear. induction bs as [| b bs IH]; [done |]. unfold sumZ in *. cbn in *. lia. }
  rewrite length_cons, Nat2Z.inj_succ, <- IH by (intros y Hy; apply Hin; by right). clear IH.
  assert (x ∈ bs) as Hx by (apply Hin; left). clear Hin.
  induction bs as [| b bs IH]; [by apply not_elem_of_nil in Hx |].
  apply NoDup_cons in Hnd as [Hb Hnd]. rewrite !fmap_cons. cbn [sumZ foldr]. rewrite filter_cons.
  destruct (decide (b = x)) as [-> | Hne].
  - cbn [length]. erewrite (list_fmap_ext _ (fun b => Z.of_nat (length (filter (eq b) l))) bs); [unfold sumZ; lia |].
    intros i b Eb. rewrite filter_cons, decide_False; [done |].
    intros ->. apply Hb. by eapply list_elem_of_lookup_2.
  - apply elem_of_cons in Hx as [-> | Hx]; [done |]. specialize (IH Hnd Hx). unfold sumZ in IH. lia.
Qed.

Section Throughput.
Context `{C : Crates, X : !Sqlx C}.

(** The throughput series counts every trade of the last hour in exactly one
    bucket, the buckets are distinct minutes in increasing order, and no bucket is
    empty. *)
Theorem throughput_rows_spec (pg_now : datetime) (d : db) :
  sumZ (snd <$> throughput_rows pg_now d) = Z.of_nat (length (last_hour pg_now d)) /\
  StronglySorted Z.lt (fst <$> throughput_rows pg_now d) /\
  (forall b n, (b, n) ∈ throughput_rows pg_now d ->
     0 < n /\ n = Z.of_nat (length (filter (fun r => minute r = b) (last_hour pg_now d)))).
Proof.
  unfold throughput_rows. cbn zeta. set (ms := minute <$> last_hour pg_now d). set (bs := merge_sort Z.le (remove_dups ms)).
  assert (bs ≡ₚ remove_dups ms) as Hp by apply merge_sort_Permutation.
  assert (NoDup bs) as Hnd by (rewrite Hp; apply NoDup_remove_dups).
  assert (forall x, x ∈ bs <-> x ∈ ms) as Hin by (intros x; by rewrite Hp, elem_of_remove_dups).
  rewrite <- !list_fmap_compose. split_and!.
  - rewrite <- (length_fmap minute (last_hour pg_now d)). apply (count_buckets bs ms Hnd). intros x. apply Hin.
  - assert (StronglySorted Z.le bs) as Hs by (apply (StronglySorted_merge_sort Z.le)).
    replace (fst ∘ (fun b => (b, Z.of_nat (length (filter (eq b) ms)))) <$> bs) with bs
      by (symmetry; apply list_fmap_id).
    clear Hp Hin. induction Hs as [| b bs' Hs IH Hb]; [constructor |]. apply NoDup_cons in Hnd as [Hn Hnd].
    constructor; [by apply IH |]. rewrite Forall_forall in Hb |- *. intros x Hx. specialize (Hb x Hx).
    assert (b <> x) by (intros ->; done). lia.
  - intros b n (b' & [= -> ->] & Hb)%list_elem_of_fmap. split.
    + apply Hin in Hb. assert (b' ∈ filter (eq b') ms) as Hf by (by apply list_elem_of_filter).
      destruct (filter (eq b') ms); [by apply not_elem_of_nil in Hf | cbn; lia].
    + f_equal. unfold ms. generalize (last_hour pg_now d) as l. clear. induction l as [| r l IH]; [done |].
      rewrite fmap_cons, !filter_cons. destruct (decide (b' = minute r)), (decide (minute r = b')); try congruence.
      cbn. by rewrite IH.
Qed.
End Throughput.

(** ** The seed *)

(** The decimal literals the seed parses. *)
Definition seed_literals : list string :=
  mbind (fun row : string * string * string * string * string * string * string * Z * Z =>
           let '(_, _, _, tick, lot, mn, mx, _, _) := row in [tick; lot; mn; mx]) seed_pairs
  ++ (snd <$> seed_assets).

(** The balances of the seed: user, asset and amount. *)
Definition seed_keys : list ((string * string) * string) :=
  mbind (fun i => (fun row => ((user_name i, row.1), row.2)) <$> seed_assets) (seq 1 10).

Section SeedProps.
Context `{C : Crates, X : !Sqlx C}.
Context (amount : string -> decimal) (Hlit : forall t, t ∈ seed_literals -> dec_from_str t = Some (amount t)).

Definition raised (a : Q) (row : option BalanceRow) : option BalanceRow :=
  match row with
  | Some r => Some (greatest r.1 a, r.2)
  | None => Some (a, 0%Q)
  end.

Definition top_ups (ks : list ((string * string) * string)) (d : db) : db :=
  fold_left (fun d k => top_up k.1.1 k.1.2 (to_numeric (amount k.2)) d) ks d.

Lemma top_up_lookup (user asset : string) (a : Q) (d : db) (k : string * string) :
  balances (top_up user asset a d) !! k
  = if decide ((user, asset) = k) then raised a (balances d !! k) else balances d !! k.
Proof.
  unfold top_up. cbn [balances set_balances]. destruct (decide _) as [<- | Hne].
  - rewrite lookup_partial_alter_eq. by destruct (balances d !! (user, asset)).
  - by rewrite lookup_partial_alter_ne.
Qed.

Lemma top_ups_out (ks : list ((string * string) * string)) (d : db) (k : string * string) :
  k ∉ ks.*1 -> balances (top_ups ks d) !! k = balances d !! k.
Proof.
  revert d. induction ks as [| [[u a] t] ks IH]; intros d; cbn; [done |]. intros [Hne Hk]%not_elem_of_cons.
  rewrite IH by done. rewrite top_up_lookup. by destruct (decide _).
Qed.

Lemma top_ups_in (ks : list ((string * string) * string)) (d : db) (k : string * string) (t : string) :
  NoDup ks.*1 -> (k, t) ∈ ks ->
  balances (top_ups ks d) !! k = raised (to_numeric (amount t)) (balances d !! k).
Proof.
  revert d. induction ks as [| [[u a] t'] ks IH]; intros d; cbn; [by intros _ ?%not_elem_of_nil |].
  intros [Hn Hnd]%NoDup_cons [[= -> ->] | Hk]%elem_of_cons.
  - rewrite top_ups_out by done. rewrite top_up_lookup. by rewrite decide_True.
  - rewrite IH by done. rewrite top_up_lookup, decide_False; [done |]. intros <-. apply Hn.
    by eapply (list_elem_of_fmap_2 fst) in Hk.
Qed.

Lemma top_ups_frame (ks : list ((string * string) * string)) (d : db) :
  top_ups ks d = set_balances (balances (top_ups ks d)) d.
Proof.
  revert d. induction ks as [| k ks IH]; intros d; cbn; [by destruct d |]. rewrite IH. by destruct d.
Qed.

Lemma greatest_twice (x a : Q) : greatest (greatest x a) a = greatest x a.
Proof.
  unfold greatest. destruct (Qle_bool a x) eqn:E; [by rewrite E |]. by destruct (Qle_bool a a).
Qed.

Lemma top_ups_twice (ks : list ((string * string) * string)) (d : db) :
  NoDup ks.*1 -> top_ups ks (top_ups ks d) = top_ups ks d.
Proof.
  intros Hnd. rewrite (top_ups_frame ks (top_ups ks d)), (top_ups_frame ks d).
  set (d1 := set_balances _ d). unfold set_balances at 1. cbn.
  assert (balances (top_ups ks d1) = balances d1) as ->; [| done].
  apply map_eq. intros k. destruct (decide (k ∈ ks.*1)) as [Hin | Hout]; [| by apply top_ups_out].
  apply list_elem_of_fmap in Hin as ([k' t] & -> & Hk). rewrite (top_ups_in _ _ _ t) by done.
  subst d1. cbn [balances set_balances]. rewrite (top_ups_in _ _ _ t) by done.
  cbn [fst]. destruct (balances d !! k') as [r |]; cbn [raised fst snd]; [by rewrite greatest_twice |].
  unfold greatest. by destruct (Qle_bool _ _).
Qed.

Lemma seed_user (u : string) (rows : list (string * string)) (d : db) :
  (forall row, row ∈ rows -> row ∈ seed_assets) ->
  foldl (fun acc row => acc ≫= seed_balance u row) (Some d) rows
  = Some (top_ups ((fun row => ((u, row.1), row.2)) <$> rows) d).
Proof.
  revert d. induction rows as [| [a t] rows IH]; intros d Hin; [done |]. cbn [foldl mbind option_bind].
  unfold seed_balance at 2. cbn [fst snd]. rewrite Hlit.
  - cbn [mbind option_bind]. apply IH. intros row Hr. apply Hin. by right.
  - unfold seed_literals. apply elem_of_app. right. apply (list_elem_of_fmap_2 snd _ (a, t)). apply Hin. left.
Qed.

Lemma seed_users (us : list nat) (d : db) :
  foldl (fun acc i => foldl (fun acc row => acc ≫= seed_balance (user_name i) row) acc seed_assets) (Some d) us
  = Some (top_ups (mbind (fun i => (fun row => ((user_name i, row.1), row.2)) <$> seed_assets) us) d).
Proof.
  revert d. induction us as [| i us IH]; intros d; [done |]. cbn [foldl]. rewrite seed_user by done. by rewrite IH.
Qed.

Lemma seed_keys_nodup : NoDup seed_keys.*1.
Proof. apply (bool_decide_unpack _). vm_compute. exact I. Qed.

(** The row a pair literal of the seed stands for. *)
Definition seed_row_of (row : string * string * string * string * string * string * string * Z * Z) : PairRow.t :=
  let '(id, base, quote, tick, lot, mn, mx, pp, qp) := row in
  PairRow.mk id base quote (amount tick) (amount lot) (amount mn) (amount mx) pp qp (of_numeric (1 # 10)) true.

Definition with_pair (r : PairRow.t) (pairs : list PairRow.t) : list PairRow.t :=
  if decide (PairRow.id r ∈ PairRow.id <$> pairs) then pairs else pairs ++ [r].

Lemma seed_pair_rows (pairs : list PairRow.t) :
  foldl (fun acc row => acc ≫= seed_pair row) (Some pairs) seed_pairs
  = Some (fold_left (fun ps r => with_pair r ps) (seed_row_of <$> seed_pairs) pairs).
Proof.
  assert (forall row ps, row ∈ seed_pairs -> seed_pair row ps = Some (with_pair (seed_row_of row) ps)) as Hrow.
  { intros [[[[[[[[id b] q] tick] lot] mn] mx] pp] qp] ps Hr. unfold seed_pair.
    assert (forall t, t ∈ [tick; lot; mn; mx] -> dec_from_str t = Some (amount t)) as Ht.
    { intros t Ht. apply Hlit. unfold seed_literals. apply elem_of_app. left. apply list_elem_of_bind. eexists. by split; [| exact Hr]. }
    rewrite !Ht by (rewrite !elem_of_cons; tauto). cbn. unfold with_pair. cbn. by destruct (decide _). }
  revert Hrow. generalize seed_pairs as rows. intros rows. revert pairs. induction rows as [| row rows IH]; intros pairs Hrow; [done |].
  cbn [foldl fold_left mbind option_bind]. rewrite Hrow by left. apply IH. intros r ps Hr. apply Hrow. by right.
Qed.

Lemma with_pair_app (r : PairRow.t) (pairs : list PairRow.t) :
  exists new, with_pair r pairs = pairs ++ new /\ PairRow.id r ∈ PairRow.id <$> pairs ++ new /\
              (forall r', r' ∈ new -> r' = r /\ PairRow.id r ∉ PairRow.id <$> pairs).
Proof.
  unfold with_pair. destruct (decide _) as [Hin | Hout].
  - exists []. rewrite app_nil_r. split_and!; [done | done |]. intros r' H. by apply not_elem_of_nil in H.
  - exists [r]. split_and!; [done | rewrite fmap_app, elem_of_app; right; by left |]. by intros r' ->%list_elem_of_singleton.
Qed.

Lemma with_pairs_app (rows : list PairRow.t) (pairs : list PairRow.t) :
  exists new, fold_left (fun ps r => with_pair r ps) rows pairs = pairs ++ new /\
    (forall r, r ∈ rows -> PairRow.id r ∈ PairRow.id <$> pairs ++ new) /\
    (forall r, r ∈ new -> r ∈ rows /\ PairRow.id r ∉ PairRow.id <$> pairs).
Proof.
  revert pairs. induction rows as [| r rows IH]; intros pairs; cbn.
  - exists []. rewrite app_nil_r. split_and!; [done | |]; intros r H; by apply not_elem_of_nil in H.
  - destruct (with_pair_app r pairs) as (n1 & -> & Hin & Hn1). destruct (IH (pairs ++ n1)) as (n2 & -> & Hall & Hn2).
    exists (n1 ++ n2). rewrite (assoc_L app). split_and!; [done | |].
    + intros r' [-> | Hr]%elem_of_cons; [| by apply Hall]. rewrite fmap_app. apply elem_of_app. by left.
    + intros r' [Hr | Hr]%elem_of_app; [destruct (Hn1 _ Hr) as [-> ?]; split; [left | done] |].
      destruct (Hn2 _ Hr) as [? Hnot]. split; [by right |]. rewrite fmap_app, elem_of_app in Hnot. tauto.
Qed.

Lemma with_pairs_present (rows : list PairRow.t) (pairs : list PairRow.t) :
  (forall r, r ∈ rows -> PairRow.id r ∈ PairRow.id <$> pairs) ->
  fold_left (fun ps r => with_pair r ps) rows pairs = pairs.
Proof.
  induction rows as [| r rows IH]; intros Hin; cbn; [done |]. unfold with_pair at 2.
  rewrite decide_True by (apply Hin; left). apply IH. intros r' Hr. apply Hin. by right.
Qed.

Lemma run_seed_eq (pairs : list PairRow.t) (d : db) :
  run_seed (pairs, d) = Some (fold_left (fun ps r => with_pair r ps) (seed_row_of <$> seed_pairs) pairs,
                              top_ups seed_keys d).
Proof. unfold run_seed. cbn [fst snd]. rewrite seed_pair_rows. cbn [mbind option_bind]. by rewrite seed_users. Qed.

(** Seeding adds the three pairs that are missing and keeps every existing pair
    as it is, raises the available balance of users 1 to 10 to at least the seed
    amounts without touching what is locked, changes no other balance, no order and
    no trade, and running it again changes nothing. *)
Theorem run_seed_spec (pairs : list PairRow.t) (d : db) :
  exists new d', run_seed (pairs, d) = Some (pairs ++ new, d') /\
    (forall id, id ∈ PAIRS -> id ∈ PairRow.id <$> pairs ++ new) /\
    (forall r, r ∈ new -> PairRow.id r ∈ PAIRS /\ PairRow.id r ∉ PairRow.id <$> pairs) /\
    orders d' = orders d /\ trades d' = trades d /\
    (forall i asset t, (1 <= i <= 10)%nat -> (asset, t) ∈ seed_assets ->
       balances d' !! (user_name i, asset) = match balances d !! (user_name i, asset) with
                                             | Some (available, locked) => Some (greatest available (to_numeric (amount t)), locked)
                                             | None => Some (to_numeric (amount t), 0%Q)
                                             end) /\
    (forall k, k ∉ seed_keys.*1 -> balances d' !! k = balances d !! k) /\
    run_seed (pairs ++ new, d') = Some (pairs ++ new, d').
Proof.
  rewrite run_seed_eq. destruct (with_pairs_app (seed_row_of <$> seed_pairs) pairs) as (new & -> & Hall & Hnew).
  exists new, (top_ups seed_keys d).
  assert (PairRow.id <$> (seed_row_of <$> seed_pairs) = PAIRS) as Hids by done.
  split_and!; try done.
  - intros id Hid. rewrite <- Hids in Hid. apply list_elem_of_fmap in Hid as (r & -> & Hr). by apply Hall.
  - intros r Hr. destruct (Hnew r Hr) as [Hin Hout]. split; [| done]. rewrite <- Hids. by apply list_elem_of_fmap_2.
  - intros i asset t Hi Ha. rewrite (top_ups_in _ _ _ t); [| apply seed_keys_nodup |].
    + by destruct (balances d !! (user_name i, asset)) as [[available locked] |].
    + unfold seed_keys. apply list_elem_of_bind. exists i. split; [| apply elem_of_seq; lia].
      apply list_elem_of_fmap. by exists (asset, t).
  - intros k. apply top_ups_out.
  - rewrite run_seed_eq, with_pairs_present by done. by rewrite top_ups_twice by apply seed_keys_nodup.
Qed.
End SeedProps.

Module BackgroundExamples.
Import RefCrates RefValkey RefJson RefDb MatchLuaExamples OrderFlowExamples.

Lemma debouncer_spec_witness :
  exists n s, Debouncer.run [Debouncer.Poll 1; Debouncer.Mark "ETH-USDT"; Debouncer.Mark "ETH-USDT"] (Debouncer.new, market)
                = Some (n, s) /\
    exists own n', (own = [Debouncer.Rebuild 1] \/ own = [Debouncer.Poll 1; Debouncer.Rebuild 1]) /\
      Debouncer.run own (n, s) = Some (n', rebuild_orderbook_cache "ETH-USDT" s).
Proof.
  eexists _, market. split; [reflexivity |].
  exact (proj2 (debouncer_spec 1 [Debouncer.Poll 1; Debouncer.Mark "ETH-USDT"; Debouncer.Mark "ETH-USDT"] market market _
                  "ETH-USDT" eq_refl eq_refl) eq_refl).
Defined.

(** A pair beyond the three is taken for the first one: its own view is never
    rebuilt. *)
Example other_pair_marks_btc :
  Debouncer.mark_dirty "DOGE-USDT" Debouncer.new = Debouncer.mark_dirty "BTC-USDT" Debouncer.new.
Proof. reflexivity. Qed.

Definition literal (t : string) : @decimal ref_crates := default (0 : @decimal ref_crates)%Q (dec_from_str t).

Lemma literals_parse (t : string) : t ∈ seed_literals -> dec_from_str t = Some (literal t).
Proof.
  assert (forallb (fun t => match q_from_str t with Some _ => true | None => false end) seed_literals = true) as H
    by (vm_compute; reflexivity).
  intros Ht. rewrite forallb_forall in H. specialize (H t (proj1 (list_elem_of_In _ _) Ht)).
  unfold literal. change (@dec_from_str ref_crates t) with (q_from_str t). by destruct (q_from_str t).
Qed.

Lemma run_seed_spec_witness :
  exists pairs d, run_seed (([] : list (@PairRow.t ref_crates)), empty_db) = Some (pairs, d) /\
    balances d !! ("user-3", "ETH") = Some (100000%Q, 0%Q).
Proof.
  destruct (run_seed_spec literal literals_parse [] empty_db) as (new & d & E & _ & _ & _ & _ & H & _).
  exists new, d. split; [exact E |].
  refine (eq_trans (H 3%nat "ETH" "100000" ltac:(lia) _) _); [right; left | reflexivity].
Defined.

(** The start seeds the book and leaves its view empty, until the pair is marked. *)
Definition resting_bid : @seed_row ref_crates :=
  mk_seed_row (7%positive : @uuid ref_crates) "alice" "BTC-USDT" "Buy" "Limit" "GTC" (Some (100 : @decimal ref_crates)%Q)
    (1 : @decimal ref_crates)%Q (1 : @decimal ref_crates)%Q "New" "None" 1 (0 : @datetime ref_crates).

Definition started : option (@store ref_valkey * @db ref_crates) :=
  snd <$> start [resting_bid] (0 : @datetime ref_crates) id ([], empty_db) empty_store.

Example start_leaves_view_empty :
  (fun w => (bool_decide (v_get (orderbook_key "BTC-USDT") w.1 = Some (json_to_string (orderbook_json "BTC-USDT" [] []))),
             v_zrangebyscore (book_key "BTC-USDT" Buy) None w.1)) <$> started
  = Some (true, ["7"]).
Proof. vm_compute. reflexivity. Qed.

(** Orders are processed before the balances are copied to Valkey: what an order
    locked in between is available again. *)
Definition between (w : @store ref_valkey * @db ref_crates) : @store ref_valkey * @db ref_crates :=
  ((match_order_lua (the_order GTC) keys "USDT" 20200000000 w.1).1, w.2).

Definition funded : @db ref_crates := set_balances {[ ("taker", "USDT") := (202%Q, 0%Q) ]} empty_db.

Definition lock_of (s : @store ref_valkey) : option string * option string :=
  (v_hget (balance_key "taker" "USDT") "available" s, v_hget (balance_key "taker" "USDT") "locked" s).

Example start_undoes_locks :
  let before := with_balance "taker" "USDT" 20200000000 empty_store in
  lock_of (between (before, funded)).1 = (Some "0", Some "20200000000") /\
  (fun w => (lock_of w.2.1, v_zrangebyscore (book_key "BTC-USDT" Buy) None w.2.1))
    <$> start [] (0 : @datetime ref_crates) between ([], funded) before
  = Some (Some "20200000000", Some "0", ["1"]).
Proof. vm_compute. by split. Qed.
End BackgroundExamples.
