(* ===== verification/Rows.v ===== *)
(** * The rows of the orders table

    What a batch of the persistence worker does to each row, a batch of one job
    against the job persisted on its own, and the type of the
    rows: every step of the system keeps them spelled as the code's enums spell
    them, so that they read back. *)

From S2P Require Import Prelude Numbers Externals Fixed Types Codec Valkey Book MatchLua MatchLuaExamples Json Db.
From S2P Require Import Persist PersistProps Views Metrics Ws OrderFlow OrderFlowExamples Cancel Consumers Gateway Background.

Open Scope Z_scope.

(** ** A batch *)

Section Batch.
Context `{C : Crates, X : !Sqlx C}.

Definition job_ids (batch : list PersistJob.t) : list uuid := (fun job => Order.id (PersistJob.order job)) <$> batch.

(** The fills of an order, one UPDATE after the other. *)
Definition filled_by (id : uuid) (now : datetime) (fills : list LuaTrade.t) (r : OrderRow.t) : OrderRow.t :=
  fold_left (fun r f => if decide (LuaTrade.resting_order_id f = id) then fill_row (LuaTrade.quantity f) now r else r)
    fills r.

(** The remaining quantity and the status of a row are those of the order. *)
Definition row_shows (o : Order.t) (r : OrderRow.t) : Prop :=
  OrderRow.remaining r = to_numeric (Order.remaining o) /\ OrderRow.status r = status_str (Order.status o).

Lemma inserted_rows (pg_now : datetime) (batch : list PersistJob.t) (d : db) (id : uuid) :
  let d' := fold_left (fun d job => insert_order_db (PersistJob.order job) pg_now d) batch d in
  (id ∉ job_ids batch -> orders d' !! id = orders d !! id) /\
  (is_Some (orders d !! id) -> is_Some (orders d' !! id)).
Proof.
  cbn zeta. revert d. induction batch as [| job batch IH]; intros d; [done |]. cbn [fold_left].
  destruct (IH (insert_order_db (PersistJob.order job) pg_now d)) as [H1 H2]. unfold insert_order_db, insert_order in *.
  cbn [orders] in *. split.
  - intros [Hne Hn]%not_elem_of_cons. rewrite H1 by done. destruct (decide _); [done |]. by rewrite lookup_insert_ne.
  - intros Hs. apply H2. destruct (decide _); [done |].
    destruct (decide (Order.id (PersistJob.order job) = id)) as [<- |]; [by rewrite lookup_insert_eq | by rewrite lookup_insert_ne].
Qed.

Lemma inserted_present (pg_now : datetime) (batch : list PersistJob.t) (d : db) (job : PersistJob.t) :
  job ∈ batch -> Order.client_order_id (PersistJob.order job) = None ->
  is_Some (orders (fold_left (fun d job => insert_order_db (PersistJob.order job) pg_now d) batch d)
             !! Order.id (PersistJob.order job)).
Proof.
  revert d. induction batch as [| j batch IH]; intros d; [by intros ?%not_elem_of_nil |].
  cbn [fold_left]. intros [-> | Hin]%elem_of_cons Hc; [| by apply IH].
  apply inserted_rows. unfold insert_order_db, insert_order. cbn [orders]. destruct (decide _) as [[H | Hex] |].
  - done.
  - apply map_Exists_lookup in Hex as (id & r & Hr & _ & [x Hx] & Heq). congruence.
  - by rewrite lookup_insert_eq.
Qed.

Lemma fills_rows (now : datetime) (fills : list LuaTrade.t) (d : db) (id : uuid) :
  orders (update_resting_orders_after_lua now fills d) !! id = filled_by id now fills <$> orders d !! id.
Proof.
  unfold update_resting_orders_after_lua, filled_by. revert d.
  induction fills as [| f fills IH]; intros d; cbn [fold_left]; [by destruct (orders d !! id) |].
  rewrite IH. unfold fill_resting. cbn [orders set_orders].
  destruct (decide (LuaTrade.resting_order_id f = id)) as [-> | Hne]; [| by rewrite lookup_alter_ne].
  rewrite lookup_alter_eq. by destruct (orders d !! id).
Qed.

Lemma filled_rows (now : datetime) (batch : list PersistJob.t) (d : db) (id : uuid) :
  orders (fold_left (fun d job => update_resting_orders_after_lua now (PersistJob.lua_trades job) d) batch d) !! id
  = filled_by id now (mbind PersistJob.lua_trades batch) <$> orders d !! id.
Proof.
  revert d. induction batch as [| job batch IH]; intros d; [cbn; by destruct (orders d !! id) |].
  cbn [fold_left]. rewrite IH, fills_rows. rewrite <- option_fmap_compose. destruct (orders d !! id) as [r |]; [| done]. cbn.
  f_equal. unfold filled_by. symmetry. apply fold_left_app.
Qed.

Lemma updated_rows (now : datetime) (batch : list PersistJob.t) (d : db) (id : uuid) :
  let d' := fold_left (fun d job => update_order_db now (PersistJob.order job) d) batch d in
  (id ∉ job_ids batch -> orders d' !! id = orders d !! id) /\
  (is_Some (orders d !! id) -> is_Some (orders d' !! id)) /\
  (forall r', id ∈ job_ids batch -> orders d' !! id = Some r' ->
     exists job, job ∈ batch /\ Order.id (PersistJob.order job) = id /\ row_shows (PersistJob.order job) r').
Proof.
  cbn zeta. induction batch as [| job batch IH] using rev_ind; [split_and!; try done; by intros ? ?%not_elem_of_nil |].
  rewrite fold_left_app. cbn [fold_left]. set (d1 := fold_left _ batch d) in *. destruct IH as (H1 & H2 & H3).
  assert (job_ids (batch ++ [job]) = job_ids batch ++ [Order.id (PersistJob.order job)]) as ->
    by (unfold job_ids; by rewrite fmap_app).
  rewrite elem_of_app, list_elem_of_singleton.
  unfold update_order_db, update_order. cbn [orders set_orders].
  destruct (decide (Order.id (PersistJob.order job) = id)) as [<- | Hne].
  - rewrite lookup_alter_eq. split_and!.
    + tauto.
    + intros Hs. destruct (H2 Hs) as [r ->]. by eexists.
    + intros r' _ Hr. destruct (orders d1 !! _); [| done]. injection Hr as <-. exists job.
      split_and!; [apply elem_of_app; right; by left | done | by split].
  - rewrite lookup_alter_ne by done. split_and!; [tauto | done |].
    intros r' [Hin | He%list_elem_of_singleton]%elem_of_app Hr; [| by subst]. destruct (H3 r' Hin Hr) as (j & Hj & Hid & Hs). exists j.
    split_and!; [apply elem_of_app; by left | done | done].
Qed.

Lemma batch_trades_orders (ts : list Trade.t) (m m' : deltas) (d d' : db) :
  batch_trades ts m d = Ok (m', d') -> orders d' = orders d.
Proof.
  revert m d. induction ts as [| t ts IH]; intros m d; cbn; [by intros [= _ <-] |].
  destruct (trade_deltas t m) as [m1 |]; [| done]. cbn. intros H. by rewrite (IH _ _ H).
Qed.

Lemma settle_upserts_orders (ds : list ((string * string) * (decimal * decimal))) (d : db) :
  orders (settle_upserts ds d) = orders d.
Proof. unfold settle_upserts. revert d. induction ds as [| e ds IH]; intros d; [done |]. cbn [fold_left]. by rewrite IH. Qed.

Lemma release_batch_orders (batch : list PersistJob.t) (d d' : db) : release_batch batch d = Ok d' -> orders d' = orders d.
Proof.
  revert d. induction batch as [| job batch IH]; intros d; cbn; [by intros [= <-] |].
  destruct (release_leftover (PersistJob.order job) d) as [d1 |] eqn:E; [| done]. cbn. intros H.
  rewrite (IH _ H). by eapply release_leftover_orders.
Qed.

(** The audit inserts are refused and change nothing. *)
Lemma audit_trades_id (ts : list Trade.t) (d : db) : audit_trades ts d = d.
Proof. unfold audit_trades. induction ts as [| t ts IH]; [done |]. exact IH. Qed.

Lemma audit_jobs_id (batch : list PersistJob.t) (d : db) :
  fold_left (fun d job =>
    let o := PersistJob.order job in
    let d := (insert_audit_event (Some (Order.pair_id o)) "ORDER_CREATED" (order_created o) d).1 in
    audit_trades (PersistJob.trades job) d) batch d = d.
Proof.
  induction batch as [| job batch IH]; [done |]. cbn [fold_left]. cbn zeta in *. cbn [insert_audit_event fst] in *.
  by rewrite audit_trades_id.
Qed.

(** The quantities the fills take of an order, as the database reads them. *)
Definition fills_on (id : uuid) (fills : list LuaTrade.t) : list Q :=
  (fun f => to_numeric (LuaTrade.quantity f)) <$> filter (fun f => LuaTrade.resting_order_id f = id) fills.

Lemma filled_by_rows (id : uuid) (now : datetime) (fills : list LuaTrade.t) (r : OrderRow.t) :
  Forall (fun f => 0 <= to_numeric (LuaTrade.quantity f))%Q fills ->
  row_filled (fills_on id fills) r (filled_by id now fills r).
Proof.
  induction fills as [| f fills IH] using rev_ind; intros Hq; [apply row_filled_nil |].
  rewrite Forall_app, Forall_singleton in Hq. destruct Hq as [Hq Hf]. specialize (IH Hq).
  unfold fills_on, filled_by in *. rewrite filter_app, fmap_app, fold_left_app. cbn [fold_left].
  rewrite filter_cons, filter_nil. case_decide; [| by rewrite app_nil_r].
  eapply row_filled_snoc; [exact Hf | exact IH | apply fill_row_filled].
Qed.

Lemma batch_rows (now pg_now : datetime) (batch : list PersistJob.t) (d d' : db)
    (Hok : process_persist_batch now pg_now batch d = (d', Ok tt)) :
  (forall id, id ∉ job_ids batch ->
     orders d' !! id = filled_by id now (mbind PersistJob.lua_trades batch) <$> orders d !! id) /\
  (forall id r', id ∈ job_ids batch -> orders d' !! id = Some r' ->
     exists job, job ∈ batch /\ Order.id (PersistJob.order job) = id /\ row_shows (PersistJob.order job) r') /\
  (forall job, job ∈ batch -> Order.client_order_id (PersistJob.order job) = None ->
     is_Some (orders d' !! Order.id (PersistJob.order job))).
Proof.
  unfold process_persist_batch, transaction in Hok.
  destruct (persist_batch_tx now pg_now batch d) as [d1 |] eqn:E; [| done].
  assert (d' = d1) as ->.
  { injection Hok as <-. apply audit_jobs_id. }
  unfold persist_batch_tx in E. destruct (batch_trades _ _ _) as [[m d2] |] eqn:Et; [| done]. cbn in E.
  apply release_batch_orders in E. apply batch_trades_orders in Et. rewrite E. clear E Hok.
  set (d3 := fold_left _ batch (settle_upserts _ d2)).
  assert (forall id, orders d3 !! id = filled_by id now (mbind PersistJob.lua_trades batch) <$>
            orders (fold_left (fun d job => insert_order_db (PersistJob.order job) pg_now d) batch d) !! id) as H3.
  { intros id. unfold d3. by rewrite filled_rows, settle_upserts_orders, Et. }
  split_and!.
  - intros id Hid. rewrite (proj1 (updated_rows now batch d3 id) Hid), H3. by rewrite (proj1 (inserted_rows pg_now batch d id) Hid).
  - intros id r' Hid. by apply (updated_rows now batch d3 id).
  - intros job Hj Hc. apply updated_rows. rewrite H3. by apply fmap_is_Some, inserted_present.
Qed.

(** C23: what a committed batch, whose fills are of quantities that are not
    negative, does to the orders table.  An order of another batch that is open
    and that fills of this one name loses the sum of their quantities, and is
    "Filled" with nothing remaining when they reach what remained and
    "PartiallyFilled" otherwise; the columns of its terms stay, and so does the
    whole row when it is closed or no fill names it.  An order of this batch ends with
    the remaining quantity and the status its own job gives it, whatever the other
    jobs of the batch filled of it. *)
Theorem persist_batch_rows (now pg_now : datetime) (batch : list PersistJob.t) (d d' : db)
    (Hok : process_persist_batch now pg_now batch d = (d', Ok tt))
    (Hq : Forall (fun f => 0 <= to_numeric (LuaTrade.quantity f))%Q (mbind PersistJob.lua_trades batch)) :
  (forall id, id ∉ job_ids batch ->
     match orders d !! id, orders d' !! id with
     | Some r, Some r' => row_filled (fills_on id (mbind PersistJob.lua_trades batch)) r r'
     | None, None => True
     | _, _ => False
     end) /\
  (forall id r', id ∈ job_ids batch -> orders d' !! id = Some r' ->
     exists job, job ∈ batch /\ Order.id (PersistJob.order job) = id /\
       OrderRow.remaining r' = to_numeric (Order.remaining (PersistJob.order job)) /\
       OrderRow.status r' = status_str (Order.status (PersistJob.order job))) /\
  (forall job, job ∈ batch -> Order.client_order_id (PersistJob.order job) = None ->
     is_Some (orders d' !! Order.id (PersistJob.order job))).
Proof.
  destruct (batch_rows now pg_now batch d d' Hok) as (H1 & H2 & H3). split_and!; [| exact H2 | exact H3].
  intros id Hid. rewrite (H1 id Hid). destruct (orders d !! id); [| done]. by apply filled_by_rows.
Qed.

(** The loop over the trades of a batch adds the deltas and inserts the trades. *)
Lemma batch_trades_split (ts : list Trade.t) (m : deltas) (d : db) :
  batch_trades ts m d =
    m' ← balance_deltas ts m; mret (m', fold_left (fun d t => insert_trade t d) ts d).
Proof.
  revert m d. induction ts as [| t ts IH]; intros m d; [done |]. cbn.
  destruct (trade_deltas t m) as [m1 | e]; [cbn; apply IH | done].
Qed.

(** Trades persisted on their own, or as the trades of a batch of one job. *)
Lemma persist_trades_split (ts : list Trade.t) (d : db) :
  persist_trades ts d =
    match batch_trades ts ∅ d with
    | Ok (m, d') => (settle_upserts (sorted_deltas m) d', Ok (trade_to_json <$> ts))
    | Err e => (d, Err e)
    end.
Proof.
  destruct ts as [| t ts].
  - cbn. unfold sorted_deltas. by rewrite map_to_list_empty.
  - rewrite batch_trades_split. cbn [persist_trades]. unfold transaction.
    destruct (balance_deltas (t :: ts) ∅) as [m | e]; [| done].
    cbn [mbind result_bind mret result_ret]. by rewrite audit_trades_id.
Qed.

Lemma release_same (o : Order.t) (d : db) :
  match release_leftover o d with
  | Ok d' => (if fully_resolved o then release_remaining_locked o d else (d, Ok tt)) = (d', Ok tt)
  | Err e => (if fully_resolved o then release_remaining_locked o d else (d, Ok tt)) = (d, Err e)
  end.
Proof.
  unfold release_leftover, release_remaining_locked. destruct (fully_resolved o); [| done]. cbn [andb].
  destruct (dec_eqb (Order.remaining o) dec_zero); [done |]. cbn [negb].
  by destruct (remaining_locked o) as [l | e].
Qed.

(** C17: a job persisted on its own, as when the channel is full, has the
    effect and the result of a batch of that one job, except that a failing
    batch leaves the database as it was. *)
Theorem single_job_batch (now pg_now : datetime) (job : PersistJob.t) (d : db) :
  let '(d', r) := process_persist_batch now pg_now [job] d in
  match r with
  | Ok _ => process_persist_job now pg_now job d = (d', Ok tt)
  | Err e => d' = d /\ (process_persist_job now pg_now job d).2 = Err e
  end.
Proof.
  unfold process_persist_batch, process_persist_job, transaction, persist_batch_tx.
  cbn [fold_left mbind list_bind app release_batch insert_audit_event fst].
  rewrite app_nil_r, persist_trades_split.
  set (d0 := insert_order_db (PersistJob.order job) pg_now d).
  destruct (batch_trades (PersistJob.trades job) ∅ d0) as [[m d1] | e]; cbn [mbind result_bind]; [| done].
  set (d2 := update_order_db now (PersistJob.order job) _).
  pose proof (release_same (PersistJob.order job) d2) as Hr.
  destruct (release_leftover (PersistJob.order job) d2) as [d3 | e]; cbn [mbind result_bind mret result_ret] in *.
  - by rewrite audit_trades_id.
  - by rewrite Hr.
Qed.
End Batch.

(** ** The type of the rows *)

(** The text columns spell values of the code's enums. *)
Record row_typed `{C : Crates} (r : OrderRow.t) : Prop := {
  rt_side : exists s, OrderRow.side r = side_str s;
  rt_type : exists t, OrderRow.order_type r = order_type_str t;
  rt_tif : exists t, OrderRow.tif r = tif_str t;
  rt_status : exists s, OrderRow.status r = status_str s;
  rt_stp : exists s, OrderRow.stp_mode r = stp_str s;
}.

Definition orders_typed `{C : Crates} (d : db) : Prop := map_Forall (fun _ r => row_typed r) (orders d).

Section Typed.
Context `{C : Crates, X : !Sqlx C}.

Lemma orders_typed_eq (d d' : db) : orders d' = orders d -> orders_typed d -> orders_typed d'.
Proof. unfold orders_typed. by intros ->. Qed.

Lemma set_typed (rem : Q) (s : OrderStatus) (v : Z) (u : datetime) (r : OrderRow.t) :
  row_typed r -> row_typed (OrderRow.set rem (status_str s) v u r).
Proof. intros []. split; try done. by exists s. Qed.

Lemma fill_row_typed (qty : decimal) (now : datetime) (r : OrderRow.t) : row_typed r -> row_typed (fill_row qty now r).
Proof.
  intros Hr. unfold fill_row. destruct (decide _); [| done]. cbn zeta.
  destruct (Qeq_bool _ 0); [by apply (set_typed _ Filled) | by apply (set_typed _ PartiallyFilled)].
Qed.

Lemma alter_typed (f : OrderRow.t -> OrderRow.t) (id : uuid) (d : db) :
  (forall r, row_typed r -> row_typed (f r)) -> orders_typed d -> orders_typed (set_orders (alter f id (orders d)) d).
Proof.
  intros Hf Hd i r. cbn [orders set_orders]. destruct (decide (id = i)) as [<- | Hne].
  - rewrite lookup_alter_eq. destruct (orders d !! id) as [r0 |] eqn:E; [| done]. intros [= <-]. by apply Hf, (Hd id).
  - rewrite lookup_alter_ne by done. apply Hd.
Qed.

Lemma insert_typed (o : Order.t) (u pg_now : datetime) (d : db) : orders_typed d -> orders_typed (insert_order o u pg_now d).
Proof.
  intros Hd. unfold orders_typed, insert_order. cbn [orders]. destruct (decide _); [done |].
  apply map_Forall_insert_2; [| done]. split; cbn; by eexists.
Qed.

Lemma update_typed (rem : decimal) (s : OrderStatus) (now : datetime) (id : uuid) (d : db) :
  orders_typed d -> orders_typed (update_order rem (status_str s) now id d).
Proof. apply alter_typed. intros r. apply set_typed. Qed.

Lemma fill_typed (qty : decimal) (now : datetime) (id : uuid) (d : db) : orders_typed d -> orders_typed (fill_resting qty now id d).
Proof. apply alter_typed, fill_row_typed. Qed.

Lemma fills_typed (now : datetime) (fills : list LuaTrade.t) (d : db) :
  orders_typed d -> orders_typed (update_resting_orders_after_lua now fills d).
Proof.
  unfold update_resting_orders_after_lua. revert d. induction fills as [| f fills IH]; intros d Hd; [done |].
  cbn [fold_left]. by apply IH, fill_typed.
Qed.

Lemma fold_typed {A} (f : db -> A -> db) (l : list A) (d : db) :
  (forall x d, orders_typed d -> orders_typed (f d x)) -> orders_typed d -> orders_typed (fold_left f l d).
Proof. intros Hf. revert d. induction l as [| x l IH]; intros d Hd; [done |]. cbn. by apply IH, Hf. Qed.

Lemma transaction_typed (f : db -> result db) (d : db) :
  (forall d', f d = Ok d' -> orders_typed d') -> orders_typed d -> orders_typed (transaction f d).1.
Proof. intros Hf Hd. unfold transaction. destruct (f d) as [d' |] eqn:E; [by apply Hf | done]. Qed.

Lemma persist_order_typed (now pg_now : datetime) (o : Order.t) (ts : list Trade.t) (fills : list LuaTrade.t) (d : db) :
  orders_typed d -> orders_typed (persist_order now pg_now o ts fills d).1.
Proof.
  intros Hd. apply transaction_typed; [| done]. intros d' E. unfold persist_order_tx in E.
  destruct (balance_deltas ts ∅) as [m |]; [| done]. cbn in E. apply release_leftover_orders in E.
  apply (orders_typed_eq _ _ E). clear E.
  assert (orders_typed (fill_resting_batch fills now (settle_batch (sorted_deltas m)
            (fold_left (fun d t => insert_trade t d) ts (insert_order o now pg_now d))))) as Hf.
  { intros id r. unfold fill_resting_batch. cbn [orders set_orders].
    rewrite map_lookup_imap, orders_settle_batch, (proj1 (orders_insert_trades ts _)).
    pose proof (insert_typed o now pg_now d Hd id) as Hi.
    destruct (orders (insert_order o now pg_now d) !! id) as [r0 |]; [| done]. cbn. intros [= <-].
    destruct (fill_of id fills); [apply fill_row_typed |]; by apply Hi. }
  destruct (order_rests o); [done | by apply update_typed].
Qed.

Lemma persist_batch_typed (now pg_now : datetime) (batch : list PersistJob.t) (d : db) :
  orders_typed d -> orders_typed (process_persist_batch now pg_now batch d).1.
Proof.
  intros Hd. unfold process_persist_batch.
  assert (orders_typed (transaction (persist_batch_tx now pg_now batch) d).1) as Ht.
  { apply transaction_typed; [| done]. intros d' E. unfold persist_batch_tx in E.
    destruct (batch_trades _ _ _) as [[m d2] |] eqn:Et; [| done]. cbn in E.
    apply release_batch_orders in E. apply batch_trades_orders in Et. apply (orders_typed_eq _ _ E).
    apply fold_typed; [intros job d0; apply update_typed |]. apply fold_typed; [intros job d0; apply fills_typed |].
    apply (orders_typed_eq _ _ (settle_upserts_orders _ d2)), (orders_typed_eq _ _ Et).
    apply fold_typed; [intros job d0; apply insert_typed | done]. }
  destruct (transaction _ d) as [d1 [u | e]]; [| done]. cbn [fst]. by rewrite audit_jobs_id.
Qed.

Lemma persist_job_typed (now pg_now : datetime) (job : PersistJob.t) (d : db) :
  orders_typed d -> orders_typed (process_persist_job now pg_now job d).1.
Proof.
  intros Hd. unfold process_persist_job. cbn zeta. cbn [insert_audit_event fst].
  set (d0 := insert_order_db _ _ _). assert (orders_typed d0) as H0 by (by apply insert_typed).
  assert (orders_typed (persist_trades (PersistJob.trades job) d0).1) as Ht.
  { unfold persist_trades. destruct (PersistJob.trades job) as [| t ts]; [done |].
    match goal with |- context [transaction ?f d0] => pose proof (transaction_typed f d0) as Hx;
      destruct (transaction f d0) as [d1 [u | e]] end; cbn [fst] in *; rewrite ?audit_trades_id; (apply Hx; [| done]);
      intros d'; destruct (balance_deltas _ _) as [m |]; try done; intros [= <-];
      eapply orders_typed_eq; [apply settle_upserts_orders | | apply settle_upserts_orders |];
      (eapply orders_typed_eq; [apply (orders_insert_trades (t :: ts)) | done]). }
  destruct (persist_trades _ d0) as [d1 [js | e]]; [| done]. cbn [fst] in Ht.
  assert (orders_typed (update_order_db now (PersistJob.order job)
            (update_resting_orders_after_lua now (PersistJob.lua_trades job) d1))) as Hu by (by apply update_typed, fills_typed).
  destruct (fully_resolved _); [| done]. unfold release_remaining_locked.
  destruct (dec_eqb _ _); [done |]. by destruct (remaining_locked _).
Qed.
End Typed.

Section System.
Context `{C : Crates, X : !Sqlx C, V : Valkey, J : SerdeJson}.

Lemma cancel_one_typed (now pg_now : datetime) (id : uuid) (user : string) (c : cstate) :
  orders_typed (cs_db c) -> orders_typed (cs_db (cancel_one now pg_now id user c)).
Proof.
  intros Hd. unfold cancel_one. destruct (order_of_user id user (cs_db c)) as [r |]; [| done].
  destruct (decide _); [| done]. cbn zeta. destruct (cancel_release r). cbn [cs_db].
  apply (alter_typed (fun r => OrderRow.set 0%Q "Cancelled" (OrderRow.version r) pg_now r)); [| done].
  intros r0. apply (set_typed _ Cancelled).
Qed.

Lemma cancel_again_typed (now pg_now : datetime) (id user : string) (c : cstate) :
  orders_typed (cs_db c) -> orders_typed (cs_db (cancel_again now pg_now id user c).1).
Proof.
  intros Hd. unfold cancel_again. destruct (json_from_str _) as [j |]; [| done].
  unfold cancel_branch. destruct (mbind _ _); [by apply cancel_one_typed | done].
Qed.

Lemma process_cancellation_typed (now pg_now : datetime) (m : string) (c : cstate) :
  orders_typed (cs_db c) -> orders_typed (cs_db (process_cancellation now pg_now m c).1).
Proof.
  intros Hd. unfold process_cancellation. destruct (json_from_str m) as [j |]; [| done]. cbn zeta.
  destruct (decide _).
  { unfold cancel_branch. destruct (mbind _ _); [by apply cancel_one_typed | done]. }
  destruct (decide _).
  { unfold modify_branch. destruct (get_str "order_id" j) as [id |]; [| done].
    pose proof (cancel_again_typed now pg_now id (default EmptyString (get_str "user_id" j)) c Hd) as H.
    destruct (cancel_again _ _ _ _ c) as [c1 [[] | msg]]; [| done]. by destruct (get "new_order" j). }
  destruct (decide _); [| done]. unfold cancel_all_branch. cbn [fst].
  generalize (open_orders (default "user-1" (get_str "user_id" j)) (get_str "pair_id" j) (cs_db c)).
  intros ids. revert c Hd. induction ids as [| id ids IH]; intros c Hd; [done |]. cbn [fold_left].
  by apply IH, cancel_again_typed.
Qed.

Lemma process_order_typed (ws_endpoint : bool) (answer : post -> PostResult) (st : WorkerState.t) (e : Env.t) (payload : Json)
    (w : store * db) : orders_typed w.2 -> orders_typed (process_order ws_endpoint answer st e payload w).1.2.
Proof.
  intros Hd. unfold process_order. destruct (mbind _ _) as [o | m]; [| done].
  destruct (Order.tif o); try done; (destruct (mbind _ _) as [[l keys] | m]; [| done]);
    unfold match_and_persist; (destruct (match_order_lua _ _ _ _ _) as [s [r | m]]; [| done]); cbn zeta;
    (destruct (is_warmup _); [done |]);
    match goal with |- context [persist_order ?n ?p ?o ?ts ?fs ?d] =>
      pose proof (persist_order_typed n p o ts fs d Hd) as Hp; by destruct (persist_order n p o ts fs d) as [d1 [u | m1]] end.
Qed.

Lemma handle_typed (st : WorkerState.t) (k : kind) (x : input) (m : string) (w : process) :
  orders_typed (p_db w) -> orders_typed (p_db (handle st k x m w).1).
Proof.
  intros Hd. destruct k; cbn [handle].
  - by destruct (process_queued_order _ _ _ _ _ _ _) as [[s wk] r].
  - pose proof (process_cancellation_typed (Env.clock (in_env x) 0%nat) (Env.pg_now (in_env x)) m
                  (mk_cstate C V (p_kv w) (p_db w) (wk_dirty_users (p_worker w))) Hd) as H.
    by destruct (process_cancellation _ _ _ _) as [c r].
Qed.

Lemma persist_round_typed (now pg_now : datetime) (w w' : process) :
  persist_round now pg_now w = Some w' -> orders_typed (p_db w) -> orders_typed (p_db w').
Proof.
  unfold persist_round. cbn zeta. destruct (wk_persist (p_worker w)) as [| job jobs]; [done |].
  destruct (next_batch _) as [batch rest]. intros E Hd. pose proof (persist_batch_typed now pg_now batch (p_db w) Hd) as H.
  destruct (process_persist_batch _ _ _ _) as [d r]. by injection E as <-.
Qed.

(** Everything the system does to the database. *)
Inductive db_step : db -> db -> Prop :=
| step_order ws answer st e payload w : db_step w.2 (process_order ws answer st e payload w).1.2
| step_task st k x m w : db_step (p_db w) (p_db (handle st k x m w).1)
| step_persist now pg_now w w' : persist_round now pg_now w = Some w' -> db_step (p_db w) (p_db w')
| step_job now pg_now job d : db_step d (process_persist_job now pg_now job d).1
| step_reset n w : db_step w.2 (reset_all n w).2
| step_balances n w : db_step w.2 (reset_balances n w).2
| step_truncate w : db_step w.2 (truncate_orders w).1.2
| step_seed pairs pairs' d d' : run_seed (pairs, d) = Some (pairs', d') -> db_step d d'.

Lemma reset_users_orders (n : nat) (d : db) : orders (reset_user_balances n d) = orders d.
Proof.
  unfold reset_user_balances. generalize (seq 1 n) as us. intros us. revert d.
  induction us as [| i us IH]; intros d; [done |]. cbn [fold_left]. by rewrite IH.
Qed.

Lemma foldl_keeps {A B} (P : A -> Prop) (f : A -> B -> A) (l : list B) (a : A) :
  (forall a b, P a -> P (f a b)) -> P a -> P (foldl f a l).
Proof. intros Hf. revert a. induction l as [| b l IH]; intros a Ha; [done |]. cbn. by apply IH, Hf. Qed.

Lemma run_seed_orders (pairs pairs' : list PairRow.t) (d d' : db) :
  run_seed (pairs, d) = Some (pairs', d') -> orders d' = orders d.
Proof.
  unfold run_seed. destruct (foldl _ _ seed_pairs); [| done]. cbn [mbind option_bind snd].
  match goal with |- (?o ≫= _) = _ -> _ => assert (forall d1, o = Some d1 -> orders d1 = orders d) as H end.
  { apply (foldl_keeps (fun o : option db => forall d1, o = Some d1 -> orders d1 = orders d)); [| by intros d1 [= <-]].
    intros o i Ho. apply (foldl_keeps (fun o : option db => forall d1, o = Some d1 -> orders d1 = orders d)); [| done].
    intros [d2 |] row Ho2 d1; [| done]. cbn. unfold seed_balance. destruct (dec_from_str _); [| done].
    intros [= <-]. exact (Ho2 d2 eq_refl). }
  destruct (foldl _ _ (seq 1 10)) as [d1 |]; [| done]. intros [= _ <-]. by apply H.
Qed.

Lemma db_step_typed (d d' : db) : db_step d d' -> orders_typed d -> orders_typed d'.
Proof.
  destruct 1.
  - apply process_order_typed.
  - apply handle_typed.
  - by eapply persist_round_typed.
  - apply persist_job_typed.
  - intros _. unfold reset_all, reset_balances. cbn [snd]. apply (orders_typed_eq (truncate_orders_table w.2)).
    + apply reset_users_orders.
    + apply map_Forall_empty.
  - apply orders_typed_eq, reset_users_orders.
  - intros _. unfold truncate_orders. destruct (v_incrby _ _ _). apply map_Forall_empty.
  - by eapply orders_typed_eq, run_seed_orders.
Qed.

(** C24: in every database the system reaches from one whose rows are well typed, the
    text columns of each order spell values of the code's enums, so that reading
    a row back gives these values, and the start of a process, which skips rows it
    cannot read, skips none. *)
Theorem orders_stay_typed (d d' : db) (id : uuid) (r : OrderRow.t)
    (Hd : orders_typed d) (Hsteps : rtc db_step d d') (Hr : orders d' !! id = Some r) :
  let o := row_to_order id r in
  side_str (Order.side o) = OrderRow.side r /\ order_type_str (Order.order_type o) = OrderRow.order_type r /\
  tif_str (Order.tif o) = OrderRow.tif r /\ status_str (Order.status o) = OrderRow.status r /\
  stp_str (Order.stp_mode o) = OrderRow.stp_mode r /\ side_of_str (OrderRow.side r) = Some (Order.side o) /\
  order_type_of_str (OrderRow.order_type r) = Some (Order.order_type o) /\
  tif_of_str (OrderRow.tif r) = Some (Order.tif o).
Proof.
  assert (orders_typed d') as Hd' by (induction Hsteps as [| d d1 d' H _ IH]; [done | apply IH; [by eapply db_step_typed | done]]).
  destruct (Hd' id r Hr) as [[s Hs] [t Ht] [f Hf] [st Hst] [p Hp]]. unfold row_to_order.
  cbn [Order.side Order.order_type Order.tif Order.status Order.stp_mode]. rewrite Hs, Ht, Hf, Hst, Hp.
  split_and!; [by destruct s | by destruct t | by destruct f | by destruct st | by destruct p
              | by destruct s | by destruct t | by destruct f].
Qed.
End System.

Module RowsExamples.
Import RefCrates RefValkey RefJson RefDb OrderFlowExamples.

Definition limit_order (id : positive) (user : string) (side : Side) (qty remaining : Q) (s : OrderStatus)
    : @Order.t ref_crates :=
  Order.mk (id : @uuid ref_crates) user "BTC-USDT" side Limit GTC (Some (100 : @decimal ref_crates)%Q)
    (qty : @decimal ref_crates) (remaining : @decimal ref_crates) s Stp.None 1 0 (0 : @datetime ref_crates)
    (0 : @datetime ref_crates) None None None None.

(** A maker's ask of 5 at 100, and a taker's bid that fills 3 of it. *)
Definition maker_job : @PersistJob.t ref_crates := PersistJob.mk (limit_order 20 "maker" Sell 5 5 New) [] [].

Definition taker_fill : @LuaTrade.t ref_crates :=
  LuaTrade.mk (20%positive : @uuid ref_crates) (100 : @decimal ref_crates)%Q (3 : @decimal ref_crates)%Q "taker" "maker".

Definition taker_job : @PersistJob.t ref_crates :=
  let o := limit_order 21 "taker" Buy 3 0 Filled in
  PersistJob.mk o [trade_of_fill o (30%positive : @uuid ref_crates) (0 : @datetime ref_crates) taker_fill] [taker_fill].

Definition at_0 : @datetime ref_crates := 0.

Definition persisted (batches : list (list (@PersistJob.t ref_crates))) (d : @db ref_crates) : @db ref_crates :=
  fold_left (fun d b => (process_persist_batch at_0 at_0 b d).1) batches d.

Definition shown (id : positive) (d : @db ref_crates) : option (Q * string) :=
  (fun r => (OrderRow.remaining r, OrderRow.status r)) <$> orders d !! (id : @uuid ref_crates).

(** When both jobs meet in one batch, the fill of the maker's order is lost: its row
    is new and whole again, as if the trade had not happened. *)
Example batch_loses_fill :
  shown 20 (persisted [[maker_job; taker_job]] empty_db) = Some (5%Q, "New") /\
  shown 20 (persisted [[maker_job]; [taker_job]] empty_db) = Some (2%Q, "PartiallyFilled").
Proof. split; vm_compute; reflexivity. Qed.

(** The maker's order is already stored when the taker's batch fills 3 of its 5. *)
Lemma persist_batch_rows_witness :
  exists d r', process_persist_batch at_0 at_0 [taker_job] (persisted [[maker_job]] empty_db) = (d, Ok tt) /\
    orders d !! (20%positive : @uuid ref_crates) = Some r' /\
    (OrderRow.remaining r' == 2)%Q /\ OrderRow.status r' = "PartiallyFilled".
Proof.
  assert (match (process_persist_batch at_0 at_0 [taker_job] (persisted [[maker_job]] empty_db)).2 with
          | Ok _ => true | Err _ => false end = true) as Hok by (vm_compute; reflexivity).
  destruct (process_persist_batch at_0 at_0 [taker_job] (persisted [[maker_job]] empty_db)) as [d [[] | e]] eqn:E;
    [| discriminate].
  destruct (persist_batch_rows at_0 at_0 [taker_job] (persisted [[maker_job]] empty_db) d E) as [H _].
  { apply Forall_cons_2; [| apply Forall_nil_2]. vm_compute. discriminate. }
  specialize (H (20%positive : @uuid ref_crates) ltac:(apply (bool_decide_unpack _); vm_compute; exact I)).
  assert (shown 20 (persisted [[maker_job]] empty_db) = Some (5%Q, "New")) as Hs by (vm_compute; reflexivity).
  unfold shown in Hs. set (before := orders (persisted [[maker_job]] empty_db) !! _) in *. clearbody before.
  destruct before as [r |]; [| discriminate]. cbn in Hs. injection Hs as Hrem Hs.
  destruct (orders d !! (20%positive : @uuid ref_crates)) as [r' |] eqn:Er; [| done].
  exists d, r'. split; [reflexivity |]. split; [exact Er |].
  destruct (rf_partial _ _ _ H (or_introl Hs)) as [R S].
  - vm_compute. discriminate.
  - rewrite Hrem. vm_compute. reflexivity.
  - split; [| exact S]. rewrite R. rewrite Hrem. vm_compute. reflexivity.
Defined.

(** A cancellation that overtakes the persistence of a fill gives back what was
    sold: the database ends with 8 BTC where there were 5. *)
Definition before_trade : @db ref_crates :=
  set_balances {[ ("maker", "BTC") := (0, 5)%Q; ("taker", "USDT") := (0, 300)%Q;
                  ("taker", "BTC") := (0, 0)%Q; ("maker", "USDT") := (0, 0)%Q ]} (persisted [[maker_job]] empty_db).

Definition btc (d : @db ref_crates) : Q :=
  Qred ((balance d ("maker", "BTC")).1 + (balance d ("maker", "BTC")).2
        + (balance d ("taker", "BTC")).1 + (balance d ("taker", "BTC")).2).

Example cancel_before_persist_doubles :
  let cancelled := cs_db (cancel_one at_0 at_0 (20%positive : @uuid ref_crates) "maker"
                            (mk_cstate ref_crates ref_valkey empty_store before_trade [])) in
  btc before_trade = 5%Q /\ btc (persisted [[taker_job]] before_trade) = 5%Q /\
  btc (persisted [[taker_job]] cancelled) = 8%Q.
Proof. vm_compute. by split_and!. Qed.

Lemma orders_stay_typed_witness :
  exists r, orders (process_persist_job at_0 at_0 maker_job empty_db).1 !! (20%positive : @uuid ref_crates) = Some r /\
    side_str (Order.side (row_to_order (20%positive : @uuid ref_crates) r)) = "Sell".
Proof.
  assert (match orders (process_persist_job at_0 at_0 maker_job empty_db).1 !! (20%positive : @uuid ref_crates) with
          | Some r => OrderRow.side r | None => EmptyString end = "Sell") as Hs by (vm_compute; reflexivity).
  destruct (orders (process_persist_job at_0 at_0 maker_job empty_db).1 !! (20%positive : @uuid ref_crates)) as [r |] eqn:E;
    [| discriminate].
  exists r. split; [reflexivity |].
  destruct (orders_stay_typed (V := ref_valkey) empty_db (process_persist_job at_0 at_0 maker_job empty_db).1
              (20%positive : @uuid ref_crates) r ltac:(apply map_Forall_empty)
              (rtc_once _ _ (step_job (V := ref_valkey) at_0 at_0 maker_job empty_db)) E) as [H _].
  exact (eq_trans H Hs).
Defined.
End RowsExamples.
