(* ===== verification/System.v ===== *)
(** * The worker as one system

    Order tasks, cancellations, the persistence of jobs in batches or alone, the
    gateway's inline processing and the administration, as steps on one
    [process].  Each operation is a sequence of SQL statements of four kinds, so
    an invariant is proved once per kind; the channel of jobs carries the
    amounts from the match to the database. *)

From S2P Require Import Prelude Numbers Externals Fixed Types Codec Valkey Book MatchLua MatchLuaReply MatchBounds Json Db.
From S2P Require Import Persist PersistProps Views Metrics Ws OrderFlow MatchLuaExamples OrderFlowExamples.
From S2P Require Import Cancel Consumers Gateway Background Rows.

Open Scope Z_scope.

(** ** Statements *)

Section Statements.
Context `{C : Crates, L : !CratesLaws C, X : !Sqlx C, XL : !SqlxLaws C L X}.

(** An identifier names one order: the quantity every message of that id asks for. *)
Context (asked : uuid -> Q).

Record order_ok (o : Order.t) : Prop := {
  oo_quantity : (dval (Order.quantity o) == asked (Order.id o))%Q;
  oo_remaining : (0 <= dval (Order.remaining o) <= asked (Order.id o))%Q;
  oo_filled : Order.status o = Filled -> (dval (Order.remaining o) == 0)%Q;
}.

Definition fill_ok (f : LuaTrade.t) : Prop := (0 <= dval (LuaTrade.quantity f))%Q.

(** What one statement may do to the row of an order. *)
Inductive row_step (id : uuid) (r : OrderRow.t) : OrderRow.t -> Prop :=
| row_kept : row_step id r r
| row_filled q now : (0 <= dval q)%Q -> row_step id r (fill_row q now r)
| row_updated o now :
    order_ok o -> Order.id o = id ->
    row_step id r (OrderRow.set (to_numeric (Order.remaining o)) (status_str (Order.status o))
                     (OrderRow.version r + 1) now r)
| row_cancelled now : row_step id r (OrderRow.set 0%Q "Cancelled" (OrderRow.version r) now r).

Inductive stmt : db -> db -> Prop :=
| stmt_order o updated_at pg_now d : order_ok o -> stmt d (insert_order o updated_at pg_now d)
| stmt_trade t d : stmt d (insert_trade t d)
| stmt_rows f d :
    (forall id r, orders d !! id = Some r -> row_step id r (f id r)) ->
    stmt d (set_orders (map_imap (fun id r => Some (f id r)) (orders d)) d)
| stmt_balances m d : stmt d (set_balances m d).

Definition statements : db -> db -> Prop := rtc stmt.

(** ** What every statement keeps *)

Record row_ok (d : db) (id : uuid) (r : OrderRow.t) : Prop := {
  ro_quantity : (OrderRow.quantity r == asked id)%Q;
  ro_remaining : (0 <= OrderRow.remaining r <= OrderRow.quantity r)%Q;
  ro_filled : OrderRow.status r = "Filled" -> (OrderRow.remaining r == 0)%Q;
  ro_sequence : OrderRow.sequence r < order_seq d;
}.

Record db_ok (d : db) : Prop := {
  ok_rows id r : orders d !! id = Some r -> row_ok d id r;
  ok_sequences id id' r r' :
    orders d !! id = Some r -> orders d !! id' = Some r' -> OrderRow.sequence r = OrderRow.sequence r' -> id = id';
}.

(** The columns no statement writes once the row is there. *)
Record same_order (r r' : OrderRow.t) : Prop := {
  so_user : OrderRow.user_id r' = OrderRow.user_id r;
  so_pair : OrderRow.pair_id r' = OrderRow.pair_id r;
  so_side : OrderRow.side r' = OrderRow.side r;
  so_type : OrderRow.order_type r' = OrderRow.order_type r;
  so_tif : OrderRow.tif r' = OrderRow.tif r;
  so_price : OrderRow.price r' = OrderRow.price r;
  so_quantity : OrderRow.quantity r' = OrderRow.quantity r;
  so_stp : OrderRow.stp_mode r' = OrderRow.stp_mode r;
  so_sequence : OrderRow.sequence r' = OrderRow.sequence r;
  so_created : OrderRow.created_at r' = OrderRow.created_at r;
  so_client : OrderRow.client_order_id r' = OrderRow.client_order_id r;
  so_version : OrderRow.version r <= OrderRow.version r';
}.

(** The history a database keeps of an earlier one. *)
Record keeps_history (d d' : db) : Prop := {
  kh_orders id r : orders d !! id = Some r -> exists r', orders d' !! id = Some r' /\ same_order r r';
  kh_new id r' : orders d !! id = None -> orders d' !! id = Some r' -> order_seq d <= OrderRow.sequence r';
  kh_trades : trades d ⊆ trades d';
  kh_order_seq : order_seq d <= order_seq d';
}.

#[export] Instance same_order_preorder : PreOrder same_order.
Proof.
  split.
  - intros r. by constructor.
  - intros a b c [] []. constructor; etransitivity; eauto.
Qed.

Lemma set_same_order (rem : Q) (s : string) (v : Z) (u : datetime) (r : OrderRow.t) :
  OrderRow.version r <= v -> same_order r (OrderRow.set rem s v u r).
Proof. intros. by constructor. Qed.

Lemma row_step_same_order (id : uuid) (r r' : OrderRow.t) : row_step id r r' -> same_order r r'.
Proof.
  destruct 1; [done | | apply set_same_order; lia | by apply set_same_order].
  unfold fill_row. case_decide; [| done]. apply set_same_order. lia.
Qed.

#[export] Instance keeps_history_preorder : PreOrder keeps_history.
Proof.
  split.
  - intros d. constructor; [intros id r Hr; by exists r | congruence | done | lia].
  - intros a b c [O1 N1 T1 S1] [O2 N2 T2 S2]. constructor; [| | by etransitivity | lia].
    + intros id r (r1 & (r2 & ? & ?)%O2 & ?)%O1. exists r2. split; [done | by etransitivity].
    + intros id r' Ha Hc. destruct (orders b !! id) as [r1 |] eqn:Hb.
      * destruct (O2 id r1 Hb) as (r2 & Hr2 & Hs). rewrite Hc in Hr2. injection Hr2 as <-.
        rewrite (so_sequence _ _ Hs). by apply (N1 id).
      * specialize (N2 id r' Hb Hc). lia.
Qed.

Lemma row_step_ok (d : db) (id : uuid) (r r' : OrderRow.t) : row_ok d id r -> row_step id r r' -> row_ok d id r'.
Proof.
  intros [Hq [H0 H1] Hf Hs] H. destruct H as [| q now Hq0 | o now [Oq [O0 O1] Of] <- | now].
  - by constructor.
  - unfold fill_row. case_decide as Ho; [| by constructor].
    assert (0 <= greatest (OrderRow.remaining r - to_numeric q) 0 <= OrderRow.quantity r)%Q as Hg.
    { split; [apply greatest_nonneg |]. unfold greatest. rewrite to_numeric_val.
      case_cond; [| lra]. rewrite to_numeric_val. lra. }
    constructor; cbn; try done. case_cond; [| done]. intros _. by apply Qeq_bool_iff.
  - constructor; cbn; try done.
    + rewrite to_numeric_val, Hq. done.
    + rewrite to_numeric_val. intros E. apply Of. by destruct (Order.status o).
  - constructor; cbn; try done. split; [apply Qle_refl | lra].
Qed.

Lemma set_orders_lookup (f : uuid -> OrderRow.t -> OrderRow.t) (d : db) (id : uuid) :
  orders (set_orders (map_imap (fun id r => Some (f id r)) (orders d)) d) !! id = f id <$> orders d !! id.
Proof. cbn. rewrite map_lookup_imap. by destruct (orders d !! id). Qed.

Lemma stmt_keeps (d d' : db) : stmt d d' -> keeps_history d d'.
Proof.
  destruct 1 as [o u n d _ | t d | f d Hf | m d].
  - unfold insert_order. constructor; cbn; [| | done | lia].
    + intros id r Hr. case_decide as Hc; [by exists r |]. exists r. split; [| done].
      rewrite lookup_insert_ne; [done |]. intros <-. apply Hc. left. by rewrite Hr.
    + intros id r' Hn. case_decide as Hc; [congruence |].
      rewrite lookup_insert. case_decide; [| congruence]. intros [= <-]. cbn. lia.
  - constructor; cbn; [intros id r Hr; by exists r | congruence | | lia].
    destruct (trades d !! Trade.id t) eqn:E; [done |]. by apply insert_subseteq.
  - constructor; [| | done | done].
    + intros id r Hr. rewrite set_orders_lookup, Hr. exists (f id r). split; [done |].
      by eapply row_step_same_order, Hf.
    + intros id r' Hn. by rewrite set_orders_lookup, Hn.
  - constructor; cbn; [intros id r Hr; by exists r | congruence | done | done].
Qed.

Lemma row_ok_seq (d d' : db) (id : uuid) (r : OrderRow.t) :
  order_seq d <= order_seq d' -> row_ok d id r -> row_ok d' id r.
Proof. intros Hs [? ? ? ?]. constructor; try done. lia. Qed.

Lemma stmt_ok (d d' : db) : stmt d d' -> db_ok d -> db_ok d'.
Proof.
  intros H [Hr Hs]. pose proof (kh_order_seq _ _ (stmt_keeps _ _ H)) as Hle.
  destruct H as [o u n d Ho | t d | f d Hf | m d].
  - assert (forall id r, orders (insert_order o u n d) !! id = Some r ->
              orders d !! id = Some r \/ (id = Order.id o /\ r = row_of_order o u n (order_seq d))) as Hi.
    { intros id r. cbn. case_decide; [by left |]. rewrite lookup_insert. case_decide; [| by left].
      intros [= <-]. by right. }
    constructor.
    + intros id r [Hd | [-> ->]]%Hi; [by eapply row_ok_seq, Hr |]. destruct Ho as [Oq Orem Of].
      constructor; cbn; [by rewrite to_numeric_val | | | lia].
      * rewrite !to_numeric_val, Oq. done.
      * rewrite to_numeric_val. intros E. apply Of. by destruct (Order.status o).
    + intros id id' r r' [H1 | [-> ->]]%Hi [H2 | [-> ->]]%Hi; cbn; [by eapply Hs | | | done];
        intros E; [apply Hr, ro_sequence in H1 | apply Hr, ro_sequence in H2]; lia.
  - constructor; [| exact Hs]. intros id r Hd. eapply row_ok_seq; [exact Hle | by apply Hr].
  - constructor.
    + intros id r'. rewrite set_orders_lookup. destruct (orders d !! id) as [r |] eqn:E; [| done].
      intros [= <-]. apply (row_ok_seq d); [done |]. eapply row_step_ok; [by apply Hr | by apply Hf].
    + intros id id' r r'. rewrite !set_orders_lookup.
      destruct (orders d !! id) as [r1 |] eqn:E1, (orders d !! id') as [r2 |] eqn:E2; try done.
      intros [= <-] [= <-].
      rewrite (so_sequence _ _ (row_step_same_order _ _ _ (Hf _ _ E1))),
        (so_sequence _ _ (row_step_same_order _ _ _ (Hf _ _ E2))). by apply Hs.
  - constructor; [| exact Hs]. intros id r Hd. eapply row_ok_seq; [exact Hle | by apply Hr].
Qed.

Lemma statements_keep (d d' : db) : statements d d' -> keeps_history d d'.
Proof. induction 1 as [| d d1 d' H _ IH]; [done |]. etransitivity; [by apply stmt_keeps | done]. Qed.

Lemma statements_ok (d d' : db) : statements d d' -> db_ok d -> db_ok d'.
Proof. induction 1 as [| d d1 d' H _ IH]; [done |]. intros Hd. by apply IH, (stmt_ok d). Qed.
End Statements.

(** ** The operations as sequences of statements *)

Section Operations.
Context `{C : Crates, L : !CratesLaws C, X : !Sqlx C, XL : !SqlxLaws C L X}.
Context (asked : uuid -> Q).

Local Abbreviation stmts := (statements asked).
Local Abbreviation ok := (order_ok asked).

Lemma stmts_one (d d' : db) : stmt asked d d' -> stmts d d'.
Proof. apply rtc_once. Qed.

Lemma stmts_trans (d d' d'' : db) : stmts d d' -> stmts d' d'' -> stmts d d''.
Proof. unfold statements. by etransitivity. Qed.

Lemma stmts_fold {A} (P : A -> Prop) (f : db -> A -> db) (l : list A) (d : db) :
  (forall x d, P x -> stmts d (f d x)) -> Forall P l -> stmts d (fold_left f l d).
Proof.
  intros Hf Hl. revert d. induction Hl as [| x l Hx _ IH]; intros d; [done |]. cbn.
  by eapply stmts_trans; [apply Hf |].
Qed.

Lemma stmts_fold_all {A} (f : db -> A -> db) (l : list A) (d : db) :
  (forall x d, stmts d (f d x)) -> stmts d (fold_left f l d).
Proof. intros Hf. apply (stmts_fold (fun _ => True)); [by intros | by apply Forall_true]. Qed.

Lemma stmts_alter (f : OrderRow.t -> OrderRow.t) (id : uuid) (d : db) :
  (forall r, row_step asked id r (f r)) -> stmts d (set_orders (alter f id (orders d)) d).
Proof.
  intros Hf. apply stmts_one.
  assert (alter f id (orders d) = map_imap (fun i r => Some (if decide (i = id) then f r else r)) (orders d)) as ->.
  { apply map_eq. intros i. rewrite map_lookup_imap. case_decide as Hi.
    - subst. rewrite lookup_alter_eq. by destruct (orders d !! id).
    - rewrite lookup_alter_ne by done. by destruct (orders d !! i). }
  apply stmt_rows. intros i r _. case_decide; [by subst | constructor].
Qed.

Lemma stmts_insert (o : Order.t) (u n : datetime) (d : db) : ok o -> stmts d (insert_order o u n d).
Proof. intros. by apply stmts_one, stmt_order. Qed.

Lemma stmts_trades (ts : list Trade.t) (d : db) : stmts d (fold_left (fun d t => insert_trade t d) ts d).
Proof. apply stmts_fold_all. intros t d0. apply stmts_one, stmt_trade. Qed.

Lemma stmts_balances (m : gmap (string * string) BalanceRow) (d : db) : stmts d (set_balances m d).
Proof. apply stmts_one, stmt_balances. Qed.

Lemma stmts_upserts (ds : list ((string * string) * (decimal * decimal))) (d : db) : stmts d (settle_upserts ds d).
Proof. apply stmts_fold_all. intros e d0. apply stmts_balances. Qed.

Lemma stmts_settle_batch (ds : list ((string * string) * (decimal * decimal))) (d : db) : stmts d (settle_batch ds d).
Proof. apply stmts_fold_all. intros e d0. apply stmts_balances. Qed.

Lemma stmts_update (o : Order.t) (now : datetime) (d : db) :
  ok o -> stmts d (update_order (Order.remaining o) (status_str (Order.status o)) now (Order.id o) d).
Proof. intros Ho. apply stmts_alter. intros r. by apply row_updated. Qed.

Lemma stmts_fills (now : datetime) (fills : list LuaTrade.t) (d : db) :
  Forall fill_ok fills -> stmts d (update_resting_orders_after_lua now fills d).
Proof. apply stmts_fold. intros f d0 Hf. apply stmts_alter. intros r. by constructor. Qed.

Lemma stmts_fill_batch (now : datetime) (fills : list LuaTrade.t) (d : db) :
  Forall fill_ok fills -> stmts d (fill_resting_batch fills now d).
Proof.
  intros Hf. apply stmts_one. unfold fill_resting_batch.
  apply stmt_rows. intros id r _. destruct (fill_of id fills) as [q |] eqn:E; [| constructor].
  apply row_filled. unfold fill_of in E. apply fmap_Some in E as (f & Hh & ->).
  apply head_Some_elem_of in Hh as [_ Hin]%list_elem_of_filter. rewrite Forall_forall in Hf. by apply Hf.
Qed.

Lemma stmts_release (o : Order.t) (d d' : db) : release_leftover o d = Ok d' -> stmts d d'.
Proof.
  unfold release_leftover. case_cond; [| by intros [= <-]].
  destruct (remaining_locked o); [| done]. intros [= <-]. apply stmts_balances.
Qed.

Lemma stmts_transaction (f : db -> result db) (d : db) :
  (forall d', f d = Ok d' -> stmts d d') -> stmts d (transaction f d).1.
Proof. intros Hf. unfold transaction. destruct (f d) as [d' |] eqn:E; [by apply Hf | done]. Qed.

Lemma stmts_batch_trades (ts : list Trade.t) (m m' : deltas) (d d' : db) :
  batch_trades ts m d = Ok (m', d') -> stmts d d'.
Proof.
  rewrite batch_trades_split. destruct (balance_deltas ts m); [| done]. intros [= _ <-]. apply stmts_trades.
Qed.

Lemma stmts_release_batch (batch : list PersistJob.t) (d d' : db) : release_batch batch d = Ok d' -> stmts d d'.
Proof.
  revert d. induction batch as [| job batch IH]; intros d E; [by injection E as <- |]. cbn in E.
  destruct (release_leftover _ d) as [d1 |] eqn:El; [| done].
  eapply stmts_trans; [by eapply stmts_release | by apply IH].
Qed.

(** *** Persistence *)

Lemma stmts_persist_order (now pg_now : datetime) (o : Order.t) (ts : list Trade.t) (fills : list LuaTrade.t) (d : db) :
  ok o -> Forall fill_ok fills -> stmts d (persist_order now pg_now o ts fills d).1.
Proof.
  intros Ho Hf. apply stmts_transaction. intros d' E. unfold persist_order_tx in E.
  destruct (balance_deltas ts ∅) as [m |]; [| done]. cbn in E.
  eapply stmts_trans; [by apply stmts_insert |]. eapply stmts_trans; [apply stmts_trades |].
  eapply stmts_trans; [apply stmts_settle_batch |].
  eapply stmts_trans; [by apply stmts_fill_batch |]. eapply stmts_trans; [| by eapply stmts_release].
  case_cond; [done | by apply stmts_update].
Qed.

Record job_ok (job : PersistJob.t) : Prop := {
  jo_order : ok (PersistJob.order job);
  jo_fills : Forall fill_ok (PersistJob.lua_trades job);
}.

Lemma stmts_persist_batch (now pg_now : datetime) (batch : list PersistJob.t) (d : db) :
  Forall job_ok batch -> stmts d (process_persist_batch now pg_now batch d).1.
Proof.
  intros Hb. unfold process_persist_batch.
  assert (stmts d (transaction (persist_batch_tx now pg_now batch) d).1) as Ht.
  { apply stmts_transaction. intros d' E. unfold persist_batch_tx in E.
    destruct (batch_trades _ _ _) as [[m d2] |] eqn:Et; [| done]. cbn in E.
    apply stmts_release_batch in E. eapply stmts_trans; [| exact E].
    eapply stmts_trans; [| eapply stmts_fold; [| exact Hb]; intros job d0 Hj; apply stmts_update, Hj].
    eapply stmts_trans; [| eapply stmts_fold; [| exact Hb]; intros job d0 Hj; apply stmts_fills, Hj].
    eapply stmts_trans; [| apply stmts_upserts]. eapply stmts_trans; [| by eapply stmts_batch_trades].
    eapply stmts_fold; [| exact Hb]. intros job d0 Hj. apply stmts_insert, Hj. }
  destruct (transaction _ d) as [d1 [u | e]]; [| done]. cbn [fst]. by rewrite audit_jobs_id.
Qed.

(** A job on its own stops at its first error and keeps what it did before it. *)
Lemma stmts_persist_job (now pg_now : datetime) (job : PersistJob.t) (d : db) :
  job_ok job -> stmts d (process_persist_job now pg_now job d).1.
Proof.
  intros [Ho Hf]. unfold process_persist_job. cbn zeta. cbn [insert_audit_event fst].
  set (d0 := insert_order_db (PersistJob.order job) pg_now d). rewrite persist_trades_split.
  assert (stmts d d0) as H0 by (by apply stmts_insert).
  destruct (batch_trades _ ∅ d0) as [[m d1] | e] eqn:Et; [| done]. eapply stmts_trans; [exact H0 |].
  eapply stmts_trans; [by eapply stmts_batch_trades |]. eapply stmts_trans; [apply stmts_upserts |].
  eapply stmts_trans; [by apply (stmts_fills now) |]. eapply stmts_trans; [by apply (stmts_update (PersistJob.order job) now) |].
  pose proof (release_same (PersistJob.order job)
    (update_order_db now (PersistJob.order job)
       (update_resting_orders_after_lua now (PersistJob.lua_trades job) (settle_upserts (sorted_deltas m) d1)))) as H.
  destruct (release_leftover _ _) as [d2 | e] eqn:El; rewrite H; [by eapply stmts_release | done].
Qed.
End Operations.

(** ** What the match hands to the channel *)

Section Jobs.
Context `{C : Crates, L : !CratesLaws C, X : !Sqlx C, XL : !SqlxLaws C L X, V : Valkey, J : SerdeJson}.
Context (asked : uuid -> Q) (st : WorkerState.t).

(** A pair whose lot is a whole number of units and whose sizes an i64 of units can
    hold, as the seed's pairs are: the orders it validates are exact in the cache. *)
Record sane_pair (cfg : PairConfig.t) : Prop := {
  sp_lot : on_grid (PairConfig.lot_size cfg);
  sp_lot_pos : 0 < units (PairConfig.lot_size cfg);
  sp_min : (0 <= dval (PairConfig.min_order_size cfg))%Q;
  sp_max : (dval (PairConfig.max_order_size cfg) < 2 ^ 63 # 100000000)%Q;
}.

Context (Hst : map_Forall (fun _ => sane_pair) (WorkerState.pairs_cache st)).

Lemma validated_amount (o : Order.t) :
  validate_order (WorkerState.pairs_cache st) o = Ok tt ->
  on_grid (Order.quantity o) /\ 0 <= units (Order.quantity o).
Proof.
  unfold validate_order. intros H.
  destruct (WorkerState.pairs_cache st !! Order.pair_id o) as [cfg |] eqn:E; [| done].
  destruct (Hst _ _ E) as [[Hl Hlb] Hlp Hmin Hmax]. cbn [ok_or mbind result_bind] in H.
  apply bind_ok in H as (? & _ & H). apply bind_ok in H as (? & Hrem%bail_if_ok & H).
  apply bind_ok in H as (? & Hr%bail_if_ok & _).
  apply negb_false_iff, dec_eqb_val in Hrem. apply orb_false_elim in Hr as [Hlo Hhi].
  apply not_true_iff_false in Hlo, Hhi. rewrite dec_ltb_val in Hlo, Hhi. apply Qnot_lt_le in Hlo, Hhi.
  assert (~ (dval (PairConfig.lot_size cfg) == 0)%Q) as Hnz.
  { rewrite Hl. unfold Qeq; cbn. lia. }
  rewrite dec_rem_val, dec_zero_val in Hrem by done.
  set (k := Qtrunc _) in Hrem.
  assert (dval (Order.quantity o) == (k * units (PairConfig.lot_size cfg)) # 100000000)%Q as Hq.
  { transitivity (dval (PairConfig.lot_size cfg) * inject_Z k)%Q; [lra |]. rewrite Hl.
    unfold Qeq, Qmult, inject_Z; cbn [Qnum Qden]. rewrite Pos.mul_1_r. lia. }
  assert (0 <= k * units (PairConfig.lot_size cfg) < 2 ^ 63) as Hk.
  { assert ((0 <= (k * units (PairConfig.lot_size cfg)) # 100000000)%Q) as H1 by (rewrite <- Hq; lra).
    assert (((k * units (PairConfig.lot_size cfg)) # 100000000 < 2 ^ 63 # 100000000)%Q) as H2 by (rewrite <- Hq; lra).
    unfold Qle, Qlt in *; cbn [Qnum Qden] in *. lia. }
  destruct (grid_intro (2 ^ 63) _ _ Hq) as [Hg Hu]; [lia |]. split; [done | lia].
Qed.

Lemma units_nonneg (d : decimal) : 0 <= units d -> (0 <= dval d)%Q.
Proof.
  unfold units, unitsQ. intros H. pose proof (Qfloor_le (dval d * inject_Z SCALE)) as Hf.
  revert H Hf. generalize (Qfloor (dval d * inject_Z SCALE)) as z. intros z H Hf.
  assert (0 <= inject_Z z)%Q as H0 by (by rewrite (Zle_Qle 0) in H).
  unfold SCALE in *. change (inject_Z 100000000) with (100000000 # 1)%Q in *. lra.
Qed.

Lemma matched_ok (o : Order.t) (t : datetime) (m : LuaMatchResult.t) :
  on_grid (Order.quantity o) -> answer_ok o m -> (dval (Order.quantity o) == asked (Order.id o))%Q ->
  order_ok asked (matched o t m) /\ Forall fill_ok (LuaMatchResult.trades m).
Proof.
  intros [Hq _] [[[Hr _] [H0 H1]] Hf Ht] Ha. split.
  - unfold matched. constructor; cbn; [done | |].
    + rewrite <- Ha, Hq, Hr. unfold Qle; cbn [Qnum Qden]. lia.
    + intros Hs. rewrite Hr, (Hf Hs). reflexivity.
  - eapply Forall_impl; [exact Ht |]. intros f Hp. apply units_nonneg. cbn in Hp. lia.
Qed.

(** The messages of a queue name their orders. *)
Definition names_orders (e : Env.t) (m : string) : Prop :=
  forall j o, json_from_str m = Some j -> read_queued_order e j = Ok o ->
    (dval (Order.quantity o) == asked (Order.id o))%Q.

(** An order task leaves the channel as it is, or adds one job of sound amounts. *)
Lemma queued_order_job (subs : nat) (lua_ms : Z) (e : Env.t) (m : string) (s s' : store) (wk wk' : worker)
    (r : result unit) :
  names_orders e m -> process_queued_order st subs lua_ms e m s wk = (s', wk', r) ->
  wk_persist wk' = wk_persist wk \/
  exists job, wk_persist wk' = wk_persist wk ++ [job] /\ job_ok asked job.
Proof.
  intros Hn H. unfold process_queued_order in H.
  destruct (json_from_str m) as [j |] eqn:Ej; [| left; by injection H as _ <- _]. cbn [ok_or mbind result_bind] in H.
  destruct (read_queued_order e j) as [o |] eqn:Eo; [| left; by injection H as _ <- _]. cbn [mbind result_bind] in H.
  destruct (validate_order _ o) as [[] |] eqn:Ev; [| left; by injection H as _ <- _]. cbn [mbind result_bind] in H.
  destruct (lock_params o) as [l |]; [| left; by injection H as _ <- _]. cbn [mbind result_bind mret result_ret] in H.
  assert (Order.tif o <> FOK ->
    match WorkerState.pair_keys st !! Order.pair_id o with
    | None => (s, wk, Err ("unknown pair_id: " +:+ Order.pair_id o))
    | Some keys => match match_order_lua o keys l.1 l.2 s with
                   | (s, Err m) => (s, wk, Err m)
                   | (s, Ok r) => (s, hand_on subs e (matched o (Env.clock e 2%nat) r) r lua_ms wk, Ok tt)
                   end
    end = (s', wk', r) ->
    wk_persist wk' = wk_persist wk \/ exists job, wk_persist wk' = wk_persist wk ++ [job] /\ job_ok asked job) as Hm.
  { intros _ Hm. destruct (WorkerState.pair_keys st !! Order.pair_id o) as [keys |]; [| left; by injection Hm as _ <- _].
    destruct (match_order_lua o keys l.1 l.2 s) as [s1 [a | e1]] eqn:Ea; [| left; by injection Hm as _ <- _].
    injection Hm as _ <- _. right. eexists. split; [reflexivity |].
    destruct (validated_amount o Ev) as [Hg H0].
    pose proof (match_order_lua_answer o keys l.1 l.2 s s1 a Hg H0 Ea) as Hans.
    destruct (matched_ok o (Env.clock e 2%nat) a Hg Hans (Hn j o Ej Eo)) as [Hok Hf]. by constructor. }
  destruct (Order.tif o); [by apply Hm | by apply Hm | left; by injection H as _ <- _].
Qed.
End Jobs.

(** ** The steps of the system *)

Section System.
Context `{C : Crates, L : !CratesLaws C, X : !Sqlx C, XL : !SqlxLaws C L X, V : Valkey, J : SerdeJson}.
Context (asked : uuid -> Q) (st : WorkerState.t).

Definition set_stores (x : store * db) (w : process) : process := mk_process C V x.1 x.2 (p_worker w).

Definition set_jobs (jobs : list PersistJob.t) (wk : worker) : worker :=
  mk_worker (wk_metrics wk) (wk_dirty_users wk) jobs (wk_dirty_books wk) (wk_events wk).

(** Everything that runs beside each other while the process serves orders.  A job
    leaves the channel in a batch, or alone when the channel was full; [sys_cache]
    and [sys_channels] are whatever else happens in Valkey and to the other channels. *)
Inductive sys_step : process -> process -> Prop :=
| sys_order x m w : names_orders asked (in_env x) m -> sys_step w (handle st Orders x m w).1
| sys_cancel x m w : sys_step w (handle st Cancellations x m w).1
| sys_batch now pg_now w w' : persist_round now pg_now w = Some w' -> sys_step w w'
| sys_alone now pg_now pre job post w :
    wk_persist (p_worker w) = pre ++ job :: post ->
    sys_step w (mk_process C V (p_kv w) (process_persist_job now pg_now job (p_db w)).1
                  (set_jobs (pre ++ post) (p_worker w)))
| sys_inline ws answer e payload w :
    (forall o, read_order e payload = Ok o -> (dval (Order.quantity o) == asked (Order.id o))%Q) ->
    sys_step w (set_stores (process_order ws answer st e payload (p_kv w, p_db w)).1 w)
| sys_balances n w : sys_step w (set_stores (reset_balances n (p_kv w, p_db w)) w)
| sys_cache s w : sys_step w (set_stores (s, p_db w) w)
| sys_channels wk w : wk_persist wk = wk_persist (p_worker w) -> sys_step w (mk_process C V (p_kv w) (p_db w) wk).

(** The administration's commands: the two truncations, which forget every order, and
    [exec_sql], [query] and [run_migrations], which run the administrators' own SQL, here
    any change of the database that leaves its rows sound and its recorded trades. *)
Inductive admin_step : process -> process -> Prop :=
| admin_reset n w : admin_step w (set_stores (reset_all n (p_kv w, p_db w)) w)
| admin_truncate w : admin_step w (set_stores (truncate_orders (p_kv w, p_db w)).1 w)
| admin_sql d w : db_ok asked d -> trades (p_db w) ⊆ trades d -> admin_step w (set_stores (p_kv w, d) w).

Definition any_step (w w' : process) : Prop := sys_step w w' \/ admin_step w w'.

(** Sound rows in the database, sound amounts in the channel. *)
Record process_ok (w : process) : Prop := {
  po_db : db_ok asked (p_db w);
  po_jobs : Forall (job_ok asked) (wk_persist (p_worker w));
}.

Lemma stmts_cancel_one (now pg_now : datetime) (id : uuid) (user : string) (c : cstate) :
  statements asked (cs_db c) (cs_db (cancel_one now pg_now id user c)).
Proof.
  unfold cancel_one. destruct (order_of_user id user (cs_db c)) as [r |]; [| done].
  destruct (decide _); [| done]. cbn zeta. destruct (cancel_release r). cbn [cs_db].
  eapply stmts_trans; [apply stmts_alter; intros r0; apply row_cancelled | apply stmts_balances].
Qed.

Lemma stmts_cancel_again (now pg_now : datetime) (id user : string) (c : cstate) :
  statements asked (cs_db c) (cs_db (cancel_again now pg_now id user c).1).
Proof.
  unfold cancel_again. destruct (json_from_str _) as [j |]; [| done].
  unfold cancel_branch. destruct (mbind _ _); [apply stmts_cancel_one | done].
Qed.

Lemma stmts_cancellation (now pg_now : datetime) (m : string) (c : cstate) :
  statements asked (cs_db c) (cs_db (process_cancellation now pg_now m c).1).
Proof.
  unfold process_cancellation. destruct (json_from_str m) as [j |]; [| done]. cbn zeta.
  destruct (decide _).
  { unfold cancel_branch. destruct (mbind _ _); [apply stmts_cancel_one | done]. }
  destruct (decide _).
  { unfold modify_branch. destruct (get_str "order_id" j) as [id |]; [| done].
    pose proof (stmts_cancel_again now pg_now id (default EmptyString (get_str "user_id" j)) c) as H.
    destruct (cancel_again _ _ _ _ c) as [c1 [[] | msg]]; [| done]. by destruct (get "new_order" j). }
  destruct (decide _); [| done]. unfold cancel_all_branch. cbn [fst].
  generalize (open_orders (default "user-1" (get_str "user_id" j)) (get_str "pair_id" j) (cs_db c)).
  intros ids. revert c. induction ids as [| id ids IH]; intros c; [done |]. cbn [fold_left].
  eapply stmts_trans; [apply stmts_cancel_again | apply IH].
Qed.

Context (Hst : map_Forall (fun _ => sane_pair) (WorkerState.pairs_cache st)).

Lemma stmts_process_order (ws : bool) (answer : post -> PostResult) (e : Env.t) (payload : Json) (w : store * db) :
  (forall o, read_order e payload = Ok o -> (dval (Order.quantity o) == asked (Order.id o))%Q) ->
  statements asked w.2 (process_order ws answer st e payload w).1.2.
Proof.
  intros Hn. unfold process_order. destruct (read_order e payload) as [o | m] eqn:Eo; [| done].
  cbn [mbind result_bind]. destruct (validate_order _ o) as [[] | m] eqn:Ev; [| done].
  destruct (validated_amount st Hst o Ev) as [Hg H0]. cbn [mbind result_bind mret result_ret].
  destruct (Order.tif o); try done; (destruct (mbind _ _) as [[l keys] | m]; [| done]); unfold match_and_persist;
    (destruct (match_order_lua o keys l.1 l.2 w.1) as [s [a | m]] eqn:Ea; [| done]); cbn zeta;
    (destruct (is_warmup _); [done |]);
    pose proof (match_order_lua_answer o keys l.1 l.2 w.1 s a Hg H0 Ea) as Hans;
    destruct (matched_ok asked o (Env.clock e 2%nat) a Hg Hans (Hn o eq_refl)) as [Hok Hf];
    match goal with |- context [persist_order ?n ?p ?o ?ts ?fs ?d] =>
      pose proof (stmts_persist_order asked n p o ts fs d Hok Hf) as Hp; by destruct (persist_order n p o ts fs d) as [d1 [u | m1]] end.
Qed.

Lemma reset_users_stmts (n : nat) (d : db) : statements asked d (reset_user_balances n d).
Proof.
  apply stmts_fold_all. intros i d0. eapply stmts_trans; apply stmts_balances.
Qed.

(** A step of the service is a sequence of statements and keeps the channel sound. *)
Lemma sys_step_stmts (w w' : process) :
  sys_step w w' -> process_ok w ->
  statements asked (p_db w) (p_db w') /\ Forall (job_ok asked) (wk_persist (p_worker w')).
Proof.
  intros H [Hd Hj]. destruct H as [x m w Hn | x m w | now pg_now w w' E | now pg_now pre job post w E
    | ws answer e payload w Hn | n w | s w | wk w E].
  - cbn [handle]. destruct (process_queued_order _ _ _ _ _ _ _) as [[s wk] r] eqn:E. cbn. split; [done |].
    apply (queued_order_job asked st Hst) in E as [-> | (job & -> & Hok)]; [done | | done].
    apply Forall_app. split; [done |]. by constructor.
  - cbn [handle]. pose proof (stmts_cancellation (Env.clock (in_env x) 0%nat) (Env.pg_now (in_env x)) m
      (mk_cstate C V (p_kv w) (p_db w) (wk_dirty_users (p_worker w)))) as H.
    destruct (process_cancellation _ _ _ _) as [c r]. by split.
  - unfold persist_round in E. destruct (wk_persist (p_worker w)) as [| job jobs]; [done |].
    unfold next_batch in E. cbn zeta in E.
    pose proof (stmts_persist_batch asked now pg_now (take 50 (job :: jobs)) (p_db w) ltac:(by apply Forall_take)) as H.
    destruct (process_persist_batch _ _ _ _) as [d r]. injection E as <-. split; [done |]. exact (Forall_drop _ 50 _ Hj).
  - rewrite E in Hj. apply Forall_app in Hj as [H1 [H2 H3]%Forall_cons]. split; [by apply stmts_persist_job |].
    by apply Forall_app.
  - split; [by apply (stmts_process_order ws answer e payload (p_kv w, p_db w)) | done].
  - split; [apply reset_users_stmts | done].
  - by split.
  - split; [done |]. cbn. by rewrite E.
Qed.

Lemma sys_step_ok (w w' : process) : sys_step w w' -> process_ok w -> process_ok w'.
Proof. intros H Hw. destruct (sys_step_stmts w w' H Hw) as [Hs Hj]. split; [| done]. eapply statements_ok; [exact Hs | apply Hw]. Qed.

Lemma empty_orders_ok (d : db) : orders d = ∅ -> db_ok asked d.
Proof. intros E. split; [intros id r Hr | intros id ? r ? Hr]; by rewrite E, lookup_empty in Hr. Qed.

Lemma admin_step_ok (w w' : process) : admin_step w w' -> process_ok w -> process_ok w'.
Proof.
  intros H [_ Hj]. destruct H as [n w | w | d w Hd _].
  - split; [| done]. apply empty_orders_ok. apply (reset_users_orders n (truncate_orders_table (p_db w))).
  - split; [| done]. apply empty_orders_ok. unfold truncate_orders. by destruct (v_incrby _ _ _) as [s r].
  - by split.
Qed.

Lemma any_steps_ok (w w' : process) : rtc any_step w w' -> process_ok w -> process_ok w'.
Proof.
  induction 1 as [| w w1 w' [H | H] _ IH]; [done | |]; intros Hw; apply IH;
    [by eapply sys_step_ok | by eapply admin_step_ok].
Qed.

(** Whatever the service and its administration do, from a sound database on every
    order row has a remainder between zero and its quantity, which is the quantity
    its message asked for, a filled row has nothing left, and no two rows share a
    sequence number. *)
Theorem remaining_bounded (w w' : process) :
  process_ok w -> rtc any_step w w' ->
  (forall id r, orders (p_db w') !! id = Some r ->
     (OrderRow.quantity r == asked id)%Q /\ (0 <= OrderRow.remaining r <= OrderRow.quantity r)%Q /\
     (OrderRow.status r = "Filled" -> (OrderRow.remaining r == 0)%Q) /\
     OrderRow.sequence r < order_seq (p_db w')) /\
  (forall id id' r r', orders (p_db w') !! id = Some r -> orders (p_db w') !! id' = Some r' ->
     OrderRow.sequence r = OrderRow.sequence r' -> id = id').
Proof.
  intros Hw H. apply (any_steps_ok w w' H) in Hw as [[Hr Hs] _]. split; [| exact Hs].
  intros id r [? ? ? ?]%Hr. repeat (split; [assumption |]). assumption.
Qed.

Lemma admin_step_trades (w w' : process) : admin_step w w' -> trades (p_db w) ⊆ trades (p_db w').
Proof.
  destruct 1 as [n w | w | d w _ Ht]; [| | exact Ht].
  - assert (trades (reset_user_balances n (truncate_orders_table (p_db w))) = trades (p_db w)) as E.
    { unfold reset_user_balances. rewrite <- fold_left_rev_right. by induction (rev (seq 1 n)). }
    change (trades (p_db w) ⊆ trades (reset_user_balances n (truncate_orders_table (p_db w)))). by rewrite E.
  - unfold truncate_orders. by destruct (v_incrby _ _ _).
Qed.

Lemma sys_step_history (w w' : process) : sys_step w w' -> process_ok w -> keeps_history (p_db w) (p_db w').
Proof. intros H Hw. eapply statements_keep. apply (proj1 (sys_step_stmts w w' H Hw)). Qed.

(** C12: the service keeps its history: while no administrator's command runs, an
    order's row stays, with the terms it was accepted with and a version that never
    goes back, and new rows get later sequence numbers; a trade, once recorded,
    stays as it was recorded through [reset_all] and [truncate_orders] too, which empty
    the orders table, and through the administrators' own SQL and migrations as far
    as these leave the recorded trades and sound rows. *)
Theorem history_kept (w w' : process) :
  process_ok w ->
  (rtc sys_step w w' -> keeps_history (p_db w) (p_db w')) /\
  (rtc any_step w w' -> trades (p_db w) ⊆ trades (p_db w')).
Proof.
  intros Hw. split; intros H; revert Hw.
  - induction H as [w | w w1 w' H _ IH]; intros Hw; [done |].
    etransitivity; [by apply sys_step_history | apply IH; by eapply sys_step_ok].
  - induction H as [w | w w1 w' [H | H] _ IH]; intros Hw; [done | |].
    + etransitivity; [apply (kh_trades _ _ (sys_step_history w w1 H Hw)) | apply IH; by eapply sys_step_ok].
    + etransitivity; [apply (admin_step_trades w w1 H) | apply IH; by eapply admin_step_ok].
Qed.
End System.

Module SystemExamples.
Import RefCrates RefValkey RefJson RefDb MatchLuaExamples OrderFlowExamples RowsExamples.

Definition two (id : @uuid ref_crates) : Q := 2%Q.

Definition idle : @worker ref_crates := mk_worker MetricsBatch.new [] [] [] [].

Definition before : @process ref_crates ref_valkey := mk_process ref_crates ref_valkey market empty_db idle.

Definition bid_text : string := json_to_string (message "Buy" "GTC" 101 2).

Definition the_input : @input ref_crates := mk_input ref_crates 0 0 env.

(** The order task, then a turn of the persistence worker. *)
Definition after_task : @process ref_crates ref_valkey := (handle state Orders the_input bid_text before).1.

Definition after_batch : @process ref_crates ref_valkey := default after_task (persist_round at_0 at_0 after_task).

Lemma before_ok : process_ok two before.
Proof. split; [by apply empty_orders_ok | constructor]. Qed.

Lemma state_sane : map_Forall (fun _ => sane_pair) (WorkerState.pairs_cache state).
Proof.
  change (map_Forall (fun _ : string => sane_pair) ({[ "BTC-USDT" := btc_usdt ]} : gmap string PairConfig.t)).
  intros p cfg [_ <-]%lookup_singleton_Some. constructor; by vm_compute.
Qed.

Lemma bid_named : names_orders two env bid_text.
Proof.
  assert (match json_from_str bid_text with
          | Some j => match read_queued_order env j with Ok o => Qeq_bool (Order.quantity o) 2 | Err _ => true end
          | None => true
          end = true) as H by (vm_compute; reflexivity).
  intros j o Ej Eo. rewrite Ej, Eo in H. by apply Qeq_bool_iff in H.
Qed.

Lemma run_steps : rtc (sys_step two state) before after_batch.
Proof.
  eapply rtc_l; [apply (sys_order two state the_input bid_text before), bid_named |].
  apply rtc_once, (sys_batch two state at_0 at_0). fold after_task. unfold after_batch.
  assert (match persist_round at_0 at_0 after_task with Some _ => true | None => false end = true) as H
    by (vm_compute; reflexivity).
  by destruct (persist_round at_0 at_0 after_task).
Qed.

Lemma run_any_steps : rtc (any_step two state) before after_batch.
Proof. eapply rtc_subrel; [| apply run_steps]. intros w w' H. by left. Qed.

Lemma remaining_bounded_witness :
  shown 1 (p_db after_batch) = Some (0%Q, "Filled") /\
  (forall id r, orders (p_db after_batch) !! id = Some r -> (0 <= OrderRow.remaining r <= OrderRow.quantity r)%Q).
Proof.
  split; [vm_compute; reflexivity |]. intros id r Hr.
  exact (proj1 (proj2 (proj1 (remaining_bounded two state state_sane before after_batch before_ok run_any_steps) id r Hr))).
Defined.

Lemma history_kept_witness : keeps_history (p_db before) (p_db after_batch) /\ base.size (trades (p_db after_batch)) = 2%nat.
Proof.
  split; [exact (proj1 (history_kept two state state_sane before after_batch before_ok) run_steps) | vm_compute; reflexivity].
Defined.
End SystemExamples.
