(* ===== verification/Dispatch.v ===== *)
(** * The two dispatch modes

    The gateway processes an order inline, or queues it for the worker, which
    persists it from a batch: two pieces of code for one purpose.  Up to the
    columns that record when a row was written they leave the same database, and
    the same Valkey but for the views and the subscriptions.  The relations are
    equivalences that the statements respect, so that the two programs are
    compared statement by statement. *)

From S2P Require Import Prelude Numbers Externals Fixed Types Codec Valkey Book MatchLua Json Db.
From S2P Require Import Persist PersistProps Views Metrics Ws OrderFlow OrderFlowProps MatchLuaExamples OrderFlowExamples.
From S2P Require Import Cancel Consumers Gateway GatewayProps Pipeline Rows.

Open Scope Z_scope.

(** ** Databases up to the time of writing *)

Section Alike.
Context `{C : Crates, X : !Sqlx C}.

(** A row without its version and the times it was written at. *)
Definition core (r : OrderRow.t) : OrderRow.t :=
  OrderRow.mk (OrderRow.user_id r) (OrderRow.pair_id r) (OrderRow.side r) (OrderRow.order_type r) (OrderRow.tif r)
    (OrderRow.price r) (OrderRow.quantity r) (OrderRow.remaining r) (OrderRow.status r) (OrderRow.stp_mode r) 0
    (OrderRow.sequence r) (OrderRow.created_at r) (OrderRow.created_at r) (OrderRow.client_order_id r)
    (OrderRow.received_at r) (OrderRow.matched_at r) None.

Record db_alike (d d' : db) : Prop := {
  al_orders : forall id, core <$> orders d !! id = core <$> orders d' !! id;
  al_trades : trades d = trades d';
  al_balances : balances d = balances d';
  al_order_seq : order_seq d = order_seq d';
  al_trade_seq : trade_seq d = trade_seq d';
}.

#[export] Instance db_alike_equivalence : Equivalence db_alike.
Proof.
  split.
  - done.
  - intros d d' []. by split.
  - intros d1 d2 d3 [] []. split; [intros id | ..]; etransitivity; eauto.
Qed.

Lemma core_set (rem : Q) (s : string) (v v' : Z) (u u' : datetime) (r r' : OrderRow.t) :
  core r = core r' -> core (OrderRow.set rem s v u r) = core (OrderRow.set rem s v' u' r').
Proof.
  intros H. change (OrderRow.set rem s 0 (OrderRow.created_at (core r)) (core r)
                    = OrderRow.set rem s 0 (OrderRow.created_at (core r')) (core r')). by rewrite H.
Qed.

Lemma core_fill (qty : decimal) (now now' : datetime) (r r' : OrderRow.t) :
  core r = core r' -> core (fill_row qty now r) = core (fill_row qty now' r').
Proof.
  intros H. assert (OrderRow.status r = OrderRow.status r') as Es by (exact (f_equal OrderRow.status H)).
  assert (OrderRow.remaining r = OrderRow.remaining r') as Er by (exact (f_equal OrderRow.remaining H)).
  unfold fill_row. rewrite Es, Er. destruct (decide _); [by apply core_set | done].
Qed.

(** Statements on rows that exist. *)
Lemma alike_orders (f f' : uuid -> OrderRow.t -> OrderRow.t) (m m' : gmap uuid OrderRow.t) (d d' : db) :
  (forall id, m !! id = f id <$> orders d !! id) -> (forall id, m' !! id = f' id <$> orders d' !! id) ->
  (forall id r r', orders d !! id = Some r -> core r = core r' -> core (f id r) = core (f' id r')) ->
  db_alike d d' -> db_alike (set_orders m d) (set_orders m' d').
Proof.
  intros Hm Hm' Hf [Ho Ht Hb Hs Hq]. split; try done. intros id. cbn [orders set_orders]. rewrite Hm, Hm'.
  specialize (Ho id). specialize (Hf id). destruct (orders d !! id) as [r |], (orders d' !! id) as [r' |]; try done.
  cbn. f_equal. apply Hf; [done | by apply (inj Some)].
Qed.

#[export] Instance set_balances_proper : Proper (eq ==> db_alike ==> db_alike) set_balances.
Proof. intros m ? <- d d' []. by split. Qed.

#[export] Instance insert_trade_proper (t : Trade.t) : Proper (db_alike ==> db_alike) (insert_trade t).
Proof. intros d d' [? Ht ? ? Hq]. unfold insert_trade. rewrite Ht, Hq. split; cbn; auto. Qed.

#[export] Instance insert_trades_proper (ts : list Trade.t) :
  Proper (db_alike ==> db_alike) (fold_left (fun d t => insert_trade t d) ts).
Proof. induction ts as [| t ts IH]; intros d d' H; [done |]. cbn [fold_left]. by apply IH, insert_trade_proper. Qed.

#[export] Instance settle_update_proper (ld ai : decimal) (k : string * string) :
  Proper (db_alike ==> db_alike) (settle_update ld ai k).
Proof. intros d d' H. unfold settle_update. rewrite (al_balances _ _ H). by apply set_balances_proper. Qed.

#[export] Instance settle_batch_proper (ds : list ((string * string) * (decimal * decimal))) :
  Proper (db_alike ==> db_alike) (settle_batch ds).
Proof.
  unfold settle_batch. induction ds as [| e ds IH]; intros d d' H; [done |]. cbn [fold_left]. by apply IH, settle_update_proper.
Qed.

Lemma alike_conflict (o : Order.t) (d d' : db) : db_alike d d' -> order_conflict o d -> order_conflict o d'.
Proof.
  intros [Ho _ _ _ _] [[r Hr] | (id & r & Hr & Hu & Hc & He)%map_Exists_lookup].
  - left. specialize (Ho (Order.id o)). rewrite Hr in Ho. by destruct (orders d' !! _).
  - right. specialize (Ho id). rewrite Hr in Ho. destruct (orders d' !! id) as [r' |] eqn:Hr'; [| done].
    apply map_Exists_lookup. exists id, r'. split; [done |]. cbn in Ho.
    assert (core r = core r') as E by (by apply (inj Some)). unfold same_client_order.
    by rewrite <- (f_equal OrderRow.user_id E : OrderRow.user_id r = OrderRow.user_id r'),
      <- (f_equal OrderRow.client_order_id E : OrderRow.client_order_id r = OrderRow.client_order_id r').
Qed.

Lemma insert_alike (o : Order.t) (u u' pg pg' : datetime) (d d' : db) :
  db_alike d d' -> db_alike (insert_order o u pg d) (insert_order o u' pg' d').
Proof.
  intros H. pose proof (alike_conflict o d d' H) as H1. pose proof (alike_conflict o d' d (symmetry H)) as H2.
  destruct H as [Ho Ht Hb Hs Hq]. unfold insert_order. split; cbn; try congruence.
  intros id. destruct (decide (order_conflict o d)), (decide (order_conflict o d')); try tauto; [apply Ho |].
  rewrite !lookup_insert. case_decide; [| apply Ho]. cbn. by rewrite Hs.
Qed.

(** Filling and closing rows. *)
Lemma fill_of_cons (id : uuid) (f : LuaTrade.t) (fills : list LuaTrade.t) :
  fill_of id (f :: fills) =
  if decide (LuaTrade.resting_order_id f = id) then Some (LuaTrade.quantity f) else fill_of id fills.
Proof. unfold fill_of. rewrite filter_cons. by destruct (decide _). Qed.

Lemma fill_of_fresh (id : uuid) (fills : list LuaTrade.t) :
  id ∉ (LuaTrade.resting_order_id <$> fills) -> fill_of id fills = None.
Proof.
  induction fills as [| f fills IH]; [done |]. intros [Hne Hn]%not_elem_of_cons. rewrite fill_of_cons.
  rewrite decide_False by congruence. by apply IH.
Qed.

Lemma filled_by_cons (id : uuid) (now : datetime) (f : LuaTrade.t) (fills : list LuaTrade.t) (r : OrderRow.t) :
  filled_by id now (f :: fills) r =
  filled_by id now fills (if decide (LuaTrade.resting_order_id f = id) then fill_row (LuaTrade.quantity f) now r else r).
Proof. done. Qed.

(** One UPDATE after the other, or one UPDATE for all: the same when no order is
    filled twice. *)
Lemma filled_once (id : uuid) (now : datetime) (fills : list LuaTrade.t) (r : OrderRow.t) :
  NoDup (LuaTrade.resting_order_id <$> fills) ->
  filled_by id now fills r = match fill_of id fills with Some qty => fill_row qty now r | None => r end.
Proof.
  revert r. induction fills as [| f fills IH]; intros r; [done |]. intros [Hn Hnd]%NoDup_cons.
  rewrite filled_by_cons, fill_of_cons, (IH _ Hnd). case_decide as E; [| done]. subst. by rewrite (fill_of_fresh _ _ Hn).
Qed.

Lemma fills_alike (now now' : datetime) (fills : list LuaTrade.t) (d d' : db) :
  NoDup (LuaTrade.resting_order_id <$> fills) -> db_alike d d' ->
  db_alike (fill_resting_batch fills now d) (update_resting_orders_after_lua now' fills d').
Proof.
  intros Hnd H.
  assert (update_resting_orders_after_lua now' fills d' =
          set_orders (orders (update_resting_orders_after_lua now' fills d')) d') as ->.
  { unfold update_resting_orders_after_lua. clear d Hnd H. revert d'. induction fills as [| f fills IH]; intros d; [by destruct d |].
    cbn [fold_left]. by rewrite IH. }
  unfold fill_resting_batch.
  apply (alike_orders (fun id r => match fill_of id fills with Some qty => fill_row qty now r | None => r end)
           (fun id => filled_by id now' fills)); [| | | exact H]; intros id.
  - rewrite map_lookup_imap. by destruct (orders d !! id).
  - apply fills_rows.
  - intros r r' _ Hr. rewrite (filled_once _ _ _ _ Hnd). destruct (fill_of id fills); [by apply core_fill | done].
Qed.


(** Settling with UPDATE or with INSERT ... ON CONFLICT: the same on rows that exist. *)
Lemma upsert_update (ld ai : decimal) (k : string * string) (d : db) :
  is_Some (balances d !! k) -> settle_upsert ld ai k d = settle_update ld ai k d.
Proof.
  intros [r Hr]. unfold settle_upsert, settle_update. f_equal. apply map_eq. intros k'.
  destruct (decide (k = k')) as [<- |]; [| by rewrite lookup_partial_alter_ne, lookup_alter_ne].
  by rewrite lookup_partial_alter_eq, lookup_alter_eq, Hr.
Qed.

Lemma settle_alike (ds : list ((string * string) * (decimal * decimal))) (d d' : db) :
  Forall (fun e => is_Some (balances d !! e.1)) ds -> db_alike d d' -> db_alike (settle_batch ds d) (settle_upserts ds d').
Proof.
  intros Hds. unfold settle_batch, settle_upserts. revert d d' Hds.
  induction ds as [| e ds IH]; intros d d' Hds H; [done |]. apply Forall_cons in Hds as [He Hds]. cbn [fold_left].
  rewrite upsert_update by (by rewrite <- (al_balances _ _ H)). apply IH; [| by apply settle_update_proper].
  eapply Forall_impl; [exact Hds |]. intros e' He'. rewrite settle_update_lookup. case_decide; [| done].
  by apply fmap_is_Some.
Qed.

Lemma release_alike (o : Order.t) (d d' : db) :
  db_alike d d' ->
  match release_leftover o d, release_leftover o d' with
  | Ok d1, Ok d1' => db_alike d1 d1'
  | Err e, Err e' => e = e'
  | _, _ => False
  end.
Proof.
  intros H. unfold release_leftover. case_cond; [| done]. destruct (remaining_locked o) as [l | e]; [| done].
  by apply settle_update_proper.
Qed.

(** The worker writes the final state of an order once more; the row has it already
    when the order rests. *)
Lemma update_alike (now now' : datetime) (o : Order.t) (d d' : db) :
  (order_rests o = true -> exists r, orders d !! Order.id o = Some r /\ row_shows o r) -> db_alike d d' ->
  db_alike (if order_rests o then d
            else update_order (Order.remaining o) (status_str (Order.status o)) now (Order.id o) d)
    (update_order_db now' o d').
Proof.
  intros Hr H. set (g := fun (u : datetime) (r : OrderRow.t) =>
    OrderRow.set (to_numeric (Order.remaining o)) (status_str (Order.status o)) (OrderRow.version r + 1) u r).
  assert (forall u (d : db) id, alter (g u) (Order.id o) (orders d) !! id =
            (fun r => if decide (Order.id o = id) then g u r else r) <$> orders d !! id) as Hl.
  { intros u d0 id. case_decide as E; [subst; apply lookup_alter_eq |].
    rewrite lookup_alter_ne by done. by destruct (orders d0 !! id). }
  unfold update_order_db, update_order. fold (g now) (g now'). destruct (order_rests o).
  - destruct (Hr eq_refl) as (r0 & Hr0 & Hrem & Hst). replace d with (set_orders (orders d) d) by (by destruct d).
    apply (alike_orders (fun _ r => r) (fun id r => if decide (Order.id o = id) then g now' r else r)); [| apply Hl | | done].
    { intros id. by destruct (orders d !! id). }
    intros id r r' Hid E. case_decide as Eid; [| done]. subst id. assert (r = r0) as -> by congruence.
    transitivity (core (g now' r0)); [| by apply core_set]. unfold g. rewrite <- Hrem, <- Hst. by destruct r0.
  - apply (alike_orders (fun id r => if decide (Order.id o = id) then g now r else r)
             (fun id r => if decide (Order.id o = id) then g now' r else r)); [apply Hl | apply Hl | | done].
    intros id r r' _ E. case_decide; [by apply core_set | done].
Qed.

(** What persisting needs: a new order, every order filled once and not by itself, and
    a balance row for each user and asset of the trades. *)
Record persistable (o : Order.t) (ts : list Trade.t) (fills : list LuaTrade.t) (d : db) : Prop := {
  ps_new : ~ order_conflict o d;
  ps_once : NoDup (Order.id o :: (LuaTrade.resting_order_id <$> fills));
  ps_rows : forall m key, balance_deltas ts ∅ = Ok m -> is_Some (m !! key) -> is_Some (balances d !! key);
}.


(** The gateway's transaction and the worker's batch of one job. *)
Lemma persist_tx_alike (now now' pg pg' : datetime) (o : Order.t) (ts : list Trade.t) (fills : list LuaTrade.t) (d d' : db) :
  persistable o ts fills d -> db_alike d d' ->
  match persist_order_tx now pg o ts fills d, persist_batch_tx now' pg' [PersistJob.mk o ts fills] d' with
  | Ok d1, Ok d1' => db_alike d1 d1'
  | Err e, Err e' => e = e'
  | _, _ => False
  end.
Proof.
  intros [Hnew [Hown Hnd]%NoDup_cons Hrows] H. unfold persist_order_tx, persist_batch_tx.
  cbn [fold_left mbind list_bind PersistJob.order PersistJob.trades PersistJob.lua_trades release_batch].
  rewrite app_nil_r, batch_trades_split. set (d0 := fold_left _ ts (insert_order o now pg d)).
  set (d0' := fold_left _ ts (insert_order_db o pg' d')).
  assert (db_alike d0 d0') as H0 by (by apply insert_trades_proper, insert_alike).
  destruct (balance_deltas ts ∅) as [m | e]; [| done]. cbn [mbind result_bind mret result_ret].
  assert (orders d0 = <[Order.id o := row_of_order o now pg (order_seq d)]> (orders d) /\ balances d0 = balances d) as [Eo Eb].
  { destruct (orders_insert_trades ts (insert_order o now pg d)) as [E1 E2]. unfold d0. rewrite E1, E2.
    unfold insert_order. cbn. by rewrite decide_False. }
  assert (db_alike (settle_batch (sorted_deltas m) d0) (settle_upserts (sorted_deltas m) d0')) as H1.
  { apply settle_alike; [| done]. rewrite sorted_deltas_entries, Eb. apply Forall_forall. intros [k e] Hin%elem_of_map_to_list.
    apply (Hrows m); [done |]. by exists e. }
  apply (fills_alike now now' fills) in H1; [| done].
  assert (order_rests o = true -> exists r, orders (fill_resting_batch fills now (settle_batch (sorted_deltas m) d0))
            !! Order.id o = Some r /\ row_shows o r) as Hr.
  { intros _. unfold fill_resting_batch. cbn [orders set_orders]. rewrite map_lookup_imap, orders_settle_batch, Eo, lookup_insert_eq.
    cbn. rewrite (fill_of_fresh _ _ Hown). by eexists. }
  pose proof (update_alike now now' o _ _ Hr H1) as H2. apply (release_alike o) in H2.
  destruct (release_leftover o _) as [d1 | e], (release_leftover o _) as [d1' | e']; done.
Qed.

Lemma persist_alike (now now' pg pg' : datetime) (o : Order.t) (ts : list Trade.t) (fills : list LuaTrade.t) (d d' : db) :
  persistable o ts fills d -> db_alike d d' ->
  db_alike (persist_order now pg o ts fills d).1 (process_persist_batch now' pg' [PersistJob.mk o ts fills] d').1 /\
  (persist_order now pg o ts fills d).2 = (process_persist_batch now' pg' [PersistJob.mk o ts fills] d').2.
Proof.
  intros Hp H. pose proof (persist_tx_alike now now' pg pg' o ts fills d d' Hp H) as Ht.
  unfold persist_order, process_persist_batch, transaction.
  destruct (persist_order_tx _ _ _ _ _ _) as [d1 | e], (persist_batch_tx _ _ _ _) as [d1' | e']; try done.
  - rewrite audit_jobs_id. by split.
  - by subst.
Qed.
End Alike.

(** ** Stores but for views and subscriptions *)

Definition side_key (k : string) : bool := String.prefix "cache:" k || String.prefix "ws:" k.

Record kv_alike (s s' : kv) : Prop := {
  ka_strs k : side_key k = false -> strs s !! k = strs s' !! k;
  ka_hashes k : side_key k = false -> hashes s !! k = hashes s' !! k;
  ka_zsets k : side_key k = false -> zsets s !! k = zsets s' !! k;
  ka_sets k : side_key k = false -> sets s !! k = sets s' !! k;
  ka_lists k : side_key k = false -> lists s !! k = lists s' !! k;
}.

#[export] Instance kv_alike_equivalence : Equivalence kv_alike.
Proof.
  split.
  - done.
  - intros s s' []. split; intros k Hk; symmetry; eauto.
  - intros s1 s2 s3 H1 H2. split; intros k Hk; (etransitivity; [by apply H1 | by apply H2]).
Qed.

Section Stores.
Context `{C : Crates, X : !Sqlx C, V : Valkey, VL : !ValkeyLaws V, J : SerdeJson}.

Definition store_alike (s s' : store) : Prop := kv_alike (view s) (view s').

#[export] Instance store_alike_equivalence : Equivalence store_alike.
Proof. split; unfold store_alike; [done | intros ? ? H; by symmetry | intros ? ? ? H1 H2; by etransitivity]. Qed.

Lemma kv_alike_drop_ttl (k : string) (s : kv) : kv_alike (drop_ttl k s) s.
Proof. destruct (drop_ttl_frame k s) as (E1 & E2 & E3 & E4 & E5 & _). split; intros; congruence. Qed.

Lemma set_alike (k x : string) (s : store) : side_key k = true -> store_alike (v_set k x s) s.
Proof.
  intros Hk. unfold store_alike. rewrite set_view. split; try done. intros k' Hk'. cbn.
  apply lookup_insert_ne. congruence.
Qed.

Lemma publish_alike (c m : string) (s : store) : store_alike (v_publish c m s) s.
Proof. unfold store_alike. rewrite publish_view. by split. Qed.

Lemma srem_alike (k m : string) (s : store) : side_key k = true -> store_alike (v_srem k m s) s.
Proof.
  intros Hk. unfold store_alike. rewrite srem_view. unfold kv_srem. etransitivity; [apply kv_alike_drop_ttl |].
  split; try done. intros k' Hk'. cbn. unfold put. assert (k <> k') by congruence.
  case_decide; [by apply lookup_delete_ne | by apply lookup_insert_ne].
Qed.

Lemma del_alike (k : string) (s : store) : side_key k = true -> store_alike (v_del k s) s.
Proof.
  intros Hk. unfold store_alike. rewrite del_view. split; intros k' Hk'; cbn; apply lookup_delete_ne; congruence.
Qed.

Lemma fold_alike {A} (f : store -> A -> store) (l : list A) (s : store) :
  (forall x s, x ∈ l -> store_alike (f s x) s) -> store_alike (fold_left f l s) s.
Proof.
  revert s. induction l as [| x l IH]; intros s Hf; [done |]. cbn [fold_left].
  etransitivity; [apply IH; intros y s' Hy; apply Hf; by right | apply Hf; by left].
Qed.

Lemma view_key (pg_now : datetime) (o : Order.t) (ts : list Trade.t) (s : store) (d : db) (e : string * string) :
  e ∈ cache_entries pg_now o ts s d -> side_key e.1 = true.
Proof.
  unfold cache_entries. rewrite !elem_of_app, !elem_of_cons, elem_of_nil.
  intros [[-> | [-> | [-> | []]]] | He]; [done .. |]. by apply list_elem_of_fmap in He as (u & -> & _).
Qed.

Lemma views_alike (pg_now : datetime) (o : Order.t) (ts : list Trade.t) (d : db) (s : store) :
  store_alike (update_cache_after_processing pg_now o ts d s) s.
Proof.
  unfold update_cache_after_processing. cbn zeta. case_cond; [done |]. apply fold_alike. intros e s' He.
  unfold set_and_publish. etransitivity; [apply publish_alike |]. apply set_alike. by eapply view_key.
Qed.

Lemma remove_stale_alike (ch c : string) (s : store) : store_alike (remove_stale ch c s) s.
Proof.
  unfold remove_stale. etransitivity; [by apply del_alike |]. etransitivity.
  { unfold unsubscribe_all. apply fold_alike. intros x s' _. by apply srem_alike. }
  etransitivity; by apply srem_alike.
Qed.

Lemma push_alike (answer : post -> PostResult) (pair_id : string) (s : store) :
  store_alike (push_ws_updates answer pair_id s).1 s.
Proof.
  assert (forall ch s, store_alike (push_channel answer ch s).1 s) as Hch.
  { intros ch s0. unfold push_channel. destruct (v_smembers _ s0) as [| c cs]; [done |].
    destruct (v_get _ s0) as [v |]; [| done]. case_decide; [done |]. cbn zeta. cbn [fst]. apply fold_alike.
    intros x s' _. apply remove_stale_alike. }
  unfold push_ws_updates. generalize (@nil post).
  generalize ["orderbook:" +:+ pair_id; "trades:" +:+ pair_id; "ticker:" +:+ pair_id]. intros chs. revert s.
  induction chs as [| ch chs IH]; intros s ps; [done |]. cbn [fold_left fst snd].
  pose proof (Hch ch s) as H. destruct (push_channel answer ch s) as [s1 ps1]. etransitivity; [apply IH | exact H].
Qed.
End Stores.

(** ** One order, both ways *)

Section Modes.
Context `{C : Crates, L : !CratesLaws C, X : !Sqlx C, V : Valkey, VL : !ValkeyLaws V, J : SerdeJson, JL : !SerdeJsonLaws J}.
Context (ws_endpoint : bool) (answer : post -> PostResult) (st : WorkerState.t).

Lemma readers_agree (e : Env.t) (order_id : uuid) (now : datetime) (req : CreateOrderRequest.t) :
  check_request req = Ok tt ->
  exists o, read_order e (order_message order_id now req) = Ok o /\ read_queued_order e (order_message order_id now req) = Ok o.
Proof.
  intros Hc. destruct (read_order_message e order_id now req Hc) as (o & Ho & _). exists o. split; [done |].
  destruct (message_fields order_id now req) as [Hv Hq].
  unfold read_order in Ho. rewrite Hv in Ho. unfold read_queued_order. rewrite Hq.
  cbn [mbind result_bind fields_of QueuedOrderMsg.id QueuedOrderMsg.side QueuedOrderMsg.order_type
    QueuedOrderMsg.quantity QueuedOrderMsg.price QueuedOrderMsg.time_in_force QueuedOrderMsg.tif default from_option] in *.
  unfold id in *. rewrite decide_False in Ho by apply uuid_to_string_nonempty.
  rewrite uuid_parse_to_string, msg_side_str, msg_order_type_str in *. cbn [ok_or mbind result_bind] in *.
  destruct (dec_from_str _) as [q |]; [| done]. cbn [ok_or mbind result_bind] in *. by inv_ok.
Qed.

Lemma empty_batch (now pg_now : datetime) (d : db) : process_persist_batch now pg_now [] d = (d, Ok tt).
Proof.
  unfold process_persist_batch, transaction, persist_batch_tx. cbn. unfold sorted_deltas. by rewrite map_to_list_empty.
Qed.


(** Either program can persist what an order's match answers. *)
Definition match_persistable (e : Env.t) (o : Order.t) (s : store) (d : db) : Prop :=
  forall keys l s' r, WorkerState.pair_keys st !! Order.pair_id o = Some keys -> lock_params o = Ok l ->
    match_order_lua o keys l.1 l.2 s = (s', Ok r) ->
    let o' := matched o (Env.clock e 2%nat) r in
    persistable o' (build_trades e (Env.clock e 3%nat) o' (LuaMatchResult.trades r)) (LuaMatchResult.trades r) d.

(** What the two programs are compared on: an outcome of the inline processing and
    one of the queue, whose jobs are persisted later. *)
Definition modes_agree (now pg_now : datetime) (d' : db) (wk : worker)
    (inline : (store * db) * result unit) (queued : store * worker * result unit) : Prop :=
  exists jobs, wk_persist queued.1.2 = wk_persist wk ++ jobs /\
    store_alike inline.1.1 queued.1.1 /\
    db_alike inline.1.2 (process_persist_batch now pg_now jobs d').1 /\
    is_ok inline.2 = is_ok queued.2 && is_ok (process_persist_batch now pg_now jobs d').2.

(** Without a job: the same store, an unchanged database. *)
Lemma agree_idle (now pg_now : datetime) (s : store) (d d' : db) (wk : worker) (r1 r2 : result unit) :
  db_alike d d' -> is_ok r1 = is_ok r2 -> modes_agree now pg_now d' wk ((s, d), r1) (s, wk, r2).
Proof. intros Hd Hr. exists []. rewrite app_nil_r, empty_batch. cbn. by rewrite andb_true_r. Qed.

Lemma agree_matched (now pg_now : datetime) (e : Env.t) (o : Order.t) (keys : PairKeys.t) (l : string * Z)
    (subs : nat) (lua_ms : Z) (s : store) (d d' : db) (wk : worker) :
  is_warmup o = false -> match_persistable e o s d -> db_alike d d' ->
  WorkerState.pair_keys st !! Order.pair_id o = Some keys -> lock_params o = Ok l ->
  modes_agree now pg_now d' wk (match_and_persist ws_endpoint answer e o keys l.1 l.2 (s, d))
    match match_order_lua o keys l.1 l.2 s with
    | (s, Err m) => (s, wk, Err m)
    | (s, Ok r) => (s, hand_on subs e (matched o (Env.clock e 2%nat) r) r lua_ms wk, Ok tt)
    end.
Proof.
  intros Hw Hm Hd Hk Hl. unfold match_and_persist. cbn [fst snd].
  destruct (match_order_lua o keys l.1 l.2 s) as [s1 [r | m]] eqn:Em; [| by apply agree_idle].
  specialize (Hm keys l s1 r Hk Hl Em). cbn zeta in *. change (is_warmup (matched o _ r)) with (is_warmup o). rewrite Hw.
  set (o1 := matched o (Env.clock e 2%nat) r) in *. set (ts := build_trades e (Env.clock e 3%nat) o1 (LuaMatchResult.trades r)) in *.
  destruct (persist_alike (Env.clock e 4%nat) now (Env.pg_now e) pg_now o1 ts (LuaMatchResult.trades r) d d' Hm Hd) as [H1 H2].
  exists [PersistJob.mk o1 ts (LuaMatchResult.trades r)]. split; [done |]. cbn [fst snd]. rewrite <- H2. clear H2.
  destruct (persist_order _ _ _ _ _ d) as [d1 [u | m]]; cbn [fst snd] in *; [| done].
  split; [| by split]. destruct ws_endpoint; [etransitivity; [apply push_alike |] |]; apply views_alike.
Qed.

(** C13: the two dispatch modes agree on the message of an accepted request for pairs
    that parse, when the order is no warm-up order (inline these are not persisted) and
    what its match answers can be persisted by either: the order's id and client order id
    are new, each resting order is filled once and not by the order itself, and every user
    and asset of the trades has a balance row (the inline UPDATE skips a missing one, the
    worker's INSERT makes it).  Processed inline, or from the queue with its job persisted
    later in a batch of its own, both succeed or both fail, and leave the same rows,
    trades and balances up to the times of writing, and the same book. *)
Theorem dispatch_modes_agree (e : Env.t) (order_id : uuid) (sent now pg_now : datetime) (req : CreateOrderRequest.t)
    (subs : nat) (lua_ms : Z) (s : store) (d d' : db) (wk : worker) :
  map_Forall (fun p _ => is_ok (parse_pair_id p) = true) (WorkerState.pairs_cache st) ->
  check_request req = Ok tt ->
  (forall o, read_order e (order_message order_id sent req) = Ok o -> is_warmup o = false /\ match_persistable e o s d) ->
  db_alike d d' ->
  modes_agree now pg_now d' wk
    (process_order ws_endpoint answer st e (order_message order_id sent req) (s, d))
    (process_queued_order st subs lua_ms e (json_to_string (order_message order_id sent req)) s wk).
Proof.
  intros Hst Hc Hp Hd. destruct (readers_agree e order_id sent req Hc) as (o & Ho & Hq).
  destruct (Hp o Ho) as [Hw Hm]. unfold process_order, process_queued_order.
  rewrite json_from_to by apply order_message_canonical. rewrite Ho. cbn [ok_or mbind result_bind]. rewrite Hq.
  cbn [mbind result_bind].
  destruct (validate_order (WorkerState.pairs_cache st) o) as [[] | m] eqn:Ev; [| by apply agree_idle].
  cbn [mbind result_bind mret result_ret].
  assert (exists l, lock_params o = Ok l) as [l El].
  { unfold validate_order in Ev. destruct (_ !! Order.pair_id o) as [cfg |] eqn:Ecfg; [| done]. apply Hst in Ecfg.
    unfold lock_params, get_lock_asset_amount. destruct (parse_pair_id _) as [[b q] |]; [by eexists | done]. }
  rewrite El. cbn [mbind result_bind mret result_ret]. destruct (Order.tif o).
  3: by apply (agree_idle now pg_now s d d' wk (Ok tt) (Ok tt)).
  all: destruct (WorkerState.pair_keys st !! Order.pair_id o) as [keys |] eqn:Ek;
    [by apply agree_matched | by apply agree_idle].
Qed.
End Modes.

Module DispatchExamples.
Import RefCrates RefValkey RefJson RefDb MatchLuaExamples OrderFlowExamples RowsExamples.

Definition request : @CreateOrderRequest.t ref_crates :=
  CreateOrderRequest.mk (Some "taker") "BTC-USDT" Buy Limit None (Some (101 : @decimal ref_crates)%Q)
    (2 : @decimal ref_crates)%Q None None.

Definition accounts : @db ref_crates :=
  set_balances (list_to_map [(("taker", "USDT"), (0, 202)%Q); (("taker", "BTC"), (0, 0)%Q);
                             (("maker", "BTC"), (0, 5)%Q); (("maker", "USDT"), (0, 0)%Q)]) empty_db.

Definition sent : @datetime ref_crates := 0.

Lemma read_request : read_order env (order_message (1%positive : @uuid ref_crates) sent request) = Ok (the_order GTC).
Proof. reflexivity. Qed.

Lemma trades_have_rows (m : deltas) (key : string * string) :
  balance_deltas the_trades ∅ = Ok m -> is_Some (m !! key) -> is_Some (balances accounts !! key).
Proof.
  assert (match balance_deltas the_trades ∅ with
          | Ok m => forallb (fun k => bool_decide (is_Some (balances accounts !! k))) (fst <$> map_to_list m)
          | Err _ => true
          end = true) as H by (vm_compute; reflexivity).
  intros Hm [e He]. rewrite Hm, forallb_forall in H. apply (bool_decide_unpack _), Is_true_eq_left, H.
  apply list_elem_of_In, list_elem_of_fmap. exists (key, e). split; [done | by apply elem_of_map_to_list].
Qed.

Lemma outcome_persistable : match_persistable state env (the_order GTC) market accounts.
Proof.
  intros k l s' r Hk Hl Hm.
  assert (WorkerState.pair_keys state !! Order.pair_id (the_order GTC) = Some keys) as Ek by reflexivity.
  assert (lock_params (the_order GTC) = Ok ("USDT", 20200000000)) as El by (vm_compute; reflexivity).
  rewrite Ek in Hk. apply (inj Some) in Hk as <-. rewrite El in Hl. injection Hl as <-.
  cbn [fst snd] in Hm. rewrite the_match in Hm.
  assert (outcome = r) as <- by exact (inj Ok _ _ (f_equal snd Hm)). clear Hm. cbn zeta. split.
  - intros [[x Hx] | (i & x & Hx & _)]; discriminate.
  - apply (bool_decide_unpack _). vm_compute. exact I.
  - exact trades_have_rows.
Qed.

(** Both asks are bought: the buyer ends with two more of the base asset in either mode. *)
Definition holds (user asset : string) (d : @db ref_crates) : Q := Qred (balance d (user, asset)).1.

Definition inline_run := process_order false (fun _ => Sent) state env
  (order_message (1%positive : @uuid ref_crates) sent request) (market, accounts).

Definition queued_run := process_queued_order state 0 0 env
  (json_to_string (order_message (1%positive : @uuid ref_crates) sent request)) market
  (mk_worker MetricsBatch.new [] [] [] []).

Lemma dispatch_modes_agree_witness :
  holds "taker" "BTC" inline_run.1.2 = 2%Q /\
  modes_agree at_0 at_0 accounts (mk_worker MetricsBatch.new [] [] [] []) inline_run queued_run.
Proof.
  split; [vm_compute; reflexivity |]. unfold inline_run, queued_run.
  refine (dispatch_modes_agree false (fun _ => Sent) state env (1%positive : @uuid ref_crates) sent at_0 at_0 request 0 0
            market accounts accounts (mk_worker MetricsBatch.new [] [] [] []) _ _ _ _).
  - apply map_Forall_singleton. reflexivity.
  - reflexivity.
  - intros o Ho. rewrite read_request in Ho. apply (inj Ok) in Ho as <-. split; [reflexivity | exact outcome_persistable].
  - reflexivity.
Defined.
End DispatchExamples.
