(* ===== verification/Router.v ===== *)
(** * The gateway as one service ([crates/gateway/src/lib.rs], [routes.rs])

    The route table, the arguments of the handlers, the administration endpoint,
    and the transition of the whole gateway on one request: which handler runs,
    what it changes and what it returns.  axum is the class [Axum]: it parses a
    request into the method, the decoded segments of the path and the decoded
    pairs of the query, and finds its route in the table. *)

From S2P Require Import Prelude Numbers Externals Fixed Types Codec Valkey Book Balance Json Db.
From S2P Require Import Persist Views Metrics Ws OrderFlow Cancel Gateway Sockets.

Open Scope Z_scope.

(** ** The route table *)

(** A segment of a route: literal, or captured. *)
Inductive seg :=
| Lit (s : string)
| Cap.

Inductive endpoint :=
| ListPairs | GetOrderbook | GetTrades | GetTicker
| ListOrders | CreateOrder | CancelAllOrders | CancelOrder | ModifyOrder
| GetPortfolio | GetSnapshot | SseStream
| WsStream | WsOrderbook | WsTrades | WsOrders
| GetMetrics | GetLockMetrics | GetThroughput | GetLatencyPercentiles | GetAudit
| InternalManage.

#[export] Instance endpoint_eq_dec : EqDecision endpoint.
Proof. solve_decision. Defined.

#[export] Instance seg_eq_dec : EqDecision seg.
Proof. solve_decision. Defined.

Definition app_routes : list (list seg * list (string * endpoint)) :=
  [([Lit "api"; Lit "pairs"], [("GET", ListPairs)]);
   ([Lit "api"; Lit "orderbook"; Cap], [("GET", GetOrderbook)]);
   ([Lit "api"; Lit "trades"; Cap], [("GET", GetTrades)]);
   ([Lit "api"; Lit "ticker"; Cap], [("GET", GetTicker)]);
   ([Lit "api"; Lit "orders"], [("GET", ListOrders); ("POST", CreateOrder); ("DELETE", CancelAllOrders)]);
   ([Lit "api"; Lit "orders"; Cap], [("DELETE", CancelOrder); ("PUT", ModifyOrder)]);
   ([Lit "api"; Lit "portfolio"], [("GET", GetPortfolio)]);
   ([Lit "api"; Lit "snapshot"; Cap], [("GET", GetSnapshot)]);
   ([Lit "api"; Lit "stream"; Cap], [("GET", SseStream)]);
   ([Lit "ws"; Lit "stream"], [("GET", WsStream)]);
   ([Lit "ws"; Lit "orderbook"; Cap], [("GET", WsOrderbook)]);
   ([Lit "ws"; Lit "trades"; Cap], [("GET", WsTrades)]);
   ([Lit "ws"; Lit "orders"; Cap], [("GET", WsOrders)]);
   ([Lit "api"; Lit "metrics"], [("GET", GetMetrics)]);
   ([Lit "api"; Lit "metrics"; Lit "locks"], [("GET", GetLockMetrics)]);
   ([Lit "api"; Lit "metrics"; Lit "throughput"], [("GET", GetThroughput)]);
   ([Lit "api"; Lit "metrics"; Lit "latency"], [("GET", GetLatencyPercentiles)]);
   ([Lit "api"; Lit "metrics"; Lit "audit"], [("GET", GetAudit)]);
   ([Lit "api"; Lit "audit"], [("GET", GetAudit)]);
   ([Lit "internal"; Lit "manage"], [("POST", InternalManage)])].

(** The captures of a path that a route matches; a capture is not empty. *)
Fixpoint path_match (pat : list seg) (path : list string) : option (list string) :=
  match pat, path with
  | [], [] => Some []
  | Lit a :: pat, s :: path => if decide (a = s) then path_match pat path else None
  | Cap :: pat, s :: path => if decide (s = EmptyString) then None else cons s <$> path_match pat path
  | _, _ => None
  end.

(** The method whose handler answers: GET answers HEAD. *)
Definition answered_as (method : string) : string := if decide (method = "HEAD") then "GET" else method.

(** Two patterns that some path matches both. *)
Fixpoint overlap (p q : list seg) : bool :=
  match p, q with
  | [], [] => true
  | Lit a :: p, Lit b :: q => bool_decide (a = b) && overlap p q
  | Lit a :: p, Cap :: q | Cap :: p, Lit a :: q => negb (bool_decide (a = EmptyString)) && overlap p q
  | Cap :: p, Cap :: q => overlap p q
  | _, _ => false
  end.

(** A table without ambiguity: axum panics on another when it is built. *)
Record well_formed {E : Type} (t : list (list seg * list (string * E))) : Prop := {
  wf_apart i j x y : t !! i = Some x -> t !! j = Some y -> overlap x.1 y.1 = true -> i = j;
  wf_methods x : x ∈ t -> NoDup (fst <$> x.2);
}.

(** axum: the handler of a request and its captures.  The CORS layer answers OPTIONS,
    and nested services what no route of the table does. *)
Class Axum : Type := {
  axum_route {E : Type} : list (list seg * list (string * E)) -> string -> list string -> option (E * list string);
}.

Class AxumLaws (A : Axum) : Prop := {
  axum_route_spec {E : Type} (t : list (list seg * list (string * E))) method path e cs :
    well_formed t ->
    axum_route t method path = Some (e, cs) <->
    method <> "OPTIONS" /\
    exists p ms, (p, ms) ∈ t /\ path_match p path = Some cs /\ (answered_as method, e) ∈ ms;
}.

(** ** Extractors *)

(** A field of the query string: given twice it is rejected. *)
Definition query_field (k : string) (query : list (string * string)) : result (option string) :=
  match filter (fun p => p.1 = k) query with
  | [] => Ok None
  | [p] => Ok (Some p.2)
  | _ => Err "Failed to deserialize query string"
  end.

(** [str::parse::<i32>] *)
Definition parse_i32 (s : string) : option Z :=
  z ← parse_i64 s; if (- 2 ^ 31 <=? z) && (z <? 2 ^ 31) then Some z else None.

Definition query_int (parse : string -> option Z) (k : string) (query : list (string * string)) : result (option Z) :=
  o ← query_field k query;
  match o with
  | None => Ok None
  | Some s => z ← ok_or (parse s) "Failed to deserialize query string"; mret (Some z)
  end.

Module OrdersQuery.
Record t : Type := mk { user_id : option string; pair_id : option string; limit : option Z; offset : option Z }.

Definition from_query (q : list (string * string)) : result t :=
  user_id ← query_field "user_id" q;
  pair_id ← query_field "pair_id" q;
  limit ← query_int parse_i64 "limit" q;
  offset ← query_int parse_i64 "offset" q;
  mret (mk user_id pair_id limit offset).
End OrdersQuery.

(** A unit variant: its name, or an object with its name and null. *)
Definition variant {A} (names : list (string * A)) (j : Json) : option A :=
  match j with
  | JStr s | JObj [(s, JNull)] => field_of s names
  | _ => None
  end.

Definition side_names : list (string * Side) := [("Buy", Buy); ("Sell", Sell)].
Definition order_type_names : list (string * OrderType) := [("Limit", Limit); ("Market", Market)].
Definition tif_names : list (string * TimeInForce) := [("GTC", GTC); ("IOC", IOC); ("FOK", FOK)].
Definition stp_names : list (string * Stp.t) :=
  [("None", Stp.None); ("CancelMaker", Stp.CancelMaker); ("CancelTaker", Stp.CancelTaker); ("CancelBoth", Stp.CancelBoth)].

Definition as_i64 (j : Json) : option Z :=
  match j with
  | JInt z => checked_i64 z
  | _ => None
  end.

Module ManageRequest.
Record t : Type := mk { command : string; sql : option string; num_users : option Z; users : option Z }.

Definition from_value (j : Json) : result t :=
  j ← struct_of ["command"; "sql"; "num_users"; "users"] j;
  command ← body_field as_str "command" j;
  sql ← body_option as_str "sql" j;
  num_users ← body_option as_i64 "num_users" j;
  users ← body_option as_i64 "users" j;
  mret (mk command sql num_users users).
End ManageRequest.

(** [CreateOrderRequest], with the deserializer of [Decimal].  The body is read through
    its value, in which a repeated key has its last value. *)
Definition create_request `{C : Crates} (decimal_of_json : Json -> option decimal) (j : Json) : result CreateOrderRequest.t :=
  j ← struct_of ["user_id"; "pair_id"; "side"; "order_type"; "tif"; "price"; "quantity"; "stp_mode"; "client_order_id"] j;
  user_id ← body_option as_str "user_id" j;
  pair_id ← body_field as_str "pair_id" j;
  side ← body_field (variant side_names) "side" j;
  order_type ← body_field (variant order_type_names) "order_type" j;
  tif ← body_option (variant tif_names) "tif" j;
  price ← body_option decimal_of_json "price" j;
  quantity ← body_field decimal_of_json "quantity" j;
  stp_mode ← body_option (variant stp_names) "stp_mode" j;
  client_order_id ← body_option as_str "client_order_id" j;
  mret (CreateOrderRequest.mk user_id pair_id side order_type tif price quantity stp_mode client_order_id).

(** ** The rows of the [query] command *)

(** A cell by the type of its column: INT8, FLOAT8, BOOL, a text type, or another. *)
Inductive cell :=
| CInt8 (o : option Z)
| CFloat8 (o : option Q)
| CBool (o : option bool)
| CText (o : option string)
| COther.

(** The four [try_get]s in turn; a column of another type is shown as null. *)
Definition cell_json (c : cell) : Json :=
  match c with
  | CInt8 (Some z) => JInt z
  | CFloat8 (Some q) => JFloat q
  | CBool (Some b) => JBool b
  | CText (Some s) => JStr s
  | _ => JNull
  end.

Definition row_json (row : list (string * cell)) : Json := object ((fun c => (c.1, cell_json c.2)) <$> row).

(** ** Requests and replies *)

Module Request.
(** [body] is the text of a body declared as JSON, [upgrade] whether the request is a
    WebSocket handshake. *)
Record t : Type := mk {
  method : string;
  path : list string;
  query : list (string * string);
  body : option string;
  upgrade : bool;
}.
End Request.

(** What a request takes from outside. *)
Module Arrival.
Section Arrival.
Context `{C : Crates}.
Record t : Type := mk { now : Z; env : Env.t; order_id : uuid; sent_at : datetime }.
End Arrival.
End Arrival.

(** Why a handler does not run: no route, a path, query or body that is not what the
    handler takes, or no WebSocket handshake. *)
Inductive rejection := NoRoute | BadPath | BadQuery | BadBody | NoUpgrade.

Inductive reply :=
| Http (r : Response.t)
| Rejected (why : rejection)
| Upgraded (e : endpoint) (captures : list string)
| Events (pair_id : string).

Section Service.
Context `{C : Crates, X : !Sqlx C, V : Valkey, J : SerdeJson}.
Context (ws_endpoint : bool) (answer : post -> PostResult) (mode : DispatchMode).
(** The pairs table and the query of the book's seed. *)
Context (pairs : list PairRow.t) (seed_rows : db -> list seed_row).
(** The deserializer of [Decimal], the migrations, and the two commands that take
    SQL: the statement's effect with the rows it affects, or returns. *)
Context (decimal_of_json : Json -> option decimal) (migrations : db -> result db).
Context (execute : string -> db -> result (db * Z)) (fetch_all : string -> db -> result (db * list (list (string * cell)))).

(** The state of the gateway: its worker's, once started, Valkey, the database and
    the two caches. *)
Record service : Type := mk_service {
  sv_worker : option WorkerState.t;
  sv_kv : store;
  sv_db : db;
  sv_cache : CacheBroadcasts.t;
  sv_users : UserCache.t;
}.

Definition set_world (w : store * db) (g : service) : service := mk_service (sv_worker g) w.1 w.2 (sv_cache g) (sv_users g).
Definition set_users (u : UserCache.t) (g : service) : service := mk_service (sv_worker g) (sv_kv g) (sv_db g) (sv_cache g) u.

(** [get_state]: started once. *)
Definition worker_state (e : Env.t) (g : service) : service * WorkerState.t :=
  match sv_worker g with
  | Some st => (g, st)
  | None =>
      let '(s, st) := get_state pairs (seed_rows (sv_db g)) (Env.pg_now e) (sv_db g) (sv_kv g) in
      (mk_service (Some st) s (sv_db g) (sv_cache g) (sv_users g), st)
  end.

Definition is_inline : bool := match mode with Inline => true | Queue => false end.

(** The worker's state is needed by the inline processing of an accepted request. *)
Definition on_create (a : Arrival.t) (req : CreateOrderRequest.t) (g : service) : service * Response.t :=
  let '(g, st) := if is_inline && is_ok (check_request req) then worker_state (Arrival.env a) g
                  else (g, default (WorkerState.mk ∅ ∅ 0) (sv_worker g)) in
  let '(w, r) := create_order ws_endpoint answer mode st (Arrival.order_id a) (Arrival.sent_at a) (Arrival.env a) req
                   (sv_kv g, sv_db g) in
  (set_world w g, r).

(** *** [internal_manage] *)

Definition ok_json (fields : list (string * Json)) : Response.t := raw_json (json_to_string (object fields)).

Definition status_ok (command : string) (fields : list (string * Json)) : Response.t :=
  ok_json ([("status", JStr "ok"); ("command", JStr command)] ++ fields).

Definition users_shown (req : ManageRequest.t) : Json :=
  JInt (as_i32 (default 100 (match ManageRequest.users req with Some u => Some u | None => ManageRequest.num_users req end))).

Definition users_of (req : ManageRequest.t) : nat := users_arg (ManageRequest.users req) (ManageRequest.num_users req).

Definition on_exec_sql (req : ManageRequest.t) (g : service) : service * Response.t :=
  match ManageRequest.sql req with
  | None => (g, error_response 400 "sql argument required")
  | Some sql =>
      match execute sql (sv_db g) with
      | Ok (d, n) => (set_world (sv_kv g, d) g, status_ok "exec_sql" [("rows_affected", JInt n)])
      | Err e => (g, error_response 500 e)
      end
  end.

Definition on_query (req : ManageRequest.t) (g : service) : service * Response.t :=
  match ManageRequest.sql req with
  | None => (g, error_response 400 "sql required")
  | Some sql =>
      match fetch_all sql (sv_db g) with
      | Ok (d, rows) => (set_world (sv_kv g, d) g, ok_json [("rows", JArr (row_json <$> rows))])
      | Err e => (g, error_response 500 e)
      end
  end.

(** The commands that need the worker's state. *)
Definition on_command (req : ManageRequest.t) (g : service) : service * Response.t :=
  let cmd := ManageRequest.command req in
  let w := (sv_kv g, sv_db g) in
  if decide (cmd = "reset_all") then
    (set_world (reset_all (users_of req) w) g, ok_json [("ok", JBool true); ("users", users_shown req)])
  else if decide (cmd = "reset_balances") then
    (set_world (reset_balances (users_of req) w) g, status_ok "reset_balances" [("users", users_shown req)])
  else if decide (cmd = "sweep_stale_orders") then
    let '(s, removed) := sweep_stale_orders (sv_kv g) in
    (set_world (s, sv_db g) g, ok_json [("ok", JBool true); ("removed", JInt removed)])
  else if decide (cmd = "truncate_orders") then
    let '(w, v) := truncate_orders w in
    (set_world w g, status_ok "truncate_orders" [("reset_version", JInt v)])
  else if decide (cmd = "exec_sql") then on_exec_sql req g
  else if decide (cmd = "query") then on_query req g
  else (g, error_response 400 ("unknown command: " +:+ cmd)).

Definition internal_manage (a : Arrival.t) (req : ManageRequest.t) (g : service) : service * Response.t :=
  if decide (ManageRequest.command req = "run_migrations") then
    match migrations (sv_db g) with
    | Ok d => (set_world (sv_kv g, d) g, status_ok "run_migrations" [])
    | Err e => (g, error_response 500 e)
    end
  else on_command req (worker_state (Arrival.env a) g).1.


(** *** The handlers behind the extractors *)

Definition cap (captures : list string) : string := default EmptyString (head captures).

(** [Json<T>]: a body that is JSON and a [T]. *)
Definition with_body {T} (parse : Json -> result T) (rq : Request.t) (g : service)
    (k : T -> service * reply) : service * reply :=
  match Request.body rq ≫= json_from_str with
  | Some j => match parse j with
              | Ok x => k x
              | Err _ => (g, Rejected BadBody)
              end
  | None => (g, Rejected BadBody)
  end.

(** [Path<Uuid>] and [Query<T>] *)
Definition extracted {T} (why : rejection) (r : result T) (g : service) (k : T -> service * reply) : service * reply :=
  match r with
  | Ok x => k x
  | Err _ => (g, Rejected why)
  end.

Definition show (g : service) (r : Response.t) : service * reply := (g, Http r).

(** A route that pushes to a queue. *)
Definition pushed (r : store * Response.t) (g : service) : service * reply := show (set_world (r.1, sv_db g) g) r.2.

(** A document of the user cache. *)
Definition documented (r : UserCache.t * Response.t) (g : service) : service * reply := show (set_users r.1 g) r.2.

Definition upgraded (e : endpoint) (captures : list string) (rq : Request.t) (g : service) : service * reply :=
  if Request.upgrade rq then (g, Upgraded e captures) else (g, Rejected NoUpgrade).

Definition user_query (q : list (string * string)) : result (option string) := query_field "user_id" q.

Definition depth_query (q : list (string * string)) : result (option Z) := query_int parse_i32 "depth" q.

(** One endpoint, its captures and a request: what it does and replies. *)
Definition handle_endpoint (e : endpoint) (captures : list string) (rq : Request.t) (a : Arrival.t) (g : service)
    : service * reply :=
  let c := sv_cache g in
  let id := ok_or (uuid_parse (cap captures)) "Invalid URL" in
  let q := Request.query rq in
  match e with
  | ListPairs => show g (list_pairs c)
  | GetOrderbook => extracted BadQuery (depth_query q) g (fun depth => show g (get_orderbook (cap captures) depth (sv_kv g) c))
  | GetTrades => show g (get_trades (cap captures) c)
  | GetTicker => show g (get_ticker (cap captures) c)
  | ListOrders =>
      extracted BadQuery (OrdersQuery.from_query q) g (fun q =>
        documented (list_orders (Arrival.now a) (OrdersQuery.user_id q) (sv_kv g) (sv_users g)) g)
  | CreateOrder =>
      with_body (create_request decimal_of_json) rq g (fun req => let '(g, r) := on_create a req g in show g r)
  | CancelAllOrders =>
      extracted BadQuery (OrdersQuery.from_query q) g (fun q =>
        pushed (cancel_all_orders (OrdersQuery.user_id q) (OrdersQuery.pair_id q) (Arrival.sent_at a) (sv_kv g)) g)
  | CancelOrder => extracted BadPath id g (fun id => pushed (cancel_order id (Arrival.sent_at a) (sv_kv g)) g)
  | ModifyOrder =>
      extracted BadPath id g (fun id => with_body (create_request decimal_of_json) rq g (fun req =>
        pushed (modify_order id (Arrival.sent_at a) req (sv_kv g)) g))
  | GetPortfolio =>
      extracted BadQuery (user_query q) g (fun user_id =>
        documented (get_portfolio (Arrival.now a) user_id (sv_kv g) (sv_users g)) g)
  | GetSnapshot => extracted BadQuery (depth_query q) g (fun depth => show g (get_snapshot (cap captures) depth c))
  | SseStream => (g, Events (cap captures))
  | WsStream | WsOrderbook | WsTrades | WsOrders => upgraded e captures rq g
  | GetMetrics => show g (get_metrics c)
  | GetLockMetrics => show g (get_lock_metrics c)
  | GetThroughput => show g (get_throughput c)
  | GetLatencyPercentiles => show g (get_latency_percentiles c)
  | GetAudit => show g (get_audit c)
  | InternalManage =>
      with_body ManageRequest.from_value rq g (fun req => let '(g, r) := internal_manage a req g in show g r)
  end.

(** The whole gateway on one request. *)
Definition respond `{A : Axum} (rq : Request.t) (a : Arrival.t) (g : service) : service * reply :=
  match axum_route app_routes (Request.method rq) (Request.path rq) with
  | Some (e, captures) => handle_endpoint e captures rq a g
  | None => (g, Rejected NoRoute)
  end.

(** [build_router]: the caches of all keys, warmed from Valkey; no worker yet. *)
Definition build_router (now warmed_at : Z) (s : store) (d : db) : service :=
  mk_service None s d (poll warmed_at cache_keys s (new_broadcasts now)) UserCache.new.
End Service.

(** [ORDER_DISPATCH_MODE] *)
Definition dispatch_mode (var : option string) : DispatchMode :=
  match var with
  | Some s => if decide (s = "inline") then Inline else Queue
  | None => Queue
  end.
