(* ===== verification/RouterProps.v ===== *)
(** * The gateway as one service: properties

    A path has one route; what a request of each kind may change; and the whole
    exchange, any client requests and any steps of the worker interleaved, keeps
    the rows of the orders in bounds. *)

From S2P Require Import Prelude Numbers Externals Fixed Types Codec Valkey Book Balance Json Db.
From S2P Require Import Persist Views Metrics Ws OrderFlow OrderFlowExamples MatchLuaExamples Cancel Consumers Gateway GatewayProps.
From S2P Require Import Rows System Sockets Router.

Open Scope Z_scope.

(** ** Routing *)

Lemma matches_overlap (p q : list seg) (path cs cs' : list string) :
  path_match p path = Some cs -> path_match q path = Some cs' -> overlap p q = true.
Proof.
  revert q path cs cs'. induction p as [| [a |] p IH]; intros [| [b |] q] [| s path] cs cs' Hp Hq; try done; cbn in *;
    repeat case_decide; subst; try done; try (destruct (path_match p path) eqn:Ep, (path_match q path) eqn:Eq; try done);
    try (apply andb_true_iff; split); try (by eapply IH); try (by apply bool_decide_eq_true_2);
    by apply negb_true_iff, bool_decide_eq_false_2.
Qed.

(** The table of the gateway is unambiguous: no two of its routes overlap. *)
Lemma app_routes_well_formed : well_formed app_routes.
Proof.
  split.
  - assert (forallb (fun i => forallb (fun j => (i =? j)%nat
              || negb (overlap (nth i (fst <$> app_routes) []) (nth j (fst <$> app_routes) [])))
              (seq 0 (length app_routes))) (seq 0 (length app_routes)) = true) as H by (vm_compute; reflexivity).
    rewrite forallb_forall in H. intros i j x y Hi Hj Ho.
    assert (forall k x, app_routes !! k = Some x -> In k (seq 0 (length app_routes)) /\ nth k (fst <$> app_routes) [] = x.1) as Hn.
    { intros k z Hk. split; [apply in_seq; apply lookup_lt_Some in Hk; lia |].
      apply nth_lookup_Some. by rewrite list_lookup_fmap, Hk. }
    destruct (Hn i _ Hi) as [Hii Ei], (Hn j _ Hj) as [Hjj Ej]. apply H in Hii. rewrite forallb_forall in Hii. apply Hii in Hjj.
    rewrite Ei, Ej, Ho, orb_false_r in Hjj. by apply Nat.eqb_eq in Hjj.
  - assert (Forall (fun r : list seg * list (string * endpoint) => NoDup (fst <$> r.2)) app_routes) as Ha.
    { apply (bool_decide_unpack _). vm_compute. exact I. }
    by rewrite Forall_forall in Ha.
Qed.

(** An instance of axum, for the witnesses: the first route that matches. *)
Module RefAxum.
Section Find.
Context {E : Type}.

Fixpoint find_route (path : list string) (t : list (list seg * list (string * E))) : option (list string * list (string * E)) :=
  match t with
  | [] => None
  | (p, ms) :: t =>
      match path_match p path with
      | Some cs => Some (cs, ms)
      | None => find_route path t
      end
  end.

Definition method_match (method : string) (ms : list (string * E)) : option E :=
  snd <$> head (filter (fun m => m.1 = answered_as method) ms).

Definition find (t : list (list seg * list (string * E))) (method : string) (path : list string) : option (E * list string) :=
  if decide (method = "OPTIONS") then None
  else '(cs, ms) ← find_route path t; e ← method_match method ms; Some (e, cs).

Lemma find_route_spec (path cs : list string) (ms : list (string * E)) (t : list (list seg * list (string * E))) :
  find_route path t = Some (cs, ms) -> exists p, (p, ms) ∈ t /\ path_match p path = Some cs.
Proof.
  induction t as [| [p ms0] t IH]; [done |]. cbn. destruct (path_match p path) as [c |] eqn:Ep.
  - intros [= -> ->]. exists p. split; [by left | done].
  - intros H. destruct (IH H) as (q & Hq & Hm). exists q. split; [by right | done].
Qed.

Lemma find_route_total (path cs : list string) (p : list seg) (ms : list (string * E)) (t : list (list seg * list (string * E))) :
  (p, ms) ∈ t -> path_match p path = Some cs -> is_Some (find_route path t).
Proof.
  induction t as [| [q ms0] t IH]; [by intros ?%not_elem_of_nil |]. cbn.
  intros [[= <- <-] | Hin]%elem_of_cons Hm; [by rewrite Hm; eexists | destruct (path_match q path); [by eexists | by apply IH]].
Qed.

(** The route of a path, whatever the order of the table. *)
Lemma find_route_in (path cs : list string) (p : list seg) (ms : list (string * E)) (t : list (list seg * list (string * E))) :
  well_formed t -> (p, ms) ∈ t -> path_match p path = Some cs -> find_route path t = Some (cs, ms).
Proof.
  intros Hwf Hin Hm. destruct (find_route_total path cs p ms t Hin Hm) as [[cs' ms'] Ef]. rewrite Ef.
  destruct (find_route_spec path cs' ms' t Ef) as (q & Hq & Hm').
  apply list_elem_of_lookup in Hin as [i Hi], Hq as [j Hj].
  assert (i = j) as -> by (apply (wf_apart t Hwf i j _ _ Hi Hj); by eapply matches_overlap). rewrite Hi in Hj. injection Hj as <- <-. congruence.
Qed.

Lemma method_match_spec (method : string) (ms : list (string * E)) (e : E) :
  NoDup (fst <$> ms) -> (method_match method ms = Some e <-> (answered_as method, e) ∈ ms).
Proof.
  unfold method_match. generalize (answered_as method). intros k.
  induction ms as [| [k' e'] ms IH]; [by split; [| intros ?%not_elem_of_nil] |]. intros [Hn Hnd]%NoDup_cons.
  rewrite filter_cons. case_decide as Ek; cbn in *.
  - subst. split; [intros [= <-]; by left |]. intros [[= <-] | Hin]%elem_of_cons; [done |].
    exfalso. apply Hn, list_elem_of_fmap. by exists (k, e).
  - rewrite (IH Hnd), elem_of_cons. split; [by right | by intros [[= <- <-] |]].
Qed.
End Find.

#[export] Instance ref_axum : Axum := Build_Axum (fun E => find).

#[export] Instance ref_axum_laws : AxumLaws ref_axum.
Proof.
  constructor. intros E t method path e cs Hwf. cbn. unfold find. case_decide as Eo; [by split; [| intros [? _]] |]. split.
  - destruct (find_route path t) as [[cs' ms] |] eqn:Ef; [| done]. cbn.
    destruct (find_route_spec _ _ _ _ Ef) as (p & Hp & Hm). destruct (method_match method ms) as [e' |] eqn:Em; [| done].
    cbn. intros [= -> ->]. split; [done |]. exists p, ms. split_and!; [done .. |].
    by apply method_match_spec; [apply (wf_methods t Hwf _ Hp) |].
  - intros (_ & p & ms & Hp & Hm & He). rewrite (find_route_in path cs p ms t Hwf Hp Hm). cbn.
    by rewrite (proj2 (method_match_spec method ms e (wf_methods t Hwf _ Hp)) He).
Qed.
End RefAxum.

(** ** What a request may change *)

(** The endpoints behind GET. *)
Definition reads (e : endpoint) : bool :=
  match e with
  | CreateOrder | CancelAllOrders | CancelOrder | ModifyOrder | InternalManage => false
  | _ => true
  end.

Lemma get_reads `{A : Axum, !AxumLaws A} (method : string) (path : list string) (e : endpoint) (cs : list string) :
  axum_route app_routes method path = Some (e, cs) ->
  method <> "OPTIONS" /\ (reads e = true <-> answered_as method = "GET").
Proof.
  intros (Ho & p & ms & Hp & _ & He)%(axum_route_spec _ _ _ _ _ app_routes_well_formed). split; [done |].
  assert (Forall (fun r : list seg * list (string * endpoint) =>
            Forall (fun m => reads m.2 = bool_decide (m.1 = "GET")) r.2) app_routes) as Ha.
  { apply (bool_decide_unpack _). vm_compute. exact I. }
  rewrite Forall_forall in Ha. specialize (Ha _ Hp). cbn [snd] in Ha. rewrite Forall_forall in Ha. specialize (Ha _ He).
  cbn [fst snd] in Ha. rewrite Ha. apply bool_decide_eq_true.
Qed.

Section Effects.
Context `{C : Crates, X : !Sqlx C, V : Valkey, J : SerdeJson, A : Axum, AL : !AxumLaws A}.
Context (ws_endpoint : bool) (answer : post -> PostResult) (mode : DispatchMode).
Context (pairs : list PairRow.t) (seed_rows : db -> list seed_row).
Context (decimal_of_json : Json -> option decimal) (migrations : db -> result db).
Context (execute : string -> db -> result (db * Z)) (fetch_all : string -> db -> result (db * list (list (string * cell)))).

Abbreviation gateway_respond :=
  (respond ws_endpoint answer mode pairs seed_rows decimal_of_json migrations execute fetch_all).
Abbreviation gateway_handle :=
  (handle_endpoint ws_endpoint answer mode pairs seed_rows decimal_of_json migrations execute fetch_all).

Implicit Types (g : service) (rq : Request.t) (a : Arrival.t).

(** [g'] is [g] up to the per-user cache. *)
Definition only_users (g g' : service) : Prop := g' = set_users (sv_users g') g.

(** [g'] is [g] after one message was pushed to the queue [key]. *)
Definition one_push (key : string) (g g' : service) : Prop :=
  exists m, g' = set_world (v_lpush key m (sv_kv g), sv_db g) g.

Lemma only_users_refl g : only_users g g.
Proof. by destruct g. Qed.

Lemma reading_effect (e : endpoint) (cs : list string) rq a g :
  reads e = true -> only_users g (gateway_handle e cs rq a g).1.
Proof.
  pose proof (only_users_refl g) as H. intros He. destruct e; try done; cbn [handle_endpoint]; try done;
    unfold extracted, documented, show, upgraded; try (by case_match).
Qed.

(** The routes that queue a cancellation, and a new order when orders are queued. *)
Lemma queueing_effect (e : endpoint) (cs : list string) rq a g :
  e = CancelAllOrders \/ e = CancelOrder \/ e = ModifyOrder ->
  let g' := (gateway_handle e cs rq a g).1 in g' = g \/ one_push cancellations g g'.
Proof.
  intros He. cbn zeta. destruct He as [-> | [-> | ->]]; cbn [handle_endpoint]; unfold extracted, with_body, pushed, show.
  - destruct (OrdersQuery.from_query _); [right; by eexists | by left].
  - destruct (ok_or _ _); [right; by eexists | by left].
  - destruct (ok_or _ _); [| by left]. destruct (Request.body rq ≫= json_from_str) as [j |]; [| by left]. destruct (create_request _ j); [right; by eexists | by left].
Qed.


(** [g'] is [g] after the order of the request's body was pushed to its pair's queue. *)
Definition order_pushed rq g g' : Prop :=
  exists j req, Request.body rq ≫= json_from_str = Some j /\ create_request decimal_of_json j = Ok req /\
    one_push ("queue:orders:" +:+ CreateOrderRequest.pair_id req) g g'.

Lemma creating_effect (cs : list string) rq a g :
  let g' := (gateway_handle CreateOrder cs rq a g).1 in
  sv_users g' = sv_users g /\ sv_cache g' = sv_cache g /\
  (mode = Queue -> g' = g \/ order_pushed rq g g').
Proof.
  cbn zeta. cbn [handle_endpoint]. unfold with_body, order_pushed.
  destruct (Request.body rq ≫= json_from_str) as [j |]; [| by auto]. destruct (create_request _ j) as [req |] eqn:Ereq; [| by auto].
  unfold on_create, is_inline, create_order. destruct (check_request req) as [u | m], mode; cbn [is_ok andb];
    try (split_and!; [by destruct g .. | intros _; left; by destruct g]); unfold worker_state.
  - split_and!; [done | done |]. intros _. right. exists j, req. split_and!; [done | done |]. by eexists.
  - destruct (sv_worker g); [done |]. by destruct (get_state _ _ _ _ _).
Qed.

Lemma managing_effect (cs : list string) rq a g :
  let g' := (gateway_handle InternalManage cs rq a g).1 in sv_users g' = sv_users g /\ sv_cache g' = sv_cache g.
Proof.
  cbn zeta. cbn [handle_endpoint]. unfold with_body. destruct (Request.body rq ≫= json_from_str) as [j |]; [| by auto]. destruct (ManageRequest.from_value j) as [req |]; [| by auto].
  unfold internal_manage. case_decide; [by destruct (migrations _) |].
  assert (let g1 := (worker_state pairs seed_rows (Arrival.env a) g).1 in sv_users g1 = sv_users g /\ sv_cache g1 = sv_cache g)
    as [E1 E2] by (unfold worker_state; destruct (sv_worker g); [done |]; by destruct (get_state _ _ _ _ _)).
  rewrite <- E1, <- E2. generalize (worker_state pairs seed_rows (Arrival.env a) g).1. clear. intros g.
  unfold on_command, on_exec_sql, on_query. repeat case_decide; try done.
  - by destruct (sweep_stale_orders _).
  - by destruct (truncate_orders _).
  - destruct (ManageRequest.sql req); [| done]. by destruct (execute _ _) as [[] |].
  - destruct (ManageRequest.sql req); [| done]. by destruct (fetch_all _ _) as [[] |].
Qed.

(** C30: what a request may change: GET, HEAD and OPTIONS nothing but the per-user
    cache; a cancellation or modification one message of one queue; an order, when
    orders are queued, one message of the queue of the pair its body names; only
    inline orders and the administration reach the database, and no request touches the broadcasts. *)
Theorem request_effects rq a g :
  let g' := (gateway_respond rq a g).1 in
  sv_cache g' = sv_cache g /\
  (answered_as (Request.method rq) = "GET" \/ Request.method rq = "OPTIONS" -> only_users g g') /\
  match axum_route app_routes (Request.method rq) (Request.path rq) with
  | Some (CreateOrder, _) =>
      sv_users g' = sv_users g /\ (mode = Queue -> g' = g \/ order_pushed rq g g')
  | Some (InternalManage, _) => sv_users g' = sv_users g
  | Some (e, _) => only_users g g' \/ (reads e = false /\ one_push cancellations g g')
  | None => g' = g
  end.
Proof.
  cbn zeta. unfold respond. pose proof (get_reads (Request.method rq) (Request.path rq)) as Hg.
  destruct (axum_route _ _ _) as [[e cs] |]; [| by split_and!; [| intros _; apply only_users_refl |]].
  destruct (Hg e cs eq_refl) as [Ho Hr]. clear Hg. destruct (reads e) eqn:Er.
  - pose proof (reading_effect e cs rq a g Er) as H. split_and!; [by rewrite H | done |].
    destruct e; try done; by left.
  - assert (answered_as (Request.method rq) <> "GET") as Hn by (intros H; by apply Hr in H).
    pose proof (queueing_effect e cs rq a g) as Hq. destruct e; try done.
    1: destruct (creating_effect cs rq a g) as (H0 & H1 & H2); by split_and!; [| tauto | |].
    4: destruct (managing_effect cs rq a g) as [H1 H2]; by split_and!; [| tauto |].
    all: destruct (Hq ltac:(tauto)) as [-> | Hp]; (split_and!; [| tauto |]);
      [done | left; apply only_users_refl | by destruct Hp as [m ->] | by right].
Qed.
End Effects.

(** ** The exchange: requests and worker together *)

Section Exchange.
Context `{C : Crates, L : !CratesLaws C, X : !Sqlx C, XL : !SqlxLaws C L X, V : Valkey, J : SerdeJson, A : Axum, AL : !AxumLaws A}.
Context (asked : uuid -> Q).
Context (ws_endpoint : bool) (answer : post -> PostResult) (mode : DispatchMode).
Context (pairs : list PairRow.t) (seed_rows : db -> list seed_row).
Context (decimal_of_json : Json -> option decimal) (migrations : db -> result db).
Context (execute : string -> db -> result (db * Z)) (fetch_all : string -> db -> result (db * list (list (string * cell)))).
Context (Hpairs : map_Forall (fun _ => sane_pair) (load_pairs_cache pairs)).

Abbreviation gateway_respond :=
  (respond ws_endpoint answer mode pairs seed_rows decimal_of_json migrations execute fetch_all).
Abbreviation gateway_handle :=
  (handle_endpoint ws_endpoint answer mode pairs seed_rows decimal_of_json migrations execute fetch_all).

Implicit Types (g : service) (rq : Request.t) (a : Arrival.t).

Definition takes_sql (req : ManageRequest.t) : Prop := ManageRequest.command req ∈ ["run_migrations"; "exec_sql"; "query"].

(** The orders ask for the quantity of their identifier, and the administration does
    not send statements of its own. *)
Definition admissible rq a : Prop :=
  forall j, Request.body rq ≫= json_from_str = Some j ->
  match axum_route app_routes (Request.method rq) (Request.path rq) with
  | Some (CreateOrder, _) => forall req, create_request decimal_of_json j = Ok req ->
                             (dval (CreateOrderRequest.quantity req) == asked (Arrival.order_id a))%Q
  | Some (InternalManage, _) => forall req, ManageRequest.from_value j = Ok req -> ~ takes_sql req
  | _ => True
  end.

Definition worker_sane g : Prop := forall st, sv_worker g = Some st -> map_Forall (fun _ => sane_pair) (WorkerState.pairs_cache st).

Record service_ok g : Prop := {
  so_db : db_ok asked (sv_db g);
  so_worker : worker_sane g;
}.

(** What a request keeps. *)
Definition keeps g g' : Prop := service_ok g -> service_ok g' /\ trades (sv_db g) ⊆ trades (sv_db g').

#[export] Instance keeps_preorder : PreOrder keeps.
Proof.
  split; [intros g; by split | intros g1 g2 g3 H1 H2 [Hok2 Ht2]%H1]. destruct (H2 Hok2) as [Hok3 Ht3].
  split; [done | by etransitivity].
Qed.

Lemma keeps_same g g' : sv_db g' = sv_db g -> sv_worker g' = sv_worker g -> keeps g g'.
Proof. intros Ed Ew [Hd Hw]. rewrite Ed. split; [| done]. by constructor; [rewrite Ed | unfold worker_sane; rewrite Ew]. Qed.

Lemma keeps_statements g g' : statements asked (sv_db g) (sv_db g') -> sv_worker g' = sv_worker g -> keeps g g'.
Proof.
  intros Hs Ew [Hd Hw]. split; [constructor; [by eapply statements_ok | unfold worker_sane; by rewrite Ew] |].
  by apply (kh_trades _ _ (statements_keep asked _ _ Hs)).
Qed.

Lemma keeps_emptied g g' :
  orders (sv_db g') = ∅ -> trades (sv_db g') = trades (sv_db g) -> sv_worker g' = sv_worker g -> keeps g g'.
Proof.
  intros Eo Et Ew [_ Hw]. split; [constructor; [by apply empty_orders_ok | unfold worker_sane; by rewrite Ew] | by rewrite Et].
Qed.

(** Starting the worker. *)
Lemma worker_state_keeps (e : Env.t) g :
  service_ok g ->
  let '(g1, st) := worker_state pairs seed_rows e g in
  service_ok g1 /\ sv_db g1 = sv_db g /\ map_Forall (fun _ => sane_pair) (WorkerState.pairs_cache st).
Proof.
  intros [Hd Hw]. unfold worker_state. destruct (sv_worker g) as [st |] eqn:E.
  - split_and!; [done | done | by apply Hw].
  - unfold get_state. cbn zeta. split_and!; [| done | done]. constructor; [done |]. by intros st [= <-].
Qed.

Lemma command_keeps (req : ManageRequest.t) g : ~ takes_sql req -> keeps g (on_command execute fetch_all req g).1.
Proof.
  intros Hs. unfold on_command. unfold takes_sql in Hs.
  repeat case_decide; try (exfalso; apply Hs; match goal with E : _ = _ |- _ => rewrite E end; apply (bool_decide_unpack _); vm_compute; exact I).
  - apply keeps_emptied; [| | done]; unfold reset_all, reset_balances, set_world; cbn [fst snd sv_db];
      by destruct (reset_frame (seq 1 (users_of req)) (truncate_orders_table (sv_db g))) as (Ho & Ht & _).
  - apply keeps_statements; [apply reset_users_stmts | done].
  - destruct (sweep_stale_orders (sv_kv g)) as [s n]. by apply keeps_same.
  - destruct (truncate_orders (sv_kv g, sv_db g)) as [w v] eqn:Et. unfold truncate_orders in Et.
    destruct (v_incrby _ _ _). injection Et as <- _. by apply keeps_emptied.
  - done.
Qed.


Lemma order_keeps (st : WorkerState.t) (e : Env.t) (order_id : uuid) (sent : datetime) (req : CreateOrderRequest.t) (w : store * db) :
  map_Forall (fun _ => sane_pair) (WorkerState.pairs_cache st) ->
  (dval (CreateOrderRequest.quantity req) == asked order_id)%Q ->
  statements asked w.2 (create_order ws_endpoint answer mode st order_id sent e req w).1.2.
Proof.
  intros Hst Hq. unfold create_order. destruct (check_request req) as [[] |] eqn:Hc; [| done]. destruct mode; [done |].
  cbn [fst]. apply stmts_process_order; [done |]. intros o Ho.
  destruct (read_order_message e order_id sent req Hc) as (o' & Ho' & Hask). assert (o' = o) as -> by congruence.
  destruct Hask as (-> & Hask). by rewrite (proj1 (proj2 (proj2 (proj2 (proj2 (proj2 (proj2 (proj2 Hask)))))))).
Qed.

Lemma create_keeps (a : Arrival.t) (req : CreateOrderRequest.t) g :
  (dval (CreateOrderRequest.quantity req) == asked (Arrival.order_id a))%Q ->
  keeps g (on_create ws_endpoint answer mode pairs seed_rows a req g).1.
Proof.
  intros Hq Hok. unfold on_create. destruct (is_inline mode && is_ok (check_request req)) eqn:Ei.
  - pose proof (worker_state_keeps (Arrival.env a) g Hok) as Hw. destruct (worker_state _ _ _ g) as [g1 st].
    destruct Hw as (Hok1 & Ed & Hst). pose proof (order_keeps st (Arrival.env a) (Arrival.order_id a) (Arrival.sent_at a) req
      (sv_kv g1, sv_db g1) Hst Hq) as Hs. destruct (create_order _ _ _ _ _ _ _ _ _) as [w r]. rewrite <- Ed. cbn [fst snd] in *.
    by apply (keeps_statements g1 (set_world w g1)).
  - apply andb_false_iff in Ei. unfold create_order, is_inline in *.
    destruct (check_request req) as [u | m]; [| by apply (keeps_same g)]. destruct mode; [by apply (keeps_same g) | by destruct Ei].
Qed.

Lemma manage_keeps (a : Arrival.t) (req : ManageRequest.t) g :
  ~ takes_sql req -> keeps g (internal_manage pairs seed_rows migrations execute fetch_all a req g).1.
Proof.
  intros Hs Hok. unfold internal_manage. case_decide as E.
  { exfalso. apply Hs. unfold takes_sql. rewrite E. by left. }
  pose proof (worker_state_keeps (Arrival.env a) g Hok) as Hw. destruct (worker_state _ _ _ g) as [g1 st]. cbn [fst] in *.
  destruct Hw as (Hok1 & Ed & _). rewrite <- Ed. by apply command_keeps.
Qed.

(** One admissible request. *)
Lemma respond_keeps rq a g : admissible rq a -> keeps g (gateway_respond rq a g).1.
Proof.
  unfold admissible, respond. intros Ha. destruct (axum_route _ _ _) as [[e cs] |]; [| reflexivity].
  destruct (reads e) eqn:Er.
  { rewrite (reading_effect ws_endpoint answer mode pairs seed_rows decimal_of_json migrations execute fetch_all e cs rq a g Er).
    by apply keeps_same. }
  pose proof (queueing_effect ws_endpoint answer mode pairs seed_rows decimal_of_json migrations execute fetch_all e cs rq a g) as Hq.
  destruct e; try done; try (destruct (Hq ltac:(tauto)) as [-> | [m ->]]; [reflexivity | by apply keeps_same]); clear Hq.
  all: cbn [handle_endpoint]; unfold with_body; destruct (Request.body rq ≫= json_from_str) as [j |]; [| reflexivity];
    specialize (Ha j eq_refl).
  - destruct (create_request decimal_of_json j) as [req |]; [| reflexivity]. pose proof (create_keeps a req g (Ha req eq_refl)) as H.
    by destruct (on_create _ _ _ _ _ _ _ g).
  - destruct (ManageRequest.from_value j) as [req |]; [| reflexivity]. pose proof (manage_keeps a req g (Ha req eq_refl)) as H.
    by destruct (internal_manage _ _ _ _ _ _ _ g).
Qed.

(** The gateway and the worker share Valkey and the database; the broadcasts follow
    Valkey on their own. *)
Inductive exchange_step (st : WorkerState.t) : service * worker -> service * worker -> Prop :=
| ex_request rq a g wk : admissible rq a -> exchange_step st (g, wk) ((gateway_respond rq a g).1, wk)
| ex_worker g wk w' :
    sys_step asked st (mk_process C V (sv_kv g) (sv_db g) wk) w' ->
    exchange_step st (g, wk) (set_world (p_kv w', p_db w') g, p_worker w')
| ex_caches c g wk :
    exchange_step st (g, wk) (mk_service (sv_worker g) (sv_kv g) (sv_db g) c (sv_users g), wk).

Record exchange_ok (x : service * worker) : Prop := {
  xo_service : service_ok x.1;
  xo_jobs : Forall (job_ok asked) (wk_persist x.2);
}.

Lemma exchange_step_ok (st : WorkerState.t) (x x' : service * worker) :
  map_Forall (fun _ => sane_pair) (WorkerState.pairs_cache st) -> exchange_step st x x' -> exchange_ok x ->
  exchange_ok x' /\ trades (sv_db x.1) ⊆ trades (sv_db x'.1).
Proof.
  intros Hst H [Hs Hj]. destruct H as [rq a g wk Ha | g wk w' H | c g wk]; cbn [fst snd] in *.
  - destruct (respond_keeps rq a g Ha Hs) as [Hs' Ht]. by split.
  - destruct (sys_step_stmts asked st Hst _ _ H) as [Hst' Hj']; [by split; [apply Hs |] |].
    destruct (keeps_statements g (set_world (p_kv w', p_db w') g) Hst' eq_refl Hs) as [Hs' Ht]. by split.
  - destruct (keeps_same g (mk_service (sv_worker g) (sv_kv g) (sv_db g) c (sv_users g)) eq_refl eq_refl Hs) as [Hs' Ht]. by split.
Qed.

(** The exchange stays sound: whatever requests clients and administrators send,
    SQL of their own apart, interleaved with any steps of the worker in any order,
    every order row has the quantity its message asked for and a remainder between
    zero and that quantity, nothing left once it is filled, a sequence number of its
    own, and no recorded trade changes or disappears. *)
Theorem exchange_bounded (st : WorkerState.t) (x x' : service * worker) :
  map_Forall (fun _ => sane_pair) (WorkerState.pairs_cache st) -> exchange_ok x -> rtc (exchange_step st) x x' ->
  (forall id r, orders (sv_db x'.1) !! id = Some r ->
     (OrderRow.quantity r == asked id)%Q /\ (0 <= OrderRow.remaining r <= OrderRow.quantity r)%Q /\
     (OrderRow.status r = "Filled" -> (OrderRow.remaining r == 0)%Q)) /\
  (forall id id' r r', orders (sv_db x'.1) !! id = Some r -> orders (sv_db x'.1) !! id' = Some r' ->
     OrderRow.sequence r = OrderRow.sequence r' -> id = id') /\
  trades (sv_db x.1) ⊆ trades (sv_db x'.1).
Proof.
  intros Hst Hx H. assert (exchange_ok x' /\ trades (sv_db x.1) ⊆ trades (sv_db x'.1)) as [[[[Hr Hs] _] _] Ht].
  { induction H as [x | x x1 x2 H _ IH]; [by split |]. destruct (exchange_step_ok st x x1 Hst H Hx) as [Hx1 Ht1].
    destruct (IH Hx1) as [Hx2 Ht2]. split; [done | by etransitivity]. }
  split; [| by split]. intros id r [? ? ? ?]%Hr. by repeat (split; [assumption |]).
Qed.
End Exchange.

Module RouterExamples.
Import RefCrates RefValkey RefJson RefDb RefAxum MatchLuaExamples OrderFlowExamples RowsExamples SystemExamples.

Definition decimal_text (j : Json) : option (@decimal ref_crates) :=
  match j with
  | JStr s => dec_from_str s
  | _ => None
  end.

Definition gateway := respond false (fun _ => Sent) Inline [] (fun _ => []) decimal_text (fun d => Ok d)
  (fun _ d => Ok (d, 0)) (fun _ d => Ok (d, [])).

Definition post_order : Request.t :=
  Request.mk "POST" ["api"; "orders"] []
    (Some (json_to_string (object [("user_id", JStr "taker"); ("pair_id", JStr "BTC-USDT"); ("side", JStr "Buy");
                                   ("order_type", JStr "Limit"); ("price", d_str 101); ("quantity", d_str 2)]))) false.

Definition arrival : @Arrival.t ref_crates := Arrival.mk 0 env (1%positive : @uuid ref_crates) (0 : @datetime ref_crates).

Definition opened : @service ref_crates ref_valkey := mk_service (Some state) market empty_db ∅ ∅.

Definition served : @service ref_crates ref_valkey := (gateway post_order arrival opened).1.

Lemma post_admissible : admissible two decimal_text post_order arrival.
Proof.
  assert (match Request.body post_order ≫= json_from_str with
          | Some j => match create_request decimal_text j with
                      | Ok req => Qeq_bool (CreateOrderRequest.quantity req) 2
                      | Err _ => true
                      end
          | None => true
          end = true) as H by (vm_compute; reflexivity).
  intros j Hj. rewrite Hj in H. change (axum_route app_routes (Request.method post_order) (Request.path post_order)) with (Some (CreateOrder, @nil string)).
  intros req Hreq. rewrite Hreq in H. by apply Qeq_bool_iff in H.
Qed.

Lemma exchange_run :
  rtc (exchange_step two false (fun _ => Sent) Inline [] (fun _ => []) decimal_text (fun d => Ok d)
         (fun _ d => Ok (d, 0)) (fun _ d => Ok (d, [])) state) (opened, idle) (served, idle).
Proof. apply rtc_once, (ex_request two), post_admissible. Qed.

Lemma opened_ok : exchange_ok two (opened, idle).
Proof.
  split; [| constructor]. constructor; [by apply empty_orders_ok |]. intros st [= <-]. exact state_sane.
Qed.

Lemma exchange_bounded_witness :
  shown 1 (sv_db served) = Some (0%Q, "Filled") /\
  (forall id r, orders (sv_db served) !! id = Some r -> (0 <= OrderRow.remaining r <= OrderRow.quantity r)%Q).
Proof.
  split; [vm_compute; reflexivity |]. intros id r Hr.
  exact (proj1 (proj2 (proj1 (exchange_bounded two false (fun _ => Sent) Inline [] (fun _ => []) decimal_text (fun d => Ok d)
    (fun _ d => Ok (d, 0)) (fun _ d => Ok (d, [])) (map_Forall_empty _) state (opened, idle) (served, idle)
    state_sane opened_ok exchange_run) id r Hr))).
Defined.


Definition get_portfolio_request : Request.t := Request.mk "GET" ["api"; "portfolio"] [("user_id", "taker")] None false.

Lemma request_effects_witness :
  (gateway get_portfolio_request arrival opened).2 = Http (raw_json (json_text "{'balances':[]}")) /\
  only_users opened (gateway get_portfolio_request arrival opened).1.
Proof.
  split; [vm_compute; reflexivity |].
  exact (proj1 (proj2 (request_effects false (fun _ => Sent) Inline [] (fun _ => []) decimal_text (fun d => Ok d)
    (fun _ d => Ok (d, 0)) (fun _ d => Ok (d, [])) get_portfolio_request arrival opened)) (or_introl eq_refl)).
Defined.
End RouterExamples.
