(* ===== verification/LoadTest.v ===== *)
(** * The load test ([tools/loadtest/src/main.rs])

    The command line, the orders it sends, its counters, the trades it counts on
    the gateway's socket, and one level of a scenario: concurrent workers, each
    sending until the deadline, as a list of their requests in the order they end.
    The HTTP client is a parameter: the outcome of a request is an input. *)

From S2P Require Import Prelude Numbers Externals Fixed Types Codec Valkey Json Db Persist Views Metrics OrderFlow Gateway Sockets.

Open Scope Z_scope.

(** ** Strings of the command line *)

Definition bytes (l : list nat) : string := foldr (fun n s => String (ascii_of_nat n) s) EmptyString l.

(** The UTF-8 texts of the characters [str::trim] removes. *)
Definition white_space : list string :=
  bytes <$> (((fun n => [n]) <$> [9; 10; 11; 12; 13; 32]%nat)
             ++ [[194; 133]; [194; 160]; [225; 154; 128]; [226; 128; 168]; [226; 128; 169]; [226; 128; 175];
                 [226; 129; 159]; [227; 128; 128]]%nat
             ++ ((fun n => [226; 128; n]%nat) <$> seq 128 11)).

Fixpoint rev_onto (s acc : string) : string :=
  match s with
  | EmptyString => acc
  | String a r => rev_onto r (String a acc)
  end.

Definition rev_string (s : string) : string := rev_onto s EmptyString.

(** Drops the texts [ws] from the front, as long as there is one. *)
Fixpoint drop_front (ws : list string) (fuel : nat) (s : string) : string :=
  match fuel with
  | O => s
  | S fuel =>
      match head (omap (fun w => Multiplexed.strip_prefix w s) ws) with
      | Some rest => drop_front ws fuel rest
      | None => s
      end
  end.

Definition trim (s : string) : string :=
  let s := drop_front white_space (String.length s) s in
  rev_string (drop_front (rev_string <$> white_space) (String.length s) (rev_string s)).

(** [str::replacen(from, to, 1)] *)
Fixpoint replace_first (from to s : string) : string :=
  match Multiplexed.strip_prefix from s with
  | Some rest => to +:+ rest
  | None =>
      match s with
      | EmptyString => EmptyString
      | String a r => String a (replace_first from to r)
      end
  end.

Definition ends_with (suffix s : string) : bool := String.prefix (rev_string suffix) (rev_string s).

(** ** Configuration *)

Inductive Mode := Sync | Verified.

Module Config.
Record t : Type := mk {
  base_url : string;
  ws_url : option string;
  pairs : list string;
  concurrency_levels : list Z;
  duration_secs : Z;
  scenarios : list string;
  mode : Mode;
  label : string;
  output : option string;
}.

(** The argument after the first occurrence of a flag. *)
Fixpoint arg_after (flag : string) (args : list string) : option string :=
  match args with
  | [] => None
  | a :: rest => if decide (a = flag) then head rest else arg_after flag rest
  end.

Definition from_args (args : list string) : t :=
  let get flag dflt := default dflt (arg_after flag args) in
  let scenario := get "--scenario" "all" in
  mk (get "--url" "http://localhost:3001") (arg_after "--ws-url" args)
    (trim <$> split_on "," (get "--pairs" "BTC-USDT"))
    (omap (fun s => parse_usize (trim s)) (split_on "," (get "--concurrency" "1,2,4,8,16,32")))
    (default 10 (parse_u64 (get "--duration" "10")))
    (if decide (scenario = "all") then ["resting"; "crossing"; "mixed"; "multi-pair"] else [scenario])
    (if decide (get "--mode" "sync" = "verified") then Verified else Sync)
    (get "--label" "unknown") (arg_after "--output" args).

Definition ws_base_url (c : t) : string :=
  match ws_url c with
  | Some url => url
  | None => replace_first "http://" "ws://" (replace_first "https://" "wss://" (base_url c))
  end.
End Config.

(** ** Counters *)

Module Stats.
Record t : Type := mk { orders : Z; errors : Z; latency_sum_us : Z; latency_max_us : Z }.

Definition new : t := mk 0 0 0 0.

(** [us] is the latency in microseconds, a u128 before the cast. *)
Definition record (us : Z) (s : t) : t :=
  mk (wrap_u64 (orders s + 1)) (errors s) (wrap_u64 (latency_sum_us s + wrap_u64 us))
    (Z.max (latency_max_us s) (wrap_u64 us)).

Definition record_error (s : t) : t := mk (orders s) (wrap_u64 (errors s + 1)) (latency_sum_us s) (latency_max_us s).

Definition snapshot (s : t) : Z * Z * Z * Z := (orders s, errors s, latency_sum_us s, latency_max_us s).
End Stats.

(** ** Orders *)

Definition order_body (user pair side tif price : string) : Json :=
  object [("user_id", JStr user); ("pair_id", JStr pair); ("side", JStr side); ("order_type", JStr "Limit");
          ("tif", JStr tif); ("price", JStr price); ("quantity", JStr "0.00001")].

Definition resting_order (pair : string) (seq : Z) : Json :=
  let '(side, price) := if seq mod 2 =? 0 then ("Buy", "70500") else ("Sell", "71000") in
  let user := if seq mod 2 =? 0 then "user-1" else "user-2" in
  order_body user pair side "IOC" price.

Definition crossing_order (pair : string) (seq : Z) : Json :=
  let '(side, price, user) := if seq mod 2 =? 0 then ("Sell", "70735", "user-2") else ("Buy", "70735", "user-1") in
  order_body user pair side "GTC" price.

Definition mixed_order (pair : string) (seq : Z) : Json :=
  if seq mod 4 <? 2 then resting_order pair seq else crossing_order pair seq.

(** The outcome of a request: the status of the response and its text, if there is
    one. *)
Definition place_order (response : option (Z * string)) : result unit :=
  match response with
  | None => Err "error sending request"
  | Some (status, text) => if (200 <=? status) && (status <? 300) then Ok tt else Err ("HTTP " +:+ text)
  end.

(** ** The trade counter *)

Section Counter.
Context `{J : SerdeJson}.

Definition stream_url (ws_url : string) : string :=
  if str_contains "execute-api" ws_url || ends_with "/ws" ws_url then ws_url else ws_url +:+ "/ws/stream".

Definition subscribe_command (pairs : list string) : string :=
  json_to_string (object [("subscribe", JArr ((fun p => JStr ("trades:" +:+ p)) <$> pairs))]).

(** The trades a message stands for: the length of its data when that is an array. *)
Definition trades_in_message (text : string) : Z :=
  match json_from_str text with
  | Some val =>
      if match get_str "ch" val with Some ch => String.prefix "trades:" ch | None => false end then
        match get "data" val with
        | Some (JArr l) => Z.of_nat (length l)
        | Some _ => 1
        | None => 0
        end
      else 0
  | None => 0
  end.

(** The counter's connection: its count, the pongs it sent, and whether it is open. *)
Record counter : Type := mk_counter { trade_count : Z; pongs : list string; counting : bool }.

Inductive counter_event :=
| Cancelled
| Message (m : client_msg).

Definition counter_step (ev : counter_event) (c : counter) : counter :=
  if counting c then
    match ev with
    | Cancelled => mk_counter (trade_count c) (pongs c) false
    | Message (Text text) => mk_counter (wrap_u64 (trade_count c + trades_in_message text)) (pongs c) true
    | Message (Ping data) => mk_counter (trade_count c) (pongs c ++ [data]) true
    | Message (Close | Gone) => mk_counter (trade_count c) (pongs c) false
    | Message OtherMsg => c
    end
  else c.

Definition ws_trade_loop (evs : list counter_event) (c : counter) : counter := fold_left (fun c ev => counter_step ev c) evs c.

(** Readings of the counter every 200 ms, until one is not above the last; the
    number of readings taken. *)
Fixpoint drain (last : Z) (readings : list Z) : nat :=
  match readings with
  | [] => 0%nat
  | current :: rest => if last <? current then S (drain current rest) else 1%nat
  end.
End Counter.

(** ** One level of a scenario *)

(** A worker: its pair and its next sequence number. *)
Record worker : Type := mk_worker { w_pair : string; w_seq : Z }.

Record level : Type := mk_level { workers : list worker; stats : Stats.t; requests : list (nat * Json) }.

(** A request of worker [i], begun at [now] and answered [us] later. *)
Record request : Type := mk_request { r_worker : nat; r_now : Z; r_response : option (Z * string); r_us : Z }.

Section Level.
Context (order_fn : string -> Z -> Json).

(** Worker [i] starts at [i] millions; the pairs are given in turn. *)
Definition start_level (conc : nat) (pairs : list string) : level :=
  mk_level ((fun i => mk_worker (nth (i mod length pairs) pairs EmptyString) (wrap_u64 (Z.of_nat i * 1000000))) <$> seq 0 conc)
    Stats.new [].

(** [None]: the worker does not exist, or its deadline has passed. *)
Definition send (deadline : Z) (r : request) (l : level) : option level :=
  w ← workers l !! r_worker r;
  if r_now r <? deadline then
    let st := match place_order (r_response r) with
              | Ok _ => Stats.record (r_us r) (stats l)
              | Err _ => Stats.record_error (stats l)
              end in
    Some (mk_level (<[r_worker r := mk_worker (w_pair w) (w_seq w + 1)]> (workers l)) st
            (requests l ++ [(r_worker r, order_fn (w_pair w) (w_seq w))]))
  else None.

Fixpoint run_level (deadline : Z) (rs : list request) (l : level) : option level :=
  match rs with
  | [] => Some l
  | r :: rs => l ← send deadline r l; run_level deadline rs l
  end.
End Level.

Module LevelResult.
Record t : Type := mk {
  concurrency : nat;
  orders : Z;
  errors : Z;
  dispatch_per_sec : Q;
  avg_latency_ms : Q;
  max_latency_ms : Q;
  verified_trades : option Z;
  verified_trades_per_sec : option Q;
  match_rate_pct : option Q;
}.

Definition as_f64 (n : Z) : Q := f64_of_Q (inject_Z n).
Definition f64_div (a b : Q) : Q := f64_of_Q (a / b).
Definition f64_mul (a b : Q) : Q := f64_of_Q (a * b).

(** [wall] is the elapsed time in seconds, not zero; a crossing scenario should make a
    trade of every two orders. *)
Definition compute (conc : nat) (wall : Q) (snap : Z * Z * Z * Z) (verified : option Z) : t :=
  let '(orders, errors, lat_sum, lat_max) := snap in
  let avg := if 0 <? orders then f64_div (f64_div (as_f64 lat_sum) (as_f64 orders)) 1000 else 0%Q in
  let rate vt := if 0 <? orders then f64_mul (f64_div (as_f64 vt) (f64_div (as_f64 orders) 2)) 100 else 0%Q in
  mk conc orders errors (f64_div (as_f64 orders) wall) avg (f64_div (as_f64 lat_max) 1000) verified
    ((fun vt => f64_div (as_f64 vt) wall) <$> verified) (rate <$> verified).

(** An absent value is left out. *)
Definition optional (k : string) (o : option Json) : list (string * Json) :=
  match o with
  | Some j => [(k, j)]
  | None => []
  end.

Definition to_json (r : t) : Json :=
  object ([("concurrency", JInt (Z.of_nat (concurrency r))); ("orders", JInt (orders r)); ("errors", JInt (errors r));
           ("dispatch_per_sec", JFloat (dispatch_per_sec r)); ("avg_latency_ms", JFloat (avg_latency_ms r));
           ("max_latency_ms", JFloat (max_latency_ms r))]
          ++ optional "verified_trades" (JInt <$> verified_trades r)
          ++ optional "verified_trades_per_sec" (JFloat <$> verified_trades_per_sec r)
          ++ optional "match_rate_pct" (JFloat <$> match_rate_pct r)).
End LevelResult.

(** ** Scenarios *)

(** The title and the orders of a scenario; an unknown one is skipped, and so is
    the one of many pairs when there are not two. *)
Definition scenario_orders (pairs : list string) (scenario : string) : option (string * (string -> Z -> Json)) :=
  if decide (scenario = "resting") then Some ("Resting Orders (IOC, no matching)", resting_order)
  else if decide (scenario = "crossing") then Some ("Crossing Orders (GTC, every 2nd matches)", crossing_order)
  else if decide (scenario = "mixed") then Some ("Mixed (50% resting, 50% crossing)", mixed_order)
  else if decide (scenario = "multi-pair") then
    if (length pairs <? 2)%nat then None else Some ("Multi-Pair Crossing", crossing_order)
  else None.

Module ScenarioResult.
Record t : Type := mk { label : string; scenario : string; mode : string; levels : list LevelResult.t }.

Definition to_json (r : t) : Json :=
  object [("label", JStr (label r)); ("scenario", JStr (scenario r)); ("mode", JStr (mode r));
          ("levels", JArr (LevelResult.to_json <$> levels r))].
End ScenarioResult.

(** What the world does during a level: the deadline, the requests in the order they
    end, the seconds that pass, and the trade counter before and after. *)
Record level_run : Type := mk_level_run {
  run_deadline : Z;
  run_requests : list request;
  run_wall : Q;
  trades_before : Z;
  trades_after : Z;
}.

Definition mode_str (m : Mode) : string :=
  match m with
  | Sync => "sync"
  | Verified => "verified"
  end.

Definition run_one (c : Config.t) (order_fn : string -> Z -> Json) (conc : nat) (run : level_run) : option LevelResult.t :=
  l ← run_level order_fn (run_deadline run) (run_requests run) (start_level conc (Config.pairs c));
  let verified := match Config.mode c with
                  | Verified => Some (trades_after run - trades_before run)
                  | Sync => None
                  end in
  Some (LevelResult.compute conc (run_wall run) (Stats.snapshot (stats l)) verified).

(** The levels one after the other, each with fresh counters; [runs] has one element
    for each. *)
Definition run_scenario (name : string) (c : Config.t) (order_fn : string -> Z -> Json) (runs : list level_run)
    : option ScenarioResult.t :=
  levels ← mapM (fun '(conc, run) => run_one c order_fn (Z.to_nat conc) run) (zip (Config.concurrency_levels c) runs);
  Some (ScenarioResult.mk (Config.label c) name (mode_str (Config.mode c)) levels).

Definition planned (c : Config.t) : list (string * (string -> Z -> Json)) :=
  omap (scenario_orders (Config.pairs c)) (Config.scenarios c).
