(* ===== verification/LoadTestProps.v ===== *)
(** * The load test: properties

    What the gateway and the worker make of its orders, what the workers of a level
    send together, and what its trade counter counts. *)

From S2P Require Import Prelude Numbers Externals Fixed Types Codec Valkey Json Db Persist Views Metrics Ws.
From S2P Require Import OrderFlow OrderFlowExamples OrderFlowProps Gateway GatewayProps Background BackgroundProps Sockets Router LoadTest.

Open Scope Z_scope.

(** ** Literals *)

Section Literals.
Context `{C : Crates, L : !CratesLaws C}.

(** A literal with at most eight decimals. *)
Definition short_literal (t : string) : bool :=
  match literal_value t with
  | Some q => let m := Qnum q * 10 ^ 8 / Zpos (Qden q) in
              Qeq_bool q (m # pow10 8) && (Z.abs m <? 2 ^ 96)
  | None => false
  end.

Definition literal_q (t : string) : Q := default 0%Q (literal_value t).

Definition amount (t : string) : decimal := default dec_zero (dec_from_str t).

Lemma literal_read (t : string) :
  short_literal t = true -> dec_from_str t = Some (amount t) /\ (dval (amount t) == literal_q t)%Q.
Proof.
  unfold short_literal, literal_q, amount. destruct (literal_value t) as [q |] eqn:E; [| done].
  intros [Hq Hm]%andb_true_iff. apply Qeq_bool_iff in Hq. apply Z.ltb_lt in Hm.
  destruct (dec_from_literal t q E) as (d & Hd & Hv); [| by rewrite Hd].
  exists (Qnum q * 10 ^ 8 / Zpos (Qden q)), 8%nat. split_and!; [done | lia | done].
Qed.

Lemma seed_literals_read (t : string) : t ∈ seed_literals -> dec_from_str t = Some (amount t).
Proof.
  intros Ht. apply literal_read. assert (forallb short_literal seed_literals = true) as H by (vm_compute; reflexivity).
  rewrite forallb_forall in H. by apply H, list_elem_of_In.
Qed.

(** The remainder of decimals of known value. *)
Lemma rem_value (a b : decimal) (x y : Q) :
  (dval a == x)%Q -> (dval b == y)%Q -> ~ (y == 0)%Q -> (dval (dec_rem a b) == x - y * inject_Z (Qtrunc (x / y)))%Q.
Proof.
  intros Ha Hb Hy. rewrite dec_rem_val by (by rewrite Hb). rewrite (Qtrunc_proper _ (x / y)) by (by rewrite Ha, Hb).
  by rewrite Ha, Hb.
Qed.
End Literals.

(** ** The orders *)

Section Orders.
Context `{C : Crates, L : !CratesLaws C, X : !Sqlx C, V : Valkey, J : SerdeJson}.
Context (decimal_of_json : Json -> option decimal)
  (Hdec : forall t d, dec_from_str t = Some d -> decimal_of_json (JStr t) = Some d).

Definition generators : list (string -> Z -> Json) := [resting_order; crossing_order; mixed_order].

Definition prices : list string := ["70500"; "71000"; "70735"].

(** Every generated order is a limit order at one of three prices. *)
Lemma generated_body (f : string -> Z -> Json) (pair : string) (seq : Z) :
  f ∈ generators -> exists user s t price, price ∈ prices /\ f pair seq = order_body user pair (side_str s) (tif_str t) price.
Proof.
  assert (forall seq, exists user s t price, price ∈ prices /\ resting_order pair seq = order_body user pair (side_str s) (tif_str t) price)
    as Hr.
  { intros n. unfold resting_order. destruct (n mod 2 =? 0).
    - exists "user-1", Buy, IOC, "70500". split; [by left | done].
    - exists "user-2", Sell, IOC, "71000". split; [right; by left | done]. }
  assert (forall seq, exists user s t price, price ∈ prices /\ crossing_order pair seq = order_body user pair (side_str s) (tif_str t) price)
    as Hc.
  { intros n. unfold crossing_order. destruct (n mod 2 =? 0).
    - exists "user-2", Sell, GTC, "70735". split; [right; right; by left | done].
    - exists "user-1", Buy, GTC, "70735". split; [right; right; by left | done]. }
  intros [-> | [-> | ->%list_elem_of_singleton]%elem_of_cons]%elem_of_cons; [apply Hr | apply Hc |].
  unfold mixed_order. case_cond; [apply Hr | apply Hc].
Qed.

Definition body_request (user pair : string) (s : Side) (t : TimeInForce) (price : string) : CreateOrderRequest.t :=
  CreateOrderRequest.mk (Some user) pair s Limit (Some t) (Some (amount price)) (amount "0.00001") None None.

Lemma prices_short (price : string) : price ∈ prices -> short_literal price = true.
Proof.
  intros Hp. assert (forallb short_literal prices = true) as H by (vm_compute; reflexivity).
  rewrite forallb_forall in H. by apply H, list_elem_of_In.
Qed.

Lemma body_read (user pair : string) (s : Side) (t : TimeInForce) (price : string) :
  price ∈ prices ->
  create_request decimal_of_json (order_body user pair (side_str s) (tif_str t) price) = Ok (body_request user pair s t price).
Proof.
  intros Hp. destruct (literal_read price (prices_short _ Hp)) as [Ep _].
  destruct (literal_read "0.00001" eq_refl) as [Eq _].
  set (j := order_body _ _ _ _ _). unfold create_request, body_field, body_option.
  assert (forall names, struct_of names j = Ok j) as -> by done. cbn [mbind result_bind].
  change (get "user_id" j) with (Some (JStr user)). change (get "pair_id" j) with (Some (JStr pair)).
  change (get "side" j) with (Some (JStr (side_str s))). change (get "order_type" j) with (Some (JStr "Limit")).
  change (get "tif" j) with (Some (JStr (tif_str t))). change (get "price" j) with (Some (JStr price)).
  change (get "quantity" j) with (Some (JStr "0.00001")).
  change (get "stp_mode" j) with (@None Json). change (get "client_order_id" j) with (@None Json).
  cbn [ok_or mbind result_bind as_str]. rewrite (Hdec _ _ Ep), (Hdec _ _ Eq). by destruct s, t.
Qed.

(** The gateway takes such a request. *)
Lemma body_checked (user pair : string) (s : Side) (t : TimeInForce) (price : string) :
  check_request (body_request user pair s t price) = Ok tt.
Proof.
  destruct (literal_read "0.00001" eq_refl) as [_ Vq]. unfold check_request, body_request, dec_leb.
  rewrite dec_cmp_val. cbn [CreateOrderRequest.quantity]. rewrite Vq, dec_zero_val. reflexivity.
Qed.

(** The pairs of a fresh database. *)
Definition seeded : gmap string PairConfig.t := load_pairs_cache (seed_row_of amount <$> seed_pairs).

Definition seeded_config (tick lot mn mx : string) : PairConfig.t :=
  PairConfig.mk (amount tick) (amount lot) (amount mn) (amount mx) true.

Lemma seeded_pairs :
  seeded !! "BTC-USDT" = Some (seeded_config "0.01" "0.00001" "0.00001" "100") /\
  seeded !! "ETH-USDT" = Some (seeded_config "0.01" "0.0001" "0.0001" "1000") /\
  seeded !! "SOL-USDT" = Some (seeded_config "0.001" "0.01" "0.01" "10000").
Proof. done. Qed.

(** What the validation sees of an order made of a body: its literals. *)
Lemma literal_rem (a b : decimal) (x y : string) :
  short_literal x = true -> short_literal y = true -> (dval a == dval (amount x))%Q -> b = amount y ->
  Qeq_bool (literal_q y) 0 = false ->
  (dval (dec_rem a b) == 0)%Q <->
  Qeq_bool (literal_q x - literal_q y * inject_Z (Qtrunc (literal_q x / literal_q y))) 0 = true.
Proof.
  intros Hx Hy Ha -> Hz. destruct (literal_read x Hx) as [_ Vx], (literal_read y Hy) as [_ Vy].
  rewrite (rem_value a (amount y) (literal_q x) (literal_q y)), <- Qeq_bool_iff; [done | by rewrite Ha | done |].
  intros H. apply Qeq_bool_iff in H. congruence.
Qed.

(** A quantity at or above the bound named by a literal. *)
Lemma literal_le (a b : string) :
  short_literal a = true -> short_literal b = true -> Qle_bool (literal_q a) (literal_q b) = true ->
  (dval (amount a) <= dval (amount b))%Q.
Proof.
  intros Ha Hb H. destruct (literal_read a Ha) as [_ ->], (literal_read b Hb) as [_ ->]. by apply Qle_bool_iff.
Qed.

(** Of the pairs of a fresh database only BTC-USDT takes the quantity of the load
    test: it is below the lot sizes of the other two. *)
Lemma body_validated (order_id : uuid) (user pair : string) (s : Side) (t : TimeInForce) (price : string) (o : Order.t) :
  price ∈ prices -> pair ∈ PAIRS -> asked order_id (body_request user pair s t price) o ->
  validate_order seeded o = Ok tt <-> pair = "BTC-USDT".
Proof.
  intros Hprice Hpair (_ & _ & Ep & _ & _ & _ & _ & _ & Vq & _ & Vp). cbn in Ep, Vq, Vp.
  destruct seeded_pairs as (Hbtc & Heth & Hsol). rewrite validate_order_spec, Ep.
  assert (forall cfg lot, seeded !! pair = Some cfg -> PairConfig.lot_size cfg = amount lot -> short_literal lot = true ->
            Qeq_bool (literal_q lot) 0 = false ->
            (dval (dec_rem (Order.quantity o) (PairConfig.lot_size cfg)) == 0)%Q ->
            Qeq_bool (literal_q "0.00001" - literal_q lot * inject_Z (Qtrunc (literal_q "0.00001" / literal_q lot))) 0 = true)
    as Hlot by (intros cfg lot _ El Hl Hz; by apply (literal_rem _ _ "0.00001" lot eq_refl Hl Vq El Hz)).
  apply elem_of_cons in Hpair as [-> | Hpair].
  - split; [done |]. intros _. eexists. split; [exact Hbtc |]. split_and!; [done | | | |].
    + by apply (literal_rem _ _ "0.00001" "0.00001" eq_refl eq_refl Vq eq_refl eq_refl).
    + rewrite Vq. by apply literal_le.
    + rewrite Vq. by apply literal_le.
    + intros p Hp _. rewrite Hp in Vp. apply (literal_rem _ _ price "0.01" (prices_short _ Hprice) eq_refl Vp eq_refl eq_refl).
      clear Vp. revert price Hprice. apply Forall_forall. by repeat constructor.
  - split; [| intros ->; exfalso; revert Hpair; apply (bool_decide_unpack _); vm_compute; exact I].
    intros (cfg & E & _ & Hr & _). exfalso. apply elem_of_cons in Hpair as [-> | ->%list_elem_of_singleton].
    + rewrite Heth in E. apply (inj Some) in E as <-. by specialize (Hlot _ "0.0001" Heth eq_refl eq_refl eq_refl Hr).
    + rewrite Hsol in E. apply (inj Some) in E as <-. by specialize (Hlot _ "0.01" Hsol eq_refl eq_refl eq_refl Hr).
Qed.

(** On a fresh database the gateway takes every order the load test makes, as
    the load test counts it, and whichever way it dispatches; but the worker that
    reads it accepts only those of BTC-USDT: the fixed quantity 0.00001 is below
    the lot size of the other pairs. *)
Theorem load_orders_accepted (ws_endpoint : bool) (answer : post -> PostResult) (f : string -> Z -> Json)
    (pair : string) (seq : Z) (pairs : list PairRow.t) (d d' : db) :
  f ∈ generators -> pair ∈ PAIRS -> run_seed ([], d) = Some (pairs, d') ->
  exists req, create_request decimal_of_json (f pair seq) = Ok req /\
    (forall mode st order_id now e w text,
       place_order (Some (Response.status (create_order ws_endpoint answer mode st order_id now e req w).2, text)) = Ok tt) /\
    (forall order_id now e,
       exists o o', read_order e (order_message order_id now req) = Ok o /\
         read_queued_order e (order_message order_id now req) = Ok o' /\
         (validate_order (load_pairs_cache pairs) o = Ok tt <-> pair = "BTC-USDT") /\
         (validate_order (load_pairs_cache pairs) o' = Ok tt <-> pair = "BTC-USDT")).
Proof.
  intros Hf Hpair Hseed. rewrite (run_seed_eq amount seed_literals_read) in Hseed.
  assert (load_pairs_cache pairs = seeded) as -> by (apply (inj Some) in Hseed; by injection Hseed as <- _).
  destruct (generated_body f pair seq Hf) as (user & s & t & price & Hprice & ->).
  exists (body_request user pair s t price). split; [by apply body_read |].
  pose proof (body_checked user pair s t price) as Hc. split.
  - intros mode st order_id now e w text. unfold create_order. by rewrite Hc.
  - intros order_id now e. destruct (read_order_message e order_id now _ Hc) as (o & Ho & Ao).
    destruct (read_queued_message e order_id now (body_request user pair s t price)) as (o' & Ho' & Ao').
    exists o, o'. split_and!; [done | done | by eapply body_validated | by eapply body_validated].
Qed.
End Orders.

(** ** The workers of a level *)

Section Accounts.
Context (order_fn : string -> Z -> Json) (deadline : Z).

(** The orders of worker [i], in the order it sent them. *)
Definition sent_by (i : nat) (l : level) : list Json := omap (fun r => if decide (r.1 = i) then Some r.2 else None) (requests l).

(** Worker [i] has sent the orders from [from] to its sequence number. *)
Definition in_sequence (from : list worker) (l : level) : Prop :=
  forall i w, from !! i = Some w -> exists n, workers l !! i = Some (mk_worker (w_pair w) (w_seq w + Z.of_nat n)) /\
    sent_by i l = (fun k => order_fn (w_pair w) (w_seq w + Z.of_nat k)) <$> seq 0 n.

Definition answered (l : level) : Z := Stats.orders (stats l) + Stats.errors (stats l).

Lemma send_counts (r : request) (l l' : level) :
  send order_fn deadline r l = Some l' ->
  length (requests l') = S (length (requests l)) /\ wrap_u64 (answered l') = wrap_u64 (answered l + 1).
Proof.
  unfold send. destruct (workers l !! r_worker r) as [w |]; cbn [mbind option_bind]; [| done].
  case_cond; [intros [= <-] | done]. cbn [requests stats]. rewrite length_app. split; [cbn; lia |].
  unfold answered. destruct (place_order _); cbn; unfold wrap_u64; rewrite ?Zplus_mod_idemp_l, ?Zplus_mod_idemp_r; f_equal; lia.
Qed.

Lemma send_in_sequence (from : list worker) (r : request) (l l' : level) :
  send order_fn deadline r l = Some l' -> in_sequence from l -> in_sequence from l'.
Proof.
  unfold send. destruct (workers l !! r_worker r) as [w' |] eqn:Ew; cbn [mbind option_bind]; [| done].
  case_cond; [intros [= <-] | done]. intros H i w Hi. destruct (H i w Hi) as (n & Hw & Hs). unfold sent_by in *. cbn [requests workers].
  rewrite omap_app, Hs. cbn. destruct (decide (r_worker r = i)) as [<- | Hne].
  - rewrite Hw in Ew. injection Ew as <-. exists (S n). cbn [w_pair w_seq]. rewrite list_lookup_insert_eq by by eapply lookup_lt_Some.
    rewrite seq_S, fmap_app. split; [do 2 f_equal; lia | done].
  - exists n. by rewrite list_lookup_insert_ne, app_nil_r.
Qed.

Lemma run_level_invariant (from : list worker) (rs : list request) (l l' : level) :
  run_level order_fn deadline rs l = Some l' -> in_sequence from l ->
  in_sequence from l' /\ length (requests l') = (length rs + length (requests l))%nat /\
  wrap_u64 (answered l') = wrap_u64 (answered l + Z.of_nat (length rs)).
Proof.
  revert l. induction rs as [| r rs IH]; intros l H Hl; cbn in H.
  - injection H as <-. split_and!; [done | done | f_equal; cbn; lia].
  - apply bind_Some in H as (l1 & Hr & H). destruct (send_counts _ _ _ Hr) as [Hn Ha].
    destruct (IH l1 H (send_in_sequence _ _ _ _ Hr Hl)) as (Hs & -> & ->). split_and!; [done | cbn; lia |].
    cbn [length]. unfold wrap_u64 in *. rewrite <- Zplus_mod_idemp_l, Ha, Zplus_mod_idemp_l. f_equal. lia.
Qed.
End Accounts.

(** Every request of a level is counted once, as an order or as an error, and
    each worker sends the orders of its own pair with consecutive sequence numbers
    from its start, whatever the interleaving and the answers. *)
Theorem level_accounts (order_fn : string -> Z -> Json) (deadline : Z) (conc : nat) (pairs : list string)
    (rs : list request) (l : level) :
  run_level order_fn deadline rs (start_level conc pairs) = Some l ->
  length (requests l) = length rs /\
  wrap_u64 (Stats.orders (stats l) + Stats.errors (stats l)) = wrap_u64 (Z.of_nat (length rs)) /\
  forall i, (i < conc)%nat ->
    exists n, sent_by i l = (fun k => order_fn (nth (i mod length pairs) pairs EmptyString)
                               (wrap_u64 (Z.of_nat i * 1000000) + Z.of_nat k)) <$> seq 0 n.
Proof.
  intros H. destruct (run_level_invariant order_fn deadline (workers (start_level conc pairs)) rs _ l H) as (Hs & Hn & Ha).
  - intros i w Hi. exists 0%nat. rewrite Z.add_0_r. by destruct w.
  - cbn in Hn. split_and!; [lia | exact Ha |]. intros i Hi.
    destruct (Hs i _ ltac:(cbn; rewrite list_lookup_fmap, lookup_seq_lt by done; reflexivity)) as (n & _ & Hsent).
    by exists n.
Qed.

(** ** Examples *)

Module LoadTestExamples.
Import RefCrates RefValkey RefJson RefDb OrderFlowExamples.

Definition decimal_text (j : Json) : option (@decimal ref_crates) :=
  match j with
  | JStr s => dec_from_str s
  | _ => None
  end.

Lemma decimal_text_read (t : string) (d : @decimal ref_crates) : dec_from_str t = Some d -> decimal_text (JStr t) = Some d.
Proof. done. Qed.

Definition fresh : list (@PairRow.t ref_crates) := fst (default ([], empty_db) (run_seed ([], empty_db))).

Lemma fresh_seeded : exists d, run_seed ([], empty_db) = Some (fresh, d).
Proof.
  destruct (run_seed_spec amount seed_literals_read [] empty_db) as (new & d & E & _).
  exists d. unfold fresh. by rewrite E.
Qed.

(** A crossing order of ETH-USDT is taken by the gateway and rejected by the worker. *)
Lemma load_orders_accepted_witness :
  exists req o, create_request decimal_text (crossing_order "ETH-USDT" 3) = Ok req /\
    read_order env (order_message (1%positive : @uuid ref_crates) (0 : @datetime ref_crates) req) = Ok o /\
    validate_order (load_pairs_cache fresh) o <> Ok tt.
Proof.
  destruct fresh_seeded as (d & Hd).
  destruct (load_orders_accepted decimal_text decimal_text_read false (fun _ => Sent) crossing_order "ETH-USDT" 3 fresh empty_db d
              ltac:(right; left) ltac:(right; left) Hd) as (req & Hreq & _ & Hval).
  destruct (Hval (1%positive : @uuid ref_crates) (0 : @datetime ref_crates) env) as (o & o' & Ho & _ & Hv & _).
  exists req, o. split_and!; [exact Hreq | exact Ho |]. intros H. by apply Hv in H.
Defined.

(** Two workers, four requests, one of them refused and one without an answer. *)
Definition answers : list request :=
  [mk_request 1 0 (Some (201, "")) 500; mk_request 0 0 (Some (500, "500 Internal Server Error")) 10;
   mk_request 1 3 None 30; mk_request 1 4 (Some (201, "")) 900].

Definition ran : level :=
  default (start_level 0 []) (run_level crossing_order 5 answers (start_level 2 ["BTC-USDT"; "ETH-USDT"])).

Lemma level_accounts_witness :
  length (requests ran) = 4%nat /\ wrap_u64 (Stats.orders (stats ran) + Stats.errors (stats ran)) = 4 /\
  exists n, sent_by 1 ran = (fun k => crossing_order "ETH-USDT" (1000000 + Z.of_nat k)) <$> seq 0 n.
Proof.
  destruct (level_accounts crossing_order 5 2 ["BTC-USDT"; "ETH-USDT"] answers ran eq_refl) as (Hn & Hc & Hs).
  split_and!; [exact Hn | exact Hc | exact (Hs 1%nat ltac:(lia))].
Defined.

Example ran_stats : stats ran = Stats.mk 2 2 1400 900 /\ workers ran = [mk_worker "BTC-USDT" 1; mk_worker "ETH-USDT" 1000003].
Proof. vm_compute. done. Qed.

(** A late request: its worker has stopped. *)
Example stopped : send crossing_order 5 (mk_request 0 5 None 0) ran = None.
Proof. reflexivity. Qed.

(** The command line. *)
Example arguments :
  let c := Config.from_args ["loadtest"; "--pairs"; "BTC-USDT, ETH-USDT"; "--concurrency"; "1,x, 8"; "--duration"; "-1";
                             "--url"; "https://host"; "--mode"; "verified"] in
  Config.pairs c = ["BTC-USDT"; "ETH-USDT"] /\ Config.concurrency_levels c = [1; 8] /\ Config.duration_secs c = 10 /\
  Config.ws_base_url c = "wss://host" /\ Config.mode c = Verified /\ length (planned c) = 4%nat.
Proof. vm_compute. done. Qed.

(** The scenario of these requests: two orders in two seconds, three trades counted. *)
Example scenario_results :
  let c := Config.from_args ["loadtest"; "--concurrency"; "2"; "--pairs"; "BTC-USDT,ETH-USDT"; "--mode"; "verified"] in
  match run_scenario "Crossing" c crossing_order [mk_level_run 5 answers 2 0 3] with
  | Some r => (fun l => (LevelResult.orders l, LevelResult.errors l, Qred (LevelResult.dispatch_per_sec l), LevelResult.verified_trades l,
                         Qred <$> LevelResult.match_rate_pct l)) <$> ScenarioResult.levels r
  | None => []
  end = [(2, 2, 1%Q, Some 3, Some 300%Q)].
Proof. vm_compute. reflexivity. Qed.

(** A frame of trades counts once, however many trades its document lists. *)
Example frame_counts_once :
  trades_in_message (json_to_string (object [("ch", JStr "trades:BTC-USDT");
                                             ("data", object [("trades", JArr [JInt 1; JInt 2; JInt 3])])])) = 1.
Proof. vm_compute. reflexivity. Qed.
End LoadTestExamples.
