(* ===== verification/Faults.v ===== *)
(** * Failing connections

    The operations of the gateway and of the worker once more, exchange by exchange
    with the servers they talk to.  A connection may break at any exchange: the
    server has then done none, some or all of what it was sent, and the code sees an
    error.  [link] says what becomes of the n-th exchange.  Transactions and scripts
    are one command for the server; a pipeline is several. *)

From S2P Require Import Prelude Numbers Externals Fixed Types Codec Valkey Book MatchLua Json Db Persist.
From S2P Require Import Views Metrics Ws OrderFlow Cancel Consumers Gateway.

Open Scope Z_scope.

(** What becomes of an exchange: the answer arrives, or the connection breaks after
    the server has carried out some of the commands. *)
Inductive fate :=
| Answered
| Broken (served : nat).

Definition lost : string := "connection lost".

(** ** Computations over a link *)

(** A computation on a state [W] counts its exchanges; an error keeps the state. *)
Definition net (W A : Type) : Type := nat -> W -> nat * W * result A.

#[export] Instance net_ret {W} : MRet (net W) := fun A a n w => (n, w, Ok a).

#[export] Instance net_bind {W} : MBind (net W) := fun A B f m n w =>
  match m n w with
  | (n, w, Ok a) => f a n w
  | (n, w, Err e) => (n, w, Err e)
  end.

Definition lift {W A} (r : result A) : net W A := fun n w => (n, w, r).

(** A change of the process's own memory. *)
Definition act {W} (f : W -> W) : net W unit := fun n w => (n, f w, Ok tt).

(** A computation that depends on the state it starts in. *)
Definition seeing {W A} (f : W -> net W A) : net W A := fun n w => f w n w.

(** [if let Err(e) = ...], [.ok()] *)
Definition ignored {W A} (m : net W A) : net W unit := fun n w => let '(n, w, _) := m n w in (n, w, Ok tt).

Definition with_context {W A} (context : string) (m : net W A) : net W A :=
  fun n w => match m n w with
             | (n, w, Err e) => (n, w, Err (context +:+ e))
             | x => x
             end.

Section Link.
Context (link : nat -> fate).

(** One command. *)
Definition exchange {W A} (f : W -> W * result A) : net W A :=
  fun n w => match link n with
             | Answered => (S n, (f w).1, (f w).2)
             | Broken O => (S n, w, Err lost)
             | Broken (S _) => (S n, (f w).1, Err lost)
             end.

Definition command {W} (f : W -> W) : net W unit := exchange (fun w => (f w, Ok tt)).

(** A command that reads. *)
Definition query {W A} (f : W -> A) : net W A := exchange (fun w => (w, Ok (f w))).

Fixpoint queries {W} (count : nat) : net W unit :=
  match count with
  | O => mret tt
  | S count => _ ← query (fun _ => tt); queries count
  end.

(** Several commands in one exchange, which is left out when there is none. *)
Definition pipeline {W} (cs : list (W -> W)) : net W unit :=
  match cs with
  | [] => mret tt
  | _ => fun n w => match link n with
                    | Answered => (S n, fold_left (fun w c => c w) cs w, Ok tt)
                    | Broken k => (S n, fold_left (fun w c => c w) (take k cs) w, Err lost)
                    end
  end.
End Link.

(** Operations of one of the two servers. *)
Definition on_kv {D S A} (f : S -> S * result A) (w : S * D) : (S * D) * result A := (((f w.1).1, w.2), (f w.1).2).
Definition on_db {D S A} (f : D -> D * result A) (w : S * D) : (S * D) * result A := ((w.1, (f w.2).1), (f w.2).2).

(** ** The gateway ([crates/gateway/src/worker.rs], [routes.rs]) *)

Section Gateway.
Context `{C : Crates, X : !Sqlx C, V : Valkey, J : SerdeJson}.
Context (link : nat -> fate).
Context (ws_endpoint : bool) (answer : post -> PostResult).

(** [set_and_publish_batch]: SET and PUBLISH of every entry, in one pipeline. *)
Definition view_commands (entries : list (string * string)) : list (store * db -> store * db) :=
  mbind (fun e => [(fun w => (v_set e.1 e.2 w.1, w.2));
                   (fun w => (v_publish CACHE_UPDATES_CHANNEL (update_message e.1 e.2) w.1, w.2))]) entries.

(** [update_cache_after_processing]: the snapshot, the trades, two statements for the
    ticker and a portfolio per user are read before anything is written. *)
Definition update_cache_net (pg_now : datetime) (o : Order.t) (ts : list Trade.t) : net (store * db) unit :=
  if negb (negb (bool_decide (ts = []))) && negb (rested o) then mret tt
  else
    _ ← queries link (4 + base.size (dirty_users o ts));
    seeing (fun w => pipeline link (view_commands (cache_entries pg_now o ts w.1 w.2))).

(** [push_ws_updates] returns at once without a connection; what it does when a
    later command fails is left out. *)
Definition push_ws_net (pair_id : string) : net (store * db) unit :=
  if ws_endpoint then ignored (command link (fun w => ((push_ws_updates answer pair_id w.1).1, w.2))) else mret tt.

Definition match_and_persist_net (e : Env.t) (o : Order.t) (keys : PairKeys.t) (asset : string) (amount : Z)
    : net (store * db) unit :=
  r ← with_context "Lua EVAL failed: " (exchange link (on_kv (match_order_lua o keys asset amount)));
  let o := matched o (Env.clock e 2%nat) r in
  let ts := build_trades e (Env.clock e 3%nat) o (LuaMatchResult.trades r) in
  _ ← (if is_warmup o then mret tt
       else exchange link (on_db (persist_order (Env.clock e 4%nat) (Env.pg_now e) o ts (LuaMatchResult.trades r))));
  _ ← ignored (update_cache_net (Env.pg_now e) o ts);
  push_ws_net (Order.pair_id o).

Definition process_order_net (st : WorkerState.t) (e : Env.t) (payload : Json) : net (store * db) unit :=
  o ← lift (o ← read_order e payload; _ ← validate_order (WorkerState.pairs_cache st) o; mret o);
  match Order.tif o with
  | FOK => update_cache_net (Env.pg_now e) (Order.set_status Cancelled o) []
  | _ =>
      lk ← lift (l ← lock_params o;
                 keys ← ok_or (WorkerState.pair_keys st !! Order.pair_id o) ("unknown pair_id: " +:+ Order.pair_id o);
                 mret (l, keys));
      match_and_persist_net e o lk.2 lk.1.1 lk.1.2
  end.

(** An error of the handler is answered with status 500. *)
Definition answered {W} (m : net W Response.t) (n : nat) (w : W) : nat * W * Response.t :=
  match m n w with
  | (n, w, Ok r) => (n, w, r)
  | (n, w, Err e) => (n, w, error_response 500 e)
  end.

Definition create_order_net (mode : DispatchMode) (st : WorkerState.t) (order_id : uuid) (now : datetime) (e : Env.t)
    (req : CreateOrderRequest.t) (n : nat) (w : store * db) : nat * (store * db) * Response.t :=
  match check_request req with
  | Err m => (n, w, error_response 400 m)
  | Ok _ =>
      let msg := order_message order_id now req in
      answered
        (_ ← match mode with
             | Inline => ignored (process_order_net st e msg)
             | Queue => command link (fun w => (v_lpush (order_queue (CreateOrderRequest.pair_id req)) (json_to_string msg) w.1, w.2))
             end;
         mret (Response.mk 201 (json_to_string (created_body order_id now req)))) n w
  end.

(** The three routes that queue a cancellation: one LPUSH each. *)
Definition queued_net (f : store -> store * Response.t) : nat -> store -> nat * store * Response.t :=
  answered (exchange link (fun s => ((f s).1, Ok (f s).2))).

Definition cancel_order_net (order_id : uuid) (now : datetime) : nat -> store -> nat * store * Response.t :=
  queued_net (cancel_order order_id now).

Definition modify_order_net (order_id : uuid) (now : datetime) (req : CreateOrderRequest.t) : nat -> store -> nat * store * Response.t :=
  queued_net (modify_order order_id now req).

Definition cancel_all_orders_net (user_id pair_id : option string) (now : datetime) : nat -> store -> nat * store * Response.t :=
  queued_net (cancel_all_orders user_id pair_id now).
End Gateway.

(** ** The worker ([crates/api/src/worker.rs], [routes.rs]) *)

Section Worker.
Context `{C : Crates, X : !Sqlx C, V : Valkey, J : SerdeJson}.
Context (link : nat -> fate).

Definition process_queued_order_net (st : WorkerState.t) (subscribers : nat) (lua_ms : Z) (e : Env.t) (order_str : string)
    : net (store * worker) unit :=
  ol ← lift (j ← ok_or (json_from_str order_str) "invalid JSON";
             o ← read_queued_order e j;
             _ ← match validate_order (WorkerState.pairs_cache st) o with
                  | Err m => Err ("validation failed: " +:+ m)
                  | Ok _ => Ok tt
                  end;
             l ← lock_params o;
             mret (o, l));
  let '(o, l) := ol in
  match Order.tif o with
  | FOK => act (fun w => (update_order_cache_after_processing (Env.clock e 2%nat) (Order.set_status Cancelled o) [] w.1, w.2))
  | _ =>
      keys ← lift (ok_or (WorkerState.pair_keys st !! Order.pair_id o) ("unknown pair_id: " +:+ Order.pair_id o));
      r ← exchange link (on_kv (match_order_lua o keys l.1 l.2));
      act (fun w => (w.1, hand_on subscribers e (matched o (Env.clock e 2%nat) r) r lua_ms w.2))
  end.

(** [process_persist_job]: five transactions, the audits between them ignored. *)
Definition process_persist_job_net (now pg_now : datetime) (job : PersistJob.t) : net db unit :=
  let o := PersistJob.order job in
  _ ← command link (insert_order_db o pg_now);
  _ ← ignored (exchange link (insert_audit_event (Some (Order.pair_id o)) "ORDER_CREATED" (order_created o)));
  _ ← (if decide (PersistJob.trades job = []) then mret [] else exchange link (persist_trades (PersistJob.trades job)));
  _ ← (if decide (PersistJob.lua_trades job = []) then mret tt
       else command link (update_resting_orders_after_lua now (PersistJob.lua_trades job)));
  _ ← command link (update_order_db now o);
  if fully_resolved o && negb (dec_eqb (Order.remaining o) dec_zero) then exchange link (release_remaining_locked o)
  else mret tt.

(** One turn of the persistence worker: the batch is one transaction, whose error is
    logged. *)
Definition persist_round_net (now pg_now : datetime) (n : nat) (w : process) : option (nat * process) :=
  let wk := p_worker w in
  match wk_persist wk with
  | [] => None
  | _ =>
      let '(batch, rest) := next_batch (wk_persist wk) in
      let '(n, d, _) := exchange link (process_persist_batch now pg_now batch) n (p_db w) in
      Some (n, mk_process C V (p_kv w) d
                 (mk_worker (wk_metrics wk) (wk_dirty_users wk) rest (wk_dirty_books wk) (wk_events wk)))
  end.

Fixpoint persist_rounds_net (fuel n : nat) (at_ : nat -> datetime * datetime) (w : process) : nat * process :=
  match fuel with
  | O => (n, w)
  | S fuel =>
      match persist_round_net (at_ n).1 (at_ n).2 n w with
      | Some (n, w) => persist_rounds_net fuel n at_ w
      | None => (n, w)
      end
  end.

(** *** Cancellations *)

Section Cancellations.
Context (now pg_now : datetime).

Definition set_cs_kv (s : store) (c : cstate) : cstate := mk_cstate C V s (cs_db c) (cs_dirty c).
Definition set_cs_db (d : db) (c : cstate) : cstate := mk_cstate C V (cs_kv c) d (cs_dirty c).

(** [remove_order_from_book]: ZREM and DEL in one pipeline. *)
Definition remove_commands (o : Order.t) : list (cstate -> cstate) :=
  [(fun c => set_cs_kv (v_zrem (book_key (Order.pair_id o) (Order.side o)) (uuid_to_string (Order.id o)) (cs_kv c)) c);
   (fun c => set_cs_kv (v_del (order_key (Order.id o)) (cs_kv c)) c)].

Definition cancel_one_net (id : uuid) (user_id : string) : net cstate unit :=
  row ← query link (fun c => order_of_user id user_id (cs_db c));
  match row with
  | None => mret tt
  | Some r =>
      if decide (open_status (OrderRow.status r)) then
        _ ← pipeline link (remove_commands (cancel_order_of now id user_id r));
        _ ← command link (fun c => set_cs_db (cancel_row pg_now id (cs_db c)) c);
        let '(asset, amount) := cancel_release r in
        _ ← command link (fun c => set_cs_db (release_unfloored amount (user_id, asset) (cs_db c)) c);
        act (fun c => mk_cstate C V (cs_kv c) (cs_db c) (try_send DIRTY_USERS user_id (cs_dirty c)))
      else mret tt
  end.

Definition cancel_branch_net (j : Json) : net cstate unit :=
  id ← lift (id ← ok_or (get_str "order_id" j) "missing order_id"; ok_or (uuid_parse id) "invalid uuid");
  cancel_one_net id (default EmptyString (get_str "user_id" j)).

Definition cancel_again_net (order_id user_id : string) : net cstate unit :=
  j ← lift (ok_or (json_from_str (json_to_string (cancel_msg order_id user_id))) "invalid JSON");
  cancel_branch_net j.

Definition modify_branch_net (j : Json) : net cstate unit :=
  order_id ← lift (ok_or (get_str "order_id" j) "missing order_id");
  _ ← cancel_again_net order_id (default EmptyString (get_str "user_id" j));
  match get "new_order" j with
  | None => mret tt
  | Some new_order =>
      let queue := match get_str "pair_id" new_order with
                   | Some p => "queue:orders:" +:+ p
                   | None => "queue:orders"
                   end in
      command link (fun c => set_cs_kv (v_lpush queue (json_to_string new_order) (cs_kv c)) c)
  end.

(** The orders found are cancelled one by one; an error of one is logged. *)
Fixpoint cancel_each_net (ids : list uuid) (user_id : string) : net cstate unit :=
  match ids with
  | [] => mret tt
  | id :: ids => _ ← ignored (cancel_again_net (uuid_to_string id) user_id); cancel_each_net ids user_id
  end.

Definition cancel_all_branch_net (j : Json) : net cstate unit :=
  let user_id := default "user-1" (get_str "user_id" j) in
  ids ← query link (fun c => open_orders user_id (get_str "pair_id" j) (cs_db c));
  cancel_each_net ids user_id.

Definition process_cancellation_net (cancel_str : string) : net cstate unit :=
  j ← lift (ok_or (json_from_str cancel_str) "invalid JSON");
  let cancel_type := default "cancel" (get_str "type" j) in
  if decide (cancel_type = "cancel") then cancel_branch_net j
  else if decide (cancel_type = "modify") then modify_branch_net j
  else if decide (cancel_type = "cancel_all") then cancel_all_branch_net j
  else mret tt.
End Cancellations.
End Worker.
