(* ===== verification/FaultsProps.v ===== *)
(** * Failing connections: properties

    With connections that never fail the operations of [Faults] are those of the
    other files; with any failures, what one operation can leave behind. *)

From S2P Require Import Prelude Numbers Externals Fixed Types Codec Valkey Book MatchLua MatchLuaExamples Json Db Persist PersistProps.
From S2P Require Import Views Metrics Ws OrderFlow OrderFlowExamples Cancel Consumers ConsumersProps Gateway GatewayProps Background Rows System Dispatch.
From S2P Require Import Router RouterProps Faults.

Open Scope Z_scope.

(** What an operation leaves and answers, without the count of its exchanges. *)
Definition left {W A} (x : nat * W * A) : W * A := (x.1.2, x.2).

(** ** Connections that never fail *)

Definition no_failures (n : nat) : fate := Answered.

Section Free.
Context `{C : Crates, X : !Sqlx C, V : Valkey, J : SerdeJson}.

Lemma bind_left {W A B} (m : net W A) (f : A -> net W B) (n : nat) (w : W) :
  left ((m ≫= f) n w) = match m n w with
                        | (n, w, Ok a) => left (f a n w)
                        | (n, w, Err e) => (w, Err e)
                        end.
Proof. unfold mbind, net_bind. by destruct (m n w) as [[n' w'] [a | e]]. Qed.

Lemma queries_free {W} (count n : nat) (w : W) : exists n', queries no_failures count n w = (n', w, Ok tt).
Proof.
  revert n. induction count as [| count IH]; intros n; cbn; [by eexists |].
  destruct (IH (S n)) as (n' & E). exists n'. exact E.
Qed.

Lemma view_commands_run (entries : list (string * string)) (w : store * db) :
  fold_left (fun w c => c w) (view_commands entries) w = (set_and_publish_batch entries w.1, w.2).
Proof.
  revert w. induction entries as [| e entries IH]; intros w; [by destruct w |]. cbn. unfold view_commands in IH.
  by rewrite IH.
Qed.

Lemma pipeline_free {W} (cs : list (W -> W)) (n : nat) (w : W) :
  exists n', pipeline no_failures cs n w = (n', fold_left (fun w c => c w) cs w, Ok tt).
Proof. destruct cs; by eexists. Qed.

Lemma update_cache_free (pg_now : datetime) (o : Order.t) (ts : list Trade.t) (n : nat) (w : store * db) :
  exists n', update_cache_net no_failures pg_now o ts n w
             = (n', (update_cache_after_processing pg_now o ts w.2 w.1, w.2), Ok tt).
Proof.
  unfold update_cache_net, update_cache_after_processing. cbn zeta. case_cond; [by exists n; destruct w |].
  destruct (queries_free (4 + base.size (dirty_users o ts)) n w) as (n1 & E1). unfold mbind, net_bind. rewrite E1.
  unfold seeing. destruct (pipeline_free (view_commands (cache_entries pg_now o ts w.1 w.2)) n1 w) as (n2 & E2).
  exists n2. by rewrite E2, view_commands_run.
Qed.

Lemma push_ws_free (ws_endpoint : bool) (answer : post -> PostResult) (pair_id : string) (n : nat) (w : store * db) :
  exists n', push_ws_net no_failures ws_endpoint answer pair_id n w
             = (n', ((if ws_endpoint then (push_ws_updates answer pair_id w.1).1 else w.1), w.2), Ok tt).
Proof. unfold push_ws_net. destruct ws_endpoint; [by eexists | by exists n; destruct w]. Qed.

Lemma process_order_free (ws_endpoint : bool) (answer : post -> PostResult) (st : WorkerState.t) (e : Env.t) (payload : Json)
    (n : nat) (w : store * db) :
  left (process_order_net no_failures ws_endpoint answer st e payload n w) = process_order ws_endpoint answer st e payload w.
Proof.
  unfold process_order_net, process_order. rewrite bind_left. unfold lift at 1.
  destruct (mbind _ _) as [o | m]; [| done].
  assert (forall o, left (update_cache_net no_failures (Env.pg_now e) o [] n w)
                    = ((update_cache_after_processing (Env.pg_now e) o [] w.2 w.1, w.2), Ok tt)) as Hu.
  { intros o1. by destruct (update_cache_free (Env.pg_now e) o1 [] n w) as (n' & ->). }
  assert (forall lk, left (match_and_persist_net no_failures ws_endpoint answer e o lk.2 lk.1.1 lk.1.2 n w)
                     = match_and_persist ws_endpoint answer e o lk.2 lk.1.1 lk.1.2 w) as Hm.
  { intros [[asset amount] keys]. cbn [fst snd]. unfold match_and_persist_net, match_and_persist. rewrite bind_left.
    unfold with_context, exchange. cbn [no_failures on_kv fst snd].
    destruct (match_order_lua o keys asset amount w.1) as [s [r | m]]; [| done]. cbn [fst snd]. cbn zeta.
    set (o' := matched _ _ _). set (ts := build_trades _ _ _ _). rewrite bind_left.
    assert (forall n0 w0, left ((_ ← ignored (update_cache_net no_failures (Env.pg_now e) o' ts);
                                 push_ws_net no_failures ws_endpoint answer (Order.pair_id o')) n0 w0)
            = (((if ws_endpoint then (push_ws_updates answer (Order.pair_id o') (update_cache_after_processing (Env.pg_now e) o' ts w0.2 w0.1)).1
                 else update_cache_after_processing (Env.pg_now e) o' ts w0.2 w0.1), w0.2), Ok tt)) as Hrest.
    { intros n0 w0. rewrite bind_left. unfold ignored. destruct (update_cache_free (Env.pg_now e) o' ts n0 w0) as (n1 & ->).
      by destruct (push_ws_free ws_endpoint answer (Order.pair_id o')
        n1 (update_cache_after_processing (Env.pg_now e) o' ts w0.2 w0.1, w0.2)) as (n2 & ->). }
    destruct (is_warmup o'); [exact (Hrest (S n) (s, w.2)) |]. cbn [no_failures on_db fst snd].
    destruct (persist_order _ _ _ _ _ w.2) as [d [u | m]]; [exact (Hrest (S (S n)) (s, d)) | done]. }
  destruct (Order.tif o); try apply Hu;
    (rewrite bind_left; unfold lift; destruct (mbind _ _) as [[l keys] | m]; [| done]; exact (Hm (l, keys))).
Qed.

Lemma process_queued_order_free (st : WorkerState.t) (subs : nat) (ms : Z) (e : Env.t) (str : string) (n : nat) (s : store)
    (wk : worker) :
  left (process_queued_order_net no_failures st subs ms e str n (s, wk)) = process_queued_order st subs ms e str s wk.
Proof.
  unfold process_queued_order_net, process_queued_order. rewrite bind_left. unfold lift at 1.
  destruct (mbind _ _) as [[o l] | m]; [| done].
  destruct (Order.tif o); try done;
    (rewrite bind_left; unfold lift; destruct (WorkerState.pair_keys st !! Order.pair_id o) as [keys |]; [| done];
     cbn [ok_or]; rewrite bind_left; unfold exchange; cbn [no_failures on_kv fst snd];
     by destruct (match_order_lua o keys l.1 l.2 s) as [s' [r | m]]).
Qed.

Lemma process_persist_job_free (now pg_now : datetime) (job : PersistJob.t) (n : nat) (d : db) :
  left (process_persist_job_net no_failures now pg_now job n d) = process_persist_job now pg_now job d.
Proof.
  unfold process_persist_job_net, process_persist_job. cbn zeta. set (o := PersistJob.order job).
  rewrite bind_left. unfold command at 1, exchange at 1. cbn [no_failures fst snd]. rewrite bind_left.
  unfold ignored at 1, exchange at 1. cbn [no_failures insert_audit_event fst snd]. set (d0 := insert_order_db o pg_now d).
  assert (forall n d, left ((_ ← (if decide (PersistJob.lua_trades job = []) then mret tt
            else command no_failures (update_resting_orders_after_lua now (PersistJob.lua_trades job)));
          _ ← command no_failures (update_order_db now o);
          if fully_resolved o && negb (dec_eqb (Order.remaining o) dec_zero)
          then exchange no_failures (release_remaining_locked o) else mret tt) n d)
        = let d := update_order_db now o (update_resting_orders_after_lua now (PersistJob.lua_trades job) d) in
          if fully_resolved o then release_remaining_locked o d else (d, Ok tt)) as Hrest.
  { intros n1 d1. rewrite bind_left. cbn zeta.
    assert (exists n2, (if decide (PersistJob.lua_trades job = []) then mret tt
              else command no_failures (update_resting_orders_after_lua now (PersistJob.lua_trades job))) n1 d1
            = (n2, update_resting_orders_after_lua now (PersistJob.lua_trades job) d1, Ok tt)) as (n2 & ->).
    { case_decide as E; [rewrite E |]; by eexists. }
    rewrite bind_left. unfold command, exchange. cbn [no_failures fst snd]. unfold release_remaining_locked.
    destruct (fully_resolved o); [| done]. destruct (dec_eqb _ _); [done |]. cbn [andb negb].
    by destruct (remaining_locked o). }
  rewrite bind_left. destruct (decide (PersistJob.trades job = [])) as [E | E].
  - rewrite E. exact (Hrest _ d0).
  - unfold exchange at 1. cbn [no_failures]. destruct (persist_trades _ d0) as [d1 [js | m]]; [exact (Hrest _ d1) | done].
Qed.

Lemma cancel_one_free (now pg_now : datetime) (id : uuid) (user : string) (n : nat) (c : cstate) :
  left (cancel_one_net no_failures now pg_now id user n c) = (cancel_one now pg_now id user c, Ok tt).
Proof.
  unfold cancel_one_net, cancel_one. rewrite bind_left. unfold query at 1, exchange at 1. cbn [no_failures fst snd].
  destruct (order_of_user id user (cs_db c)) as [r |]; [| done]. case_decide; [| done].
  rewrite bind_left. cbn [pipeline remove_commands no_failures fold_left]. rewrite bind_left.
  destruct (cancel_release r) as [asset amount]. done.
Qed.

Lemma cancel_branch_free (now pg_now : datetime) (j : Json) (n : nat) (c : cstate) :
  left (cancel_branch_net no_failures now pg_now j n c) = cancel_branch now pg_now j c.
Proof.
  unfold cancel_branch_net, cancel_branch. rewrite bind_left. unfold lift.
  destruct (mbind _ _) as [id | m]; [apply cancel_one_free | done].
Qed.

Lemma cancel_again_free (now pg_now : datetime) (id user : string) (n : nat) (c : cstate) :
  left (cancel_again_net no_failures now pg_now id user n c) = cancel_again now pg_now id user c.
Proof.
  unfold cancel_again_net, cancel_again. rewrite bind_left. unfold lift.
  destruct (json_from_str _) as [j |]; [apply cancel_branch_free | done].
Qed.

Lemma cancel_each_free (now pg_now : datetime) (ids : list uuid) (user : string) (n : nat) (c : cstate) :
  left (cancel_each_net no_failures now pg_now ids user n c)
  = (fold_left (fun c id => (cancel_again now pg_now (uuid_to_string id) user c).1) ids c, Ok tt).
Proof.
  revert n c. induction ids as [| id ids IH]; intros n c; [done |]. cbn [cancel_each_net fold_left].
  rewrite bind_left. unfold ignored. pose proof (cancel_again_free now pg_now (uuid_to_string id) user n c) as H.
  destruct (cancel_again_net _ _ _ _ _ n c) as [[n1 c1] r]. cbn zeta. rewrite IH, <- H. done.
Qed.

Lemma process_cancellation_free (now pg_now : datetime) (str : string) (n : nat) (c : cstate) :
  left (process_cancellation_net no_failures now pg_now str n c) = process_cancellation now pg_now str c.
Proof.
  unfold process_cancellation_net, process_cancellation. rewrite bind_left. unfold lift at 1.
  destruct (json_from_str str) as [j |]; [| done]. cbn [ok_or]. cbn zeta.
  case_decide; [apply cancel_branch_free |]. case_decide; [| case_decide; [| done]].
  - unfold modify_branch_net, modify_branch. rewrite bind_left. unfold lift at 1.
    destruct (get_str "order_id" j) as [id |]; [| done]. cbn [ok_or]. rewrite bind_left.
    pose proof (cancel_again_free now pg_now id (default EmptyString (get_str "user_id" j)) n c) as Hc.
    destruct (cancel_again_net _ _ _ _ _ n c) as [[n1 c1] r]. cbn [left fst snd] in Hc. rewrite <- Hc.
    destruct r; [| done]. by destruct (get "new_order" j).
  - unfold cancel_all_branch_net, cancel_all_branch. cbn zeta. rewrite bind_left. unfold query, exchange. cbn [no_failures].
    apply cancel_each_free.
Qed.
End Free.

(** ** Any failures *)

Lemma exchange_cases {W A} (link : nat -> fate) (f : W -> W * result A) (n : nat) (w : W) :
  exists w' r', exchange link f n w = (S n, w', r') /\
    ((w' = w /\ r' = Err lost) \/ (w' = (f w).1 /\ (r' = Err lost \/ r' = (f w).2))).
Proof. unfold exchange. destruct (link n) as [| [| k]]; eexists _, _; (split; [reflexivity | tauto]). Qed.

(** What a computation may do to the state, whatever fails. *)
Section Leaves.
Context {W : Type} (R : relation W) `{HR : !PreOrder R} (link : nat -> fate).

Definition leaves {A} (m : net W A) : Prop := forall n w, R w (m n w).1.2.

Lemma leaves_ret {A} (a : A) : leaves (mret a).
Proof using HR. intros n w. reflexivity. Qed.

Lemma leaves_lift {A} (r : result A) : leaves (lift r).
Proof using HR. intros n w. reflexivity. Qed.

Lemma leaves_act (f : W -> W) : (forall w, R w (f w)) -> leaves (act f).
Proof using. intros Hf n w. apply Hf. Qed.

Lemma leaves_ignored {A} (m : net W A) : leaves m -> leaves (ignored m).
Proof using. intros Hm n w. specialize (Hm n w). unfold ignored. by destruct (m n w) as [[n' w'] r]. Qed.

Lemma leaves_context {A} (context : string) (m : net W A) : leaves m -> leaves (with_context context m).
Proof using. intros Hm n w. specialize (Hm n w). unfold with_context. by destruct (m n w) as [[n' w'] [a | e]]. Qed.

Lemma leaves_bind {A B} (m : net W A) (f : A -> net W B) :
  leaves m -> (forall n w n' w' a, m n w = (n', w', Ok a) -> R w' (f a n' w').1.2) -> leaves (m ≫= f).
Proof using HR.
  intros Hm Hf n w. specialize (Hm n w). specialize (Hf n w). unfold mbind, net_bind. destruct (m n w) as [[n' w'] [a | e]]; [| done].
  etransitivity; [exact Hm | by apply Hf].
Qed.

Lemma leaves_seq {A B} (m : net W A) (f : A -> net W B) : leaves m -> (forall a, leaves (f a)) -> leaves (m ≫= f).
Proof using HR. intros Hm Hf. apply leaves_bind; [done |]. intros n w n' w' a _. apply Hf. Qed.

Lemma leaves_exchange {A} (f : W -> W * result A) : (forall w, R w (f w).1) -> leaves (exchange link f).
Proof using HR.
  intros Hf n w. destruct (exchange_cases link f n w) as (w' & r' & -> & [[-> _] | [-> _]]); [reflexivity | apply Hf].
Qed.

Lemma leaves_command (f : W -> W) : (forall w, R w (f w)) -> leaves (command link f).
Proof using HR. intros Hf. by apply leaves_exchange. Qed.

Lemma leaves_query {A} (f : W -> A) : leaves (query link f).
Proof using HR. apply leaves_exchange. intros w. reflexivity. Qed.

Lemma leaves_queries (count : nat) : leaves (queries link count).
Proof using HR. induction count as [| count IH]; [apply leaves_ret |]. apply leaves_seq; [apply leaves_query | by intros []]. Qed.

Lemma leaves_commands (cs : list (W -> W)) (w : W) :
  (forall c w, c ∈ cs -> R w (c w)) -> R w (fold_left (fun w c => c w) cs w).
Proof using HR.
  revert w. induction cs as [| c cs IH]; intros w Hc; [reflexivity |]. cbn.
  etransitivity; [apply (Hc c); left | apply IH; intros c' w' Hin; apply Hc; by right].
Qed.

(** A pipeline is cut after any of its commands. *)
Lemma leaves_pipeline (cs : list (W -> W)) : (forall c w, c ∈ cs -> R w (c w)) -> leaves (pipeline link cs).
Proof using HR.
  intros Hc n w. unfold pipeline. destruct cs as [| c cs]; [reflexivity |]. destruct (link n) as [| k]; cbn [fst snd]; apply leaves_commands; [done |].
  intros c' w' (i & Hi & _)%elem_of_take. apply Hc. by eapply list_elem_of_lookup_2.
Qed.
End Leaves.

(** ** One order in the gateway *)

Section Inline.
Context `{C : Crates, X : !Sqlx C, V : Valkey, VL : !ValkeyLaws V, J : SerdeJson}.
Context (link : nat -> fate) (ws_endpoint : bool) (answer : post -> PostResult).

(** The same database, and Valkey up to the views and the connections. *)
Definition world_alike (w w' : store * db) : Prop := store_alike w.1 w'.1 /\ w.2 = w'.2.

#[export] Instance world_alike_equivalence : Equivalence world_alike.
Proof.
  unfold world_alike. split; [by intros w | intros w w' [H1 H2]; by split | intros a b c [H1 H2] [H3 H4]; split; [| congruence]].
  by etransitivity.
Qed.

Lemma view_command_alike (pg_now : datetime) (o : Order.t) (ts : list Trade.t) (s : store) (d : db) (c : store * db -> store * db) (w : store * db) :
  c ∈ view_commands (cache_entries pg_now o ts s d) -> world_alike w (c w).
Proof.
  unfold view_commands. intros (e & Hc & He)%list_elem_of_bind. symmetry.
  apply elem_of_cons in Hc as [-> | ->%list_elem_of_singleton]; (split; [| done]); [apply set_alike; by eapply view_key | apply publish_alike].
Qed.

Lemma update_cache_leaves (pg_now : datetime) (o : Order.t) (ts : list Trade.t) :
  leaves world_alike (update_cache_net link pg_now o ts).
Proof.
  unfold update_cache_net. case_cond; [apply leaves_ret; apply _ |]. apply leaves_seq; [apply _ | apply leaves_queries; apply _ |].
  intros _ n w. unfold seeing. apply (leaves_pipeline world_alike link). intros c w'. apply view_command_alike.
Qed.

Lemma push_ws_leaves (pair_id : string) : leaves world_alike (push_ws_net link ws_endpoint answer pair_id).
Proof.
  unfold push_ws_net. destruct ws_endpoint; [| apply leaves_ret; apply _]. apply leaves_ignored, leaves_command; [apply _ |].
  intros w. split; [symmetry; apply push_alike | done].
Qed.

(** What a run with failures may leave of a whole run from [w]: nothing, the match
    alone, or all of it; and success means all of it. *)
Record partial_of (w : store * db) (whole part : (store * db) * result unit) : Prop := {
  pa_world : world_alike part.1 w \/
             (store_alike part.1.1 whole.1.1 /\ (part.1.2 = w.2 \/ part.1.2 = whole.1.2));
  pa_success : part.2 = Ok tt -> whole.2 = Ok tt /\ world_alike part.1 whole.1;
}.

Lemma partial_alike (w : store * db) (whole : (store * db) * result unit) (w' : store * db) (r : result unit) :
  whole.2 = Ok tt -> world_alike w' whole.1 -> partial_of w whole (w', r).
Proof. intros Hr [Hs Hd]. constructor; [right; split; [done | by right] | done]. Qed.

(** The views and the push come after the whole effect on book and database. *)
Lemma after_match (e : Env.t) (o : Order.t) (ts : list Trade.t) (n : nat) (w w0 : store * db) :
  let whole := ((if ws_endpoint then (push_ws_updates answer (Order.pair_id o) (update_cache_after_processing (Env.pg_now e) o ts w.2 w.1)).1
                 else update_cache_after_processing (Env.pg_now e) o ts w.2 w.1), w.2) in
  partial_of w0 (whole, Ok tt)
    (left ((_ ← ignored (update_cache_net link (Env.pg_now e) o ts); push_ws_net link ws_endpoint answer (Order.pair_id o)) n w)).
Proof.
  cbn zeta. set (m := mbind _ _).
  assert (leaves world_alike m) as Hm.
  { apply leaves_seq; [apply _ | apply leaves_ignored, update_cache_leaves | intros _; apply push_ws_leaves]. }
  specialize (Hm n w). destruct (m n w) as [[n' w'] r]. apply partial_alike; [done |]. cbn [fst snd] in *. symmetry in Hm.
  etransitivity; [exact Hm |]. split; [| done]. cbn [fst].
  destruct ws_endpoint; [| symmetry; apply views_alike]. symmetry. etransitivity; [apply push_alike | apply views_alike].
Qed.

Lemma whole_store (e : Env.t) (o : Order.t) (keys : PairKeys.t) (asset : string) (amount : Z) (w : store * db) :
  store_alike (match_and_persist ws_endpoint answer e o keys asset amount w).1.1 (match_order_lua o keys asset amount w.1).1.
Proof.
  unfold match_and_persist. destruct (match_order_lua o keys asset amount w.1) as [s [r | m]]; [| done]. cbn zeta.
  set (o' := matched _ _ _). set (ts := build_trades _ _ _ _).
  destruct (if is_warmup o' then _ else _) as [d [u | m]]; [| done]. cbn [fst].
  destruct ws_endpoint; [| apply views_alike]. etransitivity; [apply push_alike | apply views_alike].
Qed.

Lemma failing_match (e : Env.t) (o : Order.t) (keys : PairKeys.t) (asset : string) (amount : Z) (n : nat) (w : store * db) :
  partial_of w (match_and_persist ws_endpoint answer e o keys asset amount w)
    (left (match_and_persist_net link ws_endpoint answer e o keys asset amount n w)).
Proof.
  pose proof (whole_store e o keys asset amount w) as Hw. unfold match_and_persist_net. rewrite bind_left.
  unfold with_context.
  destruct (exchange_cases link (on_kv (D := db) (match_order_lua o keys asset amount)) n w) as (w1 & r1 & -> & [[-> ->] | [-> Hr1]]).
  { constructor; [by left | done]. }
  unfold on_kv in *. cbn [fst snd] in *. destruct Hr1 as [-> | ->].
  { constructor; [| done]. right. split; [by symmetry | by left]. }
  unfold match_and_persist in *. destruct (match_order_lua o keys asset amount w.1) as [s [r | m]]; cbn [fst snd] in *.
  2: { constructor; [| done]. right. split; [done | by left]. }
  cbn zeta in *. set (o' := matched _ _ _) in *. set (ts := build_trades _ _ _ _) in *. rewrite bind_left.
  destruct (is_warmup o'); [exact (after_match e o' ts (S n) (s, w.2) w) |].
  destruct (exchange_cases link (on_db (S := store) (persist_order (Env.clock e 4%nat) (Env.pg_now e) o' ts (LuaMatchResult.trades r)))
              (S n) (s, w.2)) as (w2 & r2 & -> & [[-> ->] | [-> Hr2]]).
  { constructor; [| done]. right. split; [by symmetry | by left]. }
  unfold on_db in *. cbn [fst snd] in *. destruct (persist_order _ _ o' ts _ w.2) as [d [u | m]]; cbn [fst snd] in *.
  - destruct Hr2 as [-> | ->]; [constructor; [| done]; right; split; [by symmetry | by right] |].
    exact (after_match e o' ts (S (S n)) (s, d) w).
  - destruct Hr2 as [-> | ->]; (constructor; [| done]); right; (split; [done | by right]).
Qed.

Lemma failing_order_partial (st : WorkerState.t) (e : Env.t) (payload : Json) (n : nat) (w : store * db) :
  partial_of w (process_order ws_endpoint answer st e payload w)
    (left (process_order_net link ws_endpoint answer st e payload n w)).
Proof.
  unfold process_order_net, process_order. rewrite bind_left. unfold lift at 1.
  destruct (mbind _ _) as [o | m]; [| by constructor; [left |]].
  destruct (Order.tif o).
  1,2: rewrite bind_left; unfold lift; destruct (mbind _ _) as [[l keys] | m]; [apply failing_match | by constructor; [left |]].
  unfold update_cache_net, update_cache_after_processing. cbn. by apply partial_alike; [| destruct w].
Qed.

(** C19: whatever connection breaks while the gateway processes an order inline, the
    order has had no effect, or it was matched and not persisted, or both, exactly
    as without failures up to the cached views; a reported success means both. *)
Theorem failing_order_spec (st : WorkerState.t) (e : Env.t) (payload : Json) (n : nat) (w : store * db) :
  let part := left (process_order_net link ws_endpoint answer st e payload n w) in
  let whole := process_order ws_endpoint answer st e payload w in
  (world_alike part.1 w \/ (store_alike part.1.1 whole.1.1 /\ (part.1.2 = w.2 \/ part.1.2 = whole.1.2))) /\
  (part.2 = Ok tt -> whole.2 = Ok tt /\ world_alike part.1 whole.1).
Proof. by destruct (failing_order_partial st e payload n w). Qed.
End Inline.

(** ** The persistence worker *)

Section Persistence.
Context `{C : Crates, X : !Sqlx C, V : Valkey, J : SerdeJson}.
Context (link : nat -> fate).

(** Whether the server carries out the command of an exchange. *)
Definition reaches (o : fate) : bool :=
  match o with
  | Broken O => false
  | _ => true
  end.

Lemma exchange_reaches {W A} (f : W -> W * result A) (n : nat) (w : W) :
  exists r, exchange link f n w = (S n, if reaches (link n) then (f w).1 else w, r).
Proof. unfold exchange. destruct (link n) as [| [| k]]; by eexists. Qed.

(** The database after the batches, the n-th exchange being that of the first. *)
Fixpoint run_reached (at_ : nat -> datetime * datetime) (n : nat) (batches : list (list PersistJob.t)) (d : db) : db :=
  match batches with
  | [] => d
  | b :: batches =>
      run_reached at_ (S n) batches
        (if reaches (link n) then (process_persist_batch (at_ n).1 (at_ n).2 b d).1 else d)
  end.

Lemma persist_round_net_spec (now pg_now : datetime) (n : nat) (w : process) :
  match persist_round_net link now pg_now n w with
  | Some (n', w') =>
      wk_persist (p_worker w) <> [] /\ n' = S n /\
      wk_persist (p_worker w') = drop 50 (wk_persist (p_worker w)) /\ p_kv w' = p_kv w /\
      p_db w' = if reaches (link n) then (process_persist_batch now pg_now (take 50 (wk_persist (p_worker w))) (p_db w)).1 else p_db w
  | None => wk_persist (p_worker w) = []
  end.
Proof.
  unfold persist_round_net. cbn zeta. destruct (wk_persist (p_worker w)) as [| job jobs] eqn:E; [done |].
  unfold next_batch. destruct (exchange_reaches (process_persist_batch now pg_now (take 50 (job :: jobs))) n (p_db w)) as (r & ->). done.
Qed.

(** C25: whatever connections break, the persistence worker empties its channel in one
    turn per fifty jobs and hands every job to exactly one batch, in order; the
    database is what the batches that reached it make of it, and those that did not
    are not tried again. *)
Theorem persist_worker_survives (fuel n : nat) (at_ : nat -> datetime * datetime) (w : process)
    (Hfuel : (length (wk_persist (p_worker w)) <= 50 * fuel)%nat) :
  let '(n', w') := persist_rounds_net link fuel n at_ w in
  wk_persist (p_worker w') = [] /\ p_kv w' = p_kv w /\
  exists batches, mjoin batches = wk_persist (p_worker w) /\
    Forall (fun b => (1 <= length b <= 50)%nat) batches /\ n' = (n + length batches)%nat /\ (length batches <= fuel)%nat /\
    p_db w' = run_reached at_ n batches (p_db w).
Proof.
  revert n w Hfuel. induction fuel as [| fuel IH]; intros n w Hfuel; cbn [persist_rounds_net].
  - assert (wk_persist (p_worker w) = []) as E by (apply nil_length_inv; lia).
    split_and!; [done | done |]. exists []. rewrite E. split_and!; [done | done | by rewrite Nat.add_0_r | done | done].
  - pose proof (persist_round_net_spec (at_ n).1 (at_ n).2 n w) as Hr. destruct (persist_round_net link _ _ n w) as [[n1 w1] |].
    + destruct Hr as (Hne & -> & Hj & Hk & Hd). specialize (IH (S n) w1 ltac:(rewrite Hj, length_drop; lia)).
      destruct (persist_rounds_net link fuel (S n) at_ w1) as [n' w']. destruct IH as (H1 & H2 & bs & Hb & Hl & -> & Hle & Hdb).
      split_and!; [done | congruence |]. exists (take 50 (wk_persist (p_worker w)) :: bs). split_and!.
      * change (take 50 (wk_persist (p_worker w)) ++ mjoin bs = wk_persist (p_worker w)). rewrite Hb, Hj. apply take_drop.
      * constructor; [| done]. rewrite length_take. destruct (wk_persist (p_worker w)); [done | cbn [length]; lia].
      * cbn. lia.
      * cbn. lia.
      * rewrite Hdb, Hd. done.
    + split_and!; [done | done |]. exists []. rewrite Hr. split_and!; [done | done | by rewrite Nat.add_0_r | cbn; lia | done].
Qed.
End Persistence.

(** ** A cancellation cut short *)

Section CutShort.
Context `{C : Crates, X : !Sqlx C, V : Valkey, J : SerdeJson}.
Context (now pg_now : datetime) (id : uuid) (user : string).

(** The states a cancellation of the row [r] goes through before it is done. *)
Definition cancel_stages (r : OrderRow.t) (c : cstate) : list cstate :=
  let o := cancel_order_of now id user r in
  let c1 := set_cs_kv (v_zrem (book_key (Order.pair_id o) (Order.side o)) (uuid_to_string (Order.id o)) (cs_kv c)) c in
  let c2 := set_cs_kv (v_del (order_key (Order.id o)) (cs_kv c1)) c1 in
  let c3 := set_cs_db (cancel_row pg_now id (cs_db c)) c2 in
  let '(asset, amount) := cancel_release r in
  [c; c1; c2; c3; set_cs_db (release_unfloored amount (user, asset) (cs_db c3)) c3].

(** A closed order is left alone, whatever the connections do. *)
Lemma cancel_closed (now' pg_now' : datetime) (user' : string) (link : nat -> fate) (n : nat) (c : cstate) :
  (forall r, orders (cs_db c) !! id = Some r -> ~ open_status (OrderRow.status r)) ->
  (left (cancel_one_net link now' pg_now' id user' n c)).1 = c.
Proof.
  intros Hc. unfold cancel_one_net. rewrite bind_left. unfold query.
  destruct (exchange_cases link (fun c => (c, Ok (order_of_user id user' (cs_db c)))) n c) as (c1 & r1 & -> & [[-> ->] | [-> [-> | ->]]]);
    [done | done |]. cbn [fst snd]. unfold order_of_user. destruct (orders (cs_db c) !! id) as [r |] eqn:E; [| done].
  cbn [mbind option_bind]. case_decide; [| done]. by rewrite decide_False by (by apply Hc).
Qed.

Lemma cancel_pipeline (link : nat -> fate) (o : Order.t) (n : nat) (c : cstate) :
  let c1 := set_cs_kv (v_zrem (book_key (Order.pair_id o) (Order.side o)) (uuid_to_string (Order.id o)) (cs_kv c)) c in
  let c2 := set_cs_kv (v_del (order_key (Order.id o)) (cs_kv c1)) c1 in
  pipeline link (remove_commands o) n c = (S n, c2, Ok tt) \/
  exists c', pipeline link (remove_commands o) n c = (S n, c', Err lost) /\ c' ∈ [c; c1; c2].
Proof.
  unfold pipeline, remove_commands. destruct (link n) as [| [| [| [| k]]]]; [by left | right ..];
    (eexists; split; [reflexivity |]); cbn; apply elem_of_cons; rewrite !elem_of_cons; tauto.
Qed.

(** C27: a cancellation cut short stops after the removal from the book, the closing
    of the row or the release of the balance, and reports the error; once the row is
    closed no later cancellation of the order changes anything, so what was not
    released stays locked. *)
Theorem failing_cancellation (link : nat -> fate) (n : nat) (c : cstate) (r : OrderRow.t) :
  order_of_user id user (cs_db c) = Some r -> open_status (OrderRow.status r) ->
  let part := left (cancel_one_net link now pg_now id user n c) in
  (part = (cancel_one now pg_now id user c, Ok tt) \/ (part.1 ∈ cancel_stages r c /\ part.2 = Err lost)) /\
  (forall now' pg_now' user' link' n', cs_db part.1 <> cs_db c ->
     (left (cancel_one_net link' now' pg_now' id user' n' part.1)).1 = part.1).
Proof.
  intros Hr Ho. cbn zeta.
  assert (forall part : cstate * result unit,
            part = (cancel_one now pg_now id user c, Ok tt) \/ (part.1 ∈ cancel_stages r c /\ part.2 = Err lost) ->
            (part = (cancel_one now pg_now id user c, Ok tt) \/ (part.1 ∈ cancel_stages r c /\ part.2 = Err lost)) /\
            (forall now' pg_now' user' link' n', cs_db part.1 <> cs_db c ->
               (left (cancel_one_net link' now' pg_now' id user' n' part.1)).1 = part.1)) as Hall.
  { intros part Hp. split; [done |]. intros now' pg' user' link' n' Hne. apply cancel_closed.
    assert (orders (cs_db part.1) = orders (cancel_row pg_now id (cs_db c))) as ->.
    { unfold cancel_one, cancel_stages in Hp. rewrite Hr, decide_True in Hp by done. destruct (cancel_release r) as [asset amount].
      destruct Hp as [-> | [Hp _]]; [done |]. rewrite !elem_of_cons in Hp.
      destruct Hp as [E | [E | [E | [E | [E | E]]]]]; try (by rewrite E in Hne); try (by rewrite E). by apply not_elem_of_nil in E. }
    intros r0 Hr0. unfold cancel_row in Hr0. cbn in Hr0. rewrite lookup_alter_eq in Hr0. apply fmap_Some in Hr0 as (r1 & _ & ->). by intros [? | ?]. }
  apply Hall. clear Hall. unfold cancel_one_net. rewrite bind_left. unfold query.
  destruct (exchange_cases link (fun c => (c, Ok (order_of_user id user (cs_db c)))) n c) as (c1 & r1 & -> & [[-> ->] | [-> [-> | ->]]]);
    try (right; split; [unfold cancel_stages; destruct (cancel_release r); left | done]).
  cbn [fst snd]. rewrite Hr, decide_True by done. unfold cancel_one, cancel_stages. rewrite Hr, decide_True by done. rewrite bind_left.
  destruct (cancel_pipeline link (cancel_order_of now id user r) (S n) c) as [-> | (c' & -> & Hin)]; cbn zeta in *.
  2: { right. split; [| done]. cbn [fst]. destruct (cancel_release r). rewrite !elem_of_cons in *. tauto. }
  rewrite bind_left. unfold command. set (c2 := set_cs_kv (v_del _ _) _).
  destruct (exchange_cases link (fun c => (set_cs_db (cancel_row pg_now id (cs_db c)) c, Ok tt)) (S (S n)) c2)
    as (c3 & r3 & -> & [[-> ->] | [-> [-> | ->]]]);
    try (right; split; [| done]; cbn [fst]; destruct (cancel_release r); rewrite !elem_of_cons; tauto).
  cbn [fst snd]. destruct (cancel_release r) as [asset amount]. rewrite bind_left.
  match goal with |- context [exchange link ?f ?n ?w] => destruct (exchange_cases link f n w) as (c4 & r4 & -> & [[-> ->] | [-> [-> | ->]]]) end;
    try (right; split; [| done]; cbn [fst]; rewrite !elem_of_cons; tauto).
  by left.
Qed.
End CutShort.

(** ** What the client is told *)

Section Replies.
Context `{C : Crates, X : !Sqlx C, V : Valkey, J : SerdeJson}.
Context (link : nat -> fate) (ws_endpoint : bool) (answer : post -> PostResult).

(** What the answer to an order says: when orders are queued, 201 means that the
    message is in the queue and 500 that it may be; when they are processed inline,
    a valid order is answered with 201 whatever happened to it. *)
Theorem reply_means (mode : DispatchMode) (st : WorkerState.t) (order_id : uuid) (now : datetime) (e : Env.t)
    (req : CreateOrderRequest.t) (n : nat) (w : store * db) :
  let '(_, w', r) := create_order_net link ws_endpoint answer mode st order_id now e req n w in
  let pushed := (v_lpush (order_queue (CreateOrderRequest.pair_id req)) (json_to_string (order_message order_id now req)) w.1, w.2) in
  (check_request req <> Ok tt -> Response.status r = 400 /\ w' = w) /\
  (check_request req = Ok tt ->
     match mode with
     | Queue => (Response.status r = 201 <-> link n = Answered) /\ (Response.status r <> 201 -> Response.status r = 500) /\
                w' = if reaches (link n) then pushed else w
     | Inline => Response.status r = 201 /\
                 w' = (process_order_net link ws_endpoint answer st e (order_message order_id now req) n w).1.2
     end).
Proof.
  unfold create_order_net. destruct (check_request req) as [[] | m]; [| by split]. cbn zeta. unfold answered, mbind, net_bind.
  destruct mode.
  - unfold command, exchange. destruct (link n) as [| [| k]]; cbn; by split_and!.
  - unfold ignored. destruct (process_order_net _ _ _ _ _ _ n w) as [[n' w'] r]. cbn. by split_and!.
Qed.

(** The cancellation routes: success means that the message is in the queue, 500 that
    it may be. *)
Theorem cancel_replies_mean (order_id : uuid) (now : datetime) (req : CreateOrderRequest.t) (user_id pair_id : option string) (n : nat) (s : store) :
  Forall (fun route =>
    let '(_, s', r) := queued_net link route n s in
    (Response.status r = 200 <-> link n = Answered) /\ (Response.status r <> 200 -> Response.status r = 500) /\
    s' = if reaches (link n) then (route s).1 else s)
    [cancel_order order_id now; modify_order order_id now req; cancel_all_orders user_id pair_id now].
Proof.
  assert (forall route : store -> store * Response.t, Response.status (route s).2 = 200 ->
    let '(_, s', r) := queued_net link route n s in
    (Response.status r = 200 <-> link n = Answered) /\ (Response.status r <> 200 -> Response.status r = 500) /\
    s' = if reaches (link n) then (route s).1 else s) as H.
  { intros route Hr. unfold queued_net, answered, exchange. destruct (link n) as [| [| k]]; cbn; by split_and!. }
  by repeat (constructor; [by apply H |]).
Qed.
End Replies.

(** ** The system under failures *)

Section Statements.
Context `{C : Crates, L : !CratesLaws C, X : !Sqlx C, XL : !SqlxLaws C L X, V : Valkey, VL : !ValkeyLaws V, J : SerdeJson}.
Context (asked : uuid -> Q) (link : nat -> fate).

(** A change of the database by statements, seen in a larger state. *)
Definition by_statements {W} (f : W -> db) (w w' : W) : Prop := statements asked (f w) (f w').

#[export] Instance by_statements_preorder {W} (f : W -> db) : PreOrder (by_statements f).
Proof. unfold by_statements. split; [by intros w | intros a b c; apply stmts_trans]. Qed.

Lemma no_statement {W} (f : W -> db) (w w' : W) : f w' = f w -> by_statements f w w'.
Proof. unfold by_statements. intros ->. apply rtc_refl. Qed.

Lemma persist_trades_stmts (ts : list Trade.t) (d : db) : statements asked d (persist_trades ts d).1.
Proof.
  unfold persist_trades. destruct ts as [| t ts]; [done |]. set (l := t :: ts).
  match goal with |- context [transaction ?f d] => pose proof (stmts_transaction asked f d) as Ht end.
  destruct (transaction _ d) as [d1 [u | m]]; cbn [fst] in *; rewrite ?audit_trades_id; apply Ht; intros d' E;
    (destruct (balance_deltas l ∅) as [m' |]; [| done]); cbn [mbind result_bind mret result_ret] in E;
    apply (inj Ok) in E as <-; (eapply stmts_trans; [apply stmts_trades | apply stmts_upserts]).
Qed.

Lemma persist_job_leaves (now pg_now : datetime) (job : PersistJob.t) :
  job_ok asked job -> leaves (statements asked) (process_persist_job_net link now pg_now job).
Proof.
  intros [Ho Hf]. pose proof (by_statements_preorder (W := db) id) as HR.
  apply leaves_seq; [exact HR | apply leaves_command; [exact HR |]; intros d; by apply stmts_insert | intros _].
  apply leaves_seq; [exact HR | apply leaves_ignored, leaves_exchange; [exact HR |]; intros d; apply rtc_refl | intros _].
  apply leaves_seq; [exact HR | case_decide; [apply leaves_ret; apply _ | apply leaves_exchange; [exact HR |]; apply persist_trades_stmts] | intros _].
  apply leaves_seq; [exact HR | case_decide; [apply leaves_ret; apply _ | apply leaves_command; [exact HR |]; intros d; by apply stmts_fills] | intros _].
  apply leaves_seq; [exact HR | apply leaves_command; [exact HR |]; intros d; by apply stmts_update | intros _].
  case_cond; [| apply leaves_ret; apply _]. apply leaves_exchange; [exact HR |]. intros d. unfold release_remaining_locked.
  destruct (dec_eqb _ _); [done |]. destruct (remaining_locked _); [apply stmts_balances | done].
Qed.

Lemma cancel_one_leaves (now pg_now : datetime) (id : uuid) (user : string) :
  leaves (by_statements cs_db) (cancel_one_net link now pg_now id user).
Proof.
  apply leaves_seq; [apply _ | apply leaves_query; apply _ |]. intros [r |]; [| apply leaves_ret; apply _].
  case_decide; [| apply leaves_ret; apply _]. apply leaves_seq; [apply _ | | intros _].
  { apply leaves_pipeline; [apply _ |]. unfold remove_commands. intros c w Hc.
    apply elem_of_cons in Hc as [-> | ->%list_elem_of_singleton]; by apply no_statement. }
  apply leaves_seq; [apply _ | | intros _].
  { apply leaves_command; [apply _ |]. intros w. apply stmts_alter. intros r0. apply row_cancelled. }
  destruct (cancel_release r) as [asset amount]. apply leaves_seq; [apply _ | | intros _; apply leaves_act; intros w; by apply no_statement].
  apply leaves_command; [apply _ |]. intros w. apply stmts_balances.
Qed.

Lemma cancel_again_leaves (now pg_now : datetime) (id user : string) :
  leaves (by_statements cs_db) (cancel_again_net link now pg_now id user).
Proof.
  apply leaves_seq; [apply _ | apply leaves_lift; apply _ |]. intros j. apply leaves_seq; [apply _ | apply leaves_lift; apply _ |].
  intros x. apply cancel_one_leaves.
Qed.

Lemma cancellation_leaves (now pg_now : datetime) (m : string) :
  leaves (by_statements cs_db) (process_cancellation_net link now pg_now m).
Proof.
  apply leaves_seq; [apply _ | apply leaves_lift; apply _ |]. intros j. cbn beta zeta.
  case_decide; [| case_decide; [| case_decide; [| apply leaves_ret; apply _]]].
  - apply leaves_seq; [apply _ | apply leaves_lift; apply _ |]. intros x. apply cancel_one_leaves.
  - apply leaves_seq; [apply _ | apply leaves_lift; apply _ |]. intros id.
    apply leaves_seq; [apply _ | apply cancel_again_leaves |]. intros _. destruct (get "new_order" j); [| apply leaves_ret; apply _].
    apply leaves_command; [apply _ |]. intros w. by apply no_statement.
  - apply leaves_seq; [apply _ | apply leaves_query; apply _ |]. intros ids. induction ids as [| id ids IH]; [apply leaves_ret; apply _ |].
    apply leaves_seq; [apply _ | apply leaves_ignored, cancel_again_leaves | by intros _].
Qed.

(** An order task hands on its whole job or none. *)
Lemma failing_queued_order (st : WorkerState.t) (subs : nat) (ms : Z) (e : Env.t) (m : string) (n : nat) (s : store) (wk : worker) :
  let w' := (left (process_queued_order_net link st subs ms e m n (s, wk))).1 in
  w'.2 = wk \/ w'.2 = (process_queued_order st subs ms e m s wk).1.2.
Proof.
  unfold process_queued_order_net, process_queued_order. cbn zeta. rewrite bind_left. unfold lift.
  destruct (mbind _ _) as [[o l] | err]; [| by left]. cbn beta iota.
  destruct (Order.tif o); try (by left);
    (rewrite bind_left; destruct (WorkerState.pair_keys st !! Order.pair_id o) as [keys |]; [| by left]; cbn [ok_or];
     rewrite bind_left;
     destruct (exchange_cases link (on_kv (D := worker) (match_order_lua o keys l.1 l.2)) n (s, wk)) as (w1 & r1 & -> & [[-> ->] | [-> Hr1]]);
     [by left |]; destruct Hr1 as [-> | ->]; [left; reflexivity |]; unfold on_kv; cbn [fst snd];
     destruct (match_order_lua o keys l.1 l.2 s) as [s1 [r | err]]; [right; reflexivity | left; reflexivity]).
Qed.
End Statements.
