(* ===== verification/Market.v ===== *)
(** * The market of a pair, and the script as its transition

    The abstract market is two lists of orders, best first, and a version.  An order
    is matched by [match_order] against the part of the other side within its reach,
    what is exhausted leaves, and a remainder that stays open enters its own side.
    Valkey's sorted sets and hashes represent such a market before and after every
    run of the script, so a sequence of orders through [match_order_lua] is the same
    sequence through [match_order]. *)

From S2P Require Import Prelude Numbers Externals Fixed Types Valkey Codec Engine EngineProps Book.
From S2P Require Import BookProps MatchLua MatchLuaProps MatchLuaReply MatchLuaExamples Refine.

Open Scope Z_scope.

(** ** Sorted sets as lists *)

#[export] Instance by_score_antisymm : AntiSymm (=) by_score.
Proof.
  intros [m a] [m' b]. unfold by_score. cbn. intros [? | [? H]] [? | [? H']]; try lia.
  f_equal; [by apply String.leb_antisym | done].
Qed.

(** A sorted set is the sorted list of its entries. *)
Lemma ranked_unique (z : gmap string Z) (l : list (string * Z)) :
  StronglySorted by_score l -> NoDup l -> (forall m x, (m, x) ∈ l <-> z !! m = Some x) -> ranked z = l.
Proof.
  intros Hs Hn Hl. apply (StronglySorted_unique by_score); [apply ranked_sorted | done |].
  apply NoDup_Permutation; [eapply NoDup_fmap_1, ranked_nodup | done |]. intros [m x]. by rewrite elem_of_ranked, Hl.
Qed.

(** On a sorted list a downward closed test holds of a prefix. *)
Lemma filter_prefix {A} (R : A -> A -> Prop) (P : A -> Prop) `{!forall x, Decision (P x)} (l : list A) :
  (forall a b, R a b -> P b -> P a) -> StronglySorted R l -> filter P l = take (length (filter P l)) l.
Proof.
  intros Hd. induction 1 as [| x l _ IH Hx]; [done |]. rewrite filter_cons. case_decide as Hp.
  - cbn. by f_equal.
  - rewrite filter_none; [done |]. eapply Forall_impl; [exact Hx |]. intros y Hxy Hy. apply Hp. by eapply Hd.
Qed.

(** An integer cell counts within an i64. *)
Lemma incr_cell_range (cell : option string) (n z : Z) : incr_cell cell n = Ok z -> in_i64 z = true.
Proof.
  unfold incr_cell. destruct (match cell with Some s => redis_int s | None => Some 0 end) as [x |]; [| done].
  destruct (in_i64 (x + n)) eqn:E; [| done]. intros H. apply (inj Ok) in H as <-. exact E.
Qed.

(** ** The market *)

Module Market.
Section Market.
Context `{C : Crates}.
Record t : Type := mk { bids : list Order.t; asks : list Order.t; version : Z }.

Definition side_of (side : Side) (m : t) : list Order.t :=
  match side with
  | Buy => bids m
  | Sell => asks m
  end.

Definition orders (m : t) : list Order.t := bids m ++ asks m.

Definition with_sides (side : Side) (own opp : list Order.t) (v : Z) : t :=
  match side with
  | Buy => mk own opp v
  | Sell => mk opp own v
  end.
End Market.
End Market.

Section Transition.
Context `{C : Crates}.
Context (new_v4 : nat -> uuid) (now : nat -> datetime).

(** An order as its side lists it. *)
Definition entry (o : Order.t) : string * Z := (uuid_to_string (Order.id o), score_of o).

(** Best price first; at the same price, by identifier. *)
Fixpoint enter (o : Order.t) (l : list Order.t) : list Order.t :=
  match l with
  | [] => [o]
  | r :: l => if decide (by_score (entry r) (entry o)) then r :: enter o l else o :: r :: l
  end.

(** Within the limit price of the taker; and the first fifty of these. *)
Definition within (i r : Order.t) : Prop := up_to (max_score (opposite (Order.side i)) (Order.price i)) (entry r).

#[export] Instance within_dec (i r : Order.t) : Decision (within i r) := up_to_dec _ _.

Definition reach (i : Order.t) (opp : list Order.t) : nat :=
  min (Z.to_nat MATCH_LIMIT) (length (filter (within i) opp)).

(** What a match has used up. *)
Definition gone (r : Order.t) : bool := dec_eqb (Order.remaining r) dec_zero || bool_decide (Order.status r = Cancelled).

Definition is_open (o : Order.t) : bool := bool_decide (Order.status o = New \/ Order.status o = PartiallyFilled).

Definition market_step (i : Order.t) (m : Market.t) : MatchResult.t * Market.t :=
  let own := Market.side_of (Order.side i) m in
  let opp := Market.side_of (opposite (Order.side i)) m in
  let n := reach i opp in
  let '(res, near) := Engine.match_order new_v4 now i (take n opp) in
  let left_over := filter (fun r => gone r = false) near ++ drop n opp in
  let o := MatchResult.incoming res in
  (res, Market.with_sides (Order.side i) (if is_open o then enter o own else own) left_over (Market.version m + 1)).
End Transition.

(** ** Lists of orders *)

Section Orders.
Context `{C : Crates, L : !CratesLaws C}.

Local Abbreviation text o := (uuid_to_string (Order.id o)).
Local Abbreviation texts book := ((fun o => text o) <$> book).

Lemma enter_perm (o : Order.t) (l : list Order.t) : enter o l ≡ₚ o :: l.
Proof.
  induction l as [| r l IH]; cbn; [done |]. case_decide; [| done]. rewrite IH. apply Permutation_swap.
Qed.

Lemma enter_sorted (o : Order.t) (l : list Order.t) :
  StronglySorted by_score (entry <$> l) -> StronglySorted by_score (entry <$> enter o l).
Proof.
  induction l as [| r l IH]; cbn; [by repeat constructor |]. intros [Hs Hr]%StronglySorted_inv. case_decide as Hd; cbn.
  - constructor; [by apply IH |]. rewrite enter_perm. cbn. by constructor.
  - constructor; [by constructor |]. assert (by_score (entry o) (entry r)) as Ho by (destruct (total by_score (entry o) (entry r)); done).
    constructor; [done |]. eapply Forall_impl; [exact Hr |]. intros e He. by etransitivity.
Qed.

Lemma entry_terms (a b : Order.t) : same_terms a b -> entry a = entry b.
Proof. intros (E1 & _ & _ & E2 & _ & _ & E3 & _). unfold entry, score_of, price_i_of. by rewrite E1, E2, E3. Qed.

Lemma text_inj (a b : Order.t) : text a = text b -> Order.id a = Order.id b.
Proof. intros E. apply (f_equal uuid_parse) in E. rewrite !uuid_parse_to_string in E. by injection E. Qed.

Lemma texts_nodup (l : list Order.t) : NoDup (Order.id <$> l) -> NoDup (texts l).
Proof.
  intros H. change (NoDup ((fun o => uuid_to_string (Order.id o)) <$> l)).
  assert ((fun o => uuid_to_string (Order.id o)) <$> l = uuid_to_string <$> (Order.id <$> l)) as -> by (by rewrite <- list_fmap_compose).
  apply NoDup_fmap_2; [| done]. intros a b E. apply (f_equal uuid_parse) in E. rewrite !uuid_parse_to_string in E. by injection E.
Qed.

Lemma entries_nodup (l : list Order.t) : NoDup (Order.id <$> l) -> NoDup (entry <$> l).
Proof.
  intros H%texts_nodup. apply (NoDup_fmap_1 fst). rewrite <- list_fmap_compose. exact H.
Qed.
End Orders.

(** ** Sound markets *)

Section Sound.
Context `{C : Crates, L : !CratesLaws C}.
Context (new_v4 : nat -> uuid) (now : nat -> datetime).
(** The users whose orders carry no self-trade prevention; all others' do. *)
Context (plain : string -> bool).

Local Abbreviation text o := (uuid_to_string (Order.id o)).
Local Abbreviation texts book := ((fun o => text o) <$> book).
Local Abbreviation market_step := (market_step new_v4 now).

Definition obeys (o : Order.t) : Prop := Order.stp_mode o = Stp.None <-> plain (Order.user_id o) = true.

(** An order that may rest on a side. *)
Record resident (side : Side) (o : Order.t) : Prop := {
  rs_live : live o;
  rs_left : left o < 10 ^ 14;
  rs_price : exact_price o;
  rs_limit : Order.order_type o = Limit;
  rs_open : open_status (Order.status o);
  rs_side : Order.side o = side;
  rs_obeys : obeys o;
}.

Definition ids (m : Market.t) : list uuid := Order.id <$> Market.orders m.

Record sound (m : Market.t) : Prop := {
  sd_residents side : Forall (resident side) (Market.side_of side m);
  sd_sorted side : StronglySorted by_score (entry <$> Market.side_of side m);
  sd_nodup : NoDup (ids m);
}.

(** An order the market may receive. *)
Record welcome (i : Order.t) (m : Market.t) : Prop := {
  wl_taker : taker i;
  wl_obeys : obeys i;
  wl_fresh : Order.id i ∉ ids m;
}.

Lemma orders_sides (side : Side) (m : Market.t) :
  Market.orders m ≡ₚ Market.side_of side m ++ Market.side_of (opposite side) m.
Proof. unfold Market.orders. destruct side; cbn; [done |]. apply Permutation_app_comm. Qed.

Lemma orders_with_sides (side : Side) (own opp : list Order.t) (v : Z) :
  Market.orders (Market.with_sides side own opp v) ≡ₚ own ++ opp.
Proof. unfold Market.orders. destruct side; cbn; [done |]. apply Permutation_app_comm. Qed.

Lemma ids_sides (side : Side) (m : Market.t) :
  ids m ≡ₚ Order.id <$> Market.side_of side m ++ Market.side_of (opposite side) m.
Proof. unfold ids. by rewrite (orders_sides side). Qed.

Lemma ids_with_sides (side : Side) (own opp : list Order.t) (v : Z) :
  ids (Market.with_sides side own opp v) ≡ₚ Order.id <$> own ++ opp.
Proof. unfold ids. by rewrite orders_with_sides. Qed.

Lemma side_nodup (side : Side) (m : Market.t) : sound m -> NoDup (Order.id <$> Market.side_of side m).
Proof. intros [_ _ H]. rewrite (ids_sides side) in H. rewrite fmap_app in H. by apply NoDup_app in H as [? _]. Qed.

(** A resident of the other side is a maker for the taker. *)
Lemma resident_maker (i r : Order.t) (side : Side) : obeys i -> resident side r -> maker i r.
Proof.
  intros Hi [? ? ? ? ? _ Hr]. constructor; try done. unfold stp_agreed, obeys in *. intros Hu Hn. apply Hr. rewrite <- Hu. by apply Hi.
Qed.

Lemma gone_spec (r : Order.t) : amount_ok r -> gone r = (left r =? 0) || bool_decide (Order.status r = Cancelled).
Proof. intros H. unfold gone. by rewrite is_zero_spec. Qed.

(** What a walk may do to the status of an order. *)
Definition moved (r r' : Order.t) : Prop :=
  left r' <= left r /\ (r' = r \/ Order.status r' = Cancelled \/ Order.status r' = fill_status (Order.remaining r')).

Lemma moved_refl (r : Order.t) : moved r r.
Proof. split; [lia | by left]. Qed.

Lemma moved_trans (a b c : Order.t) : moved a b -> moved b c -> moved a c.
Proof. intros [H1 H2] [H3 H4]. split; [lia |]. destruct H4 as [-> | H4]; [exact H2 | by right]. Qed.

Lemma walk_moves (st : MatchResult.t) (book : list Order.t) st' book' :
  walk new_v4 now st book st' book' -> amount_ok (MatchResult.incoming st) -> Forall amount_ok book ->
  moved (MatchResult.incoming st) (MatchResult.incoming st') /\ Forall2 moved book book'.
Proof.
  assert (forall l : list Order.t, Forall2 moved l l) as Hsame
    by (intros l; apply Forall_Forall2_diag, Forall_true; apply moved_refl).
  assert (forall st r, moved r (Order.set_status Cancelled r) /\ moved (MatchResult.incoming st) (MatchResult.incoming (cancel_taker st))) as Hc
    by (intros st0 r0; split; (split; [reflexivity | right; by left])).
  induction 1 as [st | st | st | st r | st r rest H1 H2 H3 | st r rest st' rest' H1 H2 H3 _ IH | st r rest st' rest' H1 H2 H3 _ IH]; intros Hi Hb.
  - split; [apply moved_refl | constructor].
  - split; [apply moved_refl | apply Hsame].
  - split; [apply moved_refl | apply Hsame].
  - split; [apply (Hc _ r) | apply Hsame].
  - split; [apply (Hc st r) | constructor; [apply (Hc st) | apply Hsame]].
  - apply Forall_cons in Hb as [_ Hb]. destruct (IH Hi Hb) as [H4 H5]. split; [done | constructor; [apply (Hc st) | done]].
  - apply Forall_cons in Hb as [Hr Hb]. pose proof (fill_spec new_v4 now st r Hi Hr) as Hf. cbv zeta in Hf.
    assert (Order.status (fill new_v4 now st r).2 = fill_status (Order.remaining (fill new_v4 now st r).2) /\
            Order.status (MatchResult.incoming (fill new_v4 now st r).1) = fill_status (Order.remaining (MatchResult.incoming (fill new_v4 now st r).1)))
      as [Er Ei] by done.
    destruct (fill new_v4 now st r) as [st1 r1]. cbn [fst snd] in *. destruct Hf as (Hi1 & _ & Eli & Elr & _).
    destruct (IH Hi1 Hb) as [H4 H5]. destruct Hi as [_ ?], Hr as [_ ?]. fold (left (MatchResult.incoming st)) (left r) in *.
    split; [eapply moved_trans; [| exact H4] | constructor; [| done]]; (split; [lia | right; by right]).
Qed.

(** The makers that are not gone stay residents. *)
Lemma stay_resident (side : Side) (i : Order.t) (st : MatchResult.t) (book book' : list Order.t) :
  walk new_v4 now (EngineProps.start i) book st book' -> amount_ok i -> Forall (resident side) book ->
  Forall (fun r => gone r = false -> resident side r) book'.
Proof.
  intros Hw Hi Hb.
  assert (Forall amount_ok book) as Ha by (eapply Forall_impl; [exact Hb |]; intros r Hr; apply live_amount_ok, (rs_live _ _ Hr)).
  destruct (walk_amounts _ _ _ _ _ _ Hw Hi Ha) as (_ & Ha' & _).
  destruct (walk_terms _ _ _ _ _ _ Hw) as [_ Ht]. destruct (walk_moves _ _ _ _ Hw Hi Ha) as [_ Hm].
  apply Forall_lookup. intros k r' Hk Hg.
  destruct (Forall2_lookup_r _ _ _ _ _ Ht Hk) as (r & Hr & E1 & E2 & E3 & E4 & E5 & E6 & E7 & E8 & E9).
  destruct (Forall2_lookup_lr _ _ _ _ _ _ Hm Hr Hk) as [Hle Hs].
  pose proof (Forall_lookup_1 _ _ _ _ Hb Hr) as [[Hl1 Hl2] Hleft Hp Ho Hop Hsi Hob].
  pose proof (Forall_lookup_1 _ _ _ _ Ha' Hk) as [Hg' H0]. rewrite gone_spec in Hg by done. apply orb_false_iff in Hg as [Hz Hc].
  apply Z.eqb_neq in Hz. apply bool_decide_eq_false in Hc. unfold left in *. constructor; try congruence.
  - split; [done | lia].
  - unfold left. lia.
  - unfold exact_price. by rewrite <- E7.
  - destruct Hs as [-> | [? | ->]]; [done | done |]. unfold fill_status. rewrite is_zero_spec by done. unfold left.
    rewrite (proj2 (Z.eqb_neq _ _) Hz). by right.
  - unfold obeys in *. by rewrite <- E2, <- E9.
Qed.

Lemma apply_tif_terms (tif : TimeInForce) (i : Order.t) (st : MatchResult.t) :
  same_terms i (MatchResult.incoming st) -> same_terms i (MatchResult.incoming (apply_tif tif st)).
Proof. intros Hs. unfold apply_tif. case_cond; [| done]. by destruct Hs as (? & ? & ? & ? & ? & ? & ? & ? & ?). Qed.

(** The taker after the walk: never traded, filled in part or whole, or cancelled. *)
Lemma walk_taker (i : Order.t) (st : MatchResult.t) (book book' : list Order.t) :
  walk new_v4 now (EngineProps.start i) book st book' -> live i -> Forall amount_ok book -> Order.status i = New ->
  let o := MatchResult.incoming (apply_tif (effective_tif i) st) in
  same_terms i o /\ amount_ok o /\ left o <= left i /\ (is_open o = true -> 0 < left o /\ effective_tif i = GTC).
Proof.
  intros Hw Hi Hb Hn. cbv zeta. pose proof (live_amount_ok _ Hi) as Hia.
  destruct (walk_amounts _ _ _ _ _ _ Hw Hia Hb) as (Ha & _). destruct (walk_terms _ _ _ _ _ _ Hw) as [Hs _].
  destruct (walk_moves _ _ _ _ Hw Hia Hb) as [[Hle Hst] _].
  destruct (apply_tif_amounts (effective_tif i) st) as [El Hok]. specialize (Hok Ha).
  cbn [EngineProps.start MatchResult.incoming] in *.
  split; [by apply apply_tif_terms |]. split; [done |]. split; [lia |].
  assert (dec_ltb dec_zero (Order.remaining (MatchResult.incoming st)) = (0 <? left (MatchResult.incoming st))) as Hlt.
  { destruct (grid_zero (2 ^ 63) ltac:(lia)) as [Hz Hzu]. destruct Ha as [Hg _]. by rewrite (grid_ltb _ _ _ _ Hz Hg), Hzu. }
  rewrite El. intros Ho. apply bool_decide_eq_true in Ho. unfold apply_tif in Ho. rewrite Hlt in Ho.
  destruct Ha as [Hg H0]. fold (left (MatchResult.incoming st)) in H0.
  destruct (Z.ltb_spec 0 (left (MatchResult.incoming st))) as [Hpos | Hz]; cbn [andb] in Ho.
  - split; [done |]. destruct (bool_decide_reflect (Order.status (MatchResult.incoming st) = Cancelled)) as [Hc | _]; cbn [negb] in Ho.
    + rewrite Hc in Ho. by destruct Ho.
    + cbn in Ho. destruct (effective_tif i); [done | by destruct Ho | by destruct Ho].
  - destruct Hi as [_ Hi]. fold (left i) in Hi. destruct Hst as [E | [Hc | Hf]]; [rewrite E in Hz; lia | rewrite Hc in Ho; by destruct Ho |].
    rewrite Hf in Ho. unfold fill_status in Ho. rewrite is_zero_spec in Ho by done.
    rewrite (proj2 (Z.eqb_eq _ 0)) in Ho by lia. by destruct Ho.
Qed.

Lemma side_with_sides (s side : Side) (own opp : list Order.t) (v : Z) :
  Market.side_of s (Market.with_sides side own opp v) = if decide (s = side) then own else opp.
Proof. by destruct s, side. Qed.

(** What leaves and what stays of the other side, seen by its terms. *)
Lemma left_over_terms {A} (f : Order.t -> A) (near near' far : list Order.t) :
  (forall a b, same_terms a b -> f a = f b) -> Forall2 same_terms near near' ->
  (f <$> filter (fun r => gone r = false) near' ++ far) `sublist_of` (f <$> near ++ far).
Proof.
  intros Hf Ht.
  assert (f <$> near' = f <$> near) as E.
  { induction Ht as [| r r' l l' Hr _ IH]; [done |]. cbn. by rewrite IH, (Hf _ _ Hr). }
  rewrite !fmap_app. apply sublist_app; [| done]. rewrite <- E. apply sublist_fmap, sublist_filter.
Qed.

Lemma enters_resident (i o : Order.t) :
  taker i -> obeys i -> same_terms i o -> amount_ok o -> left o <= left i -> is_open o = true -> 0 < left o ->
  effective_tif i = GTC -> resident (Order.side i) o.
Proof.
  intros Ht Hi (E1 & E2 & E3 & E4 & E5 & E6 & E7 & E8 & E9) [Hg _] Hle Hop H0 Htif.
  pose proof (tk_left _ Ht). apply bool_decide_eq_true in Hop. unfold effective_tif in Htif. case_decide as Hm; [done |].
  constructor; try done; try lia.
  - unfold exact_price. rewrite <- E7. destruct (tk_price _ Ht) as [Hp | [Hp _]]; [exact Hp | by destruct Hm].
  - rewrite <- E5. by destruct (Order.order_type i).
  - unfold obeys in *. by rewrite <- E2, <- E9.
Qed.

(** Every order a market receives leaves it sound. *)
Lemma market_step_sound (i : Order.t) (m : Market.t) : sound m -> welcome i m -> sound (market_step i m).2.
Proof.
  intros Hm [Ht Hi Hf]. unfold market_step. set (own := Market.side_of (Order.side i) m).
  set (opp := Market.side_of (opposite (Order.side i)) m). set (n := reach i opp).
  destruct (engine_run new_v4 now i (take n opp) (proj2 (effective_tif_taker i Ht))) as (st & near & Hw & ->).
  cbn [snd]. set (o := MatchResult.incoming (apply_tif (effective_tif i) st)).
  pose proof (sd_residents _ Hm (opposite (Order.side i))) as Hopp. fold opp in Hopp.
  assert (Forall (resident (opposite (Order.side i))) (take n opp)) as Hnear by (by apply Forall_take).
  assert (Forall amount_ok (take n opp)) as Ha by (eapply Forall_impl; [exact Hnear |]; intros r Hr; apply live_amount_ok, (rs_live _ _ Hr)).
  destruct (walk_taker i st _ _ Hw (tk_live _ Ht) Ha (tk_new _ Ht)) as (Hs & Hao & Hle & Hop). fold o in Hs, Hao, Hle, Hop.
  pose proof (stay_resident (opposite (Order.side i)) i st _ _ Hw (live_amount_ok _ (tk_live _ Ht)) Hnear) as Hstay.
  destruct (walk_terms _ _ _ _ _ _ Hw) as [_ Hterms].
  pose proof (left_over_terms entry _ _ (drop n opp) entry_terms Hterms) as Hse.
  pose proof (left_over_terms Order.id _ _ (drop n opp) (fun a b Hab => proj1 Hab) Hterms) as Hsi. rewrite take_drop in Hse, Hsi.
  set (own' := if is_open o then enter o own else own).
  assert (Forall (resident (Order.side i)) own' /\ StronglySorted by_score (entry <$> own') /\
          NoDup (Order.id <$> own' ++ opp)) as (Ho1 & Ho2 & Ho3).
  { pose proof (sd_residents _ Hm (Order.side i)) as H1. pose proof (sd_sorted _ Hm (Order.side i)) as H2.
    pose proof (sd_nodup _ Hm) as H3. rewrite (ids_sides (Order.side i)) in H3. fold own opp in H1, H2, H3.
    unfold own'. destruct (is_open o) eqn:Eo; [| done]. destruct (Hop eq_refl) as [H0 Htif].
    split; [| split; [by apply enter_sorted |]].
    - rewrite enter_perm. constructor; [by apply (enters_resident i o) | done].
    - rewrite enter_perm. cbn. constructor; [| done]. rewrite (ids_sides (Order.side i)) in Hf. destruct Hs as (<- & _). exact Hf. }
  constructor.
  - intros s. rewrite side_with_sides. case_decide as Es; [subst s; done |].
    assert (s = opposite (Order.side i)) as -> by (destruct s, (Order.side i); done).
    apply Forall_app. split; [| by apply Forall_drop]. apply Forall_forall. intros r Hr. apply list_elem_of_filter in Hr as [Hg Hr].
    rewrite Forall_forall in Hstay. by apply Hstay.
  - intros s. rewrite side_with_sides. case_decide as Es; [subst s; done |]. eapply sublist_StronglySorted; [exact Hse |].
    apply (sd_sorted _ Hm).
  - rewrite ids_with_sides. eapply sublist_NoDup; [exact Ho3 |]. rewrite !fmap_app. apply sublist_app; [done |]. by rewrite fmap_app in Hsi.
Qed.
End Sound.

(** ** The store represents a market *)

Section Represents.
Context `{C : Crates, L : !CratesLaws C, V : Valkey, VL : !ValkeyLaws V}.
Context (new_v4 : nat -> uuid) (now : nat -> datetime) (plain : string -> bool) (p : string).

Local Abbreviation text o := (uuid_to_string (Order.id o)).
Local Abbreviation texts book := ((fun o => text o) <$> book).
Local Abbreviation market_step := (market_step new_v4 now).
Local Abbreviation sound := (sound plain).
Local Abbreviation welcome := (welcome plain).

Record represents (s : kv) (m : Market.t) : Prop := {
  rp_sides side : ranked (zset s (book_key p side)) = entry <$> Market.side_of side m;
  rp_holds side : Forall (holds s) (Market.side_of side m);
  rp_version : incr_cell (strs s !! version_key p) 1 = Ok (Market.version m + 1);
}.

(** What a market depends on. *)
Lemma represents_frame (s s' : kv) (m : Market.t) :
  represents s m -> (forall side, zset s' (book_key p side) = zset s (book_key p side)) ->
  (forall id, hash s' (order_key_str id) = hash s (order_key_str id)) ->
  strs s' !! version_key p = strs s !! version_key p -> represents s' m.
Proof.
  intros [H1 H2 H3] Hz Hh Hv. constructor; [intros side; by rewrite Hz | | by rewrite Hv].
  intros side. eapply Forall_impl; [apply H2 |]. intros o Ho. unfold holds, resting. by rewrite Hh.
Qed.

(** The script's candidates are the orders within reach. *)
Lemma within_up_to (asset : string) (amount : Z) (i r : Order.t) :
  within i r <-> up_to (Argv.max_score (lua_argv i asset amount)) (entry r).
Proof. unfold within, max_score, lua_argv. cbn. destruct (Order.side i), (Order.price i); done. Qed.

Lemma opp_book_of (asset : string) (amount : Z) (i : Order.t) :
  opp_book p (lua_argv i asset amount) = book_key p (opposite (Order.side i)) /\
  own_book p (lua_argv i asset amount) = book_key p (Order.side i).
Proof. unfold opp_book, own_book, opp_side, own_side. cbn. by destruct (Order.side i). Qed.

Lemma candidates_near (asset : string) (amount : Z) (i : Order.t) (s : kv) (m : Market.t) :
  represents s m -> StronglySorted by_score (entry <$> Market.side_of (opposite (Order.side i)) m) ->
  let opp := Market.side_of (opposite (Order.side i)) m in
  candidates p (lua_argv i asset amount) s = texts (take (reach i opp) opp).
Proof.
  intros Hr Hs. cbv zeta. set (opp := Market.side_of _ m) in *. unfold candidates, kv_zrangebyscore, limit_clause, reach.
  rewrite (proj1 (opp_book_of asset amount i)), (rp_sides _ _ Hr). fold opp.
  assert (filter (up_to (Argv.max_score (lua_argv i asset amount))) (entry <$> opp)
          = entry <$> take (length (filter (within i) opp)) opp) as ->.
  { assert (filter (up_to (Argv.max_score (lua_argv i asset amount))) (entry <$> opp) = entry <$> filter (within i) opp) as E.
    { induction opp as [| r l IH]; [done |]. cbn [fmap list_fmap]. rewrite !filter_cons.
      apply StronglySorted_inv in Hs as [Hs _]. destruct (decide (within i r)) as [Hw | Hw].
      - rewrite decide_True by (by apply within_up_to). cbn. f_equal. by apply IH.
      - rewrite decide_False by (by intros H%within_up_to). by apply IH. }
    rewrite E. f_equal. apply (filter_prefix (fun a b => by_score (entry a) (entry b))).
    - intros a b Hab. unfold within, up_to. destruct (max_score _ _) as [z |]; [| done]. destruct Hab as [? | [? _]]; lia.
    - clear E. induction opp as [| r l IH]; [constructor |]. rewrite fmap_cons in Hs. apply StronglySorted_inv in Hs as [Hs Hl].
      constructor; [by apply IH | by rewrite Forall_fmap in Hl]. }
  change (MATCH_LIMIT <? 0) with false. cbv iota. change (0 <? 0) with false. rewrite drop_0. cbv iota.
  rewrite <- list_fmap_compose. rewrite <- fmap_take, take_take. done.
Qed.
End Represents.

(** ** One order through the script *)

Section Step.
Context `{C : Crates, L : !CratesLaws C, V : Valkey, VL : !ValkeyLaws V}.
Context (new_v4 : nat -> uuid) (now : nat -> datetime) (plain : string -> bool).
Context (asset : string) (amount : Z) (i : Order.t) (m : Market.t).
Context (Hm : sound plain m) (Hw : welcome plain i m).

Local Abbreviation text o := (uuid_to_string (Order.id o)).
Local Abbreviation texts book := ((fun o => text o) <$> book).
Local Abbreviation p := (Order.pair_id i).
Local Abbreviation a := (lua_argv i asset amount).
Local Abbreviation own := (Market.side_of (Order.side i) m).
Local Abbreviation opp := (Market.side_of (opposite (Order.side i)) m).
Local Abbreviation n := (reach i opp).
Local Abbreviation near := (take n opp).
Local Abbreviation far := (drop n opp).

Lemma lock_represents (s s1 : kv) : lock_frame a s s1 -> represents p s m -> represents p s1 m.
Proof using VL.
  intros H Hr. apply (represents_frame p s); [done | intros side; apply (lf_zset _ _ _ H) | | by rewrite (lf_strs _ _ _ H)].
  intros id. apply (lf_hash _ _ _ H), order_key_balance.
Qed.

(** Without the balance the script leaves the market alone and the caller errs. *)
Lemma script_refuses (s : store) :
  represents p (view s) m -> (lock_balance a s).2 <> Ok true ->
  let '(s', r) := match_order_lua i (PairKeys.new p) asset amount s in is_ok r = false /\ represents p (view s') m.
Proof using VL.
  intros Hr Hl. pose proof (lock_represents _ _ (lock_balance_frame a s) Hr) as H1. unfold match_order_lua, match_order_script.
  destruct (lock_balance a s) as [s1 [[] | e]]; [by destruct Hl | |]; by split.
Qed.

Lemma text_fresh : (text i ∉ texts opp) /\ (text i ∉ texts own).
Proof using Hw L.
  pose proof (wl_fresh _ _ _ Hw) as Hf. rewrite (ids_sides (Order.side i)), fmap_app, not_elem_of_app in Hf. destruct Hf as [H1 H2].
  split; intros (r & E & Hr)%list_elem_of_fmap; apply text_inj in E; [apply H2 | apply H1]; rewrite E; by apply list_elem_of_fmap_2.
Qed.

Lemma opp_own_apart (o : Order.t) : o ∈ own -> text o ∉ texts opp.
Proof using Hm L.
  intros Ho (r & E & Hr)%list_elem_of_fmap. apply text_inj in E. pose proof (sd_nodup _ _ Hm) as Hn.
  rewrite (ids_sides (Order.side i)), fmap_app in Hn. apply NoDup_app in Hn as (_ & Hn & _).
  apply (Hn (Order.id o)); [by apply list_elem_of_fmap_2 | rewrite E; by apply list_elem_of_fmap_2].
Qed.

Lemma far_apart (o : Order.t) : o ∈ far -> text o ∉ texts near.
Proof using Hm L.
  intros Ho Hn. pose proof (texts_nodup _ (side_nodup plain (opposite (Order.side i)) m Hm)) as Hd.
  rewrite <- (take_drop n opp), fmap_app in Hd. apply NoDup_app in Hd as (_ & Hd & _). apply (Hd (text o) Hn). by apply list_elem_of_fmap_2 with (f := fun o => text o).
Qed.

Lemma near_sub (id : string) : id ∈ texts near -> id ∈ texts opp.
Proof using. intros (r & -> & Hr)%list_elem_of_fmap. apply list_elem_of_fmap_2 with (f := fun o => text o). by eapply elem_of_sublist, sublist_take. Qed.

Lemma near_residents : Forall (resident plain (opposite (Order.side i))) near.
Proof using Hm. apply Forall_take, (sd_residents _ _ Hm). Qed.

(** The store mirrors the orders within reach. *)
Lemma near_mirrored (s : store) :
  represents p (view s) m -> (lock_balance a s).2 = Ok true -> mirrors asset amount s i near (Market.version m + 1).
Proof using Hm Hw VL.
  intros Hr Hl. constructor; [done | apply (rp_version _ _ _ Hr) | | | |].
  - apply candidates_near; [done | apply (sd_sorted _ _ Hm)].
  - eapply Forall_impl; [apply near_residents |]. intros r. apply resident_maker, Hw.
  - apply Forall_take, (rp_holds _ _ _ Hr).
  - intros H%near_sub. by apply (proj1 text_fresh).
Qed.

(** *** The settled store *)

Local Abbreviation rem Ls := (LState.remaining_i Ls).
Local Abbreviation final Ls := (final_status (Argv.tif a) (LState.status Ls) (left i) (rem Ls)).

Lemma settled_opp (q : Z) (Ls : LState.t) : zset (settled p a q Ls) (opp_book p a) = zset (view (LState.st Ls)) (opp_book p a).
Proof using VL.
  unfold settled. rewrite zset_incrby. case_cond; [| done]. rewrite zset_expire, zset_hset, zset_zadd_ne; [done | apply own_opp_differ].
Qed.

Lemma settled_own (q : Z) (Ls : LState.t) :
  zset (settled p a q Ls) (own_book p a)
  = if rests (Argv.tif a) (final_status (Argv.tif a) (LState.status Ls) q (rem Ls)) (rem Ls)
    then <[text i := score_of i]> (zset (view (LState.st Ls)) (own_book p a)) else zset (view (LState.st Ls)) (own_book p a).
Proof using VL. unfold settled. rewrite zset_incrby. case_cond; [| done]. by rewrite zset_expire, zset_hset, zset_zadd_eq. Qed.

Lemma settled_hash (q : Z) (Ls : LState.t) :
  rests (Argv.tif a) (final_status (Argv.tif a) (LState.status Ls) q (rem Ls)) (rem Ls) = true ->
  exists h, hash (settled p a q Ls) (order_key_str (text i))
            = hset_fields (rest_fields a (taker_price a) q (rem Ls) (final_status (Argv.tif a) (LState.status Ls) q (rem Ls))) h.
Proof using VL. intros Hr. unfold settled. rewrite hash_incrby, Hr, hash_expire, hash_hset_eq. by eexists. Qed.

(** The script rests what the engine leaves open. *)
Lemma rests_open (st : MatchResult.t) (Ls : LState.t) :
  running i st Ls \/ stopped st Ls ->
  let o := MatchResult.incoming (apply_tif (effective_tif i) st) in
  rests (Argv.tif a) (final Ls) (rem Ls) = is_open o /\
  (is_open o = true -> rem Ls = left o /\ final Ls = status_char (Order.status o)).
Proof using Hw.
  intros Hag. cbv zeta. pose proof (wl_taker _ _ _ Hw) as Ht.
  destruct (final_status_agrees asset amount i Ht st Ls Hag) as (Est & _ & _). rewrite Est.
  destruct (apply_tif_amounts (effective_tif i) st) as [El _]. unfold rests. rewrite El.
  change (Argv.tif a) with (tif_char (Order.tif i)). destruct (effective_tif_taker i Ht) as [Etif Hfok].
  destruct Hag as [Hr | (_ & -> & Hc)].
  - rewrite (rn_left _ _ _ Hr). split; [| done]. pose proof (rn_ok _ _ _ Hr) as Hok. pose proof Hok as [Hg H0].
    fold (left (MatchResult.incoming st)) in H0. pose proof (tk_live _ Ht) as [_ Hpos]. fold (left i) in Hpos.
    assert (dec_ltb dec_zero (Order.remaining (MatchResult.incoming st)) = (0 <? left (MatchResult.incoming st))) as Hlt.
    { destruct (grid_zero (2 ^ 63) ltac:(lia)) as [Hz Hzu]. by rewrite (grid_ltb _ _ _ _ Hz Hg), Hzu. }
    unfold apply_tif. rewrite Hlt, Etif. destruct (rn_outcome _ _ _ Hr) as [(Et & Es & E) | (Et & E & Es)].
    + rewrite Es, E, Et, (proj2 (Z.ltb_lt _ _) Hpos). cbn. by destruct (Order.tif i).
    + unfold fill_status in Es. rewrite is_zero_spec in Es by done. rewrite Es.
      destruct (Z.eqb_spec (left (MatchResult.incoming st)) 0) as [Hz | Hz].
      * rewrite Hz, andb_false_r. cbn [andb Z.ltb Z.compare]. unfold is_open. rewrite Es. done.
      * rewrite (proj2 (Z.ltb_lt _ _)) by lia. cbn. destruct (MatchResult.trades st); [done |].
        unfold is_open. destruct (Order.tif i); cbn; rewrite ?Es; done.
  - assert (Order.status (MatchResult.incoming (apply_tif (effective_tif i) st)) = Cancelled) as Hca.
    { unfold apply_tif. by rewrite Hc, (bool_decide_eq_true_2 (Cancelled = Cancelled)), andb_false_r. }
    unfold is_open. rewrite Hca. change (0 <? 0) with false. by rewrite andb_false_r.
Qed.

(** The hash of the rested remainder is read as the open order. *)
Lemma rested_holds (o : Order.t) (h : gmap string string) :
  same_terms i o -> Order.order_type i = Limit -> exact_price i -> 0 <= left o < 10 ^ 14 ->
  resting_of (hset_fields (rest_fields a (taker_price a) (left i) (left o) (status_char (Order.status o))) h) = resting_view o.
Proof using L.
  intros (E1 & E2 & E3 & E4 & E5 & E6 & E7 & E8 & E9) Hl Hp Hb. pose proof (exact_price_i i Hp) as Hpi.
  change (taker_price a) with (limit_price asset amount i). rewrite (limit_price_exact asset amount i Hp).
  unfold resting_of, resting_view, price_i_of. rewrite <- E2, <- E5, <- E7, <- E9. fold (price_i_of i).
  set (fvs := rest_fields _ _ _ _ _).
  rewrite (hset_stored "price_i" _ fvs h eq_refl), (hset_stored "remaining_i" _ fvs h eq_refl), (hset_stored "user_id" _ fvs h eq_refl),
    (hset_stored "stp" _ fvs h eq_refl), (hset_stored "status" _ fvs h eq_refl), (hset_stored "order_type" _ fvs h eq_refl).
  cbn [mbind option_bind]. rewrite !lua_tonumber_tostring by lia. reflexivity.
Qed.

(** *** After a matched order *)

Section Matched.
Context (s s' : store) (st : MatchResult.t) (near' : list Order.t) (Ls : LState.t) (lm : LuaMatchResult.t).
Context (Hr : represents p (view s) m).
Context (Hrun : lua_run new_v4 now asset amount s i near (Market.version m + 1) st near' Ls s' lm).

Local Abbreviation kept_near := (filter (fun r => gone r = false) near').
Local Abbreviation o := (MatchResult.incoming (apply_tif (effective_tif i) st)).

Lemma near_amounts : Forall amount_ok near /\ Forall amount_ok near' /\ Forall2 same_terms near near'.
Proof using Hm Hw Hrun.
  assert (Forall amount_ok near) as Ha
    by (eapply Forall_impl; [apply near_residents |]; intros r Hres; apply live_amount_ok, (rs_live _ _ _ Hres)).
  pose proof (lr_walk _ _ _ _ _ _ _ _ _ _ _ _ _ Hrun) as Hwalk.
  destruct (walk_amounts _ _ _ _ _ _ Hwalk (live_amount_ok _ (tk_live _ (wl_taker _ _ _ Hw))) Ha) as (_ & Ha' & _).
  by destruct (walk_terms _ _ _ _ _ _ Hwalk).
Qed.

(** What is not within reach and not the taker keeps its hash. *)
Lemma other_hash (id : string) : id ∉ texts near -> id <> text i -> hash (view s') (order_key_str id) = hash (view s) (order_key_str id).
Proof using VL Hrun.
  intros Hid Hne. rewrite (lr_view _ _ _ _ _ _ _ _ _ _ _ _ _ Hrun).
  pose proof (settled_cell p a (left i) Ls id Hne) as E1.
  pose proof (only_touches_cell _ _ _ _ _ (lr_touches _ _ _ _ _ _ _ _ _ _ _ _ _ Hrun) Hid) as E2.
  pose proof (proj1 (frame_cell p a _ _ id (lock_balance_frame a s))) as E3. unfold cell in *. congruence.
Qed.

Lemma opp_members_far (id : string) :
  id ∉ texts near -> zset (view s') (opp_book p a) !! id = zset (view s) (opp_book p a) !! id.
Proof using VL Hrun.
  intros Hid. rewrite (lr_view _ _ _ _ _ _ _ _ _ _ _ _ _ Hrun), settled_opp.
  rewrite <- (lf_zset _ _ _ (lock_balance_frame a s)).
  apply (ot_members _ _ _ _ (lr_touches _ _ _ _ _ _ _ _ _ _ _ _ _ Hrun)), Hid.
Qed.

(** A maker of the engine's outcome: gone from the set, or in it as it was. *)
Lemma near_member (k : nat) (r r' : Order.t) :
  near !! k = Some r -> near' !! k = Some r' ->
  zset (view s') (opp_book p a) !! text r = (if gone r' then None else zset (view s) (opp_book p a) !! text r) /\
  (gone r' = false -> holds (view s') r').
Proof using Hm Hw VL Hrun.
  intros Hk Hk'. destruct near_amounts as (_ & Ha' & Hterms).
  destruct (Forall2_lookup_lr _ _ _ _ _ _ Hterms Hk Hk') as (Eid & _).
  pose proof (Forall_lookup_1 _ _ _ _ Ha' Hk') as Hok.
  pose proof (Forall_lookup_1 _ _ _ _ (lr_book _ _ _ _ _ _ _ _ _ _ _ _ _ Hrun) Hk') as Hafter.
  unfold holds_after in Hafter. rewrite <- (gone_spec r' Hok) in Hafter. rewrite <- Eid in Hafter.
  destruct (gone r') eqn:Hg.
  - split; [| done]. by injection Hafter as _ Hz.
  - split; [| done]. rewrite (lr_view _ _ _ _ _ _ _ _ _ _ _ _ _ Hrun), settled_opp.
    assert (text r ∈ texts near) as Hin by (apply list_elem_of_fmap_2 with (f := fun o => text o); by eapply list_elem_of_lookup_2).
    destruct (lr_fates _ _ _ _ _ _ _ _ _ _ _ _ _ Hrun (text r) Hin) as (ts & Hf). change (book_of asset amount i) with (opp_book p a) in Hf.
    assert (cell (opp_book p a) (view (LState.st Ls)) (text r) <> (∅, None)) as Hne.
    { intros E. assert (text r <> text i) as Hti by (intros Et; apply (proj1 text_fresh), near_sub; by rewrite <- Et).
      pose proof (settled_cell p a (left i) Ls (text r) Hti) as Es. rewrite <- (lr_view _ _ _ _ _ _ _ _ _ _ _ _ _ Hrun), E in Es.
      injection Es as Eh _. unfold holds, resting in Hafter. rewrite <- Eid, Eh in Hafter.
      apply (f_equal Resting.remaining_i) in Hafter. cbn in Hafter. rewrite (gone_spec r' Hok) in Hg. unfold left in *.
      rewrite <- Hafter in Hg. done. }
    unfold cell in *. inversion Hf as [E | _ E | _ _ E | q _ _ E]; subst; [by injection E as _ -> | done | done | by injection E as _ ->].
Qed.

Lemma own_members :
  zset (view s') (own_book p a) = if is_open o then <[text i := score_of i]> (zset (view s) (own_book p a)) else zset (view s) (own_book p a).
Proof using Hw VL Hrun.
  rewrite (lr_view _ _ _ _ _ _ _ _ _ _ _ _ _ Hrun), settled_own.
  rewrite (proj1 (rests_open st Ls (proj1 (lr_agrees _ _ _ _ _ _ _ _ _ _ _ _ _ Hrun)))).
  rewrite <- (lf_zset _ _ _ (lock_balance_frame a s)).
  rewrite (ot_zset _ _ _ _ (lr_touches _ _ _ _ _ _ _ _ _ _ _ _ _ Hrun)); [done | apply own_opp_differ |].
  intros id _ E. by apply (order_key_book id p (own_side a)).
Qed.

Lemma opp_after (id : string) (x : Z) :
  (id, x) ∈ entry <$> (kept_near ++ far) <-> zset (view s') (opp_book p a) !! id = Some x.
Proof using Hm Hw VL Hr Hrun.
  destruct near_amounts as (_ & _ & Hterms).
  assert (forall id x, zset (view s) (opp_book p a) !! id = Some x <-> (id, x) ∈ entry <$> near ++ far) as Hold.
  { intros id0 x0. by rewrite take_drop, (proj1 (opp_book_of p asset amount i)), <- (rp_sides _ _ _ Hr), elem_of_ranked. }
  rewrite fmap_app, elem_of_app. destruct (decide (id ∈ texts near)) as [Hin | Hin].
  - split.
    + intros [(r' & E & [Hg Hr']%list_elem_of_filter)%list_elem_of_fmap | (r & E & Hfar)%list_elem_of_fmap].
      * apply list_elem_of_lookup_1 in Hr' as (k & Hk'). destruct (Forall2_lookup_r _ _ _ _ _ Hterms Hk') as (r & Hk & Hsame).
        destruct (near_member k r r' Hk Hk') as [Hz _]. rewrite Hg in Hz. rewrite <- (entry_terms _ _ Hsame) in E.
        injection E as -> ->. rewrite Hz. apply Hold. rewrite fmap_app, elem_of_app. left.
        change (entry r ∈ entry <$> near). apply list_elem_of_fmap_2. by eapply list_elem_of_lookup_2.
      * injection E as -> _. by apply far_apart in Hfar.
    + apply list_elem_of_fmap in Hin as (r & -> & [k Hk]%list_elem_of_lookup_1).
      destruct (Forall2_lookup_l _ _ _ _ _ Hterms Hk) as (r' & Hk' & Hsame).
      destruct (near_member k r r' Hk Hk') as [-> _]. destruct (gone r') eqn:Hg; [done |]. intros Hx. left.
      assert (zset (view s) (opp_book p a) !! text r = Some (score_of r)) as Hs.
      { apply Hold. rewrite fmap_app, elem_of_app. left. change (entry r ∈ entry <$> near). apply list_elem_of_fmap_2. by eapply list_elem_of_lookup_2. }
      rewrite Hs in Hx. injection Hx as <-. change (entry r ∈ entry <$> kept_near). rewrite (entry_terms _ _ Hsame).
      apply list_elem_of_fmap_2, list_elem_of_filter. split; [done |]. by eapply list_elem_of_lookup_2.
  - rewrite (opp_members_far id Hin), Hold, fmap_app, elem_of_app. split; (intros [H | H]; [exfalso | by right]).
    + apply list_elem_of_fmap in H as (r' & E & [_ Hr']%list_elem_of_filter). apply list_elem_of_lookup_1 in Hr' as (k & Hk').
      destruct (Forall2_lookup_r _ _ _ _ _ Hterms Hk') as (r & Hk & Hsame). rewrite <- (entry_terms _ _ Hsame) in E. injection E as -> _.
      apply Hin, list_elem_of_fmap_2 with (f := fun o => text o). by eapply list_elem_of_lookup_2.
    + apply list_elem_of_fmap in H as (r & E & Hrn). injection E as -> _. apply Hin. by apply list_elem_of_fmap_2 with (f := fun o => text o).
Qed.

Lemma own_after (id : string) (x : Z) :
  (id, x) ∈ entry <$> (if is_open o then enter o own else own) <-> zset (view s') (own_book p a) !! id = Some x.
Proof using Hw VL Hr Hrun.
  assert (forall id x, zset (view s) (own_book p a) !! id = Some x <-> (id, x) ∈ entry <$> own) as Hold.
  { intros id0 x0. by rewrite (proj2 (opp_book_of p asset amount i)), <- (rp_sides _ _ _ Hr), elem_of_ranked. }
  assert (same_terms i o) as Hs by (apply apply_tif_terms; apply (walk_terms _ _ _ _ _ _ (lr_walk _ _ _ _ _ _ _ _ _ _ _ _ _ Hrun))).
  rewrite own_members. destruct (is_open o); [| by rewrite Hold].
  rewrite enter_perm, fmap_cons, elem_of_cons, <- (entry_terms _ _ Hs). destruct (decide (text i = id)) as [<- | Hne].
  - rewrite lookup_insert_eq. split; [| intros [= <-]; by left]. intros [E | H]; [by injection E as -> |].
    apply list_elem_of_fmap in H as (r & E & Hro). injection E as E _. exfalso. apply (proj2 text_fresh).
    rewrite E. by apply list_elem_of_fmap_2 with (f := fun o => text o).
  - rewrite lookup_insert_ne, Hold by done. split; [| by right]. intros [E | H]; [| done]. by injection E.
Qed.

(** The store represents the market the engine leaves. *)
Lemma matched_represents :
  in_i64 (Market.version m + 2) = true -> represents p (view s') (market_step new_v4 now i m).2.
Proof using Hm Hw VL Hr Hrun.
  intros Hv. pose proof (market_step_sound new_v4 now plain i m Hm Hw) as Hsound. revert Hsound. unfold market_step.
  rewrite (lr_engine _ _ _ _ _ _ _ _ _ _ _ _ _ Hrun). cbn [snd]. set (m' := Market.with_sides _ _ _ _). intros Hsound.
  assert (forall side, Market.side_of side m' = if decide (side = Order.side i) then (if is_open o then enter o own else own) else kept_near ++ far)
    as Hside by (intros side; apply side_with_sides).
  destruct near_amounts as (Ha & Ha' & Hterms).
  constructor.
  - intros side. apply ranked_unique; [apply (sd_sorted _ _ Hsound) | apply entries_nodup; by apply (side_nodup plain) |].
    intros id x. rewrite Hside. case_decide as E.
    + subst side. rewrite <- (proj2 (opp_book_of p asset amount i)). apply own_after.
    + assert (side = opposite (Order.side i)) as -> by (destruct side, (Order.side i); done).
      rewrite <- (proj1 (opp_book_of p asset amount i)). apply opp_after.
  - intros side. rewrite Hside.
    assert (forall r, holds (view s) r -> text r ∉ texts near -> text r <> text i -> holds (view s') r) as Hkeep.
    { intros r Hh Hn Hi. unfold holds, resting in *. by rewrite other_hash. }
    case_decide as E.
    + assert (Forall (holds (view s')) own) as Hown.
      { apply Forall_forall. intros r Hro. apply Hkeep; [by apply (Forall_forall (holds (view s)) own); [apply (rp_holds _ _ _ Hr) |] | |].
        - intros Hn%near_sub. by eapply opp_own_apart.
        - intros Et. apply (proj2 text_fresh). rewrite <- Et. by apply list_elem_of_fmap_2 with (f := fun o => text o). }
      destruct (is_open o) eqn:Ho; [| done]. rewrite enter_perm. constructor; [| done].
      pose proof (lr_walk _ _ _ _ _ _ _ _ _ _ _ _ _ Hrun) as Hwalk. pose proof (wl_taker _ _ _ Hw) as Ht.
      destruct (walk_taker new_v4 now i st _ _ Hwalk (tk_live _ Ht) Ha (tk_new _ Ht)) as (Hs & Hao & Hle & Hop).
      destruct (Hop Ho) as [H0 Htif].
      destruct (enters_resident plain i o Ht (wl_obeys _ _ _ Hw) Hs Hao Hle Ho H0 Htif) as [_ Hl Hp Hlim _ _ _].
      destruct (rests_open st Ls (proj1 (lr_agrees _ _ _ _ _ _ _ _ _ _ _ _ _ Hrun))) as [Hrest Hq]. destruct (Hq Ho) as [Er Ef].
      destruct (settled_hash (left i) Ls) as (h & Eh); [by rewrite Hrest |].
      unfold holds, resting. rewrite (lr_view _ _ _ _ _ _ _ _ _ _ _ _ _ Hrun).
      pose proof Hs as (Ei & _ & _ & _ & Eot & _ & Ep & _ & _). rewrite <- Ei, Eh, Er, <- Er, Ef, Er.
      apply rested_holds; [done | congruence | unfold exact_price in *; by rewrite Ep | lia].
    + apply Forall_app. split.
      * apply Forall_forall. intros r' [Hg Hr']%list_elem_of_filter. apply list_elem_of_lookup_1 in Hr' as (k & Hk').
        destruct (Forall2_lookup_r _ _ _ _ _ Hterms Hk') as (r & Hk & _). by apply (near_member k r r').
      * apply Forall_forall. intros r Hfar.
        assert (r ∈ opp) as Hro by (rewrite <- (take_drop n opp); apply elem_of_app; by right).
        apply Hkeep; [by apply (Forall_forall (holds (view s)) opp); [apply (rp_holds _ _ _ Hr) |] | by apply far_apart |].
        intros Et. apply (proj1 text_fresh). rewrite <- Et. by apply list_elem_of_fmap_2 with (f := fun o => text o).
  - rewrite (lr_version _ _ _ _ _ _ _ _ _ _ _ _ _ Hrun). subst m'.
    assert (Market.version (Market.with_sides (Order.side i) (if is_open o then enter o own else own) (kept_near ++ far) (Market.version m + 1))
            = Market.version m + 1) as -> by (by destruct (Order.side i)).
    replace (Market.version m + 1 + 1) with (Market.version m + 2) in * by lia.
    assert (in_i64 (Market.version m + 1) = true) as Hv1.
    { by apply (incr_cell_range _ _ _ (rp_version _ _ _ Hr)). }
    replace (Market.version m + 2) with (Market.version m + 1 + 1) in * by lia. by apply incr_cell_ok.
Qed.
End Matched.
End Step.

(** ** Sequences of orders *)

Section Run.
Context `{C : Crates, L : !CratesLaws C, V : Valkey, VL : !ValkeyLaws V}.
Context (new_v4 : nat -> uuid) (now : nat -> datetime) (plain : string -> bool) (p : string).

Local Abbreviation market_step := (market_step new_v4 now).

(** The caller's answer against the engine's result on the other side of the market:
    the remainder is the engine's, but zero when self-trade prevention cancels the
    taker. *)
Record answers (i : Order.t) (opp : list Order.t) (lm : LuaMatchResult.t) (res : MatchResult.t) : Prop := {
  an_trades : Forall2 (seen_as i) (LuaMatchResult.trades lm) (MatchResult.trades res);
  an_status : LuaMatchResult.status lm = Order.status (MatchResult.incoming res);
  an_remaining : units (LuaMatchResult.remaining lm) = left (MatchResult.incoming res) \/
                 stp_cuts i opp /\ units (LuaMatchResult.remaining lm) = 0 /\ LuaMatchResult.status lm = Cancelled;
}.

Lemma stp_cuts_sub (i : Order.t) (near opp : list Order.t) : near ⊆ opp -> stp_cuts i near -> stp_cuts i opp.
Proof. intros Hs (Hm & r & Hr & H). split; [done |]. exists r. split; [by apply Hs | done]. Qed.

(** An order with what it locks, and whether the taker's balance covers it. *)
Abbreviation submission := (Order.t * (string * Z))%type.

Definition covered (e : submission) (s : store) : bool :=
  match (lock_balance (lua_argv e.1 e.2.1 e.2.2) s).2 with
  | Ok b => b
  | Err _ => false
  end.

Definition submit (e : submission) (s : store) : store * result LuaMatchResult.t :=
  match_order_lua e.1 (PairKeys.new (Order.pair_id e.1)) e.2.1 e.2.2 s.

(** The two runs side by side: at every order the store represents the market. *)
Fixpoint lockstep (es : list submission) (s : store) (m : Market.t) : Prop :=
  represents p (view s) m /\ sound plain m /\
  match es with
  | [] => True
  | e :: es =>
      let '(s', r) := submit e s in
      if covered e s
      then (exists lm, r = Ok lm /\ answers e.1 (Market.side_of (opposite (Order.side e.1)) m) lm (market_step e.1 m).1) /\ lockstep es s' (market_step e.1 m).2
      else is_ok r = false /\ lockstep es s' m
  end.

(** An order for the pair that the script treats as the engine does. *)
Record fit (i : Order.t) : Prop := {
  ft_taker : taker i;
  ft_obeys : obeys plain i;
  ft_pair : Order.pair_id i = p;
}.

Lemma submit_simulates (e : submission) (s : store) (m : Market.t) :
  represents p (view s) m -> sound plain m -> fit e.1 -> Order.id e.1 ∉ ids m -> in_i64 (Market.version m + 2) = true ->
  let '(s', r) := submit e s in
  if covered e s
  then (exists lm, r = Ok lm /\ answers e.1 (Market.side_of (opposite (Order.side e.1)) m) lm (market_step e.1 m).1) /\ represents p (view s') (market_step e.1 m).2
  else is_ok r = false /\ represents p (view s') m.
Proof.
  intros Hr Hm [Ht Ho <-] Hf Hv. destruct e as [i [asset amount]]. cbn [fst snd] in *.
  assert (welcome plain i m) as Hw by by constructor. unfold submit, covered. cbn [fst snd].
  destruct (lock_balance (lua_argv i asset amount) s).2 as [[] | err] eqn:El.
  - pose proof (near_mirrored plain asset amount i m Hm Hw s Hr El) as Hmi.
    destruct (match_order_lua_run new_v4 now asset amount s i _ _ Ht Hmi) as (st & near' & Ls & s' & lm & -> & Hrun).
    split.
    + exists lm. split; [done |]. unfold Market.market_step. destruct Hrun as [_ E _ Htr Hst Hre _ _ _ _ _]. rewrite E. constructor; [done | done |].
      destruct Hre as [Hre | [Hcut Hre]]; [by left | right; split; [| exact Hre]].
      eapply stp_cuts_sub; [| exact Hcut]. intros x Hx. eapply elem_of_sublist; [exact Hx | apply sublist_take].
    + by apply (matched_represents new_v4 now plain asset amount i m Hm Hw s s' st near' Ls lm Hr Hrun).
  - pose proof (script_refuses asset amount i m s Hr) as H. rewrite El in H. by apply H.
  - pose proof (script_refuses asset amount i m s Hr) as H. rewrite El in H. by apply H.
Qed.

(** The orders of a market come from the market before and the order received. *)
Lemma orders_after {A} (f : Order.t -> A) (i : Order.t) (m : Market.t) :
  (forall a b, same_terms a b -> f a = f b) -> taker i ->
  f <$> Market.orders (market_step i m).2 ⊆ f i :: (f <$> Market.orders m).
Proof.
  intros Hf Ht. unfold Market.market_step. set (opp := Market.side_of (opposite (Order.side i)) m). set (own := Market.side_of (Order.side i) m).
  destruct (engine_run new_v4 now i (take (reach i opp) opp) (proj2 (effective_tif_taker i Ht))) as (st & near & Hw & ->). cbn [snd].
  destruct (walk_terms _ _ _ _ _ _ Hw) as [Hs Hterms]. pose proof (left_over_terms f _ _ (drop (reach i opp) opp) Hf Hterms) as Hsub.
  rewrite take_drop in Hsub. intros x Hx. rewrite orders_with_sides, fmap_app, elem_of_app in Hx.
  rewrite elem_of_cons, (orders_sides (Order.side i)), fmap_app, elem_of_app.
  destruct Hx as [Hx | Hx]; [| right; right; by eapply elem_of_sublist].
  destruct (is_open _); [| tauto]. rewrite enter_perm, fmap_cons, elem_of_cons in Hx.
  rewrite <- (Hf _ _ (apply_tif_terms (effective_tif i) i st Hs)) in Hx. tauto.
Qed.

Lemma ids_after (i : Order.t) (m : Market.t) : taker i -> ids (market_step i m).2 ⊆ Order.id i :: ids m.
Proof. apply orders_after. intros a b Hab. apply Hab. Qed.

Lemma version_after (i : Order.t) (m : Market.t) : Market.version (market_step i m).2 = Market.version m + 1.
Proof. unfold Market.market_step. destruct (Engine.match_order _ _ _ _) as [res near]. by destruct (Order.side i). Qed.

(** Identifiers still to come stay apart from those of the market. *)
Lemma fresh_after (i : Order.t) (m : Market.t) (later : list uuid) :
  sound plain m -> fit i -> NoDup (ids m ++ Order.id i :: later) ->
  (Order.id i ∉ ids m) /\ NoDup (ids m ++ later) /\ sound plain (market_step i m).2 /\ NoDup (ids (market_step i m).2 ++ later).
Proof.
  intros Hm Hi (H1 & H2 & [H3 H4]%NoDup_cons)%NoDup_app.
  assert (Order.id i ∉ ids m) as Hf by (intros H; apply (H2 _ H); by left).
  assert (sound plain (market_step i m).2) as Hs
    by (apply market_step_sound; [done |]; constructor; [apply (ft_taker _ Hi) | apply (ft_obeys _ Hi) | done]).
  split_and!; [done | | done |].
  - apply NoDup_app. split_and!; [done | | done]. intros id Hid Hin. apply (H2 _ Hid). by right.
  - apply NoDup_app. split_and!; [apply (sd_nodup plain _ Hs) | | done].
    intros id [-> | Hid]%(ids_after i m (ft_taker _ Hi))%elem_of_cons Hin; [done |]. apply (H2 _ Hid). by right.
Qed.

Lemma version_room (m : Market.t) (s : kv) : represents p s m -> Market.version m + 1 <= i64_max - 1 -> in_i64 (Market.version m + 2) = true.
Proof. intros Hr Hv. pose proof (incr_cell_range _ _ _ (rp_version _ _ _ Hr)) as H. rewrite in_i64_spec in *. lia. Qed.

End Run.

(** ** Withdrawals *)

Section Withdraw.
Context `{C : Crates, L : !CratesLaws C, V : Valkey, VL : !ValkeyLaws V}.
Context (plain : string -> bool) (p : string).

Lemma Forall_kept {A} (P Q : A -> Prop) `{!forall x, Decision (Q x)} (l : list A) : Forall P l -> Forall P (filter Q l).
Proof. rewrite !Forall_forall. intros Hl x [_ Hx]%list_elem_of_filter. by apply Hl. Qed.

(** An order taken off the market. *)
Definition withdraw (id : uuid) (m : Market.t) : Market.t :=
  Market.mk (filter (fun o => Order.id o <> id) (Market.bids m)) (filter (fun o => Order.id o <> id) (Market.asks m)) (Market.version m).

Lemma side_withdraw (id : uuid) (m : Market.t) (side : Side) :
  Market.side_of side (withdraw id m) = filter (fun o => Order.id o <> id) (Market.side_of side m).
Proof. by destruct side. Qed.

Lemma orders_withdraw (id : uuid) (m : Market.t) :
  Market.orders (withdraw id m) = filter (fun o => Order.id o <> id) (Market.orders m).
Proof. unfold Market.orders. cbn. by rewrite filter_app. Qed.

Lemma ids_withdraw (id x : uuid) (m : Market.t) : x ∈ ids (withdraw id m) <-> x ∈ ids m /\ x <> id.
Proof.
  unfold ids. rewrite orders_withdraw. split.
  - intros (o & -> & [Ho Hin]%list_elem_of_filter)%list_elem_of_fmap. split; [by apply list_elem_of_fmap_2 | done].
  - intros [(o & -> & Hin)%list_elem_of_fmap Ho]. apply list_elem_of_fmap_2. by apply list_elem_of_filter.
Qed.

Lemma withdraw_sound (id : uuid) (m : Market.t) : sound plain m -> sound plain (withdraw id m).
Proof.
  intros [H1 H2 H3]. constructor.
  - intros side. rewrite side_withdraw. apply Forall_kept, H1.
  - intros side. rewrite side_withdraw. eapply sublist_StronglySorted; [| apply (H2 side)]. apply sublist_fmap, sublist_filter.
  - unfold ids. rewrite orders_withdraw. eapply sublist_NoDup; [exact H3 |]. apply sublist_fmap, sublist_filter.
Qed.

(** ZREM of an order from its side. *)
Lemma zrem_represents (id : uuid) (side : Side) (s : kv) (m : Market.t) :
  represents p s m -> sound plain m -> (forall o, o ∈ Market.orders m -> Order.id o = id -> Order.side o = side) ->
  represents p (kv_zrem (book_key p side) (uuid_to_string id) s) (withdraw id m).
Proof.
  intros Hr Hm Hside. pose proof (withdraw_sound id m Hm) as Hm'. constructor.
  - intros sd. apply ranked_unique; [apply (sd_sorted plain _ Hm') | by apply entries_nodup, (side_nodup plain) |].
    intros t x. rewrite side_withdraw.
    assert (forall o, o ∈ Market.side_of sd m -> uuid_to_string (Order.id o) = uuid_to_string id <-> Order.id o = id) as Htext.
    { intros o _. split; [| by intros ->]. intros E. apply (f_equal uuid_parse) in E. rewrite !uuid_parse_to_string in E. by injection E. }
    assert ((t, x) ∈ entry <$> filter (fun o => Order.id o <> id) (Market.side_of sd m) <-> (t, x) ∈ entry <$> Market.side_of sd m /\ t <> uuid_to_string id) as ->.
    { split.
      - intros (o & E & [Ho Hin]%list_elem_of_filter)%list_elem_of_fmap. injection E as -> ->. split; [by apply (list_elem_of_fmap_2 entry) |].
        intros E. by apply Ho, (Htext o Hin).
      - intros [(o & E & Hin)%list_elem_of_fmap Ht]. injection E as -> ->. apply (list_elem_of_fmap_2 entry), list_elem_of_filter.
        split; [| done]. intros E. apply Ht. by rewrite E. }
    rewrite <- (rp_sides _ _ _ Hr), elem_of_ranked. destruct (decide (sd = side)) as [-> | Hne].
    + rewrite zset_zrem_eq, lookup_delete_Some. naive_solver.
    + rewrite zset_zrem_ne by (destruct sd, side; try done; (apply book_key_sides || (intros E; by apply (book_key_sides p)))).
      split; [by intros [? _] |]. intros Hz. split; [done |]. intros ->. apply Hne.
      assert ((uuid_to_string id, x) ∈ entry <$> Market.side_of sd m) as (o & E & Hin)%list_elem_of_fmap
        by (by rewrite <- (rp_sides _ _ _ Hr), elem_of_ranked).
      injection E as E _. rewrite <- (rs_side _ _ _ (proj1 (Forall_forall _ _) (sd_residents plain _ Hm sd) o Hin)).
      apply Hside; [| by apply (Htext o Hin)]. rewrite (orders_sides sd), elem_of_app. by left.
  - intros sd. rewrite side_withdraw. apply Forall_kept. eapply Forall_impl; [apply (rp_holds _ _ _ Hr) |].
    intros o Ho. unfold holds, resting in *. by rewrite hash_zrem.
  - rewrite strs_zrem. apply (rp_version _ _ _ Hr).
Qed.

(** DEL of the hash of an order that is not on the market. *)
Lemma del_represents (id : uuid) (s : kv) (m : Market.t) :
  represents p s m -> id ∉ ids m -> represents p (kv_del (order_key id) s) m.
Proof.
  intros Hr Hid. constructor.
  - intros sd. rewrite zset_del_ne; [apply (rp_sides _ _ _ Hr) | apply order_key_book].
  - intros sd. apply Forall_forall. intros o Ho. pose proof (proj1 (Forall_forall _ _) (rp_holds _ _ _ Hr sd) o Ho) as H.
    unfold holds, resting in *. rewrite hash_del_ne; [done |]. intros E. apply Hid.
    apply order_key_str_inj, (f_equal uuid_parse) in E. rewrite !uuid_parse_to_string in E. injection E as ->.
    apply list_elem_of_fmap_2. rewrite (orders_sides sd), elem_of_app. by left.
  - rewrite strs_del_ne; [apply (rp_version _ _ _ Hr) | apply order_key_version].
Qed.
End Withdraw.

(** ** A concrete market *)

Module MarketExamples.
Import RefCrates RefValkey EngineExamples BookExamples MatchLuaExamples RefineExamples.

Definition everyone (user : string) : bool := true.

Definition two_sided : @Market.t ref_crates := Market.mk [] two_asks 0.

Lemma two_sided_sound : sound everyone two_sided.
Proof.
  constructor.
  - intros [|]; cbn; [constructor |]. repeat apply Forall_cons_2; [.. | apply Forall_nil_2];
      (constructor; [by vm_compute | by vm_compute | eexists; (split; [done |]); by vm_compute | done | by left | done | done]).
  - intros [|]; cbn; [constructor |]. repeat constructor; cbn; lia.
  - apply (bool_decide_unpack _). vm_compute. exact I.
Qed.

Lemma market_represents : represents "BTC-USDT" (view market) two_sided.
Proof.
  constructor.
  - intros [|]; vm_compute; reflexivity.
  - intros [|]; cbn; repeat constructor; vm_compute; reflexivity.
  - reflexivity.
Qed.

Definition buyer (i : positive) (user : string) (qty : Q) : @Order.t ref_crates :=
  order i user Buy Limit GTC (Some 101%Q) qty Stp.None.

Definition seller : @Order.t ref_crates := order 3 "taker" Sell Limit IOC (Some 100%Q) 1 Stp.None.

(** The first takes an ask and a half, the second the rest and rests itself, the third
    sells to it, the fourth has no balance. *)
Definition flow : list (@Order.t ref_crates * (string * Z)) :=
  [(buyer 1 "taker" 2, ("USDT", 20200000000)); (buyer 2 "taker" 3, ("USDT", 30300000000));
   (seller, ("BTC", 100000000)); (buyer 4 "poor" 1, ("USDT", 10100000000))].

Lemma flow_fits : Forall (fun e => fit everyone "BTC-USDT" e.1) flow.
Proof.
  repeat apply Forall_cons_2; [.. | apply Forall_nil_2];
    (constructor; [| done | done]; constructor;
     [by vm_compute | by vm_compute | done | by vm_compute | left; eexists; (split; [done |]); by vm_compute
     | first [by left | by right]]).
Qed.

Definition after_flow : @Market.t ref_crates :=
  fold_left (fun m i => (market_step ids clock i m).2) (take 3 flow.*1) two_sided.

Example market_after_flow :
  (fun o => (uuid_to_string (Order.id o), Qred (Order.remaining o))) <$> Market.bids after_flow = [("2", 1%Q)] /\
  length (Market.asks after_flow) = 0%nat /\ Market.version after_flow = 3.
Proof. split_and!; vm_compute; reflexivity. Qed.

End MarketExamples.
