(* ===== verification/Tasks.v ===== *)
(** * Orders and cancellations as concurrent tasks

    [process_order] of the gateway, [process_queued_order] of the worker and the
    cancellation of an order as what the two runtimes execute: tasks that stop at
    every exchange with a server, where other tasks run, and that see an error when
    the connection breaks.  A pipeline is carried out command by command, so other
    clients' commands may come between.  Scripts and transactions are atomic for the
    servers.  A task left alone does what [OrderFlow] and [Cancel] say. *)

From S2P Require Import Prelude Numbers Externals Fixed Types Codec Valkey Book Snapshot MatchLua.
From S2P Require Import Json Db Persist Metrics Views Ws OrderFlow Cancel Consumers Dispatch Faults.

Open Scope Z_scope.

(** ** Tasks *)

Section Task.
Context {W : Type}.

(** [Ask] waits for an answer; [Send] is a pipeline. *)
Inductive task : Type :=
| Finished (r : result unit)
| Memory (f : W -> W) (k : task)
| Ask {B : Type} (f : W -> W * result B) (k : result B -> task)
| Send (c : W -> W) (cs : list (W -> W)) (k : result unit -> task).

(** One step: an exchange is answered, or breaks before or after the server served
    it. *)
Definition advance (f : fate) (t : task) (w : W) : W * task :=
  match t with
  | Finished r => (w, Finished r)
  | Memory g k => (g w, k)
  | Ask g k =>
      match f with
      | Answered => ((g w).1, k (g w).2)
      | Broken O => (w, k (Err lost))
      | Broken (S _) => ((g w).1, k (Err lost))
      end
  | Send c cs k =>
      match f with
      | Answered => (c w, match cs with [] => k (Ok tt) | c' :: cs' => Send c' cs' k end)
      | Broken O => (w, k (Err lost))
      | Broken (S _) => (c w, k (Err lost))
      end
  end.

(** Nothing else runs and nothing breaks. *)
Fixpoint alone (t : task) (w : W) : W * result unit :=
  match t with
  | Finished r => (w, r)
  | Memory g k => alone k (g w)
  | Ask g k => alone (k (g w).2) (g w).1
  | Send c cs k => alone (k (Ok tt)) (fold_left (fun w c => c w) (c :: cs) w)
  end.

(** [?]: an error goes to [k]. *)
Definition ask {B} (f : W -> W * result B) (k_err : result unit -> task) (k : B -> task) : task :=
  Ask f (fun r => match r with
                  | Ok b => k b
                  | Err m => k_err (Err m)
                  end).

(** [let _ = ...] *)
Definition tell (f : W -> W) (k : task) : task := Ask (fun w => (f w, Ok tt)) (fun _ => k).

Definition tells (fs : list (W -> W)) (k : task) : task := foldr tell k fs.

Definition send (cs : list (W -> W)) (k : result unit -> task) : task :=
  match cs with
  | [] => k (Ok tt)
  | c :: cs => Send c cs k
  end.
End Task.

Arguments task : clear implicits.

(** ** The gateway ([crates/gateway/src/worker.rs]) *)

Section Tasks.
Context `{C : Crates, X : !Sqlx C, V : Valkey, J : SerdeJson}.
Context (ws_endpoint : bool) (answer : post -> PostResult).

(** Operations of a server as operations of the system. *)
Definition on_store {A} (f : store -> store * result A) (w : process) : process * result A :=
  (mk_process C V (f (p_kv w)).1 (p_db w) (p_worker w), (f (p_kv w)).2).
Definition on_database {A} (f : db -> db * result A) (w : process) : process * result A :=
  (mk_process C V (p_kv w) (f (p_db w)).1 (p_worker w), (f (p_db w)).2).
Definition in_store (f : store -> store) (w : process) : process := mk_process C V (f (p_kv w)) (p_db w) (p_worker w).
Definition in_worker (f : worker -> worker) (w : process) : process := mk_process C V (p_kv w) (p_db w) (f (p_worker w)).
Definition read_store {A} (f : store -> A) (w : process) : process * result A := (w, Ok (f (p_kv w))).
Definition read_db {A} (f : db -> A) (w : process) : process * result A := (w, Ok (f (p_db w))).

(** [set_and_publish_batch] *)
Definition view_writes (entries : list (string * string)) : list (process -> process) :=
  mbind (fun e => [in_store (v_set e.1 e.2); in_store (v_publish CACHE_UPDATES_CHANNEL (update_message e.1 e.2))]) entries.

(** The two statements of [build_ticker_json] and the document made of them. *)
Definition day_row (pair_id : string) (pg_now : datetime) (d : db) : option Q * option Q * option Q :=
  (high_24h pair_id pg_now d, low_24h pair_id pg_now d, volume_24h pair_id pg_now d).

Definition ticker_document (pair_id : string) (day : option Q * option Q * option Q) (last : option Q) : Json :=
  let '(high, low, volume) := day in
  object [("pair", JStr pair_id); ("last", opt_numeric last); ("high_24h", opt_numeric high);
          ("low_24h", opt_numeric low); ("volume_24h", opt_numeric volume)].

(** A portfolio per user, after the [entries] already built. *)
Fixpoint portfolios_task (users : list string) (entries : list (string * string)) (k : result unit -> task process) : task process :=
  match users with
  | [] => send (view_writes entries) k
  | u :: users =>
      ask (read_db (build_portfolio_json u)) k (fun j =>
      portfolios_task users (entries ++ [(portfolio_key u, json_to_string j)]) k)
  end.

(** [update_cache_after_processing] *)
Definition update_cache_task (pg_now : datetime) (o : Order.t) (ts : list Trade.t) (k : result unit -> task process) : task process :=
  let pair_id := Order.pair_id o in
  if negb (negb (bool_decide (ts = []))) && negb (rested o) then k (Ok tt)
  else
    ask (read_store (snapshot_json pair_id)) k (fun book =>
    ask (read_db (build_trades_json pair_id)) k (fun trades =>
    ask (read_db (day_row pair_id pg_now)) k (fun day =>
    ask (read_db (last_price pair_id)) k (fun last =>
    portfolios_task (elements (dirty_users o ts))
      [(orderbook_key pair_id, json_to_string book); (trades_key pair_id, json_to_string trades);
       (ticker_key pair_id, json_to_string (ticker_document pair_id day last))] k)))).

(** A connection that is gone: errors are ignored. *)
Definition remove_stale_task (ch_name stale_id : string) (k : task process) : task process :=
  tell (in_store (v_srem ws_connections stale_id))
  (tell (in_store (v_srem (ws_subs ch_name) stale_id))
  (Ask (read_store (v_smembers (ws_conn stale_id))) (fun channels =>
   tells ((fun ch => in_store (v_srem (ws_subs ch) stale_id)) <$> match channels with Ok l => l | Err _ => [] end)
  (tell (in_store (v_del (ws_conn stale_id))) k)))).

(** One channel; an error goes on to the next. *)
Definition push_channel_task (ch_name : string) (k : task process) : task process :=
  Ask (read_store (v_smembers (ws_subs ch_name))) (fun subscribers =>
  match subscribers with
  | Err _ | Ok [] => k
  | Ok subscribers =>
      Ask (read_store (v_get ("cache:" +:+ ch_name))) (fun val =>
      match val with
      | Err _ | Ok None => k
      | Ok (Some val) =>
          if decide (val = EmptyString) then k
          else foldr (remove_stale_task ch_name) k (filter (fun c => answer (c, update_msg ch_name val) = Gone) subscribers)
      end)
  end).

Definition push_ws_task (pair_id : string) (k : task process) : task process :=
  foldr push_channel_task k ["orderbook:" +:+ pair_id; "trades:" +:+ pair_id; "ticker:" +:+ pair_id].

(** After the match: the database, the views, the push. *)
Definition persist_and_show_task (e : Env.t) (o : Order.t) (fills : list LuaTrade.t) : task process :=
  let ts := build_trades e (Env.clock e 3%nat) o fills in
  let show :=
    update_cache_task (Env.pg_now e) o ts (fun _ =>
    if ws_endpoint then push_ws_task (Order.pair_id o) (Finished (Ok tt)) else Finished (Ok tt)) in
  if is_warmup o then show
  else ask (on_database (persist_order (Env.clock e 4%nat) (Env.pg_now e) o ts fills)) Finished (fun _ => show).

(** [process_order] *)
Definition process_order_task (st : WorkerState.t) (e : Env.t) (payload : Json) : task process :=
  match (o ← read_order e payload; _ ← validate_order (WorkerState.pairs_cache st) o; mret o) with
  | Err m => Finished (Err m)
  | Ok o =>
      match Order.tif o with
      | FOK => update_cache_task (Env.pg_now e) (Order.set_status Cancelled o) [] Finished
      | _ =>
          match (l ← lock_params o;
                 keys ← ok_or (WorkerState.pair_keys st !! Order.pair_id o) ("unknown pair_id: " +:+ Order.pair_id o);
                 mret (l, keys)) with
          | Err m => Finished (Err m)
          | Ok (l, keys) =>
              Ask (on_store (match_order_lua o keys l.1 l.2)) (fun r =>
              match r with
              | Err m => Finished (Err ("Lua EVAL failed: " +:+ m))
              | Ok r => persist_and_show_task e (matched o (Env.clock e 2%nat) r) (LuaMatchResult.trades r)
              end)
          end
      end
  end.

(** ** The worker ([crates/api/src/worker.rs])

    A fill-or-kill order changes no book, so its cache is not written. *)
Definition process_queued_order_task (st : WorkerState.t) (subscribers : nat) (lua_ms : Z) (e : Env.t) (order_str : string) : task process :=
  match (j ← ok_or (json_from_str order_str) "invalid JSON";
         o ← read_queued_order e j;
         _ ← match validate_order (WorkerState.pairs_cache st) o with
              | Err m => Err ("validation failed: " +:+ m)
              | Ok _ => Ok tt
              end;
         l ← lock_params o;
         mret (o, l)) with
  | Err m => Finished (Err m)
  | Ok (o, l) =>
      match Order.tif o with
      | FOK => Finished (Ok tt)
      | _ =>
          match WorkerState.pair_keys st !! Order.pair_id o with
          | None => Finished (Err ("unknown pair_id: " +:+ Order.pair_id o))
          | Some keys =>
              ask (on_store (match_order_lua o keys l.1 l.2)) Finished (fun r =>
              Memory (in_worker (hand_on subscribers e (matched o (Env.clock e 2%nat) r) r lua_ms)) (Finished (Ok tt)))
          end
      end
  end.

(** One order of [process_cancellation], as each of its branches cancels it: the row
    is read, the order leaves the book in a pipeline, and two statements follow. *)
Definition in_db (f : db -> db) (w : process) : process * result unit := (mk_process C V (p_kv w) (f (p_db w)) (p_worker w), Ok tt).

Definition mark_dirty (user_id : string) (wk : worker) : worker :=
  mk_worker (wk_metrics wk) (try_send DIRTY_USERS user_id (wk_dirty_users wk)) (wk_persist wk) (wk_dirty_books wk) (wk_events wk).

Definition remove_writes (o : Order.t) : list (process -> process) :=
  [in_store (v_zrem (book_key (Order.pair_id o) (Order.side o)) (uuid_to_string (Order.id o))); in_store (v_del (order_key (Order.id o)))].

Definition cancel_one_task (now pg_now : datetime) (id : uuid) (user_id : string) : task process :=
  ask (read_db (order_of_user id user_id)) Finished (fun row =>
  match row with
  | None => Finished (Ok tt)
  | Some r =>
      if decide (open_status (OrderRow.status r)) then
        send (remove_writes (cancel_order_of now id user_id r)) (fun removed =>
        match removed with
        | Err m => Finished (Err m)
        | Ok _ =>
            ask (in_db (cancel_row pg_now id)) Finished (fun _ =>
            ask (in_db (release_unfloored (cancel_release r).2 (user_id, (cancel_release r).1))) Finished (fun _ =>
            Memory (in_worker (mark_dirty user_id)) (Finished (Ok tt))))
        end)
      else Finished (Ok tt)
  end).

(** ** Left alone *)

Lemma alone_ask {B} (f : process -> process * result B) (k_err : result unit -> task process) (k : B -> task process) (w : process) (b : B) :
  (f w).2 = Ok b -> alone (ask f k_err k) w = alone (k b) (f w).1.
Proof. intros E. unfold ask. cbn [alone]. by rewrite E. Qed.

Lemma alone_tells (fs : list (process -> process)) (k : task process) (w : process) :
  alone (tells fs k) w = alone k (fold_left (fun w f => f w) fs w).
Proof. revert w. induction fs as [| f fs IH]; intros w; [done |]. unfold tells in *. cbn. apply IH. Qed.

Lemma alone_send (cs : list (process -> process)) (k : result unit -> task process) (w : process) :
  alone (send cs k) w = alone (k (Ok tt)) (fold_left (fun w c => c w) cs w).
Proof. by destruct cs. Qed.

Lemma in_store_fold {A} (f : store -> A -> store) (l : list A) (w : process) :
  fold_left (fun w g => g w) ((fun x => in_store (fun s => f s x)) <$> l) w = in_store (fun s => fold_left f l s) w.
Proof. revert w. induction l as [| x l IH]; intros w; [by destruct w | apply IH]. Qed.

Lemma view_writes_alone (entries : list (string * string)) (w : process) :
  fold_left (fun w c => c w) (view_writes entries) w = in_store (set_and_publish_batch entries) w.
Proof.
  unfold view_writes, set_and_publish_batch. revert w.
  induction entries as [| e entries IH]; intros w; [by destruct w |]. cbn. rewrite IH. reflexivity.
Qed.

Lemma portfolios_alone (users : list string) (entries : list (string * string)) (k : result unit -> task process) (w : process) :
  alone (portfolios_task users entries k) w =
  alone (k (Ok tt)) (in_store (set_and_publish_batch
    (entries ++ ((fun u => (portfolio_key u, json_to_string (build_portfolio_json u (p_db w)))) <$> users))) w).
Proof.
  revert entries. induction users as [| u users IH]; intros entries; cbn [portfolios_task].
  - by rewrite alone_send, view_writes_alone, app_nil_r.
  - erewrite alone_ask by reflexivity. cbn [read_db fst]. by rewrite IH, <- app_assoc.
Qed.

Lemma update_cache_alone (pg_now : datetime) (o : Order.t) (ts : list Trade.t) (k : result unit -> task process) (w : process) :
  alone (update_cache_task pg_now o ts k) w =
  alone (k (Ok tt)) (in_store (update_cache_after_processing pg_now o ts (p_db w)) w).
Proof.
  unfold update_cache_task, update_cache_after_processing. cbn zeta. case_cond; [by destruct w |].
  do 4 (erewrite alone_ask by reflexivity; cbn [read_db read_store fst]). by rewrite portfolios_alone.
Qed.

Lemma remove_stale_alone (ch id : string) (k : task process) (w : process) :
  alone (remove_stale_task ch id k) w = alone k (in_store (remove_stale ch id) w).
Proof.
  unfold remove_stale_task, tell at 1 2. cbn [alone fst snd read_store]. rewrite alone_tells. cbn [alone tell fst snd].
  by rewrite (in_store_fold (fun s ch => v_srem (ws_subs ch) id s)).
Qed.

Lemma push_channel_alone (ch : string) (k : task process) (w : process) :
  alone (push_channel_task ch k) w = alone k (in_store (fun s => (push_channel answer ch s).1) w).
Proof.
  unfold push_channel_task, push_channel. cbn [alone read_store fst snd]. unfold in_store at 1.
  destruct (v_smembers (ws_subs ch) (p_kv w)) as [| c cs]; [by destruct w |]. cbn [alone read_store fst snd].
  destruct (v_get _ (p_kv w)) as [val |]; [| by destruct w]. case_decide; [by destruct w |]. cbn [fst].
  change (mk_process C V ?s (p_db w) (p_worker w)) with (in_store (fun _ => s) w). generalize (filter (fun c => answer (c, update_msg ch val) = Gone) (c :: cs)).
  intros l. assert (forall w0, alone (foldr (remove_stale_task ch) k l) w0 = alone k (in_store (fun s => fold_left (fun s c => remove_stale ch c s) l s) w0)) as Hl;
    [| apply Hl].
  induction l as [| x l IH]; intros w0; [by destruct w0 |]. cbn [foldr]. rewrite remove_stale_alone, IH. reflexivity.
Qed.

Lemma push_alone (pair_id : string) (k : task process) (w : process) :
  alone (push_ws_task pair_id k) w = alone k (in_store (fun s => (push_ws_updates answer pair_id s).1) w).
Proof.
  unfold push_ws_task, push_ws_updates. cbn [foldr fold_left]. rewrite !push_channel_alone. unfold in_store. cbn [p_kv p_db p_worker fst].
  destruct (push_channel _ _ (p_kv w)) as [s1 ps1]. cbn [fst]. destruct (push_channel _ _ s1) as [s2 ps2]. cbn [fst].
  by destruct (push_channel _ _ s2) as [s3 ps3].
Qed.

Lemma process_order_alone (st : WorkerState.t) (e : Env.t) (payload : Json) (w : process) :
  alone (process_order_task st e payload) w =
  let '(w', r) := process_order ws_endpoint answer st e payload (p_kv w, p_db w) in (mk_process C V w'.1 w'.2 (p_worker w), r).
Proof.
  unfold process_order_task, process_order. destruct (mbind _ _) as [o | m]; [| by destruct w].
  assert (forall l keys,
    alone (Ask (on_store (match_order_lua o keys l.1 l.2)) (fun r =>
              match r with
              | Err m => Finished (Err ("Lua EVAL failed: " +:+ m))
              | Ok r => persist_and_show_task e (matched o (Env.clock e 2%nat) r) (LuaMatchResult.trades r)
              end)) w =
    let '(w', r) := match_and_persist ws_endpoint answer e o keys l.1 l.2 (p_kv w, p_db w) in (mk_process C V w'.1 w'.2 (p_worker w), r)) as Hm.
  { intros l keys. cbn [alone]. unfold on_store, match_and_persist. cbn [fst snd].
    destruct (match_order_lua _ _ _ _ _) as [s [r | m]]; [| done]. cbn [fst snd]. cbn zeta. unfold persist_and_show_task. cbn zeta.
    set (o' := matched _ _ _). set (ts := build_trades _ _ _ _).
    assert (forall d, alone (update_cache_task (Env.pg_now e) o' ts (fun _ =>
                if ws_endpoint then push_ws_task (Order.pair_id o') (Finished (Ok tt)) else Finished (Ok tt))) (mk_process C V s d (p_worker w))
              = (mk_process C V (if ws_endpoint then (push_ws_updates answer (Order.pair_id o') (update_cache_after_processing (Env.pg_now e) o' ts d s)).1
                                 else update_cache_after_processing (Env.pg_now e) o' ts d s) d (p_worker w), Ok tt)) as Hs.
    { intros d. rewrite update_cache_alone. destruct ws_endpoint; [by rewrite push_alone | done]. }
    destruct (is_warmup o'); [apply Hs |]. unfold ask. cbn [alone]. unfold on_database. cbn [fst snd p_db p_kv p_worker].
    destruct (persist_order _ _ o' ts _ (p_db w)) as [d [u | m]]; [apply Hs | done]. }
  destruct (Order.tif o).
  1,2: destruct (mbind _ _) as [[l keys] | m]; [apply Hm | by destruct w].
  by rewrite update_cache_alone.
Qed.

Lemma process_queued_order_alone (st : WorkerState.t) (subscribers : nat) (lua_ms : Z) (e : Env.t) (str : string) (w : process) :
  alone (process_queued_order_task st subscribers lua_ms e str) w =
  let '(s, wk, r) := process_queued_order st subscribers lua_ms e str (p_kv w) (p_worker w) in (mk_process C V s (p_db w) wk, r).
Proof.
  unfold process_queued_order_task, process_queued_order. destruct (mbind _ _) as [[o l] | m]; [| by destruct w].
  destruct (Order.tif o).
  1,2: destruct (_ !! Order.pair_id o) as [keys |]; [| by destruct w]; unfold ask; cbn [alone]; unfold on_store; cbn [fst snd];
    by destruct (match_order_lua _ _ _ _ (p_kv w)) as [s [r | m]].
  by destruct w.
Qed.

Lemma cancel_one_alone (now pg_now : datetime) (id : uuid) (user_id : string) (w : process) :
  alone (cancel_one_task now pg_now id user_id) w =
  let c := cancel_one now pg_now id user_id (mk_cstate C V (p_kv w) (p_db w) (wk_dirty_users (p_worker w))) in
  let wk := p_worker w in
  (mk_process C V (cs_kv c) (cs_db c) (mk_worker (wk_metrics wk) (cs_dirty c) (wk_persist wk) (wk_dirty_books wk) (wk_events wk)), Ok tt).
Proof.
  unfold cancel_one_task, cancel_one. erewrite alone_ask by reflexivity. cbn [read_db fst cs_db].
  destruct (order_of_user id user_id (p_db w)) as [r |]; [| by destruct w as [? ? []]].
  case_decide; [| by destruct w as [? ? []]]. cbn. by destruct (cancel_release r).
Qed.
End Tasks.
