(* ===== verification/Traffic.v ===== *)
(** * The market under the traffic of a pair

    Any number of orders and cancellations of one pair at once, inline in the gateway
    and from the worker's queues, as concurrent tasks whose exchanges with Valkey and
    the database interleave in any order and may break, in processes that may die,
    among whatever else leaves the pair's book alone.  Valkey represents the market
    that [match_order] and withdrawals make of some of them, one after the other, the
    orders in the order in which they reached their first exchange, their script. *)

From S2P Require Import Prelude Numbers Externals Fixed Types Codec Valkey Book MatchLua MatchLuaExamples Engine EngineProps Refine Market.
From S2P Require Import Json Db Persist Metrics Views Ws OrderFlow OrderFlowExamples Cancel Consumers Dispatch Gateway Faults FaultsProps ConsumersProps Tasks.

Open Scope Z_scope.

Section Traffic.
Context `{C : Crates, L : !CratesLaws C, X : !Sqlx C, V : Valkey, VL : !ValkeyLaws V, J : SerdeJson}.
Context (new_v4 : nat -> uuid) (now : nat -> datetime) (plain : string -> bool) (p : string).
Context (ws_endpoint : bool) (answer : post -> PostResult).

Local Abbreviation market_step := (market_step new_v4 now).

(** ** The system *)

(** An order processed in the gateway, a message of the worker's order queues, or the
    cancellation of an order. *)
Inductive arrival :=
| Inline (st : WorkerState.t) (e : Env.t) (payload : Json)
| Queued (st : WorkerState.t) (subscribers : nat) (lua_ms : Z) (e : Env.t) (message : string)
| Withdrawal (at_ pg_now : datetime) (id : uuid) (user_id : string).

Definition task_of (a : arrival) : task process :=
  match a with
  | Inline st e payload => process_order_task ws_endpoint answer st e payload
  | Queued st subscribers lua_ms e message => process_queued_order_task st subscribers lua_ms e message
  | Withdrawal at_ pg_now id user_id => cancel_one_task at_ pg_now id user_id
  end.

(** The order of an arrival that is read, valid, and not fill-or-kill. *)
Definition admitted (a : arrival) : option Order.t :=
  let r := match a with
           | Inline st e payload => o ← read_order e payload; _ ← validate_order (WorkerState.pairs_cache st) o; mret o
           | Queued st _ _ e message =>
               j ← ok_or (json_from_str message) "invalid JSON"; o ← read_queued_order e j;
               _ ← validate_order (WorkerState.pairs_cache st) o; mret o
           | Withdrawal _ _ _ _ => Err "not an order"
           end in
  match r with
  | Ok o => if decide (Order.tif o = FOK) then None else Some o
  | Err _ => None
  end.

Definition withdrawals : list arrival -> list uuid :=
  omap (fun a => match a with
                 | Withdrawal _ _ id _ => Some id
                 | _ => None
                 end).

(** The keys [get_state] computes for its pairs. *)
Definition keyed (a : arrival) : Prop :=
  match a with
  | Inline st _ _ | Queued st _ _ _ _ => forall pair keys, WorkerState.pair_keys st !! pair = Some keys -> keys = PairKeys.new pair
  | Withdrawal _ _ _ _ => True
  end.

(** An arrival before and after its first step. *)
Inductive slot :=
| Waiting (a : arrival)
| Running (t : task process).

(** The servers and the worker's memory, the tasks, and what happened: the arrivals,
    and those that made a step, in the order of these. *)
Record system : Type := mk_system {
  world : process;
  slots : list slot;
  arrived : list arrival;
  started : list arrival;
}.

(** Nothing of the pair's book differs. *)
Definition same_book (s s' : kv) : Prop :=
  (forall side, zset s' (book_key p side) = zset s (book_key p side)) /\
  (forall id, hash s' (order_key_str id) = hash s (order_key_str id)) /\
  strs s' !! version_key p = strs s !! version_key p.

Definition placement (o : Order.t) : uuid * Side := (Order.id o, Order.side o).

(** The orders that may be on the book: the first market's, and those whose script
    may have run. *)
Definition placed (m : Market.t) (g : list arrival) : list (uuid * Side) := placement <$> (Market.orders m ++ omap admitted g).

(** An open row that a cancellation reads is of an order of the pair whose script has
    run: the rows are written after the script. *)
Definition row_placed (m : Market.t) (g : list arrival) (w : process) (a : arrival) : Prop :=
  match a with
  | Withdrawal at_ _ id user_id =>
      forall r, order_of_user id user_id (p_db w) = Some r -> open_status (OrderRow.status r) ->
      OrderRow.pair_id r = p /\ placement (cancel_order_of at_ id user_id r) ∈ placed m g
  | _ => True
  end.

(** The tasks from the market [m] on. *)
Inductive step (m : Market.t) : relation system :=
| step_arrives a w l h g : step m (mk_system w l h g) (mk_system w (l ++ [Waiting a]) (h ++ [a]) g)
| step_starts i a f w l h g :
    l !! i = Some (Waiting a) -> row_placed m g w a ->
    step m (mk_system w l h g) (mk_system (advance f (task_of a) w).1 (<[i := Running (advance f (task_of a) w).2]> l) h (g ++ [a]))
| step_moves i t f w l h g :
    l !! i = Some (Running t) ->
    step m (mk_system w l h g) (mk_system (advance f t w).1 (<[i := Running (advance f t w).2]> l) h g)
| step_dies i w l h g : step m (mk_system w l h g) (mk_system w (<[i := Running (Finished (Err "the process died"))]> l) h g)
| step_elsewhere w' w l h g : same_book (view (p_kv w)) (view (p_kv w')) -> step m (mk_system w l h g) (mk_system w' l h g).

Definition begin (w : process) : system := mk_system w [] [] [].

(** ** What a task does to the book *)

Lemma same_book_refl (s : kv) : same_book s s.
Proof. by split_and!. Qed.

Lemma alike_same_book (s s' : store) : store_alike s s' -> same_book (view s) (view s').
Proof.
  intros [Hs Hh Hz _ _]. split_and!.
  - intros side. unfold zset, at_key. rewrite Hz; [done | by destruct side].
  - intros id. unfold hash, at_key. by rewrite Hh.
  - symmetry. by apply Hs.
Qed.

Lemma represents_same (s s' : kv) (m : Market.t) : same_book s s' -> represents p s m -> represents p s' m.
Proof. intros (H1 & H2 & H3) H. by apply (represents_frame p s). Qed.

(** A change that leaves the views and connections aside. *)
Definition silent (f : process -> process) : Prop := forall w, store_alike (p_kv (f w)) (p_kv w).

(** A task none of whose exchanges touches a book. *)
Inductive quiet : task process -> Prop :=
| quiet_finished r : quiet (Finished r)
| quiet_memory f k : silent f -> quiet k -> quiet (Memory f k)
| quiet_ask {B} (f : process -> process * result B) k : silent (fun w => (f w).1) -> (forall r, quiet (k r)) -> quiet (Ask f k)
| quiet_send c cs k : Forall silent (c :: cs) -> (forall r, quiet (k r)) -> quiet (Send c cs k).

Hint Constructors quiet : core.

Lemma quiet_advance (t : task process) (f : fate) (w : process) :
  quiet t -> store_alike (p_kv (advance f t w).1) (p_kv w) /\ quiet (advance f t w).2.
Proof.
  intros [r | g k Hg Hk | B g k Hg Hk | c cs k Hc Hk]; cbn; [by split | by split | |].
  - destruct f as [| [| n]]; (split; [| apply Hk]); [apply Hg | done | apply Hg].
  - apply Forall_cons in Hc as [Hc Hcs]. destruct f as [| [| n]]; (split; [first [apply Hc | done] |]); [| apply Hk..].
    cbn. destruct cs; auto.
Qed.

Lemma quiet_query {B} (f : process -> B) k : (forall r : result B, quiet (k r)) -> quiet (Ask (fun w => (w, Ok (f w))) k).
Proof. intros Hk. constructor; [by intros w | done]. Qed.

Lemma quiet_try {B} (f : process -> process * result B) k_err k :
  silent (fun w => (f w).1) -> (forall r, quiet (k_err r)) -> (forall b, quiet (k b)) -> quiet (ask f k_err k).
Proof. intros Hf He Hk. constructor; [done |]. intros [b | m]; auto. Qed.

Lemma silent_in_store (f : store -> store) : (forall s, store_alike (f s) s) -> silent (in_store f).
Proof. intros Hf w. apply Hf. Qed.

Lemma quiet_tell (f : store -> store) k : (forall s, store_alike (f s) s) -> quiet k -> quiet (tell (in_store f) k).
Proof. intros Hf Hk. constructor; [by apply (silent_in_store f) | done]. Qed.

Lemma portfolios_quiet (users : list string) (entries : list (string * string)) k :
  Forall (fun e => side_key e.1 = true) entries -> (forall r, quiet (k r)) -> quiet (portfolios_task users entries k).
Proof.
  intros He Hk. revert entries He. induction users as [| u users IH]; intros entries He; cbn [portfolios_task].
  - assert (Forall silent (view_writes entries)) as Hw.
    { unfold view_writes. apply Forall_bind. eapply Forall_impl; [exact He |]. intros e Hs.
      repeat apply Forall_cons_2; [.. | apply Forall_nil_2]; apply silent_in_store; intros s; [by apply set_alike | apply publish_alike]. }
    destruct (view_writes entries); cbn; auto.
  - apply quiet_try; [by intros w | done |]. intros j. apply IH, Forall_app. split; [done |]. by apply Forall_singleton.
Qed.

Lemma update_cache_quiet (pg_now : datetime) (o : Order.t) (ts : list Trade.t) k :
  (forall r, quiet (k r)) -> quiet (update_cache_task pg_now o ts k).
Proof.
  intros Hk. unfold update_cache_task. cbn zeta. case_cond; [done |].
  do 4 (apply quiet_try; [by intros w | done | intros ?]). apply portfolios_quiet; [| done]. by repeat (apply Forall_cons_2; [done |]).
Qed.

Lemma remove_stale_quiet (ch id : string) k : quiet k -> quiet (remove_stale_task ch id k).
Proof.
  intros Hk. unfold remove_stale_task. do 2 (apply quiet_tell; [intros s; by apply srem_alike |]). apply quiet_query. intros r.
  assert (quiet (tell (in_store (v_del (ws_conn id))) k)) as Hd by (apply quiet_tell; [intros s; by apply del_alike | done]).
  revert Hd. generalize (tell (in_store (v_del (ws_conn id))) k) (match r with Ok l => l | Err _ => [] end).
  intros k' l Hd. induction l as [| c l IH]; [done |]. cbn. apply quiet_tell; [intros s; by apply srem_alike | done].
Qed.

Lemma push_channel_quiet (ch : string) k : quiet k -> quiet (push_channel_task answer ch k).
Proof.
  intros Hk. unfold push_channel_task. apply quiet_query. intros [[| c cs] | m]; [done | | done].
  apply quiet_query. intros [[val |] | m]; [| done..]. case_decide; [done |].
  generalize (filter (fun c => answer (c, update_msg ch val) = Gone) (c :: cs)). intros l.
  induction l as [| x l IH]; [done |]. by apply remove_stale_quiet.
Qed.

Lemma push_quiet (pair_id : string) k : quiet k -> quiet (push_ws_task answer pair_id k).
Proof. intros Hk. unfold push_ws_task. cbn [foldr]. by repeat apply push_channel_quiet. Qed.

Lemma persist_and_show_quiet (e : Env.t) (o : Order.t) (fills : list LuaTrade.t) :
  quiet (persist_and_show_task ws_endpoint answer e o fills).
Proof.
  unfold persist_and_show_task. cbn zeta.
  match goal with |- quiet (if _ then ?t else _) => assert (quiet t) as Hs end.
  { apply update_cache_quiet. intros _. destruct ws_endpoint; [apply push_quiet |]; auto. }
  destruct (is_warmup o); [done |]. apply quiet_try; [by intros w | auto | done].
Qed.

(** The script of an admitted order comes first, and nothing after it touches a
    book. *)
Inductive opens (a : arrival) : task process -> Prop :=
| opens_quiet t : quiet t -> opens a t
| opens_script o l k : admitted a = Some o -> (forall r, quiet (k r)) ->
    opens a (Ask (on_store (match_order_lua o (PairKeys.new (Order.pair_id o)) l.1 l.2)) k).

Lemma task_opens (a : arrival) : keyed a -> (match a with Withdrawal _ _ _ _ => False | _ => True end) -> opens a (task_of a).
Proof.
  destruct a as [st e payload | st subs ms e msg | at_ pg id user]; intros Hk Hw; cbn [task_of]; [| | done].
  - unfold process_order_task. destruct (mbind _ _) as [o | err] eqn:Eo; [| apply opens_quiet; auto].
    assert (Order.tif o <> FOK -> admitted (Inline st e payload) = Some o) as Ha.
    { intros Ht. unfold admitted. rewrite Eo. by rewrite decide_False. }
    destruct (Order.tif o) eqn:Et; [| | apply opens_quiet, update_cache_quiet; auto];
      (destruct (lock_params o) as [l | err]; [| apply opens_quiet; cbn; auto]; cbn [mbind result_bind];
       destruct (WorkerState.pair_keys st !! Order.pair_id o) as [keys |] eqn:E; [| apply opens_quiet; cbn; auto];
       cbn [ok_or mbind result_bind mret result_ret]; rewrite (Hk _ _ E); apply opens_script; [by apply Ha |];
       intros [r | err]; [apply persist_and_show_quiet | auto]).
  - unfold process_queued_order_task.
    destruct (json_from_str msg) as [j |] eqn:Ej; [| apply opens_quiet; cbn; auto]. cbn [ok_or mbind result_bind].
    destruct (read_queued_order e j) as [o | err] eqn:Er; [| apply opens_quiet; cbn; auto]. cbn [mbind result_bind].
    destruct (validate_order _ o) as [[] | err] eqn:Ev; [| apply opens_quiet; cbn; auto]. cbn [mbind result_bind].
    assert (Order.tif o <> FOK -> admitted (Queued st subs ms e msg) = Some o) as Ha.
    { intros Ht. unfold admitted. rewrite Ej. cbn [ok_or mbind result_bind]. rewrite Er. cbn [mbind result_bind]. rewrite Ev. cbn.
      by rewrite decide_False. }
    destruct (lock_params o) as [l | err]; [| apply opens_quiet; cbn; auto]. cbn [mbind result_bind]. unfold mret, result_ret. cbv beta iota.
    destruct (Order.tif o) eqn:Et; [| | apply opens_quiet; auto];
      (destruct (WorkerState.pair_keys st !! Order.pair_id o) as [keys |] eqn:E; [| apply opens_quiet; auto];
       rewrite (Hk _ _ E); apply opens_script; [by apply Ha |]; intros [r | err]; [| auto];
       apply quiet_memory; [by intros w | auto]).
Qed.

(** ** The market of a run *)

(** What takes effect on the market. *)
Inductive op :=
| Submitted (o : Order.t)
| Withdrawn (id : uuid).

Definition market_op (x : op) (m : Market.t) : Market.t :=
  match x with
  | Submitted o => (market_step o m).2
  | Withdrawn id => withdraw id m
  end.

Definition market_after (ops : list op) (m : Market.t) : Market.t := fold_left (fun m x => market_op x m) ops m.

Definition submitted : list op -> list Order.t :=
  omap (fun x => match x with
                 | Submitted o => Some o
                 | Withdrawn _ => None
                 end).

Lemma market_after_snoc (ops : list op) (x : op) (m : Market.t) :
  market_after (ops ++ [x]) m = market_op x (market_after ops m).
Proof. unfold market_after. by rewrite fold_left_app. Qed.

Lemma market_after_version (ops : list op) (m : Market.t) :
  Market.version (market_after ops m) = Market.version m + Z.of_nat (length (submitted ops)).
Proof.
  induction ops as [| x ops IH] using rev_ind; [cbn; lia |]. rewrite market_after_snoc. unfold submitted in *. rewrite omap_app, length_app.
  destruct x as [o | id]; cbn [market_op]; [rewrite version_after | cbn [withdraw Market.version]]; rewrite IH; cbn; lia.
Qed.

Lemma market_after_placed (ops : list op) (m : Market.t) :
  Forall taker (submitted ops) -> placement <$> Market.orders (market_after ops m) ⊆ placement <$> (Market.orders m ++ submitted ops).
Proof.
  induction ops as [| x ops IH] using rev_ind; intros Ht pl Hpl.
  - cbn in *. by rewrite app_nil_r.
  - rewrite market_after_snoc in Hpl. unfold submitted in *. rewrite omap_app in *. apply Forall_app in Ht as [Ht Hx]. specialize (IH Ht).
    rewrite (assoc_L app), fmap_app, elem_of_app. destruct x as [o | id]; cbn [market_op] in Hpl.
    + cbn in Hx. rewrite Forall_singleton in Hx.
      apply (orders_after new_v4 now plain p placement o) in Hpl; [| by intros a b (E1 & _ & _ & E2 & _); unfold placement; rewrite E1, E2 | done].
      apply elem_of_cons in Hpl as [-> | Hpl]; [right; by left | left; by apply IH].
    + rewrite orders_withdraw in Hpl. left. apply IH. apply list_elem_of_fmap in Hpl as (o & -> & [_ Ho]%list_elem_of_filter).
      by apply list_elem_of_fmap_2.
Qed.

(** Placements are told apart by their identifiers. *)
Lemma placed_ids (m : Market.t) (g : list arrival) : (placed m g).*1 = ids m ++ (Order.id <$> omap admitted g).
Proof. unfold placed, ids. by rewrite <- list_fmap_compose, fmap_app. Qed.

Lemma omap_short {A B} (f : A -> option B) (l : list A) : (length (omap f l) <= length l)%nat.
Proof. induction l as [| x l IH]; cbn; [lia |]. destruct (f x); cbn; lia. Qed.

Definition waiting : list slot -> list arrival :=
  omap (fun s => match s with
                 | Waiting a => Some a
                 | Running _ => None
                 end).

Lemma waiting_insert (i : nat) (s : slot) (t : task process) (l : list slot) :
  l !! i = Some s -> waiting l ≡ₚ waiting [s] ++ waiting (<[i := Running t]> l).
Proof.
  revert i. induction l as [| s' l IH]; intros [| i] Hi; [done.. | |].
  - injection Hi as ->. by destruct s.
  - cbn in Hi. change (waiting ([s'] ++ l) ≡ₚ waiting [s] ++ waiting ([s'] ++ <[i := Running t]> l)).
    unfold waiting in *. rewrite !omap_app, (IH _ Hi). apply Permutation_app_swap_app.
Qed.

(** The pair's orders do not repeat an identifier, and the version has room. *)
Record orderly (m : Market.t) (l : list arrival) : Prop := {
  od_keyed : Forall keyed l;
  od_fit : Forall (fit plain p) (omap admitted l);
  od_ids : NoDup (placed m l).*1;
  od_room : Market.version m + Z.of_nat (length l) <= i64_max - 1;
}.

Lemma orderly_submseteq (m : Market.t) (l l' : list arrival) : l ⊆+ l' -> orderly m l' -> orderly m l.
Proof.
  intros Hl [H1 H2 H3 H4]. pose proof (submseteq_length _ _ Hl) as Hn. apply submseteq_Permutation in Hl as [k Hl].
  rewrite placed_ids in H3. constructor.
  - rewrite Hl in H1. by apply Forall_app in H1 as [? _].
  - rewrite Hl, omap_app in H2. by apply Forall_app in H2 as [? _].
  - rewrite placed_ids. rewrite Hl, omap_app, fmap_app, (assoc_L app) in H3. by apply NoDup_app in H3 as [? _].
  - lia.
Qed.

(** The history [g] against the market [ops] made. *)
Record accounts (m : Market.t) (g : list arrival) (ops : list op) (s : kv) : Prop := {
  ac_orders : submitted ops `sublist_of` omap admitted g;
  ac_withdrawn id : Withdrawn id ∈ ops -> id ∈ withdrawals g;
  ac_represents : represents p s (market_after ops m);
  ac_sound : sound plain (market_after ops m);
}.

Lemma accounts_same (m : Market.t) (g : list arrival) (ops : list op) (s s' : kv) : accounts m g ops s -> same_book s s' -> accounts m g ops s'.
Proof. intros [] H. constructor; try done. by eapply represents_same. Qed.

Lemma accounts_more (m : Market.t) (g : list arrival) (a : arrival) (ops : list op) (s : kv) : accounts m g ops s -> accounts m (g ++ [a]) ops s.
Proof.
  intros [H1 H2 H3 H4]. constructor; try done; [rewrite omap_app; by apply sublist_inserts_r |].
  intros id Hid. unfold withdrawals. rewrite omap_app, elem_of_app. left. by apply H2.
Qed.

(** The orders on the market keep the placements of the history. *)
Lemma accounts_placed (m : Market.t) (g : list arrival) (ops : list op) (s : kv) :
  accounts m g ops s -> orderly m g -> placement <$> Market.orders (market_after ops m) ⊆ placed m g.
Proof.
  intros Ha Ho pl Hpl. apply market_after_placed in Hpl.
  - unfold placed. rewrite fmap_app, elem_of_app in *. destruct Hpl as [H | H]; [by left | right].
    eapply elem_of_sublist; [exact H |]. apply fmap_sublist, (ac_orders _ _ _ _ Ha).
  - apply Forall_forall. intros i Hi. apply (ft_taker plain p). eapply Forall_forall; [apply (od_fit _ _ Ho) |].
    eapply elem_of_sublist; [exact Hi | apply (ac_orders _ _ _ _ Ha)].
Qed.

Lemma accounts_side (m : Market.t) (g : list arrival) (ops : list op) (s : kv) (id : uuid) (side : Side) (o : Order.t) :
  accounts m g ops s -> orderly m g -> (id, side) ∈ placed m g -> o ∈ Market.orders (market_after ops m) -> Order.id o = id -> Order.side o = side.
Proof.
  intros Ha Ho Hin Hm <-. assert (placement o ∈ placed m g) as Hp by (eapply accounts_placed; [exact Ha | done | by apply list_elem_of_fmap_2]).
  pose proof (od_ids _ _ Ho) as Hn. apply list_elem_of_lookup in Hin as (i & Hi), Hp as (j & Hj).
  assert ((placed m g).*1 !! i = Some (Order.id o) /\ (placed m g).*1 !! j = Some (Order.id o)) as [Hi1 Hj1]
    by (by rewrite !list_lookup_fmap, Hi, Hj).
  assert (i = j) as -> by (by eapply NoDup_lookup). rewrite Hi in Hj. by injection Hj.
Qed.

(** ** Tasks after their first step *)

(** A task that touches no book any more, or is in the middle of a withdrawal. *)
Inductive tame (m : Market.t) (g : list arrival) (now_ : Market.t) : task process -> Prop :=
| tame_quiet t : quiet t -> tame m g now_ t
| tame_leaving id side k : (id, side) ∈ placed m g -> id ∈ withdrawals g -> (forall r, quiet (k r)) ->
    tame m g now_ (Send (in_store (v_zrem (book_key p side) (uuid_to_string id))) [in_store (v_del (order_key id))] k)
| tame_left id k : id ∈ (placed m g).*1 -> id ∉ ids now_ -> (forall r, quiet (k r)) ->
    tame m g now_ (Send (in_store (v_del (order_key id))) [] k).

Lemma placed_more (m : Market.t) (g : list arrival) (a : arrival) : placed m g ⊆ placed m (g ++ [a]).
Proof. intros x. unfold placed. rewrite omap_app, !fmap_app, !elem_of_app. tauto. Qed.

Lemma tame_more (m : Market.t) (g : list arrival) (a : arrival) (now_ : Market.t) (t : task process) :
  tame m g now_ t -> tame m (g ++ [a]) now_ t.
Proof.
  intros [t' Ht | id side k H1 H2 H3 | id k H1 H2 H3]; [by apply tame_quiet | apply tame_leaving | apply tame_left]; try done.
  - by apply placed_more.
  - unfold withdrawals. rewrite omap_app, elem_of_app. by left.
  - apply list_elem_of_fmap in H1 as (x & -> & Hx). by apply list_elem_of_fmap_2, placed_more.
Qed.

(** What is off the market stays off. *)
Lemma tame_market (m : Market.t) (g : list arrival) (now_ now' : Market.t) (t : task process) :
  (forall id, id ∈ (placed m g).*1 -> id ∈ ids now' -> id ∈ ids now_) -> tame m g now_ t -> tame m g now' t.
Proof. intros H [t' Ht | id side k H1 H2 H3 | id k H1 H2 H3]; [by apply tame_quiet | by apply tame_leaving | apply tame_left; auto]. Qed.

(** What a step may change: the history grows by operations, and no placed order
    comes back to the market. *)
Definition progress (m : Market.t) (g g' : list arrival) (ops : list op) (s' : kv) (ops' : list op) : Prop :=
  accounts m g' ops' s' /\
  forall id, id ∈ (placed m g).*1 -> id ∈ ids (market_after ops' m) -> id ∈ ids (market_after ops m).

Lemma progress_same (m : Market.t) (g : list arrival) (ops : list op) (s s' : kv) :
  accounts m g ops s -> same_book s s' -> progress m g g ops s' ops.
Proof. intros Ha Hs. split; [by eapply accounts_same | done]. Qed.

Lemma progress_more (m : Market.t) (g : list arrival) (a : arrival) (ops : list op) (s s' : kv) :
  accounts m g ops s -> same_book s s' -> progress m g (g ++ [a]) ops s' ops.
Proof. intros Ha Hs. split; [by apply accounts_more; eapply accounts_same | done]. Qed.

Lemma orderly_before (m : Market.t) (g : list arrival) (a : arrival) : orderly m (g ++ [a]) -> orderly m g.
Proof. apply orderly_submseteq. by apply submseteq_inserts_r. Qed.

Lemma accounts_ids (m : Market.t) (g : list arrival) (ops : list op) (s : kv) :
  accounts m g ops s -> orderly m g -> ids (market_after ops m) ⊆ (placed m g).*1.
Proof.
  intros Ha Hg id Hid. unfold ids in Hid. apply list_elem_of_fmap in Hid as (o & -> & Hin).
  change (Order.id o) with (placement o).1. apply list_elem_of_fmap_2, (accounts_placed _ _ _ _ Ha Hg). by apply list_elem_of_fmap_2.
Qed.

(** A served script: the order joins the market if it is covered. *)
Lemma served_script (m : Market.t) (g : list arrival) (a : arrival) (o : Order.t) (l : string * Z) (s : store) (ops : list op) :
  admitted a = Some o -> orderly m (g ++ [a]) -> accounts m g ops (view s) ->
  exists ops', progress m g (g ++ [a]) ops (view (submit (o, l) s).1) ops'.
Proof.
  intros Hadm Hgo Ha. pose proof (orderly_before _ _ _ Hgo) as Hg.
  assert (omap admitted (g ++ [a]) = omap admitted g ++ [o]) as E by (rewrite omap_app; cbn; by rewrite Hadm).
  destruct Hgo as [_ Hfit Hn Hv]. rewrite E, Forall_app, Forall_singleton in Hfit. destruct Hfit as [_ Ho]. rewrite length_app in Hv. cbn in Hv.
  assert (Order.id o ∉ (placed m g).*1) as Hfresh.
  { rewrite placed_ids, E, fmap_app, (assoc_L app), <- placed_ids in Hn. apply NoDup_app in Hn as (_ & Hd & _).
    intros Hin. apply (Hd _ Hin). by left. }
  assert (Order.id o ∉ ids (market_after ops m)) as Hid by (intros Hin; by eapply Hfresh, accounts_ids).
  assert (Market.version (market_after ops m) + 1 <= i64_max - 1) as Hroom.
  { rewrite market_after_version. pose proof (sublist_length _ _ (ac_orders _ _ _ _ Ha)). pose proof (omap_short admitted g). lia. }
  pose proof Ha as [H1 H2 H3 H4].
  pose proof (submit_simulates new_v4 now plain p (o, l) s _ H3 H4 Ho Hid (version_room p _ _ H3 Hroom)) as Hs.
  destruct (submit (o, l) s) as [s' r]. destruct (covered (o, l) s); destruct Hs as [_ Hs].
  - exists (ops ++ [Submitted o]). split.
    + constructor; [| | by rewrite market_after_snoc |].
      * unfold submitted. rewrite omap_app, E. by apply sublist_app.
      * intros id [Hin | Hin]%elem_of_app; [| by apply list_elem_of_singleton in Hin].
        unfold withdrawals. rewrite omap_app, elem_of_app. left. by apply H2.
      * rewrite market_after_snoc. apply market_step_sound; [done |]. by constructor; [apply Ho | apply Ho |].
    + intros id Hin. rewrite market_after_snoc. cbn [market_op].
      intros [-> | Hx]%(ids_after new_v4 now plain p o _ (ft_taker _ _ _ Ho))%elem_of_cons; [done | exact Hx].
  - exists ops. split; [| done]. apply accounts_more. by constructor.
Qed.

(** The first step of an order. *)
Lemma order_starts (m : Market.t) (g : list arrival) (a : arrival) (f : fate) (w : process) (ops : list op) :
  (match a with Withdrawal _ _ _ _ => False | _ => True end) -> orderly m (g ++ [a]) -> accounts m g ops (view (p_kv w)) ->
  quiet (advance f (task_of a) w).2 /\ exists ops', progress m g (g ++ [a]) ops (view (p_kv (advance f (task_of a) w).1)) ops'.
Proof.
  intros Hw Hgo Ha. pose proof (od_keyed _ _ Hgo) as Hk. rewrite Forall_app, Forall_singleton in Hk.
  destruct (task_opens a (proj2 Hk) Hw) as [t Ht | o l k Hadm Hk'].
  - destruct (quiet_advance t f w Ht) as [Hs Hq]. split; [done |]. exists ops. eapply progress_more; [exact Ha |].
    apply alike_same_book. by symmetry.
  - pose proof (served_script m g a o l (p_kv w) ops Hadm Hgo Ha) as Hserved. cbn [advance].
    destruct f as [| [| n]]; (split; [apply Hk' |]); [exact Hserved | | exact Hserved].
    exists ops. by eapply progress_more.
Qed.

(** The first step of a withdrawal reads the row. *)
Lemma withdrawal_starts (m : Market.t) (g : list arrival) (at_ pg_now : datetime) (id : uuid) (user : string) (f : fate) (w : process) (now_ : Market.t) :
  let a := Withdrawal at_ pg_now id user in
  row_placed m g w a -> p_kv (advance f (task_of a) w).1 = p_kv w /\ tame m (g ++ [a]) now_ (advance f (task_of a) w).2.
Proof.
  cbn zeta. intros Hrow. cbn [task_of]. unfold cancel_one_task, ask. cbn [advance].
  destruct f as [| [| n]]; cbn [read_db fst snd]; (split; [done |]); [| apply tame_quiet; constructor..].
  destruct (order_of_user id user (p_db w)) as [r |] eqn:Er; [| apply tame_quiet; constructor].
  case_decide as Hop; [| apply tame_quiet; constructor].
  destruct (Hrow r Er Hop) as [Hp Hpl]. cbn [send remove_writes cancel_order_of Order.pair_id Order.id]. rewrite Hp.
  apply tame_leaving; [by apply placed_more | unfold withdrawals; rewrite omap_app, elem_of_app; right; by left |].
  intros [_ | err]; [| constructor].
  do 2 (apply quiet_try; [by intros w0 | intros r0; constructor | intros _]). constructor; [by intros w0 | constructor].
Qed.

(** Any later step. *)
Lemma tame_moves (m : Market.t) (g : list arrival) (t : task process) (f : fate) (w : process) (ops : list op) :
  orderly m g -> accounts m g ops (view (p_kv w)) -> tame m g (market_after ops m) t ->
  exists ops', progress m g g ops (view (p_kv (advance f t w).1)) ops' /\ tame m g (market_after ops' m) (advance f t w).2.
Proof.
  intros Hg Ha [t' Ht | id side k Hpl Hid Hk | id k Hpl Hid Hk].
  - destruct (quiet_advance t' f w Ht) as [Hs Hq]. exists ops. split; [| by apply tame_quiet].
    eapply progress_same; [exact Ha |]. apply alike_same_book. by symmetry.
  - assert (progress m g g ops (view (v_zrem (book_key p side) (uuid_to_string id) (p_kv w))) (ops ++ [Withdrawn id])) as Hz.
    { split; [| intros x _; rewrite market_after_snoc; cbn [market_op]; rewrite ids_withdraw; by intros [? _]].
      pose proof Ha as [H1 H2 H3 H4]. constructor; rewrite ?market_after_snoc; cbn [market_op].
      - unfold submitted. rewrite omap_app. cbn. by rewrite app_nil_r.
      - intros x [Hin | Hin]%elem_of_app; [by apply H2 |]. apply list_elem_of_singleton in Hin. by injection Hin as ->.
      - rewrite zrem_view. apply (zrem_represents plain p); [done | done |]. intros o Ho E. by eapply accounts_side.
      - by apply withdraw_sound. }
    cbn [advance]. destruct f as [| [| n]]; cbn [fst snd in_store p_kv].
    + exists (ops ++ [Withdrawn id]). split; [done |]. apply tame_left; [| | done].
      * change id with (id, side).1. by apply list_elem_of_fmap_2.
      * rewrite market_after_snoc. cbn [market_op]. rewrite ids_withdraw. by intros [_ ?].
    + exists ops. split; [by eapply progress_same | by apply tame_quiet].
    + exists (ops ++ [Withdrawn id]). split; [done | by apply tame_quiet].
  - assert (progress m g g ops (view (v_del (order_key id) (p_kv w))) ops) as Hd.
    { split; [| done]. pose proof Ha as [H1 H2 H3 H4]. constructor; try done. rewrite del_view. by apply del_represents. }
    cbn [advance]. exists ops. destruct f as [| [| n]]; cbn [fst snd in_store p_kv]; (split; [| by apply tame_quiet]); [done | by eapply progress_same | done].
Qed.

(** ** Every run *)

Record linearized (m : Market.t) (S : system) (ops : list op) : Prop := {
  ln_accounts : accounts m (started S) ops (view (p_kv (world S)));
  ln_tame i t : slots S !! i = Some (Running t) -> tame m (started S) (market_after ops m) t;
  ln_tasks : started S ++ waiting (slots S) ⊆+ arrived S;
}.

Lemma linearized_step (m : Market.t) (S S' : system) (ops : list op) :
  step m S S' -> orderly m (arrived S') -> linearized m S ops -> exists ops', linearized m S' ops'.
Proof.
  intros Hstep Ho [Ha Hq Ht]. destruct Hstep as [a w l h g | i a f w l h g Hi Hrow | i t f w l h g Hi | i w l h g | w' w l h g Hb];
    cbn [world slots arrived started] in *.
  - exists ops. constructor; cbn; [done | |].
    + intros i t [H | [_ H]]%lookup_app_Some; [by eapply Hq |]. by destruct (i - length l)%nat.
    + unfold waiting. rewrite omap_app, (assoc_L app). by apply submseteq_app.
  - pose proof (waiting_insert i (Waiting a) (advance f (task_of a) w).2 l Hi) as Hwt. change (waiting [Waiting a]) with [a] in Hwt.
    rewrite Hwt, (assoc_L app) in Ht.
    assert (orderly m (g ++ [a])) as Hg.
    { eapply orderly_submseteq; [| exact Ho]. etransitivity; [| exact Ht]. by apply submseteq_inserts_r. }
    assert (exists ops', progress m g (g ++ [a]) ops (view (p_kv (advance f (task_of a) w).1)) ops' /\
              tame m (g ++ [a]) (market_after ops' m) (advance f (task_of a) w).2) as (ops' & [Ha' Hmono] & Hta).
    { destruct a as [| | at_ pg id user]; [| | exists ops; destruct (withdrawal_starts m g at_ pg id user f w (market_after ops m) Hrow) as [-> Htm];
        split; [by eapply progress_more | done]];
      (lazymatch type of Hg with orderly _ (_ ++ [?a]) => destruct (order_starts m g a f w ops I Hg Ha) as (Hqa & ops' & Hp) end;
       exists ops'; split; [exact Hp | by apply tame_quiet]). }
    exists ops'. constructor; cbn; [done | | done].
    intros j t [(<- & E & _) | [_ H]]%list_lookup_insert_Some; [by injection E as <- |]. apply tame_more.
    eapply tame_market; [exact Hmono | by eapply Hq].
  - assert (orderly m g) as Hg.
    { eapply orderly_submseteq; [| exact Ho]. etransitivity; [| exact Ht]. by apply submseteq_inserts_r. }
    destruct (tame_moves m g t f w ops Hg Ha (Hq _ _ Hi)) as (ops' & [Ha' Hmono] & Hta). exists ops'. constructor; cbn; [done | |].
    + intros j t' [(<- & E & _) | [_ H]]%list_lookup_insert_Some; [by injection E as <- |]. eapply tame_market; [exact Hmono | by eapply Hq].
    + by rewrite (waiting_insert i _ (advance f t w).2 l Hi) in Ht.
  - exists ops. constructor; cbn; [done | |].
    + intros j t' [(<- & E & _) | [_ H]]%list_lookup_insert_Some; [injection E as <-; apply tame_quiet; constructor | by eapply Hq].
    + destruct (l !! i) as [s |] eqn:Hi; [| by rewrite list_insert_ge by by apply lookup_ge_None_1].
      rewrite (waiting_insert i s (Finished (Err "the process died")) l Hi) in Ht. etransitivity; [| exact Ht].
      apply submseteq_app; [done |]. by apply submseteq_inserts_l.
  - exists ops. constructor; cbn; [by eapply accounts_same | done | done].
Qed.

Lemma arrived_grows (m : Market.t) (S S' : system) : step m S S' -> arrived S ⊆+ arrived S'.
Proof. intros []; cbn; [by apply submseteq_inserts_r | done..]. Qed.


(** ** Runs as lists of events *)

Inductive event :=
| Comes (a : arrival)
| Goes (i : nat) (f : fate)
| Killed (i : nat).

#[export] Instance row_placed_dec (m : Market.t) (g : list arrival) (w : process) (a : arrival) : Decision (row_placed m g w a).
Proof.
  destruct a as [| | at_ pg id user]; [by left.. |]. cbn. destruct (order_of_user id user (p_db w)) as [r |]; [| by left].
  destruct (decide (open_status (OrderRow.status r) -> OrderRow.pair_id r = p /\ placement (cancel_order_of at_ id user r) ∈ placed m g)) as [H | H].
  - left. intros r' [= <-]. exact H.
  - right. intros Hr. apply H. by apply Hr.
Defined.

Definition perform (m : Market.t) (ev : event) (S : system) : option system :=
  let '(mk_system w l h g) := S in
  match ev with
  | Comes a => Some (mk_system w (l ++ [Waiting a]) (h ++ [a]) g)
  | Goes i f =>
      s ← l !! i;
      match s with
      | Waiting a =>
          if decide (row_placed m g w a)
          then Some (mk_system (advance f (task_of a) w).1 (<[i := Running (advance f (task_of a) w).2]> l) h (g ++ [a]))
          else None
      | Running t => Some (mk_system (advance f t w).1 (<[i := Running (advance f t w).2]> l) h g)
      end
  | Killed i => Some (mk_system w (<[i := Running (Finished (Err "the process died"))]> l) h g)
  end.

Fixpoint run (m : Market.t) (evs : list event) (S : system) : option system :=
  match evs with
  | [] => Some S
  | ev :: evs => S ← perform m ev S; run m evs S
  end.

Lemma events_step (m : Market.t) (evs : list event) (S S' : system) : run m evs S = Some S' -> rtc (step m) S S'.
Proof.
  revert S. induction evs as [| ev evs IH]; intros S H; cbn in H; [by injection H as -> |].
  destruct (perform m ev S) as [S1 |] eqn:E; [| done]. apply (rtc_l _ S S1); [| by apply IH].
  destruct S as [w l h g], ev as [a | i f | i]; cbn in E; [injection E as <-; constructor | | injection E as <-; constructor].
  destruct (l !! i) as [[a | t] |] eqn:Hi; cbn in E; [| injection E as <-; by constructor | done].
  case_decide; [| done]. injection E as <-. by constructor.
Qed.
End Traffic.

(** ** Two orders and a cancellation at once *)

Module TrafficExamples.
Import RefCrates RefValkey RefJson RefDb EngineExamples MatchLuaExamples RefineExamples OrderFlowExamples ConsumersExamples MarketExamples.

(** The sale of one coin, which finds no bid and does not rest. *)
Definition sale : Json :=
  object [("id", JStr "2"); ("user_id", JStr "taker"); ("pair_id", JStr "BTC-USDT"); ("side", JStr "Sell");
          ("order_type", JStr "Limit"); ("tif", JStr "IOC"); ("price", d_str 102); ("quantity", d_str 1)].

Definition purchase : arrival := Queued state 0%nat 0 env good.
Definition selling : arrival := Inline state env sale.

(** The maker takes the second ask back. *)
Definition regret : arrival := Withdrawal (0 : @datetime ref_crates) (0 : @datetime ref_crates) (12%positive : @uuid ref_crates) "maker".

Definition ask_row : @OrderRow.t ref_crates :=
  OrderRow.mk "maker" "BTC-USDT" "Sell" "Limit" "GTC" (Some 101%Q) 2%Q 2%Q "New" "None" 1 1
    (0 : @datetime ref_crates) (0 : @datetime ref_crates) None None None None.

(** The row is read; the sale arrives after the purchase, is served before it, and its
    answer is lost; the purchase takes one ask and part of the other; the rest of that
    leaves the book, and the worker dies with its hash still there. *)
Definition schedule : list event :=
  (Comes <$> [purchase; selling; regret]) ++
  [Goes 2 Answered; Goes 1 (Broken 1); Goes 0 Answered; Goes 2 Answered; Killed 0; Killed 2].

Definition before : @process ref_crates ref_valkey :=
  mk_process ref_crates ref_valkey market
    (mk_db ref_crates {[ (12%positive : @uuid ref_crates) := ask_row ]} ∅ ∅ 2 1) idle_worker.

(** The asks in the book, and whether the hash of the second is there. *)
Definition asks_left (w : @process ref_crates ref_valkey) : nat * bool :=
  (base.size (zset (view (p_kv w)) (book_key "BTC-USDT" Sell)), bool_decide (base.size (hash (view (p_kv w)) "order:12") <> 0%nat)).

Definition at_once := run "BTC-USDT" false (fun _ => Sent) two_sided schedule (begin before).

Example asks_taken : asks_left before = (2%nat, true) /\ (fun S => (asks_left (world S), length (started S))) <$> at_once = Some ((0%nat, true), 3%nat).
Proof. split; vm_compute; reflexivity. Qed.

Lemma state_keyed (pair : string) (keys : PairKeys.t) : WorkerState.pair_keys state !! pair = Some keys -> keys = PairKeys.new pair.
Proof. cbn. unfold keys_of_pairs. rewrite map_lookup_imap. by destruct (_ !! pair); intros [= <-]. Qed.

Definition sold : @Order.t ref_crates :=
  Order.mk (2%positive : @uuid ref_crates) "taker" "BTC-USDT" Sell Limit IOC (Some (102 : @decimal ref_crates)%Q)
    (1 : @decimal ref_crates)%Q (1 : @decimal ref_crates)%Q New Stp.None 1 0 (0 : @datetime ref_crates)
    (1 : @datetime ref_crates) None (Some (0 : @datetime ref_crates)) None None.

Lemma arrivals_admitted : omap admitted [purchase; selling; regret] = [the_order GTC; sold].
Proof. reflexivity. Qed.

Lemma arrivals_orderly : orderly everyone "BTC-USDT" two_sided [purchase; selling; regret].
Proof.
  constructor; [| rewrite arrivals_admitted | rewrite placed_ids, arrivals_admitted | vm_compute; discriminate].
  - do 2 (apply Forall_cons_2; [exact state_keyed |]). by apply Forall_singleton.
  - repeat apply Forall_cons_2; [.. | apply Forall_nil_2];
      (constructor; [| done | done]; constructor;
       [by vm_compute | by vm_compute | done | by vm_compute | left; eexists; (split; [done |]); by vm_compute
       | first [by left | by right]]).
  - apply (bool_decide_unpack _). vm_compute. exact I.
Qed.

Lemma in_time : (fun S => (arrived S, started S)) <$> at_once = Some ([purchase; selling; regret], [regret; selling; purchase]).
Proof. reflexivity. Qed.

End TrafficExamples.
