(* ===== verification/Crashes.v ===== *)
(** * Consumers and processes that fail

    The worker's queue consumers over connections that break and in a process that
    may die, and the whole exchange with every operation over such connections.  A
    pop whose answer is lost takes its message off the queue for good; so does the
    death of the process with the messages it holds. *)

From S2P Require Import Prelude Numbers Externals Fixed Types Codec Valkey Book MatchLua MatchLuaExamples Json Db Persist PersistProps.
From S2P Require Import Views Metrics Ws OrderFlow OrderFlowExamples Cancel Consumers ConsumersProps Gateway GatewayProps Background BackgroundProps Rows System Dispatch.
From S2P Require Import Router RouterProps Faults FaultsProps.

Open Scope Z_scope.

(** ** A failing consumer *)

(** The channels of a worker that has just started. *)
Definition fresh_worker `{C : Crates} : worker := mk_worker MetricsBatch.new [] [] [] [].

(** A consumer and the messages lost on the way. *)
Record failing `{C : Crates, V : Valkey} : Type := mk_failing {
  fl_consumer : Consumer.t;
  fl_lost : list string;
}.

Arguments mk_failing {C V} fl_consumer fl_lost.

Section Failing.
Context `{C : Crates, X : !Sqlx C, V : Valkey, J : SerdeJson}.
Context (st : WorkerState.t) (k : kind) (pair : option string).

(** The task of one message over a link. *)
Definition handle_net (link : nat -> fate) (x : input) (m : string) (w : process) : process * result unit :=
  match k with
  | Orders =>
      let '((s, wk), r) := left (process_queued_order_net link st (in_subscribers x) (in_lua_ms x) (in_env x) m 0%nat
                                   (p_kv w, p_worker w)) in
      (mk_process C V s (p_db w) wk, r)
  | Cancellations =>
      let wk := p_worker w in
      let '(c, r) := left (process_cancellation_net link (Env.clock (in_env x) 0%nat) (Env.pg_now (in_env x)) m 0%nat
                             (mk_cstate C V (p_kv w) (p_db w) (wk_dirty_users wk))) in
      (mk_process C V (cs_kv c) (cs_db c)
         (mk_worker (wk_metrics wk) (cs_dirty c) (wk_persist wk) (wk_dirty_books wk) (wk_events wk)), r)
  end.

Inductive failing_event :=
| Works (ev : event)
| PopFails (served : nat)
| TaskFails (i : nat) (link : nat -> fate) (x : input)
| Dies.

(** A failed BRPOP reconnects; a failed pop of the drain ends it. *)
Definition pop_fails (served : nat) (c : failing) : option failing :=
  let k0 := fl_consumer c in
  let '(s, taken) := match served with
                     | O => (p_kv (Consumer.world k0), None)
                     | S _ => v_rpop (queue_key k pair) (p_kv (Consumer.world k0))
                     end in
  let go p := Some (mk_failing (Consumer.mk p (Consumer.in_flight k0) (set_kv s (Consumer.world k0)) (Consumer.arrived k0)
                                  (Consumer.started k0) (Consumer.finished k0))
                      (fl_lost c ++ option_list taken)) in
  match Consumer.phase k0 with
  | Waiting => go Waiting
  | Draining batch (S _) => go (Spawning batch)
  | _ => None
  end.

Definition task_fails (i : nat) (link : nat -> fate) (x : input) (c : failing) : option failing :=
  let k0 := fl_consumer c in
  m ← Consumer.in_flight k0 !! i;
  let '(w, r) := handle_net link x m (Consumer.world k0) in
  Some (mk_failing (Consumer.mk (Consumer.phase k0) (delete i (Consumer.in_flight k0)) w (Consumer.arrived k0)
                      (Consumer.started k0) (Consumer.finished k0 ++ [(m, r)])) (fl_lost c)).

(** The process dies and is started again: what it held is gone. *)
Definition dies (c : failing) : failing :=
  let k0 := fl_consumer c in
  mk_failing (Consumer.mk Waiting [] (mk_process C V (p_kv (Consumer.world k0)) (p_db (Consumer.world k0)) fresh_worker)
                (Consumer.arrived k0) (Consumer.started k0) (Consumer.finished k0))
    (fl_lost c ++ batch_of (Consumer.phase k0) ++ Consumer.in_flight k0).

Definition failing_consumer_step (ev : failing_event) (c : failing) : option failing :=
  match ev with
  | Works ev => c' ← step st k pair ev (fl_consumer c); Some (mk_failing c' (fl_lost c))
  | PopFails served => pop_fails served c
  | TaskFails i link x => task_fails i link x c
  | Dies => Some (dies c)
  end.

Fixpoint failing_run (evs : list failing_event) (c : failing) : option failing :=
  match evs with
  | [] => Some c
  | ev :: evs => c ← failing_consumer_step ev c; failing_run evs c
  end.
End Failing.

(** ** What failures leave of the queue *)

Section Kept.
Context `{C : Crates, X : !Sqlx C, V : Valkey, VL : !ValkeyLaws V, J : SerdeJson}.
Context (key : string) (link : nat -> fate) (not_order : forall x, order_key_str x <> key).

(** The list at [key] seen in a larger state. *)
Definition keeps_list {W} (f : W -> store) (w w' : W) : Prop := list_kept key (f w) (f w').

#[local] Instance keeps_list_preorder {W} (f : W -> store) : PreOrder (keeps_list f).
Proof. unfold keeps_list, list_kept. split; [by intros w | intros a b c H1 H2; congruence]. Qed.

Lemma queued_order_leaves (st : WorkerState.t) (subs : nat) (ms : Z) (e : Env.t) (m : string) :
  leaves (keeps_list (fst (B := worker))) (process_queued_order_net link st subs ms e m).
Proof.
  apply leaves_seq; [apply _ | apply leaves_lift; apply _ |]. intros [o l].
  assert (leaves (keeps_list (fst (B := worker)))
            (keys ← lift (ok_or (WorkerState.pair_keys st !! Order.pair_id o) ("unknown pair_id: " +:+ Order.pair_id o));
             r ← exchange link (on_kv (match_order_lua o keys l.1 l.2));
             act (fun w => (w.1, hand_on subs e (matched o (Env.clock e 2%nat) r) r ms w.2)))) as Hm.
  { apply leaves_seq; [apply _ | apply leaves_lift; apply _ |]. intros keys. apply leaves_seq; [apply _ | |].
    - apply leaves_exchange; [apply _ |]. intros w. by apply match_order_lua_kept.
    - intros r. by apply leaves_act. }
  destruct (Order.tif o); [exact Hm | exact Hm |]. apply leaves_act. intros w. unfold keeps_list. cbn [fst].
  unfold update_order_cache_after_processing. cbn zeta. case_cond; [done | apply set_kept].
Qed.

Lemma cancel_one_net_kept (now pg_now : datetime) (id : uuid) (user : string) :
  leaves (keeps_list cs_kv) (cancel_one_net link now pg_now id user).
Proof.
  apply leaves_seq; [apply _ | apply leaves_query; apply _ |]. intros [r |]; [| apply leaves_ret; apply _].
  case_decide; [| apply leaves_ret; apply _]. apply leaves_seq; [apply _ | | intros _].
  { apply leaves_pipeline; [apply _ |]. unfold remove_commands. intros c w Hc. unfold keeps_list.
    apply elem_of_cons in Hc as [-> | ->%list_elem_of_singleton]; [apply zrem_kept | apply del_kept, not_order]. }
  apply leaves_seq; [apply _ | by apply leaves_command; [apply _ |] | intros _].
  destruct (cancel_release r) as [asset amount].
  apply leaves_seq; [apply _ | by apply leaves_command; [apply _ |] | intros _; by apply leaves_act].
Qed.

Context (not_orders : forall x, "queue:orders" +:+ x <> key).

Lemma cancellation_net_kept (now pg_now : datetime) (m : string) :
  leaves (keeps_list cs_kv) (process_cancellation_net link now pg_now m).
Proof.
  assert (forall j, leaves (keeps_list cs_kv) (cancel_branch_net link now pg_now j)) as Hb.
  { intros j. apply leaves_seq; [apply _ | apply leaves_lift; apply _ |]. intros x. apply cancel_one_net_kept. }
  assert (forall id user, leaves (keeps_list cs_kv) (cancel_again_net link now pg_now id user)) as Ha.
  { intros id user. apply leaves_seq; [apply _ | apply leaves_lift; apply _ | apply Hb]. }
  apply leaves_seq; [apply _ | apply leaves_lift; apply _ |]. intros j. cbn beta zeta.
  case_decide; [apply Hb | case_decide; [| case_decide; [| apply leaves_ret; apply _]]].
  - apply leaves_seq; [apply _ | apply leaves_lift; apply _ |]. intros id.
    apply leaves_seq; [apply _ | apply Ha |]. intros _. destruct (get "new_order" j) as [o |]; [| apply leaves_ret; apply _].
    apply leaves_command; [apply _ |]. intros w. apply lpush_kept.
    destruct (get_str "pair_id" o) as [p |]; [apply (not_orders (":" +:+ p)) | apply (not_orders "")].
  - apply leaves_seq; [apply _ | apply leaves_query; apply _ |]. intros ids. induction ids as [| id ids IH]; [apply leaves_ret; apply _ |].
    apply leaves_seq; [apply _ | apply leaves_ignored, Ha | by intros _].
Qed.
End Kept.

(** ** Nothing is processed twice *)

Section AtMostOnce.
Context `{C : Crates, X : !Sqlx C, V : Valkey, VL : !ValkeyLaws V, J : SerdeJson}.
Context (st : WorkerState.t) (k : kind) (pair : option string).

Abbreviation step := (step st k pair).
Abbreviation waiting := (waiting k pair).

(** What is recorded of the past does not influence the consumer. *)
Definition with_past (a s : list string) (f : list (string * result unit)) (c : Consumer.t) : Consumer.t :=
  Consumer.mk (Consumer.phase c) (Consumer.in_flight c) (Consumer.world c) (a ++ Consumer.arrived c)
    (s ++ Consumer.started c) (f ++ Consumer.finished c).

Lemma step_past (a s : list string) (f : list (string * result unit)) (ev : event) (c : Consumer.t) :
  step ev (with_past a s f c) = with_past a s f <$> step ev c.
Proof.
  destruct ev as [| | | i x | ms w], c as [p fl w0 a0 s0 f0]; cbn.
  - destruct p; try done. unfold brpop. cbn. by destruct (v_rpop _ _) as [s1 [m |]].
  - destruct p as [| batch more |]; try done. unfold drain. cbn. destruct more; [done |]. by destruct (v_rpop _ _) as [s1 [m |]].
  - destruct p as [| | batch]; try done. unfold spawn. cbn. destruct batch; [done |]. case_cond; [| done].
    unfold with_past. cbn. by rewrite (assoc_L app).
  - unfold finish_task. cbn. destruct (fl !! i); [| done]. destruct (handle _ _ _ _ _). unfold with_past. cbn. by rewrite (assoc_L app).
  - unfold others. cbn. case_decide; [| done]. unfold with_past. cbn. by rewrite (assoc_L app).
Qed.

Lemma run_past (a s : list string) (f : list (string * result unit)) (evs : list event) (c : Consumer.t) :
  run st k pair evs (with_past a s f c) = with_past a s f <$> run st k pair evs c.
Proof.
  revert c. induction evs as [| ev evs IH]; intros c; [done |]. cbn [run]. rewrite step_past.
  destruct (step ev c) as [c1 |]; [apply IH | done].
Qed.

(** The consumer as it stands, with nothing behind it but its tasks in flight. *)
Definition stripped (c : Consumer.t) : Consumer.t := Consumer.mk (Consumer.phase c) (Consumer.in_flight c) (Consumer.world c) [] [] [].

Definition rebased (c : Consumer.t) : Consumer.t := with_past [] (Consumer.in_flight c) [] (stripped c).

Lemma stripped_past (c : Consumer.t) : with_past (Consumer.arrived c) (Consumer.started c) (Consumer.finished c) (stripped c) = c.
Proof. destruct c. unfold with_past. cbn. by rewrite !app_nil_r. Qed.

(** Every message is in one place, tasks start in queue order, and there is room. *)
Record placed (q0 : list string) (c : failing) : Prop := {
  pl_place : (Consumer.finished (fl_consumer c)).*1 ++ Consumer.in_flight (fl_consumer c) ++ batch_of (Consumer.phase (fl_consumer c))
             ++ waiting (Consumer.world (fl_consumer c)) ++ fl_lost c ≡ₚ q0 ++ Consumer.arrived (fl_consumer c);
  pl_order : Consumer.started (fl_consumer c) ++ batch_of (Consumer.phase (fl_consumer c)) ++ waiting (Consumer.world (fl_consumer c))
             `sublist_of` q0 ++ Consumer.arrived (fl_consumer c);
  pl_permits : (length (Consumer.in_flight (fl_consumer c)) <= permits k)%nat;
  pl_batch : batch_room k (Consumer.phase (fl_consumer c));
}.

Lemma rebased_accounted (q0 : list string) (c : failing) :
  placed q0 c ->
  accounted k pair (Consumer.in_flight (fl_consumer c) ++ batch_of (Consumer.phase (fl_consumer c)) ++ waiting (Consumer.world (fl_consumer c)))
    (rebased (fl_consumer c)).
Proof.
  intros [_ _ Hp Hb]. constructor; cbn; try done; rewrite ?app_nil_r; done.
Qed.

Lemma works_placed (q0 : list string) (ev : event) (c : failing) (c' : Consumer.t) :
  step ev (fl_consumer c) = Some c' -> placed q0 c -> placed q0 (mk_failing c' (fl_lost c)).
Proof.
  intros E Hpl. pose proof (rebased_accounted q0 c Hpl) as Ha. destruct Hpl as [Hp Ho Hn Hb].
  destruct c as [c lost]. cbn [fl_consumer fl_lost] in *.
  rewrite <- (stripped_past c), step_past in E. apply fmap_Some in E as (c1 & E1 & ->).
  assert (step ev (rebased c) = Some (with_past [] (Consumer.in_flight c) [] c1)) as E2 by (unfold rebased; by rewrite step_past, E1).
  destruct (step_accounted st k pair _ ev _ _ E2 Ha) as [[Ho' Ht' Hn' Hb'] _]. clear E1 E2 Ha. cbn in *. constructor; cbn; try done.
  - rewrite fmap_app.
    transitivity ((Consumer.finished c).*1 ++ ((Consumer.in_flight c ++ Consumer.started c1) ++ batch_of (Consumer.phase c1)
                     ++ waiting (Consumer.world c1)) ++ lost); [rewrite <- Ht'; by rewrite <- !(assoc_L app) |].
    rewrite Ho'. transitivity (((Consumer.finished c).*1 ++ Consumer.in_flight c ++ batch_of (Consumer.phase c)
                                 ++ waiting (Consumer.world c) ++ lost) ++ Consumer.arrived c1); [| by rewrite Hp, <- (assoc_L app)].
    rewrite <- !(assoc_L app). do 4 apply Permutation_app_head. apply Permutation_app_comm.
  - rewrite <- !(assoc_L app) in Ho'. apply app_inv_head in Ho'. rewrite <- !(assoc_L app), Ho', !(assoc_L app).
    apply sublist_app; [by rewrite <- !(assoc_L app) in * | done].
Qed.

(** A failed pop loses at most one message. *)
Lemma pop_fails_placed (q0 : list string) (served : nat) (c c' : failing) :
  pop_fails k pair served c = Some c' -> placed q0 c ->
  placed q0 c' /\ (length (fl_lost c') <= length (fl_lost c) + min 1 served)%nat.
Proof.
  intros E [Hp Ho Hn Hb]. unfold pop_fails in E. cbn zeta in E.
  assert (exists s taken, match served with
                          | O => (p_kv (Consumer.world (fl_consumer c)), None)
                          | S _ => v_rpop (queue_key k pair) (p_kv (Consumer.world (fl_consumer c)))
                          end = (s, taken) /\
            waiting (Consumer.world (fl_consumer c)) = option_list taken ++ waiting (set_kv s (Consumer.world (fl_consumer c))) /\
            (length (option_list taken) <= min 1 served)%nat) as (s & taken & Eq & Hw & Hl).
  { destruct served as [| served]; [eexists _, None; split_and!; [reflexivity | by destruct (Consumer.world _) | done] |].
    pose proof (rpop_waiting k pair (Consumer.world (fl_consumer c))) as Hr.
    destruct (v_rpop _ _) as [s1 [m |]]; eexists _, _; (split; [reflexivity |]); (split; [| destruct served; cbn; lia]); [done | by destruct Hr as [-> ->]]. }
  rewrite Eq in E. clear Eq. rewrite Hw in Hp, Ho.
  assert (forall p, batch_of p = batch_of (Consumer.phase (fl_consumer c)) -> batch_room k p ->
            let c1 := mk_failing (Consumer.mk p (Consumer.in_flight (fl_consumer c)) (set_kv s (Consumer.world (fl_consumer c)))
                                    (Consumer.arrived (fl_consumer c)) (Consumer.started (fl_consumer c)) (Consumer.finished (fl_consumer c)))
                        (fl_lost c ++ option_list taken) in
            placed q0 c1 /\ (length (fl_lost c1) <= length (fl_lost c) + min 1 served)%nat) as Hgo.
  { intros p Ep Hr. cbn zeta. split; [constructor; cbn; rewrite ?Ep; try done | cbn [fl_lost]; rewrite length_app; lia].
    - rewrite <- Hp. do 3 apply Permutation_app_head.
      rewrite (Permutation_app_comm (option_list taken)), <- (assoc_L app). apply Permutation_app_head, Permutation_app_comm.
    - etransitivity; [| exact Ho]. do 2 (apply sublist_app; [done |]). by apply sublist_inserts_l. }
  destruct (Consumer.phase (fl_consumer c)) as [| batch [| more] | batch]; try done; injection E as <-; apply Hgo; try done.
  cbn in *. lia.
Qed.

Lemma handle_net_waiting (link : nat -> fate) (x : input) (m : string) (w : process) :
  waiting (handle_net st k link x m w).1 = waiting w.
Proof.
  unfold waiting. f_equal. pose proof (queue_not_order k pair) as Hq. destruct k; cbn [handle_net].
  - pose proof (queued_order_leaves (queue_key Orders pair) link Hq st (in_subscribers x) (in_lua_ms x) (in_env x) m 0%nat
                  (p_kv w, p_worker w)) as H.
    unfold left. by destruct (process_queued_order_net _ _ _ _ _ _ _ _) as [[n [s wk]] r].
  - pose proof (cancellation_net_kept (queue_key Cancellations pair) link Hq ltac:(by intros y)
                  (Env.clock (in_env x) 0%nat) (Env.pg_now (in_env x)) m 0%nat
                  (mk_cstate C V (p_kv w) (p_db w) (wk_dirty_users (p_worker w)))) as H.
    unfold left. by destruct (process_cancellation_net _ _ _ _ _ _) as [[n c] r].
Qed.

Lemma task_fails_placed (q0 : list string) (i : nat) (link : nat -> fate) (x : input) (c c' : failing) :
  task_fails st k i link x c = Some c' -> placed q0 c -> placed q0 c' /\ fl_lost c' = fl_lost c.
Proof.
  intros E [Hp Ho Hn Hb]. unfold task_fails in E. cbn zeta in E.
  destruct (Consumer.in_flight (fl_consumer c) !! i) as [m |] eqn:Em; [| done]. cbn [mbind option_bind] in E.
  pose proof (handle_net_waiting link x m (Consumer.world (fl_consumer c))) as Hw.
  destruct (handle_net st k link x m _) as [w r]. injection E as <-. cbn [fst] in Hw. split; [| done].
  pose proof (length_delete _ _ (mk_is_Some _ _ Em)) as Hl. pose proof (lookup_lt_Some _ _ _ Em) as Hi.
  constructor; cbn; rewrite ?Hw; try done; [| lia].
  rewrite fmap_app, <- Hp, <- (assoc_L app). apply Permutation_app_head. cbn.
  by rewrite (delete_Permutation _ _ _ Em) at 2.
Qed.

Lemma dies_placed (q0 : list string) (c : failing) :
  placed q0 c ->
  placed q0 (dies c) /\ (length (fl_lost (dies c)) <= length (fl_lost c) + (S (extra k) + permits k))%nat.
Proof.
  intros [Hp Ho Hn Hb]. unfold dies. split.
  - constructor; cbn; [| | lia | done].
    + rewrite <- Hp. apply Permutation_app_head. change (waiting (mk_process C V (p_kv (Consumer.world (fl_consumer c)))
        (p_db (Consumer.world (fl_consumer c))) fresh_worker)) with (waiting (Consumer.world (fl_consumer c))).
      rewrite (assoc_L app (waiting _) (fl_lost c)), (Permutation_app_comm (waiting _ ++ fl_lost c)).
      rewrite (Permutation_app_comm (batch_of _)). by rewrite <- !(assoc_L app).
    + etransitivity; [| exact Ho]. apply sublist_app; [done |]. by apply sublist_inserts_l.
  - cbn. rewrite !length_app. destruct (Consumer.phase (fl_consumer c)); cbn in *; lia.
Qed.

(** What an event may lose. *)
Definition toll (ev : failing_event) : nat :=
  match ev with
  | PopFails served => min 1 served
  | Dies => S (extra k) + permits k
  | _ => 0
  end.

Lemma failing_step_placed (q0 : list string) (ev : failing_event) (c c' : failing) :
  failing_consumer_step st k pair ev c = Some c' -> placed q0 c ->
  placed q0 c' /\ (length (fl_lost c') <= length (fl_lost c) + toll ev)%nat.
Proof.
  intros E Hc. destruct ev as [ev | served | i link x |]; cbn [failing_consumer_step toll] in *.
  - apply bind_Some in E as (c1 & E & [= <-]). split; [by eapply works_placed | cbn; lia].
  - by eapply pop_fails_placed.
  - destruct (task_fails_placed q0 i link x c c' E Hc) as [H ->]. split; [done | lia].
  - injection E as <-. by apply dies_placed.
Qed.

Lemma failing_run_placed (q0 : list string) (evs : list failing_event) (c c' : failing) :
  failing_run st k pair evs c = Some c' -> placed q0 c ->
  placed q0 c' /\ (length (fl_lost c') <= length (fl_lost c) + sum_list_with toll evs)%nat.
Proof.
  revert c. induction evs as [| ev evs IH]; intros c E Hc; cbn in E.
  - injection E as <-. split; [done | cbn; lia].
  - apply bind_Some in E as (c1 & E1 & E). destruct (failing_step_placed q0 ev c c1 E1 Hc) as [H1 L1].
    destruct (IH c1 E H1) as [H2 L2]. split; [done | cbn; lia].
Qed.

Definition failing_start (w : process) : failing := mk_failing (consumer w) [].

Lemma start_placed (w : process) : placed (waiting w) (failing_start w).
Proof. constructor; cbn; rewrite ?app_nil_r; try done. lia. Qed.

(** C21: over connections that break and in a process that dies, the consumer takes a
    message at most once: each is processed, in flight, in the batch, still queued or
    lost, tasks start in queue order, and only a pop without an answer or the death
    of the process loses messages, one or what the consumer held; once the failures
    stop it processes everything that is not lost. *)
Theorem consumer_at_most_once (w : process) (evs : list failing_event) (c : failing) (x : input)
    (Hrun : failing_run st k pair evs (failing_start w) = Some c) :
  placed (waiting w) c /\
  (length (fl_lost c) <= sum_list_with toll evs)%nat /\
  exists own_evs c', forallb own own_evs = true /\ run st k pair own_evs (fl_consumer c) = Some c' /\
    (Consumer.finished c').*1 ++ fl_lost c ≡ₚ waiting w ++ Consumer.arrived (fl_consumer c).
Proof.
  destruct (failing_run_placed _ _ _ _ Hrun (start_placed w)) as [Hc Hl]. split_and!; [done | done |].
  pose proof (rebased_accounted _ _ Hc) as Ha. destruct c as [c lost]. cbn [fl_consumer fl_lost] in *.
  destruct (can_finish st k pair _ x _ (rebased c) (le_n _) Ha) as (oevs & c2 & Hown & Hr & Hi).
  destruct (run_accounted _ _ _ _ _ _ _ Hr Ha) as [Ha2 _]. pose proof (idle_finished k pair _ c2 Hi Ha2) as Hf.
  rewrite (own_arrived _ _ _ _ _ _ Hown Hr) in Hf. cbn in Hf. rewrite app_nil_r in Hf.
  unfold rebased in Hr. rewrite run_past in Hr. apply fmap_Some in Hr as (c1 & Hr & ->). cbn in Hf.
  exists oevs, (with_past (Consumer.arrived c) (Consumer.started c) (Consumer.finished c) c1). split_and!; [done | |].
  - rewrite <- (stripped_past c) at 1. by rewrite run_past, Hr.
  - cbn. rewrite fmap_app, Hf. rewrite <- (pl_place _ _ Hc). cbn. by rewrite <- !(assoc_L app).
Qed.
End AtMostOnce.
