(* ===== verification/Outages.v ===== *)
(** * The exchange through outages

    Every operation of the gateway and of the worker over connections that break,
    the death and the start of either process, interleaved with everything else;
    and how the gateway's cached documents catch up with what it missed. *)

From S2P Require Import Prelude Numbers Externals Fixed Types Codec Valkey Book MatchLua MatchLuaExamples Json Db Persist PersistProps.
From S2P Require Import Views Metrics Ws OrderFlow OrderFlowExamples Cancel Consumers ConsumersProps Gateway GatewayProps Background BackgroundProps Rows System Dispatch.
From S2P Require Import Sockets SocketsProps Router RouterProps Faults FaultsProps Crashes.

Open Scope Z_scope.

Section Outages.
Context `{C : Crates, L : !CratesLaws C, X : !Sqlx C, XL : !SqlxLaws C L X, V : Valkey, VL : !ValkeyLaws V, J : SerdeJson, A : Axum, AL : !AxumLaws A}.
Context (asked : uuid -> Q).
Context (ws_endpoint : bool) (answer : post -> PostResult) (mode : DispatchMode).
Context (pairs : list PairRow.t) (seed_rows : db -> list seed_row).
Context (decimal_of_json : Json -> option decimal) (migrations : db -> result db).
Context (execute : string -> db -> result (db * Z)) (fetch_all : string -> db -> result (db * list (list (string * cell)))).
Context (Hpairs : map_Forall (fun _ => sane_pair) (load_pairs_cache pairs)).
Context (st : WorkerState.t) (Hst : map_Forall (fun _ => sane_pair) (WorkerState.pairs_cache st)).

Abbreviation exchange_step :=
  (exchange_step asked ws_endpoint answer mode pairs seed_rows decimal_of_json migrations execute fetch_all st).

Implicit Types (g : service) (wk : worker) (link : nat -> fate).

(** One step of the exchange, or of an operation cut short, or a process that dies
    or starts. *)
Inductive outage_step : service * worker -> service * worker -> Prop :=
| out_none x x' : exchange_step x x' -> outage_step x x'
| out_inline link n st' e payload g wk :
    sv_worker g = Some st' ->
    (forall o, read_order e payload = Ok o -> (dval (Order.quantity o) == asked (Order.id o))%Q) ->
    outage_step (g, wk) (set_world (left (process_order_net link ws_endpoint answer st' e payload n (sv_kv g, sv_db g))).1 g, wk)
| out_task k link x m g wk :
    names_orders asked (in_env x) m ->
    let w' := (handle_net st k link x m (mk_process C V (sv_kv g) (sv_db g) wk)).1 in
    outage_step (g, wk) (set_world (p_kv w', p_db w') g, p_worker w')
| out_batch link n now pg_now g wk n' w' :
    persist_round_net link now pg_now n (mk_process C V (sv_kv g) (sv_db g) wk) = Some (n', w') ->
    outage_step (g, wk) (set_world (p_kv w', p_db w') g, p_worker w')
| out_alone link n now pg_now pre job post g wk :
    wk_persist wk = pre ++ job :: post ->
    outage_step (g, wk) (set_world (sv_kv g, (left (process_persist_job_net link now pg_now job n (sv_db g))).1) g, set_jobs (pre ++ post) wk)
| out_worker_dies g wk : outage_step (g, wk) (g, fresh_worker)
| out_worker_starts rows pg_now g wk ps ps' w :
    start rows pg_now id (ps, sv_db g) (sv_kv g) = Some (ps', w) -> outage_step (g, wk) (set_world w g, wk)
| out_gateway_dies now g wk :
    outage_step (g, wk) (mk_service None (sv_kv g) (sv_db g) (new_broadcasts now) ∅, wk).

(** A fold over an optional state that stops at the first failure. *)
Lemma foldl_strict {S B} (R : relation S) `{!PreOrder R} (h : option S -> B -> option S) (l : list B) (s s' : S) :
  (forall b, h None b = None) -> (forall b s s', h (Some s) b = Some s' -> R s s') ->
  foldl h (Some s) l = Some s' -> R s s'.
Proof.
  intros Hn Hs. revert s. induction l as [| b l IH]; intros s H; cbn in H; [by injection H as <- |].
  destruct (h (Some s) b) as [s1 |] eqn:E; [etransitivity; [by eapply Hs | by apply IH] |].
  exfalso. clear IH E. induction l as [| b' l IH]; [done |]. cbn in H. rewrite Hn in H. by apply IH.
Qed.

Lemma foldl_none {S B} (h : option S -> B -> option S) (l : list B) : (forall b, h None b = None) -> foldl h None l = None.
Proof. intros Hn. induction l as [| b l IH]; [done |]. cbn. by rewrite Hn. Qed.

(** The start changes balances and nothing else of the database. *)
Lemma start_statements (rows : list seed_row) (pg_now : datetime) (ps ps' : list PairRow.t) (d : db) (s : store) (w : store * db) :
  start rows pg_now id (ps, d) s = Some (ps', w) -> statements asked d w.2.
Proof.
  unfold start. intros H. apply bind_Some in H as ([ps1 d1] & Hs & H). cbn in H. injection H as _ <-. cbn [snd].
  unfold run_seed in Hs. apply bind_Some in Hs as (ps2 & _ & Hs). apply bind_Some in Hs as (d2 & Hd & Hs). injection Hs as _ <-.
  pose proof (by_statements_preorder asked (W := db) (fun x => x)) as HR. cbn [snd] in Hd.
  refine (foldl_strict (statements asked) _ _ _ _ _ _ Hd); [intros i; by apply foldl_none |].
  intros i da db. apply (foldl_strict (statements asked)); [done |]. intros row dc dd E.
  cbn [mbind option_bind] in E. apply bind_Some in E as (a & _ & E). injection E as <-. apply stmts_balances.
Qed.

(** ** The exchange stays sound *)

Lemma kept_by_statements (w : store * db) g wk wk' :
  statements asked (sv_db g) w.2 -> Forall (job_ok asked) (wk_persist wk') -> exchange_ok asked (g, wk) ->
  exchange_ok asked (set_world w g, wk') /\ trades (sv_db g) ⊆ trades (sv_db (set_world w g)).
Proof.
  intros Hs Hj [Hg _]. destruct (keeps_statements asked g (set_world w g) Hs eq_refl Hg) as [Hg' Ht]. by split.
Qed.

Lemma inline_statements (link : nat -> fate) (n : nat) (st' : WorkerState.t) (e : Env.t) (payload : Json) (w : store * db) :
  map_Forall (fun _ => sane_pair) (WorkerState.pairs_cache st') ->
  (forall o, read_order e payload = Ok o -> (dval (Order.quantity o) == asked (Order.id o))%Q) ->
  statements asked w.2 (left (process_order_net link ws_endpoint answer st' e payload n w)).1.2.
Proof.
  intros Hsane Hn. destruct (pa_world _ _ _ (failing_order_partial link ws_endpoint answer st' e payload n w)) as [[_ <-] | [_ [-> | ->]]];
    [apply rtc_refl | apply rtc_refl | by apply stmts_process_order].
Qed.

Lemma task_statements (k : kind) (link : nat -> fate) (x : input) (m : string) (w : process) :
  names_orders asked (in_env x) m -> Forall (job_ok asked) (wk_persist (p_worker w)) ->
  let w' := (handle_net st k link x m w).1 in
  statements asked (p_db w) (p_db w') /\ Forall (job_ok asked) (wk_persist (p_worker w')).
Proof.
  intros Hn Hj. cbn zeta. destruct k; cbn [handle_net].
  - pose proof (failing_queued_order link st (in_subscribers x) (in_lua_ms x) (in_env x) m 0 (p_kv w) (p_worker w)) as H. cbn zeta in H.
    destruct (left _) as [[s wk] r]. cbn [fst snd p_db p_worker] in *. split; [apply rtc_refl |]. destruct H as [-> | ->]; [done |].
    destruct (process_queued_order _ _ _ _ _ _ _) as [[s' wk'] r'] eqn:E. cbn [fst snd].
    apply (queued_order_job asked st Hst) in E as [-> | (job & -> & Hok)]; [done | | done]. apply Forall_app. split; [done | by constructor].
  - pose proof (cancellation_leaves asked link (Env.clock (in_env x) 0%nat) (Env.pg_now (in_env x)) m 0%nat
      (mk_cstate C V (p_kv w) (p_db w) (wk_dirty_users (p_worker w)))) as H.
    unfold left. destruct (process_cancellation_net _ _ _ _ _ _) as [[n' c] r]. by split.
Qed.

Lemma outage_step_ok (x x' : service * worker) :
  outage_step x x' -> exchange_ok asked x -> exchange_ok asked x' /\ trades (sv_db x.1) ⊆ trades (sv_db x'.1).
Proof.
  intros H Hx. destruct H as [x x' H | link n st' e payload g wk Hw Hq | k link x m g wk Hn w' | link n now pg_now g wk n' w' H
    | link n now pg_now pre job post g wk H | g wk | rows pg_now g wk ps ps' w H | now g wk]; cbn [fst snd].
  - by eapply exchange_step_ok.
  - apply (kept_by_statements _ _ wk); [| apply Hx | done]. apply (inline_statements link n st' e payload (sv_kv g, sv_db g)); [| done].
    by apply (so_worker _ _ (xo_service _ _ Hx)).
  - destruct (task_statements k link x m (mk_process C V (sv_kv g) (sv_db g) wk) Hn (xo_jobs _ _ Hx)) as [Hs Hj].
    by apply (kept_by_statements _ _ wk).
  - pose proof (persist_round_net_spec link now pg_now n (mk_process C V (sv_kv g) (sv_db g) wk)) as Hr. rewrite H in Hr.
    destruct Hr as (_ & _ & Hj & _ & Hd). apply (kept_by_statements _ _ wk); [| rewrite Hj; by apply Forall_drop, Hx | done].
    cbn [snd]. rewrite Hd. destruct (reaches _); [| apply rtc_refl]. apply stmts_persist_batch. by apply Forall_take, Hx.
  - pose proof (xo_jobs _ _ Hx) as Hj. cbn [snd] in Hj. rewrite H in Hj. apply Forall_app in Hj as [H1 [H2 H3]%Forall_cons].
    apply (kept_by_statements _ _ wk); [| by apply Forall_app | done]. cbn [snd]. by apply persist_job_leaves.
  - split; [| done]. split; [apply Hx | constructor].
  - apply (kept_by_statements _ _ wk); [| apply Hx | done]. by eapply start_statements.
  - split; [| done]. split; [| apply Hx]. by split; [apply Hx |].
Qed.

End Outages.

(** ** The gateway's caches catch up *)

Section Healing.
Context `{V : Valkey}.

Lemma update_dom (now : Z) (key val : string) (c : CacheBroadcasts.t) : dom (CacheBroadcasts.update now key val c) = dom c.
Proof. apply dom_alter_L. Qed.

Lemma latest_updated (now : Z) (key key' val : string) (c : CacheBroadcasts.t) :
  key ∈ dom c ->
  CacheBroadcasts.get_latest key (CacheBroadcasts.update now key' val c)
  = if decide (key' = key) then Some val else CacheBroadcasts.get_latest key c.
Proof.
  intros [e He]%elem_of_dom. unfold CacheBroadcasts.get_latest, CacheBroadcasts.update. case_decide as E.
  - subst key'. rewrite lookup_alter_eq, He. cbn. by destruct (_ <=? _).
  - by rewrite lookup_alter_ne.
Qed.

(** What Valkey holds under a key, if it is worth caching. *)
Definition worth (s : store) (key : string) : option string :=
  v ← v_get key s; if worth_caching v then Some v else None.

(** Whatever updates the gateway missed, a round of the fallback poller leaves every
    polled key with the value Valkey holds, and no other key changes. *)
Theorem poll_heals (now : Z) (keys : list string) (s : store) (c : CacheBroadcasts.t) (key : string) :
  key ∈ dom c ->
  CacheBroadcasts.get_latest key (poll now keys s c)
  = if decide (key ∈ keys) then from_option Some (CacheBroadcasts.get_latest key c) (worth s key)
    else CacheBroadcasts.get_latest key c.
Proof.
  unfold poll. set (step := fun c key => _).
  assert (forall k c, step c k = match worth s k with Some v => CacheBroadcasts.update now k v c | None => c end) as Hstep.
  { intros k c0. unfold step, worth. destruct (v_get k s) as [v |]; [| done]. cbn. by destruct (worth_caching v). }
  revert c. induction keys as [| k keys IH]; intros c Hc; [by rewrite decide_False by apply not_elem_of_nil |]. cbn [fold_left].
  rewrite IH by (rewrite Hstep; destruct (worth s k); by rewrite ?update_dom).
  assert (CacheBroadcasts.get_latest key (step c k)
          = if decide (k = key) then from_option Some (CacheBroadcasts.get_latest key c) (worth s key) else CacheBroadcasts.get_latest key c) as ->.
  { rewrite Hstep. destruct (decide (k = key)) as [-> | Hne].
    - destruct (worth s key); [by rewrite latest_updated, decide_True |  done].
    - destruct (worth s k); [by rewrite latest_updated, decide_False | done]. }
  destruct (decide (k = key)) as [-> | Hne].
  - rewrite (decide_True (P := key ∈ key :: keys)) by (by left). case_decide; [| done]. by destruct (worth s key).
  - destruct (decide (key ∈ keys)) as [Hin | Hin]; [by rewrite decide_True by (by right) |].
    rewrite decide_False; [done |]. by intros [-> | ?]%elem_of_cons.
Qed.
End Healing.

Module OutagesExamples.
Import RefCrates RefValkey RefJson RefDb RefAxum MatchLuaExamples OrderFlowExamples CancelExamples RowsExamples SystemExamples.
Import ConsumersExamples RouterExamples.

(** The [k]-th exchange breaks after the server served [s] commands. *)
Definition breaks (k s n : nat) : fate := if Nat.eqb n k then Broken s else Answered.

(** ** An order in the gateway *)

Definition post_broken (k s : nat) := process_order_net (breaks k s) false (fun _ => Sent) state env (message "Buy" "GTC" 101 2) 0%nat (market, empty_db).

(** How many asks are left, and whether the order is recorded. *)
Definition seen (w : @store ref_valkey * @db ref_crates) : nat * option (Q * string) :=
  (base.size (zset (view w.1) (book_key "BTC-USDT" Sell)), shown 1 w.2).

(** Unbroken; broken at the script, unserved and served; broken at the transaction,
    unserved and served. *)
Example order_broken :
  seen (market, empty_db) = (2%nat, None) /\
  seen (left (post_broken 9 0)).1 = (1%nat, Some (0%Q, "Filled")) /\
  seen (left (post_broken 0 0)).1 = (2%nat, None) /\
  seen (left (post_broken 0 1)).1 = (1%nat, None) /\
  seen (left (post_broken 1 0)).1 = (1%nat, None) /\
  seen (left (post_broken 1 1)).1 = (1%nat, Some (0%Q, "Filled")).
Proof. split_and!; vm_compute; reflexivity. Qed.

Lemma failing_order_spec_witness :
  let part := left (post_broken 1 0) in
  part.2 = Err lost /\ seen part.1 = (1%nat, None) /\
  (world_alike part.1 (market, empty_db) \/
   (store_alike part.1.1 (process_order false (fun _ => Sent) state env (message "Buy" "GTC" 101 2) (market, empty_db)).1.1 /\
    (part.1.2 = empty_db \/ part.1.2 = (process_order false (fun _ => Sent) state env (message "Buy" "GTC" 101 2) (market, empty_db)).1.2))).
Proof.
  cbn zeta. split; [vm_compute; reflexivity |]. split; [vm_compute; reflexivity |].
  exact (proj1 (failing_order_spec (breaks 1 0) false (fun _ => Sent) state env (message "Buy" "GTC" 101 2) 0%nat (market, empty_db))).
Defined.

(** The same order sent to the gateway: inline it is accepted whatever happens; queued,
    the client hears of an error although the message is in the queue. *)
Definition sent_to (mode : DispatchMode) (k s : nat) :=
  create_order_net (breaks k s) false (fun _ => Sent) mode state (1%positive : @uuid ref_crates) (0 : @datetime ref_crates) env
    GatewayExamples.request 0%nat (market, empty_db).

Definition queued_in (w : @store ref_valkey * @db ref_crates) : nat := length (lst (view w.1) "queue:orders:BTC-USDT").

Example replies :
  (fun k => Response.status (sent_to Inline k 0).2) <$> [0; 1; 2]%nat = [201; 201; 201] /\
  Response.status (sent_to Queue 0 1).2 = 500 /\ queued_in (sent_to Queue 0 1).1.2 = 1%nat /\
  Response.status (sent_to Queue 0 0).2 = 500 /\ queued_in (sent_to Queue 0 0).1.2 = 0%nat.
Proof. split_and!; vm_compute; reflexivity. Qed.

Lemma reply_means_witness : Response.status (sent_to Queue 0 1).2 = 500.
Proof.
  pose proof (reply_means (breaks 0 1) false (fun _ => Sent) Queue state (1%positive : @uuid ref_crates) (0 : @datetime ref_crates) env
    GatewayExamples.request 0%nat (market, empty_db)) as H.
  unfold sent_to. destruct (create_order_net _ _ _ _ _ _ _ _ _ _ _) as [[n' w'] r].
  destruct (proj2 H eq_refl) as ([Hs _] & H5 & _). apply H5. intros E. specialize (Hs E). discriminate.
Defined.

(** ** Persisting *)

Definition at_zero (n : nat) : @datetime ref_crates * @datetime ref_crates := (0, 0).

Definition rows_after (link : nat -> fate) : nat * nat :=
  let w := (persist_rounds_net link 2 0%nat at_zero sixty_jobs).2 in
  (length (wk_persist (p_worker w)), base.size (orders (p_db w))).

(** The channel is empty and the orders are nowhere when no batch arrives. *)
Example batches_lost :
  rows_after no_failures = (0%nat, 1%nat) /\ rows_after (breaks 0 0) = (0%nat, 1%nat) /\ rows_after (fun _ => Broken 0) = (0%nat, 0%nat).
Proof. split_and!; vm_compute; reflexivity. Qed.

Lemma persist_worker_survives_witness :
  wk_persist (p_worker (persist_rounds_net (breaks 0 0) 2 0 at_zero sixty_jobs).2) = [].
Proof.
  pose proof (persist_worker_survives (breaks 0 0) 2 0 at_zero sixty_jobs ltac:(cbn; lia)) as H.
  destruct (persist_rounds_net _ _ _ _ _) as [n' w']. exact (proj1 H).
Defined.

(** ** The consumer *)

(** The second pop takes a message and its answer is lost; then the process dies with
    the first message in its hands. *)
Definition unlucky : list failing_event := [Works Brpop; PopFails 1; Works Spawn; Dies].

Definition unlucky_run := failing_run state Orders (Some "BTC-USDT") unlucky (failing_start two_queued).

Example both_lost :
  (fun c => (length (fl_lost c), length (waiting Orders (Some "BTC-USDT") (Consumer.world (fl_consumer c))))) <$> unlucky_run = Some (2%nat, 0%nat).
Proof. vm_compute. reflexivity. Qed.

Lemma consumer_at_most_once_witness :
  exists c, unlucky_run = Some c /\ placed Orders (Some "BTC-USDT") (waiting Orders (Some "BTC-USDT") two_queued) c.
Proof.
  assert (match unlucky_run with Some _ => true | None => false end = true) as E by (vm_compute; reflexivity).
  destruct unlucky_run as [c |] eqn:Er; [| discriminate].
  exists c. exact (conj eq_refl (proj1 (consumer_at_most_once state Orders (Some "BTC-USDT") two_queued unlucky c any_input Er))).
Defined.

(** ** A cancellation *)

Definition alice_order : @uuid ref_crates := 7%positive.

Definition cancel_broken (k s : nat) := left (cancel_one_net (breaks k s) at0 at0 alice_order "alice" 0%nat usdt_bid).

(** The status of the order, and what alice has available and locked. *)
Definition account (c : @cstate ref_crates ref_valkey) : option string * bool * bool :=
  (OrderRow.status <$> orders (cs_db c) !! alice_order,
   Qeq_bool (balance (cs_db c) ("alice", "USDT")).1 20, Qeq_bool (balance (cs_db c) ("alice", "USDT")).2 20).

Example cancellation_broken :
  account (cancel_broken 9 0).1 = (Some "Cancelled", true, false) /\
  account (cancel_broken 2 0).1 = (Some "New", false, true) /\
  account (cancel_broken 3 0).1 = (Some "Cancelled", false, true).
Proof. split_and!; vm_compute; reflexivity. Qed.

Lemma failing_cancellation_witness :
  account (left (cancel_one_net no_failures at0 at0 alice_order "alice" 0%nat (cancel_broken 3 0).1)).1 = (Some "Cancelled", false, true).
Proof.
  rewrite (proj2 (failing_cancellation at0 at0 alice_order "alice" (breaks 3 0) 0%nat usdt_bid (bid "BTC-USDT") eq_refl (or_introl eq_refl))).
  - vm_compute. reflexivity.
  - intros E. apply (f_equal (fun d => OrderRow.status <$> orders d !! alice_order)) in E. vm_compute in E. discriminate.
Defined.

(** ** The exchange *)

Abbreviation outage := (outage_step two false (fun _ => Sent) Inline [] (fun _ => []) decimal_text (fun d => Ok d)
  (fun _ d => Ok (d, 0)) (fun _ d => Ok (d, [])) state).

(** The order is matched and its row lost, then recorded, then the worker dies. *)
Definition half_done : @service ref_crates ref_valkey := set_world (left (post_broken 1 0)).1 opened.

Lemma message_named (o : @Order.t ref_crates) :
  read_order env (message "Buy" "GTC" 101 2) = Ok o -> (dval (Order.quantity o) == two (Order.id o))%Q.
Proof. rewrite read_buy. intros H. apply (inj Ok) in H as <-. reflexivity. Qed.

Lemma outage_run : rtc outage (opened, idle) (half_done, fresh_worker).
Proof.
  eapply rtc_l; [exact (out_inline two false (fun _ => Sent) Inline [] (fun _ => []) decimal_text (fun d => Ok d)
    (fun _ d => Ok (d, 0)) (fun _ d => Ok (d, [])) state (breaks 1 0) 0 state env (message "Buy" "GTC" 101 2) opened idle eq_refl message_named) |].
  apply rtc_once, out_worker_dies.
Qed.


Lemma poll_heals_witness :
  CacheBroadcasts.get_latest "cache:pairs" (poll 5 cache_keys (v_set "cache:pairs" "p" empty_store) (new_broadcasts 0)) = Some "p".
Proof. rewrite poll_heals; [vm_compute; reflexivity | apply elem_of_dom; by eexists]. Defined.
End OutagesExamples.
